(* ===== verification/_CoqProject ===== *)
-Q . S2P
Prelude.v
RustStr.v
RustFloat.v
FloatError.v
Samples.v
Performance.v
Params.v
UrlOptions.v
Geometry.v
Raster.v
Presets.v
UrlSource.v
UrlGrammar.v
CacheKey.v
KeyValidation.v
SourceGuard.v
AvifMeta.v
Negotiation.v
Access.v
Errors.v
Storage.v
LocalFs.v
S3Storage.v
StorageSelect.v
HttpCache.v
Fetch.v
Encoding.v
Webp.v
Sniff.v
Images.v
Codecs.v
Pipeline.v
ResizeApi.v
Service.v
Workers.v
Buffered.v
SingleFlight.v
Batch.v
AsmBench.v
CodecReport.v
Router.v
Flight.v
Shutdown.v
Tracing.v
Startup.v
Healthcheck.v
Benchmark.v
