(* ===== verification/Prelude.v ===== *)
(** * An image resizing service, verified

The program ([src/src]) is an HTTP service in Rust.  A signed URL names a
source image and processing options; the service fetches the source, resizes
it, stores the result under a key that is a hash of the request, and redirects
to it.  A second, unsigned route serves what is stored.  This library models
that program file by file and proves what makes each part, and their
composition, correct.  Paths below are under [src/src].

** How a request flows, and where it is modelled

- [modules/url/*.rs], [models/params.rs] - the URL grammar.  [Params.v] has the
  data types of a request with their texts, [UrlOptions.v] the option codes and
  their argument parsers, [Presets.v] presets and the option allowlist,
  [UrlSource.v] the source segment, [UrlGrammar.v] the splitting, the expansion
  and the conversion to a [ResizeQuery].
- [modules/signing/*.rs], [modules/metrics_auth/*.rs] - [Access.v]: startup
  configuration, signature verification, the bearer token of [/metrics].
- [modules/negotiation.rs] - [Negotiation.v]: the format of an [.auto] request.
- [services/cache/handler.rs], [services/storage/key_validation.rs] -
  [CacheKey.v], the hashed byte stream and the key; [KeyValidation.v], the check
  every storage call makes.
- [services/resize/handler.rs] - [SingleFlight.v]: concurrent requests as a step
  relation ([State], [Event], [step]); the map of requests in flight, the guard
  of the leader, followers, cancellation.  [ResizeApi.v] has the same functions
  as one request runs them, with [modules/api/{handler,resize}.rs] around them:
  [create], [handle], [resize_handler]; [Flight.v] shows that it is a run of
  the former.
- [services/image/source_guard.rs] and the network half of
  [services/image/handler.rs] - [SourceGuard.v], the policy on addresses, with
  [std::net]'s text parser; [Fetch.v], pinned connections, redirects, the size
  cap, watermark downloads.
- the rest of [services/image/handler.rs] - [Geometry.v], the arithmetic of
  sizes and rectangles; [Raster.v], pixel loops; [Images.v], the stages on an
  image; [Sniff.v], format detection and decode limits; [Encoding.v], the byte
  budget and the EXIF patch; [Webp.v], the animated container; [Codecs.v], the
  decoders and encoders (with [services/image/avif_codec.rs]); [Pipeline.v],
  their composition from bytes to bytes; [Service.v], the pipeline and the
  downloads as the service deploys them; [Workers.v], concurrent calls over its
  two semaphores, each fetch meeting a network of its own, and the closures of
  the blocking pool, which outlive a caller that goes away.
- [services/image/avif_meta.rs] - [AvifMeta.v]: the ISOBMFF box walk.
- [services/storage/*.rs] - [Storage.v], the trait as operations
  ([StorageBackend]) with laws ([StorageContract]), [StorageService] over them
  and the in-memory backend.  Of an environment the laws know whether it is
  [calm] - no call fails in it - and whether it is [honest] - no failure goes
  unreported, as a lost expiry marker of [LocalFs.v] does; [LocalFs.v] and [S3Storage.v], the other backends;
  [StorageSelect.v], the choice between them.
- [modules/api/download.rs], [modules/router/middlewares.rs],
  [modules/utils/{etag,date}.rs] - [HttpCache.v]: downloads, conditional
  requests, load shedding.  [modules/router/router.rs] - [Router.v]: the
  endpoints and the layers around them, in their order.
- [modules/utils/err.rs] - [Errors.v]; [config/performance.rs] and
  [modules/utils/cgroup.rs] - [Performance.v]; [main.rs] - [Startup.v], the
  steps of startup over what the host answers ([World]) and their effects in
  order, with [modules/utils/crypto.rs], and [Shutdown.v], the signals and the
  drain; [modules/tracer/init.rs] - [Tracing.v]; [bin/healthcheck.rs] - [Healthcheck.v].
- [services/resize/handler.rs], [resize_batch] - [Batch.v]: a batch over the
  requests in flight of [SingleFlight.v], on the stream of [Buffered.v] (the
  behaviour documented of [buffer_unordered], as a step relation).
- the measuring programs beside the service, the paths of the last three from
  [src] - [Benchmark.v] ([bin/benchmark.rs] with [benches/fixtures.rs]), the
  load generator from its configuration to its report, on [Buffered.v] too;
  [AsmBench.v] ([tools/avif-asm-bench]), two decoder programs and the
  orchestrator that reads what they print; [CodecReport.v]
  ([examples/codec_report.rs]), the quality search and its two phases over a
  directory of files.  [Samples.v] has the statistics they share: sums,
  sorting and durations in [f64].
- [RustStr.v], [RustFloat.v], [FloatError.v] - what of Rust's standard library
  the code uses: strings and their splitting, trimming and parsing, UTF-8,
  [f32]/[f64] with their text, and bounds on rounding.  This file has results,
  machine integers, bytes, record update and the library's automation.

** Conventions

A fallible function returns [result E A], whose bind is the [?] operator.
Integers are [Z] with the width written where it matters; a [&str] is a
[string] read as UTF-8, a byte slice a [list byte]; floats are [SpecFloat]'s.
Logging is left out.  A stateful component threads its state; what it meets
outside - the clock, the network, failing system calls - is an environment it
is given, so that theorems quantify over every answer.

Third-party crates are parameters: SHA-256 and HMAC, base64 and percent
decoding, the [url] and [ipnet] crates, DNS, the S3 SDK, the image crates.  The
laws assumed of them are named ([ImageLaws], [LayerLaws], the equations on
[v4net_contains], the hash length, ...) and every theorem that uses one has a witness in which
concrete functions satisfy it.

** What the theorems show

- Identity of requests: two requests share a key only if they are the same
  request, or exhibit a collision of SHA-256 ([CacheKey.v]); every accepted URL
  gives a query in range and past the guards of the options, presets mean their expansion, and the allowlist holds
  of every segment a request carries ([UrlGrammar.v]); texts read back
  ([RustFloat.v], [UrlSource.v]).
- Concurrency: at most one leader per key in every reachable state, nobody is
  left waiting however a leader ends, runs terminate, and a returned URL has
  its image stored ([SingleFlight.v]); permits are accounted for
  ([HttpCache.v]), also those of downloads and of processing, whoever goes away,
  and concurrent calls return what they return alone ([Workers.v]); shutdown drains, within its deadline ([Shutdown.v]).
- The endpoint: a redirect is given only to an admitted request for an image
  that is there or was stored, whatever calls of the storage failed, and can be
  followed to its image, with the type its format asks for ([ResizeApi.v]),
  through every layer of the stack, up to the bytes the client has once it
  undid the compression ([Router.v]); every stored image passed
  every check on its way, and what fails is answered with the status of its
  cause ([Service.v]).
- The process: it serves only fully configured and otherwise says why
  ([Startup.v]); it leaves only drained or late ([Shutdown.v]).
- Batches: bounded width, one result for each query, and an end ([Batch.v]).
- The measuring programs: reports count exactly what was measured
  ([Benchmark.v]), what one program prints the other reads ([AsmBench.v]), the
  quality search is exact ([CodecReport.v]).
- Storage: the laws of the trait, for the in-memory and the file-system
  backend, which refines it call by call ([LocalFs.v]); what was stored is
  served until it expires ([Storage.v]).
- Security: connections only to checked addresses, on every redirect
  ([Fetch.v]); the address policy is its documented classification and no
  spelling of a blocked address gets through ([SourceGuard.v]); signatures and
  tokens ([Access.v]); keys never leave the base directory ([LocalFs.v]).
- Images: output limits cover what they check, fits are exact in floating
  point, shrink-on-load never goes below the target ([Geometry.v]); no stage
  enlarges unasked ([Images.v]), nor does the pipeline ([Pipeline.v]); compositing and trimming are their pointwise descriptions
  ([Raster.v]); what reaches an encoder fits it, extend is exact, animations
  keep their frames and delays ([Pipeline.v]); containers and metadata
  ([Webp.v], [AvifMeta.v], [Encoding.v]).

** Bounds and fuel

Loops that are not structural carry fuel: the box walks of [AvifMeta.v] run on
the length of their input, and the visit budget of the code is a separate
counter; the redirect loop of [Fetch.v] on [max_redirects + 1], which is the
range of the code's [for]; the quality search of the service on the code's own
bound of attempts, that of the report on eight rounds for a hundred qualities
([lowest_quality_found] shows that they suffice); splitting and trimming on the length of the text.  Every round of
such a loop consumes input or budget, so the fuel is never what stops it
([walk_loop_step] and the lemmas that relate each loop to its description).

** Not modelled

Matching paths against patterns, the rate limiter's counting and the pruning
of its table, compression and CORS are their libraries' ([Router.v] has them as
parameters); the rendering of [/metrics] has no logic of its own, nor have the
criterion benches.  What the measuring
programs print for a reader, and the pixels of the benchmark's fixtures, are
left out; building the S3 client is its SDK's, all but the panic without a TLS
provider ([Startup.v]).  Pixels inside the crates - decoding,
resampling kernels, blurring, entropy coding - are their parameters' business;
their time and memory are not modelled. *)
From Stdlib Require Export ZArith Lia Bool String Ascii.
From Stdlib Require Export Strings.Byte.
From stdpp Require Export base tactics decidable option list gmap strings.

#[global] Arguments String.append !_ _ / : simpl nomatch.

(** ** Results

Rust's [Result<A, E>]; the error type comes first so that [result E] is a
monad in stdpp's sense and [x ← e; k] is the source's [?] operator. *)
Inductive result (E A : Type) : Type :=
  | Ok (a : A)
  | Err (e : E).
Arguments Ok {E A} a.
Arguments Err {E A} e.

#[export] Instance result_ret {E} : MRet (result E) := fun _ a => Ok a.

#[export] Instance result_bind {E} : MBind (result E) := fun _ _ f r =>
  match r with
  | Ok a => f a
  | Err e => Err e
  end.

#[export] Instance result_fmap {E} : FMap (result E) := fun _ _ f r =>
  match r with
  | Ok a => Ok (f a)
  | Err e => Err e
  end.

(** [Option::ok_or]. *)
Definition ok_or {E A} (o : option A) (e : E) : result E A :=
  match o with
  | Some a => Ok a
  | None => Err e
  end.

(** [Result::map_err]. *)
Definition map_err {E F A} (f : E → F) (r : result E A) : result F A :=
  match r with
  | Ok a => Ok a
  | Err e => Err (f e)
  end.

(** [Result::ok]. *)
Definition ok {E A} (r : result E A) : option A :=
  match r with
  | Ok a => Some a
  | Err _ => None
  end.

Definition is_Ok {E A} (r : result E A) : bool :=
  match r with
  | Ok _ => true
  | Err _ => false
  end.

Lemma bind_Ok {E A B} (f : A → result E B) (r : result E A) (b : B) :
  (r ≫= f) = Ok b ↔ ∃ a, r = Ok a ∧ f a = Ok b.
Proof.
  destruct r as [a|e]; simpl; split.
  - intros H; by exists a.
  - by intros (? & [= ->] & ?).
  - discriminate.
  - by intros (? & ? & ?).
Qed.

Lemma bind_Err {E A B} (f : A → result E B) (r : result E A) (e : E) :
  (r ≫= f) = Err e ↔ r = Err e ∨ ∃ a, r = Ok a ∧ f a = Err e.
Proof.
  destruct r as [a|e']; simpl; split.
  - intros H; right; by exists a.
  - intros [?|(? & [= ->] & ?)]; done.
  - intros [= ->]; by left.
  - intros [[= ->]|(? & ? & ?)]; done.
Qed.

Lemma fmap_Ok {E A B} (f : A → B) (r : result E A) (b : B) :
  (f <$> r) = Ok b ↔ ∃ a, r = Ok a ∧ f a = b.
Proof.
  destruct r as [a|e]; simpl; split.
  - intros [= <-]; by exists a.
  - by intros (? & [= ->] & <-).
  - discriminate.
  - by intros (? & ? & ?).
Qed.

Lemma ok_or_Ok {E A} (o : option A) (e : E) (a : A) :
  ok_or o e = Ok a ↔ o = Some a.
Proof. destruct o; simpl; split; congruence. Qed.

Lemma map_err_Ok {E F A} (f : E → F) (r : result E A) (a : A) :
  map_err f r = Ok a ↔ r = Ok a.
Proof. destruct r; simpl; split; congruence. Qed.

(** ** Machine integers

An integer of the source is a [Z] inside its type's range; [u8] to [u64]
and [usize] (64 bits here) are [in_uint] of their width. *)
Definition u8_max : Z := 255.
Definition u16_max : Z := 65535.
Definition u32_max : Z := 4294967295.
Definition u64_max : Z := 18446744073709551615.
Definition usize_max : Z := u64_max.

Definition in_uint (max n : Z) : Prop := (0 ≤ n ≤ max)%Z.

(** [checked_add] on an unsigned type. *)
Definition checked_add (max a b : Z) : option Z :=
  if (a + b <=? max)%Z then Some (a + b)%Z else None.

Lemma checked_add_Some max a b c :
  checked_add max a b = Some c ↔ c = (a + b)%Z ∧ (a + b ≤ max)%Z.
Proof.
  unfold checked_add. destruct (Z.leb_spec (a + b) max); split; intros;
    destruct_and?; simplify_eq; (done || lia).
Qed.

(** A value below [2 ^ n] or-ed under a shifted one is a sum. *)
Lemma lor_shiftl_add a b n :
  (0 ≤ n)%Z → (0 ≤ b < 2 ^ n)%Z → Z.lor (Z.shiftl a n) b = (a * 2 ^ n + b)%Z.
Proof.
  intros Hn Hb. assert (Z.land (Z.shiftl a n) b = 0)%Z as Hland.
  { apply Z.bits_inj'. intros i Hi. rewrite Z.land_spec, Z.bits_0, Z.shiftl_spec by done.
    destruct (Z.lt_ge_cases i n) as [Hin|Hin].
    - by rewrite Z.testbit_neg_r by lia.
    - rewrite (proj1 (Z.bounded_iff_bits_nonneg n b ltac:(lia) ltac:(lia)) ltac:(lia) i Hin)
        || (rewrite <- (Z.mod_small b (2 ^ n)) by lia; rewrite Z.mod_pow2_bits_high by lia).
      by rewrite andb_false_r. }
  rewrite <- Z.shiftl_mul_pow2 by done.
  by rewrite Z.add_nocarry_lxor, Z.lxor_lor by done.
Qed.

Lemma lor_add k n x b :
  (0 ≤ n)%Z → x = (k * 2 ^ n)%Z → (0 ≤ b < 2 ^ n)%Z → Z.lor x b = (x + b)%Z.
Proof. intros Hn -> Hb. rewrite <- Z.shiftl_mul_pow2 at 1 by done. by apply lor_shiftl_add. Qed.

(** ** Byte strings *)

Definition byte_val (b : byte) : Z := Z.of_N (Byte.to_N b).

Definition byte_of_val (z : Z) : byte :=
  match Byte.of_N (Z.to_N (z mod 256)) with
  | Some b => b
  | None => x00
  end.

Lemma byte_val_range b : (0 ≤ byte_val b < 256)%Z.
Proof.
  unfold byte_val. pose proof (Byte.to_N_bounded b). lia.
Qed.

Lemma byte_of_byte_val b : byte_of_val (byte_val b) = b.
Proof.
  unfold byte_of_val. rewrite Z.mod_small by apply byte_val_range.
  unfold byte_val. by rewrite N2Z.id, Byte.of_to_N.
Qed.

Lemma byte_val_of_val z : (0 ≤ z < 256)%Z → byte_val (byte_of_val z) = z.
Proof.
  intros Hz. unfold byte_of_val. rewrite Z.mod_small by done.
  destruct (Byte.of_N (Z.to_N z)) as [b|] eqn:Hb.
  - apply Byte.to_of_N in Hb. unfold byte_val. rewrite Hb. lia.
  - apply Byte.of_N_None_iff in Hb. lia.
Qed.

Lemma byte_val_inj a b : byte_val a = byte_val b → a = b.
Proof.
  intros H. by rewrite <- (byte_of_byte_val a), <- (byte_of_byte_val b), H.
Qed.

#[export] Instance byte_eq_dec : EqDecision byte.
Proof. exact Byte.byte_eq_dec. Defined.

Lemma list_byte_of_string_inj s t :
  list_byte_of_string s = list_byte_of_string t → s = t.
Proof.
  intros H.
  rewrite <- (string_of_list_byte_of_string s),
    <- (string_of_list_byte_of_string t). by rewrite H.
Qed.

(** ** Lists *)

Lemma sum_alter {A} (f : A → nat) (g : A → A) (l : list A) i x :
  l !! i = Some x → sum_list_with f (alter g i l) + f x = sum_list_with f l + f (g x).
Proof.
  revert i. induction l as [|y l IH]; intros [|i] H; simpl in *; try done.
  - injection H as ->. lia.
  - specialize (IH i H). unfold alter in IH. lia.
Qed.

Lemma sum_list_with_zero {A} (f : A → nat) l :
  sum_list_with f l = 0 ↔ ∀ i x, l !! i = Some x → f x = 0.
Proof.
  induction l as [|y l IH]; simpl; [done|]. split.
  - intros Hz [|i] x Hx; simpl in Hx; [injection Hx as <-; lia|]. by eapply IH; [lia|].
  - intros Hall. rewrite (proj2 IH); [|intros i; apply (Hall (S i))]. by rewrite (Hall 0 y).
Qed.

Lemma sum_list_with_pos {A} (f : A → nat) l :
  0 < sum_list_with f l → ∃ i x, l !! i = Some x ∧ 0 < f x.
Proof.
  induction l as [|y l IH]; simpl; [lia|]. intros Hs. destruct (decide (0 < f y)) as [Hy|Hy]; [by exists 0, y|].
  destruct IH as (i & x & Hx & Hf); [lia|]. by exists (S i), x.
Qed.

Lemma alter_all {A} (P : nat → A → Prop) (f : A → A) (l : list A) i x :
  (∀ j y, l !! j = Some y → P j y) → l !! i = Some x → P i (f x) → ∀ j y, alter f i l !! j = Some y → P j y.
Proof.
  intros Hall Hx Hf j y. rewrite list_lookup_alter. destruct (decide (i = j)) as [->|]; [|apply Hall].
  rewrite Hx. by intros [= <-].
Qed.

(** ** Record update

[r <| f := v |>] is the record [r] with its field [f] replaced.  A record
type gives its eta-expansion once ([Eta]); the update of a field is found
by abstracting that field's projection from it. *)
Class Eta (R : Type) := eta : R → R.
Class FieldUpdate {R T : Type} (proj : R → T) := field_update : (T → T) → R → R.
Arguments field_update {R T} proj {_} _ !_ /.

Ltac derive_field_update proj :=
  match goal with
  | |- @FieldUpdate ?R ?T _ =>
      let inst := constr:(_ : Eta R) in
      let inst := eval hnf in inst in
      match eval pattern proj in inst with
      | ?rebuild _ =>
          let f := constr:(λ (u : T → T), rebuild (λ r : R, u (proj r))) in
          let f := eval cbv beta in f in
          exact f
      end
  end.

#[export] Hint Extern 1 (FieldUpdate ?proj) => derive_field_update proj : typeclass_instances.

Declare Scope record_update_scope.
Notation "r <| f := v |>" := (field_update f (λ _, v) r)
  (at level 1, left associativity,
   format "r  <| f  :=  v |>") : record_update_scope.
Open Scope record_update_scope.

(** ** Automation *)

(** Hypotheses that say a monadic computation succeeded are taken apart
    into the success of each of its steps. *)
Ltac invert_ok :=
  repeat match goal with
  | H : mbind _ _ = Ok _ |- _ => apply bind_Ok in H as (? & ? & ?)
  | H : fmap _ _ = Ok _ |- _ => apply fmap_Ok in H as (? & ? & ?)
  | H : mret _ = Ok _ |- _ => injection H as ?
  | H : Ok _ = Ok _ |- _ => injection H as ?
  | H : ok_or _ _ = Ok _ |- _ => apply ok_or_Ok in H
  | H : map_err _ _ = Ok _ |- _ => apply map_err_Ok in H
  | H : Err _ = Ok _ |- _ => discriminate H
  | H : Ok _ = Err _ |- _ => discriminate H
  end.

(** Case analysis on every [match] and [if] scrutinee of the goal. *)
Ltac cases := repeat (case_match; simplify_eq/=; try done).

Create HintDb emgr discriminated.
#[export] Hint Resolve byte_val_range list_byte_of_string_inj : emgr.
