(* ===== verification/RustStr.v ===== *)
(** * Rust's string and integer-text operations

[str] values are Rocq [string]s read as their UTF-8 bytes.  This file
defines the operations of Rust's standard library that the program uses on
them (splitting, prefixes, trimming, integer parsing and printing) and the
lemmas the components share: splitting and joining are inverse, and
printing then parsing an integer gives it back. *)
From S2P Require Import Prelude.

Local Open Scope Z_scope.

(** ** Characters *)

Definition code (a : ascii) : Z := Z.of_N (N_of_ascii a).

Definition chr (z : Z) : ascii := ascii_of_N (Z.to_N z).

Definition is_ascii_digit (a : ascii) : bool :=
  (48 <=? code a) && (code a <=? 57).

(** [char::to_digit], for radix up to 16. *)
Definition to_digit (radix : Z) (a : ascii) : option Z :=
  let c := code a in
  let d := if (48 <=? c) && (c <=? 57) then Some (c - 48)
           else if (97 <=? c) && (c <=? 102) then Some (c - 87)
           else if (65 <=? c) && (c <=? 70) then Some (c - 55)
           else None in
  match d with
  | Some v => if v <? radix then Some v else None
  | None => None
  end.

Definition is_ascii_hexdigit (a : ascii) : bool :=
  match to_digit 16 a with Some _ => true | None => false end.

Definition ascii_to_lower (a : ascii) : ascii :=
  let c := code a in
  if (65 <=? c) && (c <=? 90) then chr (c + 32) else a.

Definition quote_char : ascii := chr 34.

Lemma code_range a : 0 ≤ code a < 256.
Proof. unfold code. pose proof (N_ascii_bounded a). lia. Qed.

Lemma code_chr z : 0 ≤ z < 256 → code (chr z) = z.
Proof.
  intros Hz. unfold code, chr. rewrite N_ascii_embedding by lia. lia.
Qed.

Lemma code_inj a b : code a = code b → a = b.
Proof.
  unfold code. intros H.
  rewrite <- (ascii_N_embedding a), <- (ascii_N_embedding b). f_equal. lia.
Qed.

(** ** Strings as sequences of bytes *)

Fixpoint str_forall (p : ascii → bool) (s : string) : bool :=
  match s with
  | EmptyString => true
  | String a s' => p a && str_forall p s'
  end.

Fixpoint str_exists (p : ascii → bool) (s : string) : bool :=
  match s with
  | EmptyString => false
  | String a s' => p a || str_exists p s'
  end.

Definition str_contains (c : ascii) (s : string) : bool :=
  str_exists (Ascii.eqb c) s.

Definition str_is_empty (s : string) : bool :=
  match s with EmptyString => true | _ => false end.

Definition str_len (s : string) : Z := Z.of_nat (String.length s).

Fixpoint str_map (f : ascii → ascii) (s : string) : string :=
  match s with
  | EmptyString => EmptyString
  | String a s' => String (f a) (str_map f s')
  end.

Definition to_ascii_lowercase (s : string) : string := str_map ascii_to_lower s.

(** [s.filter(|s| !s.is_empty())] on an optional argument. *)
Definition non_empty (o : option string) : option string :=
  match o with
  | Some EmptyString => None
  | _ => o
  end.

Fixpoint strip_prefix (p s : string) : option string :=
  match p, s with
  | EmptyString, _ => Some s
  | String a p', String b s' => if Ascii.eqb a b then strip_prefix p' s' else None
  | String _ _, EmptyString => None
  end.

Definition starts_with (p s : string) : bool :=
  match strip_prefix p s with Some _ => true | None => false end.

(** [str::split(char)]: never empty, the separators removed. *)
Fixpoint split_on (c : ascii) (s : string) : list string :=
  match s with
  | EmptyString => [EmptyString]
  | String a s' =>
      if Ascii.eqb a c then EmptyString :: split_on c s'
      else match split_on c s' with
           | [] => []
           | x :: xs => String a x :: xs
           end
  end.

(** [<[&str]>::join(sep)] for a one-character separator. *)
Fixpoint join (c : ascii) (l : list string) : string :=
  match l with
  | [] => EmptyString
  | [x] => x
  | x :: xs => x +:+ String c (join c xs)
  end.

(** [str::split_once(char)]: around the first separator. *)
Fixpoint split_once (c : ascii) (s : string) : option (string * string) :=
  match s with
  | EmptyString => None
  | String a s' =>
      if Ascii.eqb a c then Some (EmptyString, s')
      else match split_once c s' with
           | Some (x, y) => Some (String a x, y)
           | None => None
           end
  end.

(** [str::rsplit_once(char)]: around the last separator. *)
Fixpoint rsplit_once (c : ascii) (s : string) : option (string * string) :=
  match s with
  | EmptyString => None
  | String a s' =>
      match rsplit_once c s' with
      | Some (x, y) => Some (String a x, y)
      | None => if Ascii.eqb a c then Some (EmptyString, s') else None
      end
  end.

(** ** Whitespace trimming

[str::trim] removes the code points with Unicode's White_Space property;
[ws_prefix] strips the UTF-8 encoding of one of them from the front. *)
Definition ws1 (c : Z) : bool := ((9 <=? c) && (c <=? 13)) || (c =? 32).

Definition ws2 (a b : Z) : bool := (a =? 194) && ((b =? 133) || (b =? 160)).

Definition ws3 (a b c : Z) : bool :=
  ((a =? 225) && (b =? 154) && (c =? 128))
  || ((a =? 226) && (b =? 128)
      && (((128 <=? c) && (c <=? 138)) || (c =? 168) || (c =? 169) || (c =? 175)))
  || ((a =? 226) && (b =? 129) && (c =? 159))
  || ((a =? 227) && (b =? 128) && (c =? 128)).

Definition ws_prefix (s : string) : option string :=
  match s with
  | String a s1 =>
      if ws1 (code a) then Some s1
      else match s1 with
           | String b s2 =>
               if ws2 (code a) (code b) then Some s2
               else match s2 with
                    | String c s3 =>
                        if ws3 (code a) (code b) (code c) then Some s3 else None
                    | EmptyString => None
                    end
           | EmptyString => None
           end
  | EmptyString => None
  end.

(** The same code points read from the end, on the reversed string. *)
Definition ws_suffix_rev (s : string) : option string :=
  match s with
  | String a s1 =>
      if ws1 (code a) then Some s1
      else match s1 with
           | String b s2 =>
               if ws2 (code b) (code a) then Some s2
               else match s2 with
                    | String c s3 =>
                        if ws3 (code c) (code b) (code a) then Some s3 else None
                    | EmptyString => None
                    end
           | EmptyString => None
           end
  | EmptyString => None
  end.

Fixpoint strip_while (step : string → option string) (fuel : nat) (s : string) : string :=
  match fuel with
  | O => s
  | S fuel' =>
      match step s with
      | Some s' => strip_while step fuel' s'
      | None => s
      end
  end.

Fixpoint str_rev_app (s acc : string) : string :=
  match s with
  | EmptyString => acc
  | String a s' => str_rev_app s' (String a acc)
  end.

Definition str_rev (s : string) : string := str_rev_app s EmptyString.

Definition trim_start (s : string) : string :=
  strip_while ws_prefix (String.length s) s.

Definition trim_end (s : string) : string :=
  str_rev (strip_while ws_suffix_rev (String.length s) (str_rev s)).

Definition trim (s : string) : string := trim_end (trim_start s).

(** [str::split_whitespace]: the maximal runs of other characters. *)
Fixpoint split_words (fuel : nat) (word_rev s : string) : list string :=
  let flush := match word_rev with EmptyString => [] | _ => [str_rev word_rev] end in
  match fuel with
  | O => flush
  | S fuel' =>
      match ws_prefix s with
      | Some rest => flush ++ split_words fuel' EmptyString rest
      | None =>
          match s with
          | EmptyString => flush
          | String a rest => split_words fuel' (String a word_rev) rest
          end
      end
  end.

Definition split_whitespace (s : string) : list string :=
  split_words (S (String.length s)) EmptyString s.

(** ** Integers as text *)

(** The value of a digit string in [radix], [None] on a foreign character. *)
Fixpoint digits_value (radix acc : Z) (s : string) : option Z :=
  match s with
  | EmptyString => Some acc
  | String a s' =>
      match to_digit radix a with
      | Some d => digits_value radix (acc * radix + d) s'
      | None => None
      end
  end.

(** [uN::from_str_radix]: an optional [+], at least one digit, no overflow. *)
Definition parse_uint_radix (max radix : Z) (s : string) : option Z :=
  let digits := match s with
                | String "+"%char (String _ _ as s') => s'
                | _ => s
                end in
  match digits with
  | EmptyString => None
  | _ => match digits_value radix 0 digits with
         | Some v => if v <=? max then Some v else None
         | None => None
         end
  end.

(** [uN::from_str]. *)
Definition parse_uint (max : Z) (s : string) : option Z := parse_uint_radix max 10 s.

Definition parse_u8 := parse_uint u8_max.
Definition parse_u32 := parse_uint u32_max.
Definition parse_u64 := parse_uint u64_max.

(** [iN::from_str] for the [bits]-bit signed type. *)
Definition parse_int (bits : Z) (s : string) : option Z :=
  let body := match s with
              | String "+"%char (String _ _ as s') => (false, s')
              | String "-"%char (String _ _ as s') => (true, s')
              | _ => (false, s)
              end in
  match body with
  | (_, EmptyString) => None
  | (neg, digits) =>
      match digits_value 10 0 digits with
      | Some v =>
          if neg then (if v <=? 2 ^ (bits - 1) then Some (- v) else None)
          else (if v <? 2 ^ (bits - 1) then Some v else None)
      | None => None
      end
  end.

Definition parse_i32 := parse_int 32.
Definition parse_i64 := parse_int 64.

Definition digit_char (d : Z) : ascii := chr (48 + d).

(** Decimal digits, most significant first, in front of [acc]. *)
Fixpoint dec_digits (fuel : nat) (n : Z) (acc : string) : string :=
  let acc' := String (digit_char (n mod 10)) acc in
  match fuel with
  | O => acc'
  | S fuel' => if n <? 10 then acc' else dec_digits fuel' (n / 10) acc'
  end.

(** [uN::to_string]. *)
Definition uint_to_string (n : Z) : string :=
  dec_digits (Z.to_nat (Z.log2 n)) n EmptyString.

(** [iN::to_string]. *)
Definition int_to_string (n : Z) : string :=
  if n <? 0 then String "-"%char (uint_to_string (- n)) else uint_to_string n.

Definition bool_to_string (b : bool) : string := if b then "true" else "false".

(** ** Lemmas: appending *)

Lemma str_app_nil_r s : s +:+ EmptyString = s.
Proof. induction s as [|a s IH]; simpl; [done|by rewrite IH]. Qed.

Lemma str_app_assoc s t u : (s +:+ t) +:+ u = s +:+ (t +:+ u).
Proof. induction s as [|a s IH]; simpl; [done|by rewrite IH]. Qed.

Lemma str_length_app s t :
  String.length (s +:+ t) = (String.length s + String.length t)%nat.
Proof. induction s as [|a s IH]; simpl; [done|by rewrite IH]. Qed.

Lemma str_app_inv_l s t u : s +:+ t = s +:+ u → t = u.
Proof. induction s as [|a s IH]; simpl; [done|]. intros [= ?]. by apply IH. Qed.

(** Two appends with heads of equal length agree piecewise. *)
Lemma str_app_inj_length s1 s2 t1 t2 :
  String.length s1 = String.length s2 →
  s1 +:+ t1 = s2 +:+ t2 → s1 = s2 ∧ t1 = t2.
Proof.
  revert s2. induction s1 as [|a s1 IH]; intros [|b s2]; simpl; try done.
  intros [= Hlen] [= -> Heq]. by destruct (IH _ Hlen Heq) as [-> ->].
Qed.

Lemma str_forall_impl (p q : ascii → bool) s :
  (∀ a, p a = true → q a = true) → str_forall p s = true → str_forall q s = true.
Proof.
  intros Hpq. induction s as [|a s IH]; [done|]. simpl. rewrite !andb_true_iff.
  intros [Ha Hs]. auto.
Qed.

Lemma str_forall_app p s t : str_forall p (s +:+ t) = str_forall p s && str_forall p t.
Proof. induction s as [|a s IH]; simpl; [done|]. by rewrite IH, andb_assoc. Qed.

Lemma str_exists_app p s t : str_exists p (s +:+ t) = str_exists p s || str_exists p t.
Proof. induction s as [|a s IH]; simpl; [done|]. by rewrite IH, orb_assoc. Qed.

Lemma str_contains_app c s t :
  str_contains c (s +:+ t) = str_contains c s || str_contains c t.
Proof. apply str_exists_app. Qed.

Lemma str_contains_cons c a s :
  str_contains c (String a s) = Ascii.eqb c a || str_contains c s.
Proof. done. Qed.

(** A character outside a class is not in a string of that class. *)
Lemma str_forall_not_contains p c s :
  p c = false → str_forall p s = true → str_contains c s = false.
Proof.
  intros Hc. induction s as [|a s IH]; [done|]. simpl.
  intros [Ha Hs]%andb_true_iff. unfold str_contains in *. simpl.
  rewrite (IH Hs), orb_false_r. destruct (Ascii.eqb_spec c a); [congruence|done].
Qed.

(** ** Lemmas: prefixes *)

Lemma strip_prefix_Some p s t : strip_prefix p s = Some t ↔ s = p +:+ t.
Proof.
  revert s. induction p as [|a p IH]; intros s; simpl.
  - split; congruence.
  - destruct s as [|b s]; [done|]. destruct (Ascii.eqb_spec a b) as [->|Hab].
    + rewrite IH. split; [by intros ->|by intros [= ->]].
    + split; [done|]. intros [= ? ?]; congruence.
Qed.

Lemma strip_prefix_app p s : strip_prefix p (p +:+ s) = Some s.
Proof. by apply strip_prefix_Some. Qed.

Lemma starts_with_spec p s : starts_with p s = true ↔ ∃ t, s = p +:+ t.
Proof.
  unfold starts_with. destruct (strip_prefix p s) as [t|] eqn:H.
  - split; [|done]. intros _. exists t. by apply strip_prefix_Some.
  - split; [done|]. intros [t ->]. by rewrite strip_prefix_app in H.
Qed.

Lemma starts_with_app p s : starts_with p (p +:+ s) = true.
Proof. unfold starts_with. by rewrite strip_prefix_app. Qed.

(** ** Lemmas: splitting *)

Lemma split_on_not_nil c s : split_on c s ≠ [].
Proof.
  induction s as [|a s IH]; simpl; [done|]. destruct (Ascii.eqb a c); [done|].
  by destruct (split_on c s).
Qed.

(** Joining the pieces of a split restores the string. *)
Lemma join_split c s : join c (split_on c s) = s.
Proof.
  induction s as [|a s IH]; simpl; [done|].
  destruct (Ascii.eqb_spec a c) as [->|Hac].
  - pose proof (split_on_not_nil c s). destruct (split_on c s) eqn:Hs; [done|].
    simpl in *. by rewrite IH.
  - pose proof (split_on_not_nil c s). destruct (split_on c s) as [|x [|y l]]; [done|..];
      simpl in *; by rewrite IH.
Qed.

Lemma split_on_no_sep c s : Forall (λ x, str_contains c x = false) (split_on c s).
Proof.
  induction s as [|a s IH]; simpl; [by constructor|].
  destruct (Ascii.eqb_spec a c) as [->|Hac]; [by constructor|].
  destruct (split_on c s) as [|x xs]; [done|].
  apply Forall_cons in IH as [Hx Hxs]. constructor; [|done].
  rewrite str_contains_cons, Hx. destruct (Ascii.eqb_spec c a); [congruence|done].
Qed.

(** A piece without the separator stays whole. *)
Lemma split_on_app_sep c x s :
  str_contains c x = false → split_on c (x +:+ String c s) = x :: split_on c s.
Proof.
  induction x as [|a x IH]; simpl.
  - by rewrite Ascii.eqb_refl.
  - rewrite str_contains_cons. intros [Hca Hx]%orb_false_iff.
    rewrite Ascii.eqb_sym, Hca. by rewrite (IH Hx).
Qed.

Lemma split_on_whole c x : str_contains c x = false → split_on c x = [x].
Proof.
  induction x as [|a x IH]; simpl; [done|].
  rewrite str_contains_cons. intros [Hca Hx]%orb_false_iff.
  by rewrite Ascii.eqb_sym, Hca, (IH Hx).
Qed.

Lemma split_join c l :
  l ≠ [] → Forall (λ x, str_contains c x = false) l → split_on c (join c l) = l.
Proof.
  intros Hl Hall. induction l as [|x l IH]; [done|].
  apply Forall_cons in Hall as [Hx Hall]. destruct l as [|y l].
  - by apply split_on_whole.
  - change (join c (x :: y :: l)) with (x +:+ String c (join c (y :: l))).
    rewrite split_on_app_sep by done. by rewrite IH.
Qed.

Lemma split_once_Some c s x y :
  split_once c s = Some (x, y) ↔ s = x +:+ String c y ∧ str_contains c x = false.
Proof.
  revert x. induction s as [|a s IH]; intros x; simpl.
  - split; [done|]. intros [Hx _]. by destruct x.
  - destruct (Ascii.eqb_spec a c) as [->|Hac].
    + split; [by intros [= <- <-]|]. intros [Heq Hx]. destruct x as [|b x].
      * by injection Heq as ->.
      * injection Heq as <- _. rewrite str_contains_cons, Ascii.eqb_refl in Hx. done.
    + split.
      * destruct (split_once c s) as [[x' y']|] eqn:Hs; [|done].
        intros [= <- <-]. destruct (proj1 (IH x') eq_refl) as [-> Hx'].
        split; [done|]. rewrite str_contains_cons, Hx'.
        destruct (Ascii.eqb_spec c a); [congruence|done].
      * intros [Heq Hx]. destruct x as [|b x]; [by injection Heq as -> _|].
        injection Heq as -> Heq. rewrite str_contains_cons in Hx.
        apply orb_false_iff in Hx as [_ Hx].
        by rewrite (proj2 (IH x) (conj Heq Hx)).
Qed.

(** A separator that neither left part holds cuts both sides alike. *)
Lemma sep_inj c x y x' y' :
  str_contains c x = false → str_contains c x' = false →
  x +:+ String c y = x' +:+ String c y' → x = x' ∧ y = y'.
Proof.
  intros Hx Hx' Heq.
  assert (split_once c (x +:+ String c y) = Some (x, y)) as H1 by by apply split_once_Some.
  rewrite Heq in H1. rewrite (proj2 (split_once_Some c _ x' y')) in H1 by done.
  by injection H1.
Qed.

Lemma split_once_None c s : split_once c s = None ↔ str_contains c s = false.
Proof.
  induction s as [|a s IH]; simpl; [done|].
  rewrite str_contains_cons. destruct (Ascii.eqb_spec a c) as [->|Hac].
  - by rewrite Ascii.eqb_refl.
  - destruct (Ascii.eqb_spec c a); [congruence|]. simpl.
    destruct (split_once c s) as [[x y]|]; [|done].
    split; [done|]. intros H. by apply IH in H.
Qed.

Lemma rsplit_once_None c s : rsplit_once c s = None ↔ str_contains c s = false.
Proof.
  induction s as [|a s IH]; simpl; [done|]. rewrite str_contains_cons.
  destruct (rsplit_once c s) as [[x y]|] eqn:Hs.
  - split; [done|]. intros [_ H]%orb_false_iff. by apply IH in H.
  - rewrite (proj1 IH eq_refl), orb_false_r, (Ascii.eqb_sym c a).
    by destruct (Ascii.eqb a c).
Qed.

Lemma rsplit_once_app c x y :
  str_contains c y = false → rsplit_once c (x +:+ String c y) = Some (x, y).
Proof.
  intros Hy. induction x as [|a x IH]; simpl.
  - apply rsplit_once_None in Hy. by rewrite Hy, Ascii.eqb_refl.
  - by rewrite IH.
Qed.

Lemma rsplit_once_Some c s x y :
  rsplit_once c s = Some (x, y) → s = x +:+ String c y ∧ str_contains c y = false.
Proof.
  revert x y. induction s as [|a s IH]; intros x y; simpl; [done|].
  destruct (rsplit_once c s) as [[x' y']|] eqn:Hs.
  - intros [= <- <-]. destruct (IH _ _ eq_refl) as [-> ?]. done.
  - destruct (Ascii.eqb_spec a c) as [->|]; [|done]. intros [= <- <-].
    split; [done|]. by apply rsplit_once_None.
Qed.

(** ** Lemmas: integers as text *)

Lemma to_digit_char d : 0 ≤ d < 10 → to_digit 10 (digit_char d) = Some d.
Proof.
  intros Hd. unfold to_digit, digit_char. rewrite code_chr by lia.
  rewrite (proj2 (Z.leb_le 48 (48 + d))) by lia.
  rewrite (proj2 (Z.leb_le (48 + d) 57)) by lia. simpl.
  rewrite (proj2 (Z.ltb_lt _ 10)) by lia. f_equal. lia.
Qed.

Lemma is_ascii_digit_char d : 0 ≤ d < 10 → is_ascii_digit (digit_char d) = true.
Proof.
  intros Hd. unfold is_ascii_digit, digit_char. rewrite code_chr by lia. lia.
Qed.

Lemma digits_value_app radix acc s t :
  digits_value radix acc (s +:+ t) =
  match digits_value radix acc s with
  | Some v => digits_value radix v t
  | None => None
  end.
Proof.
  revert acc. induction s as [|a s IH]; intros acc; simpl; [done|].
  destruct (to_digit radix a); [apply IH|done].
Qed.

(** Fuel that bounds the number of decimal digits is enough. *)
Definition dec_fuel_ok (fuel : nat) (n : Z) : Prop := 0 ≤ n < 10 ^ (Z.of_nat fuel + 1).

Lemma dec_fuel_step fuel n :
  dec_fuel_ok (S fuel) n → 10 ≤ n → dec_fuel_ok fuel (n / 10).
Proof.
  unfold dec_fuel_ok. intros [H0 H1] Hn. split; [apply Z.div_pos; lia|].
  apply Z.div_lt_upper_bound; [lia|].
  replace (Z.of_nat (S fuel) + 1) with (1 + (Z.of_nat fuel + 1)) in H1 by lia.
  rewrite Z.pow_add_r in H1 by lia. lia.
Qed.

Lemma dec_fuel_log2 n : 0 ≤ n → dec_fuel_ok (Z.to_nat (Z.log2 n)) n.
Proof.
  intros Hn. unfold dec_fuel_ok. split; [done|].
  pose proof (Z.log2_nonneg n). rewrite Z2Nat.id by done.
  destruct (Z.eq_dec n 0) as [->|]; [simpl; lia|].
  pose proof (Z.log2_spec n ltac:(lia)) as [_ Hlt].
  apply Z.lt_le_trans with (2 ^ Z.succ (Z.log2 n)); [done|].
  apply Z.pow_le_mono_l. lia.
Qed.

Lemma dec_digits_value fuel n acc v :
  dec_fuel_ok fuel n →
  digits_value 10 v (dec_digits fuel n acc) =
  digits_value 10 (v * 10 ^ (Z.of_nat (String.length (dec_digits fuel n EmptyString))) + n) acc.
Proof.
  revert n acc v. induction fuel as [|fuel IH]; intros n acc v Hok.
  - unfold dec_fuel_ok in Hok. simpl in Hok. simpl.
    rewrite (Z.mod_small n 10) by lia. rewrite to_digit_char by lia. f_equal; lia.
  - simpl. destruct (Z.ltb_spec n 10) as [Hlt|Hge].
    + destruct Hok as [? _]. simpl. rewrite (Z.mod_small n 10) by lia.
      rewrite to_digit_char by lia. f_equal; lia.
    + apply dec_fuel_step in Hok; [|done]. rewrite IH by done. simpl.
      pose proof (Z.mod_pos_bound n 10 ltac:(lia)).
      rewrite to_digit_char by lia. f_equal.
      assert (Hlen : ∀ f m a, String.length (dec_digits f m a) =
                (String.length (dec_digits f m EmptyString) + String.length a)%nat).
      { clear. induction f as [|f IHf]; intros m a; simpl; [done|].
        destruct (m <? 10); [done|]. rewrite IHf, (IHf _ (String _ EmptyString)).
        simpl. lia. }
      rewrite (Hlen fuel (n / 10) (String _ EmptyString)). simpl.
      rewrite Nat2Z.inj_add, Z.pow_add_r by lia.
      change (10 ^ Z.of_nat 1) with 10.
      pose proof (Z.div_mod n 10 ltac:(lia)). nia.
Qed.

Lemma uint_to_string_value n :
  0 ≤ n → digits_value 10 0 (uint_to_string n) = Some n.
Proof.
  intros Hn. unfold uint_to_string.
  rewrite dec_digits_value by (by apply dec_fuel_log2). simpl. f_equal.
Qed.

Lemma dec_digits_digit fuel n acc :
  0 ≤ n → ∃ d s, 0 ≤ d < 10 ∧ dec_digits fuel n acc = String (digit_char d) s.
Proof.
  revert n acc. induction fuel as [|fuel IH]; intros n acc Hn; simpl.
  - eexists _, _. split; [|done]. apply Z.mod_pos_bound. lia.
  - destruct (n <? 10).
    + eexists _, _. split; [|done]. apply Z.mod_pos_bound. lia.
    + apply IH. apply Z.div_pos; lia.
Qed.

Lemma dec_digits_all_digits fuel n acc :
  0 ≤ n → str_forall is_ascii_digit (dec_digits fuel n acc) = str_forall is_ascii_digit acc.
Proof.
  revert n acc. induction fuel as [|fuel IH]; intros n acc Hn; simpl;
    pose proof (Z.mod_pos_bound n 10 ltac:(lia)).
  - by rewrite is_ascii_digit_char.
  - destruct (n <? 10); simpl; [by rewrite is_ascii_digit_char|].
    rewrite IH by (apply Z.div_pos; lia). simpl. by rewrite is_ascii_digit_char.
Qed.

Lemma uint_to_string_digits n :
  0 ≤ n → str_forall is_ascii_digit (uint_to_string n) = true.
Proof. intros Hn. unfold uint_to_string. by rewrite dec_digits_all_digits. Qed.

Lemma uint_to_string_head n :
  0 ≤ n → ∃ d s, 0 ≤ d < 10 ∧ uint_to_string n = String (digit_char d) s.
Proof. intros Hn. by apply dec_digits_digit. Qed.

Lemma digit_char_not_sign d : 0 ≤ d < 10 →
  digit_char d ≠ "+"%char ∧ digit_char d ≠ "-"%char.
Proof.
  intros Hd. split; intros H; apply (f_equal code) in H;
    unfold digit_char in H; rewrite code_chr in H by lia;
    vm_compute code in H; lia.
Qed.

(** Printing then parsing an unsigned integer gives it back. *)
Lemma parse_uint_to_string max n :
  in_uint max n → parse_uint max (uint_to_string n) = Some n.
Proof.
  intros [H0 Hmax]. unfold parse_uint, parse_uint_radix.
  destruct (uint_to_string_head n H0) as (d & s & Hd & Hs).
  pose proof (uint_to_string_value n H0) as Hv. rewrite Hs in Hv |- *.
  destruct (digit_char_not_sign d Hd) as [Hplus _].
  assert (Hbody : match String (digit_char d) s with
                  | String "+"%char (String _ _ as s') => s'
                  | _ => String (digit_char d) s
                  end = String (digit_char d) s).
  { destruct (digit_char d) as [[] [] [] [] [] [] [] []]; done. }
  rewrite Hbody, Hv. by rewrite (proj2 (Z.leb_le n max)).
Qed.

Lemma uint_to_string_inj m n :
  0 ≤ m → 0 ≤ n → uint_to_string m = uint_to_string n → m = n.
Proof.
  intros Hm Hn H. apply (f_equal (digits_value 10 0)) in H.
  rewrite !uint_to_string_value in H by done. congruence.
Qed.

Lemma int_to_string_inj m n : int_to_string m = int_to_string n → m = n.
Proof.
  unfold int_to_string.
  destruct (Z.ltb_spec m 0), (Z.ltb_spec n 0); intros Heq.
  - injection Heq as Heq. apply uint_to_string_inj in Heq; lia.
  - destruct (uint_to_string_head n) as (d & s & Hd & Hs); [done|].
    rewrite Hs in Heq. injection Heq as Heq _.
    by destruct (digit_char_not_sign d Hd).
  - destruct (uint_to_string_head m) as (d & s & Hd & Hs); [done|].
    rewrite Hs in Heq. injection Heq as Heq _.
    by destruct (digit_char_not_sign d Hd).
  - apply uint_to_string_inj in Heq; lia.
Qed.

Lemma bool_to_string_inj a b : bool_to_string a = bool_to_string b → a = b.
Proof. by destruct a, b. Qed.

(** What parses is in the type's range. *)
Lemma to_digit_range radix a d : 0 < radix → to_digit radix a = Some d → 0 ≤ d < radix.
Proof.
  unfold to_digit. intros Hr. pose proof (code_range a).
  repeat (case_match; simplify_eq; try done); intros; simplify_eq; lia.
Qed.

Lemma digits_value_nonneg radix acc s v :
  0 < radix → 0 ≤ acc → digits_value radix acc s = Some v → 0 ≤ v.
Proof.
  intros Hr. revert acc. induction s as [|a s IH]; intros acc Hacc; simpl.
  - by intros [= <-].
  - destruct (to_digit radix a) as [d|] eqn:Hd; [|done].
    apply to_digit_range in Hd; [|done]. apply IH. nia.
Qed.

Lemma parse_uint_radix_range max radix s v :
  0 < radix → parse_uint_radix max radix s = Some v → in_uint max v.
Proof.
  unfold parse_uint_radix, in_uint. intros Hr. cbv zeta.
  set (body := match s with
               | String "+"%char (String _ _ as s') => s'
               | _ => s
               end). clearbody body.
  destruct body; [done|].
  destruct (digits_value _ _ _) as [w|] eqn:Hw; [|done].
  apply digits_value_nonneg in Hw; [|lia..].
  destruct (Z.leb_spec w max); [|done]. intros [= <-]. lia.
Qed.

Lemma parse_uint_range max s v : parse_uint max s = Some v → in_uint max v.
Proof. by apply parse_uint_radix_range. Qed.

Lemma parse_int_range bits s v :
  0 < bits → parse_int bits s = Some v → - 2 ^ (bits - 1) ≤ v < 2 ^ (bits - 1).
Proof.
  unfold parse_int. intros Hb. cbv zeta.
  set (body := match s with
               | String "+"%char (String _ _ as s') => (false, s')
               | String "-"%char (String _ _ as s') => (true, s')
               | _ => (false, s)
               end). clearbody body.
  pose proof (Z.pow_pos_nonneg 2 (bits - 1) ltac:(lia) ltac:(lia)).
  destruct body as [[] [|a body]]; try done;
    destruct (digits_value _ _ _) as [w|] eqn:Hw; try done;
    apply digits_value_nonneg in Hw; try lia.
  - destruct (Z.leb_spec w (2 ^ (bits - 1))); [|done]. intros [= <-]. lia.
  - destruct (Z.ltb_spec w (2 ^ (bits - 1))); [|done]. intros [= <-]. lia.
Qed.

#[export] Hint Resolve parse_uint_range uint_to_string_digits : emgr.

(** ** UTF-8 validity

[String::from_utf8] accepts exactly the well-formed byte sequences of
RFC 3629: no overlong form, no surrogate, nothing above U+10FFFF. *)
Definition is_cont (a : ascii) : bool := (128 <=? code a) && (code a <=? 191).

(** The bytes after a lead byte [a] that complete one code point. *)
Definition utf8_second_ok (a b : Z) : bool :=
  if a =? 224 then (160 <=? b) && (b <=? 191)
  else if a =? 237 then (128 <=? b) && (b <=? 159)
  else if a =? 240 then (144 <=? b) && (b <=? 191)
  else if a =? 244 then (128 <=? b) && (b <=? 143)
  else (128 <=? b) && (b <=? 191).

Fixpoint utf8_valid (s : string) : bool :=
  match s with
  | EmptyString => true
  | String a s1 =>
      let c := code a in
      if c <? 128 then utf8_valid s1
      else if (194 <=? c) && (c <=? 223) then
        match s1 with
        | String b s2 => is_cont b && utf8_valid s2
        | _ => false
        end
      else if (224 <=? c) && (c <=? 239) then
        match s1 with
        | String b (String d s3) =>
            utf8_second_ok c (code b) && is_cont d && utf8_valid s3
        | _ => false
        end
      else if (240 <=? c) && (c <=? 244) then
        match s1 with
        | String b (String d (String e s4)) =>
            utf8_second_ok c (code b) && is_cont d && is_cont e && utf8_valid s4
        | _ => false
        end
      else false
  end.

Definition from_utf8 (bytes : string) : option string :=
  if utf8_valid bytes then Some bytes else None.

(** [String::from_utf8_lossy]: U+FFFD for every maximal part of an ill-formed
    sequence. *)
Definition REPLACEMENT : string := String (chr 239) (String (chr 191) (String (chr 189) EmptyString)).

Fixpoint from_utf8_lossy (s : string) : string :=
  match s with
  | EmptyString => EmptyString
  | String a s1 =>
      let c := code a in
      if c <? 128 then String a (from_utf8_lossy s1)
      else if (194 <=? c) && (c <=? 223) then
        match s1 with
        | String b s2 =>
            if is_cont b then String a (String b (from_utf8_lossy s2))
            else REPLACEMENT +:+ from_utf8_lossy s1
        | EmptyString => REPLACEMENT
        end
      else if (224 <=? c) && (c <=? 239) then
        match s1 with
        | String b s2 =>
            if utf8_second_ok c (code b) then
              match s2 with
              | String d s3 =>
                  if is_cont d then String a (String b (String d (from_utf8_lossy s3)))
                  else REPLACEMENT +:+ from_utf8_lossy s2
              | EmptyString => REPLACEMENT
              end
            else REPLACEMENT +:+ from_utf8_lossy s1
        | EmptyString => REPLACEMENT
        end
      else if (240 <=? c) && (c <=? 244) then
        match s1 with
        | String b s2 =>
            if utf8_second_ok c (code b) then
              match s2 with
              | String d s3 =>
                  if is_cont d then
                    match s3 with
                    | String e s4 =>
                        if is_cont e then String a (String b (String d (String e (from_utf8_lossy s4))))
                        else REPLACEMENT +:+ from_utf8_lossy s3
                    | EmptyString => REPLACEMENT
                    end
                  else REPLACEMENT +:+ from_utf8_lossy s2
              | EmptyString => REPLACEMENT
              end
            else REPLACEMENT +:+ from_utf8_lossy s1
        | EmptyString => REPLACEMENT
        end
      else REPLACEMENT +:+ from_utf8_lossy s1
  end.

Lemma from_utf8_lossy_ascii s t :
  str_forall (λ a, code a <? 128) s = true → from_utf8_lossy (s +:+ t) = s +:+ from_utf8_lossy t.
Proof.
  induction s as [|a s IH]; [done|]. cbn [str_forall]. rewrite andb_true_iff. intros [Ha Hs].
  cbn [String.append from_utf8_lossy]. cbv zeta. by rewrite Ha, IH.
Qed.

(** The first of [str::lines]: the text before the first line feed, without the
    carriage return in front of it. *)
Definition first_line (s : string) : string :=
  match split_once (chr 10) s with
  | None => s
  | Some (line, _) =>
      match str_rev line with
      | String c rest => if Ascii.eqb c (chr 13) then str_rev rest else line
      | EmptyString => line
      end
  end.

(** [str::lines]: the text up to each line feed, without the carriage return
    in front of it, and what is left after the last one. *)
Definition strip_cr (line : string) : string :=
  match str_rev line with
  | String c rest => if Ascii.eqb c (chr 13) then str_rev rest else line
  | EmptyString => line
  end.

Fixpoint end_lines (parts : list string) : list string :=
  match parts with
  | [] => []
  | [last] => if str_is_empty last then [] else [last]
  | line :: rest => strip_cr line :: end_lines rest
  end.

Definition lines (s : string) : list string := end_lines (split_on (chr 10) s).

Definition line_end : string := String (chr 10) EmptyString.

(** ** Lemmas: decimal text is untouched by trimming and is UTF-8 *)

Lemma str_rev_app_app s t u : str_rev_app (str_rev_app s t) u = str_rev_app t (s +:+ u).
Proof.
  revert t. induction s as [|a s IH]; intros t; [done|]. simpl. by rewrite IH.
Qed.

Lemma str_rev_rev s : str_rev (str_rev s) = s.
Proof. unfold str_rev. rewrite str_rev_app_app. simpl. apply str_app_nil_r. Qed.

Lemma str_rev_app_forall p s t : str_forall p (str_rev_app s t) = str_forall p s && str_forall p t.
Proof.
  revert t. induction s as [|a s IH]; intros t; [done|]. simpl. rewrite IH. simpl.
  destruct (p a), (str_forall p s); done.
Qed.

Lemma str_rev_app_acc s t : str_rev_app s t = str_rev s +:+ t.
Proof.
  unfold str_rev. revert t. induction s as [|a s IH]; intros t; [done|]. simpl.
  rewrite IH, (IH (String a EmptyString)). by rewrite str_app_assoc.
Qed.

Lemma str_rev_snoc s a : str_rev (s +:+ String a EmptyString) = String a (str_rev s).
Proof.
  assert (H : ∀ t, str_rev_app (s +:+ String a EmptyString) t = String a (str_rev_app s t)); [|apply H].
  induction s as [|b s IH]; intros t; [done|]. simpl. apply IH.
Qed.

Lemma ascii_digit_code a : is_ascii_digit a = true → 48 ≤ code a ≤ 57.
Proof. unfold is_ascii_digit. rewrite andb_true_iff, !Z.leb_le. lia. Qed.

Lemma strip_while_none step fuel s : step s = None → strip_while step fuel s = s.
Proof. intros H. destruct fuel; simpl; [done|]. by rewrite H. Qed.

(** A visible ASCII character other than the space. *)
Definition is_graphic (a : ascii) : bool := (33 <=? code a) && (code a <? 127).

Lemma digit_graphic a : is_ascii_digit a = true → is_graphic a = true.
Proof. intros H%ascii_digit_code. unfold is_graphic. rewrite andb_true_iff, Z.leb_le, Z.ltb_lt. lia. Qed.

Lemma graphic_not_ws a b c :
  is_graphic a = true →
  ws1 (code a) = false ∧ ws2 (code a) b = false ∧ ws3 (code a) b c = false
  ∧ ws2 b (code a) = false ∧ ws3 b c (code a) = false.
Proof.
  unfold is_graphic. rewrite andb_true_iff, Z.leb_le, Z.ltb_lt. intros Ha.
  unfold ws1, ws2, ws3. rewrite !(proj2 (Z.eqb_neq (code a) _)) by lia.
  rewrite ?(proj2 (Z.leb_gt 128 (code a))) by lia. rewrite ?(proj2 (Z.leb_gt (code a) 13)) by lia.
  rewrite ?andb_false_r. done.
Qed.

(** Nothing is trimmed before a graphic first or after a graphic last
    character. *)
Lemma ws_prefix_graphic a s : is_graphic a = true → ws_prefix (String a s) = None.
Proof.
  intros Ha. simpl. rewrite (proj1 (graphic_not_ws a 0 0 Ha)).
  destruct s as [|b [|c s]]; [done|..];
    destruct (graphic_not_ws a (code b) 0 Ha) as (_ & -> & _); [done|].
  by destruct (graphic_not_ws a (code b) (code c) Ha) as (_ & _ & -> & _).
Qed.

Lemma ws_suffix_graphic a s : is_graphic a = true → ws_suffix_rev (String a s) = None.
Proof.
  intros Ha. simpl. rewrite (proj1 (graphic_not_ws a 0 0 Ha)).
  destruct s as [|b [|c s]]; [done|..];
    destruct (graphic_not_ws a (code b) 0 Ha) as (_ & _ & _ & -> & _); [done|].
  by destruct (graphic_not_ws a (code c) (code b) Ha) as (_ & _ & _ & _ & ->).
Qed.

Lemma trim_graphic a s b t :
  is_graphic a = true → is_graphic b = true → String a s = t +:+ String b EmptyString →
  trim (String a s) = String a s ∧ trim (String " " (String a s)) = String a s.
Proof.
  intros Ha Hb Heq.
  assert (Hend : trim_end (String a s) = String a s).
  { unfold trim_end. rewrite (strip_while_none ws_suffix_rev); [apply str_rev_rev|].
    rewrite Heq, str_rev_snoc. by apply ws_suffix_graphic. }
  unfold trim, trim_start. split.
  - by rewrite (strip_while_none ws_prefix) by (by apply ws_prefix_graphic).
  - cbn [String.length strip_while].
    replace (ws_prefix (String " " (String a s))) with (Some (String a s)) by reflexivity.
    cbv iota. by rewrite ws_prefix_graphic.
Qed.

Lemma string_snoc a s : ∃ t b, String a s = t +:+ String b EmptyString.
Proof.
  revert a. induction s as [|c s IH]; intros a; [by exists EmptyString, a|].
  destruct (IH c) as (t & b & ->). by exists (String a t), b.
Qed.

Lemma trim_digits s : str_forall is_ascii_digit s = true → trim s = s.
Proof.
  destruct s as [|a s]; [done|]. intros Hs. destruct (string_snoc a s) as (t & b & Heq).
  pose proof Hs as Hb. rewrite Heq, str_forall_app in Hb. cbn [str_forall] in Hs, Hb.
  rewrite ?andb_true_iff in Hs, Hb.
  destruct Hs as [Ha _], Hb as [_ Hb]. rewrite andb_true_r in Hb.
  eapply trim_graphic; [| |exact Heq]; by apply digit_graphic.
Qed.

Lemma utf8_valid_digits s : str_forall is_ascii_digit s = true → utf8_valid s = true.
Proof.
  induction s as [|a s IH]; [done|]. simpl. intros [Ha Hs]%andb_true_iff.
  apply ascii_digit_code in Ha. rewrite (proj2 (Z.ltb_lt (code a) 128)) by lia. auto.
Qed.

(** ** Lemmas: lines and words *)

Lemma strip_cr_id s : str_contains (chr 13) s = false → strip_cr s = s.
Proof.
  intros Hs. unfold strip_cr. destruct (str_rev s) as [|c rest] eqn:E; [done|].
  destruct (Ascii.eqb_spec c (chr 13)) as [->|]; [|done]. exfalso.
  assert (s = str_rev (String (chr 13) rest)) as -> by by rewrite <- E, str_rev_rev.
  unfold str_rev in Hs. cbn [str_rev_app] in Hs. rewrite str_rev_app_acc, str_contains_app in Hs.
  apply orb_false_iff in Hs as [_ Hs]. by vm_compute in Hs.
Qed.

Lemma lines_cons line s :
  str_contains (chr 10) line = false → str_contains (chr 13) line = false →
  lines (line +:+ line_end +:+ s) = line :: lines s.
Proof.
  intros Hnl Hcr. unfold lines. change (line_end +:+ s) with (String (chr 10) s).
  rewrite split_on_app_sep by done. pose proof (split_on_not_nil (chr 10) s) as Hne.
  destruct (split_on (chr 10) s) as [|x l]; [done|]. cbn [end_lines]. by rewrite strip_cr_id.
Qed.

Lemma split_words_graphic x fuel w s :
  str_forall is_graphic x = true →
  split_words (String.length x + fuel) w (x +:+ s) = split_words fuel (str_rev_app x w) s.
Proof.
  revert w. induction x as [|a x IH]; intros w; [done|]. cbn [str_forall]. rewrite andb_true_iff.
  intros [Ha Hx]. cbn [String.length Nat.add String.append split_words].
  rewrite ws_prefix_graphic by done. by rewrite IH.
Qed.

(** Two words with a space between them. *)
Lemma split_whitespace_two x y :
  str_forall is_graphic x = true → str_forall is_graphic y = true →
  x ≠ EmptyString → y ≠ EmptyString → split_whitespace (x +:+ " " +:+ y) = [x; y].
Proof.
  intros Hx Hy Hxne Hyne. unfold split_whitespace. rewrite !str_length_app.
  replace (S (String.length x + (String.length " " + String.length y)))
    with (String.length x + S (String.length y + 1))%nat by (cbn [String.length]; lia).
  rewrite split_words_graphic by done. change (" " +:+ y) with (String " " y). cbn [split_words].
  replace (ws_prefix (String " " y)) with (Some y) by reflexivity.
  rewrite <- (str_app_nil_r y) at 2. rewrite split_words_graphic by done. cbn [split_words].
  change (str_rev_app x EmptyString) with (str_rev x). change (str_rev_app y EmptyString) with (str_rev y).
  assert (∀ z, z ≠ EmptyString → ∃ a t, str_rev z = String a t) as Hrev.
  { intros z Hz. destruct (str_rev z) as [|a t] eqn:E; [|by eexists _, _].
    destruct Hz. by rewrite <- (str_rev_rev z), E. }
  destruct (Hrev x Hxne) as (a & t & Ex), (Hrev y Hyne) as (b & u & Ey).
  rewrite Ex, Ey, <- Ex, <- Ey, !str_rev_rev. done.
Qed.

Lemma digits_graphic s : str_forall is_ascii_digit s = true → str_forall is_graphic s = true.
Proof.
  induction s as [|a s IH]; [done|]. cbn [str_forall]. rewrite !andb_true_iff.
  intros [Ha Hs]. split; [by apply digit_graphic|by apply IH].
Qed.

Lemma graphic_no c s : is_graphic c = false → str_forall is_graphic s = true → str_contains c s = false.
Proof. intros. by eapply str_forall_not_contains. Qed.

Lemma graphic_ascii s : str_forall is_graphic s = true → str_forall (λ a, code a <? 128) s = true.
Proof.
  induction s as [|a s IH]; [done|]. cbn [str_forall]. rewrite !andb_true_iff. intros [Ha Hs].
  split; [|by apply IH]. unfold is_graphic in Ha. rewrite andb_true_iff, Z.ltb_lt in Ha. apply Z.ltb_lt. lia.
Qed.

Lemma trim_graphic_all s : str_forall is_graphic s = true → trim s = s.
Proof.
  destruct s as [|a s]; [done|]. intros H. destruct (string_snoc a s) as (t & b & E).
  apply (trim_graphic a s b t); [|..|done].
  - cbn [str_forall] in H. by apply andb_true_iff in H as [].
  - rewrite E, str_forall_app, andb_true_iff in H. destruct H as [_ H]. cbn in H. by rewrite andb_true_r in H.
Qed.
