(* ===== verification/RustFloat.v ===== *)
(** * IEEE 754 floats, their text and their integer conversions

[f32] and [f64] values are [SpecFloat]'s [spec_float] at precisions (24, 128)
and (53, 1024).  [parse_float] is [f32::from_str]/[f64::from_str] (correct
rounding of the decimal to nearest, ties to even) and [float_to_string] is
their [Display] (the shortest decimal that reads back as the value, nearest
to it among those, never in exponent notation).  The main result is that
parsing the printed text of a valid float returns that float. *)
From S2P Require Import Prelude RustStr.
From Stdlib Require Export SpecFloat.

Local Open Scope Z_scope.

#[export] Instance spec_float_eq_dec : EqDecision spec_float.
Proof. solve_decision. Defined.

(** ** Rounding a ratio *)

Section Format.
Context (prec emax : Z).

(** The float nearest to [± num / den]. *)
Definition round_ratio (s : bool) (num den : positive) : spec_float :=
  let '(q, e, l) := SFdiv_core_binary prec emax (Zpos num) 0 (Zpos den) 0 in
  binary_round_aux prec emax s q e l.

(** The float nearest to [± d * 10 ^ k]. *)
Definition decimal_to_float (s : bool) (d k : Z) : spec_float :=
  if d <=? 0 then S754_zero s
  else if 0 <=? k then round_ratio s (Z.to_pos (d * 10 ^ k)) 1
  else round_ratio s (Z.to_pos d) (Z.to_pos (10 ^ (- k))).

(** ** Parsing *)

Fixpoint span_digits (s : string) : string * string :=
  match s with
  | EmptyString => (EmptyString, EmptyString)
  | String a s' =>
      if is_ascii_digit a then
        let '(x, y) := span_digits s' in (String a x, y)
      else (EmptyString, s)
  end.

(** The exponent part: absent, or [e]/[E], a sign and at least one digit. *)
Definition parse_exponent (s : string) : option Z :=
  match s with
  | EmptyString => Some 0
  | String a s' =>
      if Ascii.eqb a "e" || Ascii.eqb a "E" then
        let '(neg, s'') := match s' with
                           | String "+"%char t => (false, t)
                           | String "-"%char t => (true, t)
                           | _ => (false, s')
                           end in
        match span_digits s'' with
        | (EmptyString, _) => None
        | (ds, EmptyString) =>
            match digits_value 10 0 ds with
            | Some v => Some (if (neg : bool) then - v else v)
            | None => None
            end
        | _ => None
        end
      else None
  end.

Definition parse_number (neg : bool) (s : string) : option spec_float :=
  let '(ip, rest) := span_digits s in
  let '(fp, rest') := match rest with
                      | String "."%char t => span_digits t
                      | _ => (EmptyString, rest)
                      end in
  match ip +:+ fp with
  | EmptyString => None
  | ds =>
      match parse_exponent rest', digits_value 10 0 ds with
      | Some e, Some d => Some (decimal_to_float neg d (e - str_len fp))
      | _, _ => None
      end
  end.

Definition parse_float (s : string) : option spec_float :=
  let '(neg, body) := match s with
                      | String "+"%char t => (false, t)
                      | String "-"%char t => (true, t)
                      | _ => (false, s)
                      end in
  let low := to_ascii_lowercase body in
  if String.eqb low "inf" || String.eqb low "infinity" then Some (S754_infinity neg)
  else if String.eqb low "nan" then Some S754_nan
  else parse_number neg body.

(** ** Printing *)

Fixpoint strip_zeros (fuel : nat) (d k : Z) : Z * Z :=
  match fuel with
  | O => (d, k)
  | S fuel' => if d mod 10 =? 0 then strip_zeros fuel' (d / 10) (k + 1) else (d, k)
  end.

Fixpoint zeros (n : nat) : string :=
  match n with
  | O => EmptyString
  | S n' => String "0"%char (zeros n')
  end.

Fixpoint str_take (n : nat) (s : string) : string :=
  match n, s with
  | S n', String a s' => String a (str_take n' s')
  | _, _ => EmptyString
  end.

Fixpoint str_drop (n : nat) (s : string) : string :=
  match n, s with
  | S n', String _ s' => str_drop n' s'
  | _, _ => s
  end.

(** [d * 10 ^ k] in positional notation. *)
Definition print_decimal (d k : Z) : string :=
  let ds := uint_to_string d in
  if 0 <=? k then ds +:+ zeros (Z.to_nat k)
  else
    let p := str_len ds + k in
    if p <=? 0 then "0." +:+ zeros (Z.to_nat (- p)) +:+ ds
    else str_take (Z.to_nat p) ds +:+ "." +:+ str_drop (Z.to_nat p) ds.

Definition ratio_num (m e : Z) : Z := if 0 <=? e then m * 2 ^ e else m.
Definition ratio_den (e : Z) : Z := if 0 <=? e then 1 else 2 ^ (- e).

(** The largest [k] with [10 ^ k <= num / den]. *)
Definition pow10_le (num den k : Z) : bool :=
  if 0 <=? k then den * 10 ^ k <=? num else den <=? num * 10 ^ (- k).

Definition floor_log10 (num den : Z) : Z :=
  let est := (Z.log2 num - Z.log2 den) * 30103 / 100000 in
  if pow10_le num den (est + 1) then est + 1
  else if pow10_le num den est then est
  else if pow10_le num den (est - 1) then est - 1
  else est - 2.

(** The decimal with [n] significant digits nearest to the value, among the
    two around it, that reads back as [x]. *)
Definition try_digits (x : spec_float) (num den lg n : Z) : option (Z * Z) :=
  let k := lg + 1 - n in
  let a := if 0 <=? k then num else num * 10 ^ (- k) in
  let b := if 0 <=? k then den * 10 ^ k else den in
  let lo := strip_zeros 20 (a / b) k in
  let hi := strip_zeros 20 (a / b + 1) k in
  let lo_ok := bool_decide (decimal_to_float false lo.1 lo.2 = x) in
  let hi_ok := bool_decide (decimal_to_float false hi.1 hi.2 = x) in
  if lo_ok && hi_ok then Some (if b <=? 2 * (a mod b) then hi else lo)
  else if lo_ok then Some lo
  else if hi_ok then Some hi
  else None.

Fixpoint find_digits (fuel : nat) (x : spec_float) (num den lg n : Z) : option (Z * Z) :=
  match fuel with
  | O => None
  | S fuel' =>
      match try_digits x num den lg n with
      | Some dk => Some dk
      | None => find_digits fuel' x num den lg (n + 1)
      end
  end.

(** The exact expansion of [m * 2 ^ e]. *)
Definition exact_decimal (m e : Z) : Z * Z :=
  if 0 <=? e then (m * 2 ^ e, 0) else (m * 5 ^ (- e), e).

(** 17 significant digits suffice for [f64], fewer for [f32]; the exact
    expansion closes the definition when the search finds nothing. *)
Definition shortest (m : positive) (e : Z) : Z * Z :=
  let num := ratio_num (Zpos m) e in
  let den := ratio_den e in
  match find_digits 17 (S754_finite false m e) num den (floor_log10 num den) 1 with
  | Some dk => dk
  | None => exact_decimal (Zpos m) e
  end.

Definition float_to_string (x : spec_float) : string :=
  match x with
  | S754_nan => "NaN"
  | S754_infinity s => if s then "-inf" else "inf"
  | S754_zero s => if s then "-0" else "0"
  | S754_finite s m e =>
      let '(d, k) := shortest m e in
      if s then String "-"%char (print_decimal d k) else print_decimal d k
  end.
End Format.

(** ** The two formats *)

Definition parse_f32 : string → option spec_float := parse_float 24 128.
Definition parse_f64 : string → option spec_float := parse_float 53 1024.
Definition f32_to_string : spec_float → string := float_to_string 24 128.
Definition f64_to_string : spec_float → string := float_to_string 53 1024.

(** Every value of the Rust type is valid: mantissa and exponent canonical. *)
Definition f32_valid (x : spec_float) : Prop := valid_binary 24 128 x = true.
Definition f64_valid (x : spec_float) : Prop := valid_binary 53 1024 x = true.

Definition f32_zero : spec_float := S754_zero false.
Definition f32_one : spec_float := S754_finite false 8388608 (-23).

Example parse_print_f32 :
  (f32_to_string <$> [f32_one; S754_finite false 13421773 (-27);
                      S754_finite true 10485760 (-20); S754_zero true])
  = ["1"; "0.1"; "-10"; "-0"].
Proof. vm_compute. reflexivity. Qed.

Example parse_f32_examples :
  (parse_f32 <$> ["1.0"; "0.1"; ".5"; "1e2"; "-1"; "inf"; "."; "1e"; "1.2.3"])
  = [Some f32_one; Some (S754_finite false 13421773 (-27));
     Some (S754_finite false 8388608 (-24)); Some (S754_finite false 13107200 (-17));
     Some (S754_finite true 8388608 (-23)); Some (S754_infinity false);
     None; None; None].
Proof. vm_compute. reflexivity. Qed.

Example print_f64_examples :
  (λ x, f64_to_string <$> parse_f64 x) <$> ["1e23"; "5e-324"; "0.3"; "123456.789"; "0.00001"]
  = [Some "100000000000000000000000"; Some ("0." +:+ zeros 323 +:+ "5"); Some "0.3";
     Some "123456.789"; Some "0.00001"].
Proof. vm_compute. reflexivity. Qed.

(** ** Comparisons and integer conversions *)

Definition f_gt (x y : spec_float) : bool := SFltb y x.
Definition f_lt (x y : spec_float) : bool := SFltb x y.
Definition f_ge (x y : spec_float) : bool := SFleb y x.
Definition f_le (x y : spec_float) : bool := SFleb x y.
Definition f_eq (x y : spec_float) : bool := SFeqb x y.

Definition is_finite (x : spec_float) : bool :=
  match x with
  | S754_zero _ | S754_finite _ _ _ => true
  | _ => false
  end.

(** [m * 2 ^ e] rounded to the nearest integer, halves away from zero. *)
Definition round_mag (m : positive) (e : Z) : Z :=
  if 0 <=? e then Zpos m * 2 ^ e else (Zpos m + 2 ^ (- e - 1)) / 2 ^ (- e).

(** [x.round() as uN]: the cast saturates and sends NaN to zero. *)
Definition round_as_uint (max : Z) (x : spec_float) : Z :=
  match x with
  | S754_finite false m e => Z.min max (round_mag m e)
  | S754_infinity false => max
  | _ => 0
  end.

Definition f64_zero : spec_float := S754_zero false.
Definition f64_one : spec_float := S754_finite false 4503599627370496 (-52).

(** A positive value of the type, infinity included. *)
Definition positive_f32 (x : spec_float) : Prop := f32_valid x ∧ f_gt x f32_zero = true.

(** ** Exact values survive rounding *)

Lemma digits2_pos_bounds m :
  2 ^ (Zpos (digits2_pos m) - 1) ≤ Zpos m < 2 ^ Zpos (digits2_pos m).
Proof.
  assert (Hstep : ∀ d : positive, 2 ^ Zpos d = 2 * 2 ^ (Zpos d - 1)).
  { intros d. rewrite <- Z.pow_succ_r by lia. f_equal. lia. }
  induction m as [m IH|m IH|]; simpl digits2_pos.
  - pose proof (Hstep (digits2_pos m)) as H1. pose proof (Hstep (Pos.succ (digits2_pos m))) as H2.
    rewrite Pos2Z.inj_succ in *.
    replace (Z.succ (Zpos (digits2_pos m)) - 1) with (Zpos (digits2_pos m)) in * by lia.
    lia.
  - pose proof (Hstep (digits2_pos m)) as H1. pose proof (Hstep (Pos.succ (digits2_pos m))) as H2.
    rewrite Pos2Z.inj_succ in *.
    replace (Z.succ (Zpos (digits2_pos m)) - 1) with (Zpos (digits2_pos m)) in * by lia.
    lia.
  - done.
Qed.

(** The digit count is the only exponent that brackets the number. *)
Lemma digits2_unique m d :
  0 < d → 2 ^ (d - 1) ≤ Zpos m < 2 ^ d → Zpos (digits2_pos m) = d.
Proof.
  intros Hd [Hl Hu]. pose proof (digits2_pos_bounds m) as [Hl' Hu'].
  apply Z.le_antisymm.
  - assert (Zpos (digits2_pos m) - 1 < d); [|lia].
    apply (Z.pow_lt_mono_r_iff 2); lia.
  - assert (d - 1 < Zpos (digits2_pos m)); [|lia].
    apply (Z.pow_lt_mono_r_iff 2); lia.
Qed.

Lemma digits2_shift m k p :
  0 ≤ k → Zpos p = Zpos m * 2 ^ k →
  Zpos (digits2_pos p) = Zpos (digits2_pos m) + k.
Proof.
  intros Hk Hp. apply digits2_unique; [lia|]. rewrite Hp.
  pose proof (digits2_pos_bounds m) as [Hl Hu].
  replace (Zpos (digits2_pos m) + k - 1) with ((Zpos (digits2_pos m) - 1) + k) by lia.
  rewrite !Z.pow_add_r by lia. pose proof (Z.pow_pos_nonneg 2 k ltac:(lia) Hk). nia.
Qed.

Lemma iter_pos_nat {A} (f : A → A) n x : iter_pos f n x = Nat.iter (Pos.to_nat n) f x.
Proof.
  revert x. induction n as [n IH|n IH|]; intros x; simpl iter_pos.
  - rewrite !IH, Pos2Nat.inj_xI. simpl. rewrite Nat.add_0_r.
    rewrite <- Nat.iter_add, <- Nat.iter_succ_r.
    by replace (S (Pos.to_nat n + Pos.to_nat n)) with (S (Pos.to_nat n + Pos.to_nat n)) by lia.
  - rewrite !IH, Pos2Nat.inj_xO. simpl. rewrite Nat.add_0_r. by rewrite <- Nat.iter_add.
  - done.
Qed.

(** Shifting out zero bits is exact. *)
Lemma shr_exact (n : nat) m :
  Nat.iter n shr_1 (Build_shr_record (Zpos m * 2 ^ Z.of_nat n) false false)
  = Build_shr_record (Zpos m) false false.
Proof.
  induction n as [|n IH]; [change (2 ^ Z.of_nat 0) with 1; by rewrite Z.mul_1_r|].
  rewrite Nat.iter_succ_r. rewrite Nat2Z.inj_succ, Z.pow_succ_r by lia.
  replace (Zpos m * (2 * 2 ^ Z.of_nat n)) with (2 * (Zpos m * 2 ^ Z.of_nat n)) by ring.
  rewrite <- IH. f_equal.
  pose proof (Z.pow_pos_nonneg 2 (Z.of_nat n) ltac:(lia) ltac:(lia)).
  destruct (Zpos m * 2 ^ Z.of_nat n) as [|q|q] eqn:Hq; [lia| |lia]. done.
Qed.

Section Exact.
Context (prec emax : Z).

Lemma shr_fexp_exact q m e e' :
  e' ≤ e → q = Zpos m * 2 ^ (e - e') → canonical_mantissa prec emax m e = true →
  shr_fexp prec emax q e' loc_Exact = (Build_shr_record (Zpos m) false false, e).
Proof.
  intros He Hq Hcan%Z.eqb_eq. unfold shr_fexp.
  assert (Hpos : ∃ p, q = Zpos p).
  { pose proof (Z.pow_pos_nonneg 2 (e - e') ltac:(lia) ltac:(lia)).
    destruct q as [|p|p]; [lia|by exists p|lia]. }
  destruct Hpos as [p ->]. simpl Zdigits2.
  rewrite (digits2_shift m (e - e') p) by (done || lia).
  replace (Zpos (digits2_pos m) + (e - e') + e') with (Zpos (digits2_pos m) + e) by lia.
  rewrite Hcan, Hq. simpl shr_record_of_loc. unfold shr.
  destruct (e - e') as [|n|n] eqn:Hn; [|..|lia].
  - replace e with e' by lia. change (2 ^ 0) with 1. by rewrite Z.mul_1_r.
  - rewrite iter_pos_nat. rewrite <- (positive_nat_Z n) at 1.
    rewrite shr_exact. f_equal. lia.
Qed.

Lemma binary_round_aux_exact s q m e e' :
  e' ≤ e → q = Zpos m * 2 ^ (e - e') → bounded prec emax m e = true →
  binary_round_aux prec emax s q e' loc_Exact = S754_finite s m e.
Proof.
  intros He Hq [Hcan Hmax]%andb_true_iff. unfold binary_round_aux.
  rewrite (shr_fexp_exact q m e e') by done. simpl.
  rewrite (shr_fexp_exact (Zpos m) m e e); [|lia| |done].
  - simpl. by rewrite Hmax.
  - by rewrite Z.sub_diag, Z.mul_1_r.
Qed.

(** Operands whose ratio is [m * 2 ^ e], scaled by the same power of two. *)
Lemma ratio_scaled num den m e t :
  Zpos num * ratio_den e = Zpos den * ratio_num (Zpos m) e → t ≤ e → t ≤ 0 →
  Zpos num * 2 ^ (- t) = Zpos den * (Zpos m * 2 ^ (e - t)).
Proof.
  unfold ratio_num, ratio_den. intros Heq Hte Ht0. destruct (Z.leb_spec 0 e).
  - replace (e - t) with (e + - t) by lia. rewrite Z.pow_add_r by lia. nia.
  - replace (- t) with (- e + (e - t)) by lia. rewrite Z.pow_add_r by lia. nia.
Qed.

Lemma ratio_digits num den m e :
  Zpos num * ratio_den e = Zpos den * ratio_num (Zpos m) e →
  Zpos (digits2_pos num) - Zpos (digits2_pos den) ≤ Zpos (digits2_pos m) + e.
Proof.
  intros Heq. set (d1 := Zpos (digits2_pos num)). set (d2 := Zpos (digits2_pos den)).
  pose proof (digits2_pos_bounds num) as [Hn _].
  pose proof (digits2_pos_bounds den) as [_ Hd].
  pose proof (digits2_pos_bounds m) as [_ Hm]. fold d1 in Hn. fold d2 in Hd.
  set (t := Z.min e 0). pose proof (ratio_scaled _ _ _ _ t Heq ltac:(lia) ltac:(lia)) as Hv.
  assert (2 ^ (d1 - 1 + - t) < 2 ^ (d2 + (Zpos (digits2_pos m) + (e - t)))) as Hlt.
  { rewrite !Z.pow_add_r by lia.
    pose proof (Z.pow_pos_nonneg 2 (- t) ltac:(lia) ltac:(lia)).
    pose proof (Z.pow_pos_nonneg 2 (e - t) ltac:(lia) ltac:(lia)).
    apply Z.le_lt_trans with (Zpos num * 2 ^ (- t)); [nia|]. rewrite Hv.
    apply Z.lt_le_trans with (2 ^ d2 * (Zpos m * 2 ^ (e - t))); [nia|].
    pose proof (Z.pow_pos_nonneg 2 d2 ltac:(lia) ltac:(lia)). nia. }
  apply Z.pow_lt_mono_r_iff in Hlt; lia.
Qed.

(** A ratio equal to a valid float rounds to it. *)
Lemma round_ratio_exact s num den m e :
  bounded prec emax m e = true →
  Zpos num * ratio_den e = Zpos den * ratio_num (Zpos m) e →
  round_ratio prec emax s num den = S754_finite s m e.
Proof.
  intros Hb Heq. unfold round_ratio, SFdiv_core_binary. simpl Zdigits2.
  pose proof Hb as [Hcan%Z.eqb_eq _]%andb_true_iff.
  set (d1 := Zpos (digits2_pos num)). set (d2 := Zpos (digits2_pos den)).
  rewrite !Z.add_0_r, Z.sub_diag.
  set (e' := Z.min (fexp prec emax (d1 - d2)) 0).
  pose proof (ratio_digits _ _ _ _ Heq) as Hdig. fold d1 d2 in Hdig.
  assert (He' : e' ≤ e).
  { unfold e', fexp in *. lia. }
  assert (Hs : 0 - e' = - e') by lia. rewrite Hs.
  assert (Hm' : match - e' with
                | Z0 => Zpos num | Zpos _ => Z.shiftl (Zpos num) (- e') | Zneg _ => 0
                end = Zpos den * (Zpos m * 2 ^ (e - e'))).
  { rewrite <- (ratio_scaled num den m e e' Heq) by (unfold e'; lia).
    destruct (- e') as [|p|p] eqn:Hp; [lia| |unfold e' in *; lia].
    rewrite <- Hp, Z.shiftl_mul_pow2 by lia. done. }
  rewrite Hm'.
  pose proof (Z_div_mod (Zpos den * (Zpos m * 2 ^ (e - e'))) (Zpos den) ltac:(lia)) as Hdm.
  destruct (Z.div_eucl _ _) as [q r] eqn:Hqr.
  destruct Hdm as [Hdm Hr].
  assert (q = Zpos m * 2 ^ (e - e') ∧ r = 0) as [-> ->].
  { apply (Z.div_mod_unique (Zpos den)); [left; lia..|]. by rewrite <- Hdm, Z.add_0_r. }
  assert (Hloc : new_location (Zpos den) 0 = loc_Exact).
  { unfold new_location, new_location_even, new_location_odd. by destruct (Z.even _). }
  rewrite Hloc. by apply binary_round_aux_exact.
Qed.

Lemma exact_decimal_to_float s m e :
  bounded prec emax m e = true →
  let '(d, k) := exact_decimal (Zpos m) e in
  decimal_to_float prec emax s d k = S754_finite s m e.
Proof.
  intros Hb. unfold exact_decimal. destruct (Z.leb_spec 0 e) as [He|He].
  - unfold decimal_to_float. pose proof (Z.pow_pos_nonneg 2 e ltac:(lia) He).
    rewrite (proj2 (Z.leb_gt _ _)) by nia. simpl.
    apply round_ratio_exact; [done|].
    rewrite Z2Pos.id by nia. unfold ratio_den, ratio_num.
    rewrite (proj2 (Z.leb_le 0 e)) by done. lia.
  - unfold decimal_to_float. pose proof (Z.pow_pos_nonneg 5 (- e) ltac:(lia) ltac:(lia)).
    pose proof (Z.pow_pos_nonneg 10 (- e) ltac:(lia) ltac:(lia)).
    rewrite (proj2 (Z.leb_gt _ _)) by nia.
    rewrite (proj2 (Z.leb_gt 0 e)) by done.
    apply round_ratio_exact; [done|]. rewrite !Z2Pos.id by nia.
    unfold ratio_den, ratio_num. rewrite (proj2 (Z.leb_gt 0 e)) by done.
    change 10 with (5 * 2). rewrite Z.pow_mul_l. ring.
Qed.
End Exact.

(** ** Reading back a printed float *)

Lemma span_digits_app x y :
  str_forall is_ascii_digit x = true →
  match y with EmptyString => True | String a _ => is_ascii_digit a = false end →
  span_digits (x +:+ y) = (x, y).
Proof.
  intros Hx Hy. induction x as [|a x IH]; simpl.
  - destruct y as [|b y]; simpl; [done|]. by rewrite Hy.
  - simpl in Hx. apply andb_true_iff in Hx as [Ha Hx]. by rewrite Ha, (IH Hx).
Qed.

Lemma span_digits_all x :
  str_forall is_ascii_digit x = true → span_digits x = (x, EmptyString).
Proof.
  intros Hx. rewrite <- (str_app_nil_r x) at 1. by apply span_digits_app.
Qed.

Lemma str_take_drop n s : str_take n s +:+ str_drop n s = s.
Proof. revert s. induction n as [|n IH]; intros [|a s]; simpl; rewrite ?IH; done. Qed.

Lemma str_drop_length n s :
  String.length (str_drop n s) = (String.length s - n)%nat.
Proof. revert s. induction n as [|n IH]; intros [|a s]; simpl; rewrite ?IH; done. Qed.

Lemma str_take_cons n a s :
  (0 < n)%nat → str_take n (String a s) = String a (str_take (n - 1) s).
Proof. destruct n; [lia|]. intros _. simpl. by rewrite Nat.sub_0_r. Qed.

Lemma zeros_digits n : str_forall is_ascii_digit (zeros n) = true.
Proof. by induction n. Qed.

Lemma zeros_length n : String.length (zeros n) = n.
Proof. induction n as [|n IH]; simpl; rewrite ?IH; done. Qed.

Lemma zeros_value acc n : digits_value 10 acc (zeros n) = Some (acc * 10 ^ Z.of_nat n).
Proof.
  revert acc. induction n as [|n IH]; intros acc; [simpl; f_equal; lia|].
  simpl digits_value. rewrite IH, Nat2Z.inj_succ, Z.pow_succ_r by lia. change (code "0" - 48) with 0.
  f_equal. ring.
Qed.

Section RoundTrip.
Context (prec emax : Z).

(** What [parse_number] makes of an integer part and a fractional part. *)
Lemma parse_number_parts neg ip fp d :
  str_forall is_ascii_digit ip = true → str_forall is_ascii_digit fp = true →
  ip ≠ EmptyString → digits_value 10 0 (ip +:+ fp) = Some d →
  parse_number prec emax neg (ip +:+ String "."%char fp) =
    Some (decimal_to_float prec emax neg d (- str_len fp)) ∧
  (fp = EmptyString → parse_number prec emax neg ip =
    Some (decimal_to_float prec emax neg d 0)).
Proof.
  intros Hip Hfp Hne Hd. unfold parse_number.
  destruct ip as [|a ip]; [done|]. split.
  - rewrite (span_digits_app _ (String "."%char fp)) by done.
    rewrite (span_digits_all fp) by done. simpl in Hd |- *. by rewrite Hd.
  - intros ->. rewrite str_app_nil_r in Hd.
    rewrite (span_digits_all (String a ip)) by done. simpl in Hd |- *.
    rewrite str_app_nil_r, Hd. done.
Qed.

Lemma parse_print_decimal neg d k :
  0 < d →
  parse_number prec emax neg (print_decimal d k) =
    Some (decimal_to_float prec emax neg d k).
Proof.
  intros Hd. unfold print_decimal.
  pose proof (uint_to_string_digits d ltac:(lia)) as Hds.
  pose proof (uint_to_string_value d ltac:(lia)) as Hv.
  destruct (uint_to_string_head d ltac:(lia)) as (dg & tl & Hdg & Hhd).
  set (ds := uint_to_string d) in *.
  destruct (Z.leb_spec 0 k) as [Hk|Hk].
  - destruct (parse_number_parts neg (ds +:+ zeros (Z.to_nat k)) EmptyString (d * 10 ^ k))
      as [_ Hparts].
    + by rewrite str_forall_app, Hds, zeros_digits.
    + done.
    + by rewrite Hhd.
    + rewrite str_app_nil_r, digits_value_app, Hv, zeros_value, Z2Nat.id by done. done.
    + rewrite Hparts by done. f_equal. unfold decimal_to_float.
      pose proof (Z.pow_pos_nonneg 10 k ltac:(lia) Hk).
      rewrite (proj2 (Z.leb_gt _ 0)), (proj2 (Z.leb_gt d 0)) by nia.
      rewrite (proj2 (Z.leb_le 0 k)) by done. simpl. f_equal. f_equal. ring.
  - destruct (Z.leb_spec (str_len ds + k) 0) as [Hp|Hp].
    + destruct (parse_number_parts neg "0" (zeros (Z.to_nat (- (str_len ds + k))) +:+ ds) d)
        as [Hparts _]; [done| |done| |].
      * by rewrite str_forall_app, zeros_digits.
      * change ("0" +:+ ?x) with (String "0"%char x). simpl.
        by rewrite digits_value_app, zeros_value, Z.mul_0_l.
      * change ("0." +:+ ?x) with ("0" +:+ String "."%char x). rewrite Hparts.
        do 2 f_equal. unfold str_len in *. rewrite str_length_app, zeros_length. lia.
    + set (p := Z.to_nat (str_len ds + k)).
      destruct (parse_number_parts neg (str_take p ds) (str_drop p ds) d)
        as [Hparts _].
      * rewrite <- (str_take_drop p ds), str_forall_app in Hds.
        by apply andb_true_iff in Hds as [? _].
      * rewrite <- (str_take_drop p ds), str_forall_app in Hds.
        by apply andb_true_iff in Hds as [_ ?].
      * rewrite Hhd, str_take_cons by lia. done.
      * by rewrite str_take_drop.
      * change ("." +:+ ?x) with (String "."%char x). rewrite Hparts.
        do 2 f_equal. unfold str_len in *. rewrite str_drop_length. lia.
Qed.

Lemma find_digits_sound fuel x num den lg n d k :
  find_digits prec emax fuel x num den lg n = Some (d, k) →
  decimal_to_float prec emax false d k = x.
Proof.
  revert n. induction fuel as [|fuel IH]; intros n; simpl; [done|].
  destruct (try_digits _ _ _ _ _ _ _) as [[d' k']|] eqn:Ht; [|by eauto].
  intros [= -> ->]. revert Ht. unfold try_digits. cbv zeta.
  generalize (decimal_to_float prec emax false). intros f.
  destruct (strip_zeros 20 (_ / _) _) as [lo1 lo2].
  destruct (strip_zeros 20 _ _) as [hi1 hi2]. cbn [fst snd].
  case_bool_decide as Hlo; case_bool_decide as Hhi; cbn [andb];
    try destruct (_ <=? _); by intros [= -> ->].
Qed.

(** The sign passes through rounding. *)
Lemma binary_round_aux_sign s q ex l m e :
  binary_round_aux prec emax false q ex l = S754_finite false m e →
  binary_round_aux prec emax s q ex l = S754_finite s m e.
Proof.
  unfold binary_round_aux.
  generalize (shr_fexp prec emax). intros shr_f.
  destruct (shr_f q ex l) as [mrs1 e2].
  destruct (shr_f (round_nearest_even _ _) e2 loc_Exact) as [mrs2 e3].
  destruct (shr_m mrs2); [discriminate| |discriminate].
  destruct (Z.leb _ _); [|discriminate]. by intros [= -> ->].
Qed.

Lemma round_ratio_sign s num den m e :
  round_ratio prec emax false num den = S754_finite false m e →
  round_ratio prec emax s num den = S754_finite s m e.
Proof.
  unfold round_ratio. generalize (SFdiv_core_binary prec emax). intros core.
  destruct (core _ _ _ _) as [[q e1] l]. apply binary_round_aux_sign.
Qed.

Lemma decimal_to_float_sign s d k m e :
  decimal_to_float prec emax false d k = S754_finite false m e →
  decimal_to_float prec emax s d k = S754_finite s m e ∧ 0 < d.
Proof.
  unfold decimal_to_float. destruct (Z.leb_spec d 0); [discriminate|].
  destruct (0 <=? k); intros Hr%(round_ratio_sign s); done.
Qed.

Lemma shortest_sound s m e :
  bounded prec emax m e = true →
  decimal_to_float prec emax s (shortest prec emax m e).1 (shortest prec emax m e).2
    = S754_finite s m e ∧ 0 < (shortest prec emax m e).1.
Proof.
  intros Hb. unfold shortest.
  destruct (find_digits _ _ _ _ _ _ _ _) as [[d k]|] eqn:Hf.
  - apply find_digits_sound in Hf. by apply decimal_to_float_sign.
  - pose proof (exact_decimal_to_float prec emax false m e Hb) as He.
    destruct (exact_decimal (Zpos m) e) as [d k]. by apply decimal_to_float_sign.
Qed.
End RoundTrip.

(** ** The public statements *)

Lemma print_decimal_head d k :
  0 < d → ∃ c s, 0 ≤ c < 10 ∧ print_decimal d k = String (digit_char c) s.
Proof.
  intros Hd. unfold print_decimal.
  destruct (uint_to_string_head d ltac:(lia)) as (c & tl & Hc & Hhd).
  destruct (0 <=? k); [rewrite Hhd; by eexists _, _|].
  destruct (Z.leb_spec (str_len (uint_to_string d) + k) 0) as [|Hp].
  - exists 0, (String "."%char (zeros (Z.to_nat (- (str_len (uint_to_string d) + k)))
                 +:+ uint_to_string d)). done.
  - rewrite Hhd in *. rewrite str_take_cons by lia. by eexists _, _.
Qed.

(** A leading decimal digit is neither a sign nor the start of a name. *)
Lemma parse_float_digit_head prec emax c s :
  0 ≤ c < 10 →
  parse_float prec emax (String (digit_char c) s) =
    parse_number prec emax false (String (digit_char c) s) ∧
  parse_float prec emax (String "-"%char (String (digit_char c) s)) =
    parse_number prec emax true (String (digit_char c) s).
Proof.
  intros Hc.
  assert (c = 0 ∨ c = 1 ∨ c = 2 ∨ c = 3 ∨ c = 4 ∨ c = 5 ∨ c = 6 ∨ c = 7 ∨ c = 8 ∨ c = 9)
    as Hcs by lia.
  destruct_or? Hcs; subst c; done.
Qed.

(** Parsing the printed text of a valid float gives that float. *)
Lemma parse_float_to_string prec emax x :
  valid_binary prec emax x = true →
  parse_float prec emax (float_to_string prec emax x) = Some x.
Proof.
  intros Hx. destruct x as [s|s| |s m e].
  - destruct s; reflexivity.
  - destruct s; reflexivity.
  - reflexivity.
  - unfold float_to_string.
    pose proof (shortest_sound prec emax s m e Hx) as [Hf Hd].
    destruct (shortest prec emax m e) as [d k]. cbn [fst snd] in *.
    pose proof (parse_print_decimal prec emax s d k Hd) as Hp.
    destruct (print_decimal_head d k Hd) as (c & t & Hc & Hhd). rewrite Hhd in *.
    destruct (parse_float_digit_head prec emax c t Hc) as [H1 H2].
    destruct s; [rewrite H2|rewrite H1]; by rewrite Hp, Hf.
Qed.

Lemma f32_to_string_inj x y :
  f32_valid x → f32_valid y → f32_to_string x = f32_to_string y → x = y.
Proof.
  intros Hx Hy H. apply (f_equal (parse_float 24 128)) in H.
  unfold f32_to_string in H. rewrite !parse_float_to_string in H by done. congruence.
Qed.

Lemma f64_to_string_inj x y :
  f64_valid x → f64_valid y → f64_to_string x = f64_to_string y → x = y.
Proof.
  intros Hx Hy H. apply (f_equal (parse_float 53 1024)) in H.
  unfold f64_to_string in H. rewrite !parse_float_to_string in H by done. congruence.
Qed.

(** ** Rounding produces valid floats *)

Lemma iter_shr_1_m n m r s :
  0 ≤ m → shr_m (Nat.iter n shr_1 (Build_shr_record m r s)) = m / 2 ^ Z.of_nat n.
Proof.
  revert m r s. induction n as [|n IH]; intros m r s Hm.
  - change (2 ^ Z.of_nat 0) with 1. by rewrite Z.div_1_r.
  - rewrite Nat.iter_succ_r. rewrite Nat2Z.inj_succ, Z.pow_succ_r by lia.
    rewrite <- Z.div_div by lia.
    enough (Hstep : ∃ r' s', shr_1 (Build_shr_record m r s) = Build_shr_record (m / 2) r' s').
    { destruct Hstep as (r' & s' & ->). rewrite IH by (apply Z.div_pos; lia). done. }
    destruct m as [|[p|p|]|p]; [..|lia]; simpl shr_1; eexists _, _; f_equal.
    + rewrite Pos2Z.inj_xI. apply Z.div_unique with 1; lia.
    + rewrite Pos2Z.inj_xO. apply Z.div_unique with 0; lia.
Qed.

Section Valid.
Context (prec emax : Z).
Hypothesis prec_gt_0 : 0 < prec.

#[local] Abbreviation fexp := (fexp prec emax).
#[local] Abbreviation emin := (emin prec emax).

Lemma fexp_mono a b : a ≤ b → fexp a ≤ fexp b.
Proof. unfold SpecFloat.fexp. lia. Qed.

Lemma shr_fexp_m q e l :
  0 ≤ q → e ≤ fexp (Zdigits2 q + e) →
  shr_m (shr_fexp prec emax q e l).1 = q / 2 ^ (fexp (Zdigits2 q + e) - e) ∧
  (shr_fexp prec emax q e l).2 = fexp (Zdigits2 q + e).
Proof.
  intros Hq He. unfold shr_fexp, shr.
  destruct (fexp (Zdigits2 q + e) - e) as [|n|n] eqn:Hn; [| |lia].
  - change (2 ^ 0) with 1. rewrite Z.div_1_r. split; [by destruct l as [|[]]|simpl; lia].
  - rewrite iter_pos_nat. cbn [fst snd]. split; [|lia].
    replace (Zpos n) with (Z.of_nat (Pos.to_nat n)) by apply positive_nat_Z.
    by destruct l as [|[]]; simpl; apply iter_shr_1_m.
Qed.

Lemma Zdigits2_bounds q :
  0 < q → 2 ^ (Zdigits2 q - 1) ≤ q < 2 ^ Zdigits2 q ∧ 0 < Zdigits2 q.
Proof.
  destruct q as [|q|q]; [lia| |lia]. intros _. split; [|done].
  apply digits2_pos_bounds.
Qed.

Lemma Zdigits2_le q d : 0 ≤ q → 0 ≤ d → q < 2 ^ d → Zdigits2 q ≤ d.
Proof.
  intros Hq Hd Hlt. destruct (Z.eq_dec q 0) as [->|]; [done|].
  pose proof (Zdigits2_bounds q ltac:(lia)) as [[Hl _] _].
  assert (Zdigits2 q - 1 < d); [|lia].
  apply (Z.pow_lt_mono_r_iff 2); lia.
Qed.

Lemma Zdigits2_ge q d : 0 ≤ d → 2 ^ d ≤ q → d < Zdigits2 q.
Proof.
  intros Hd Hle. pose proof (Z.pow_pos_nonneg 2 d ltac:(lia) Hd).
  pose proof (Zdigits2_bounds q ltac:(lia)) as [[_ Hu] ?].
  apply (Z.pow_lt_mono_r_iff 2); lia.
Qed.

(** Rounding the shifted mantissa lands in the format's range. *)
Lemma rounded_range q e l m :
  0 ≤ q → e ≤ fexp (Zdigits2 q + e) →
  let e1 := fexp (Zdigits2 q + e) in
  m = round_nearest_even (q / 2 ^ (e1 - e)) l →
  0 ≤ m ≤ 2 ^ prec ∧ (e1 = emin ∨ 2 ^ (prec - 1) ≤ m).
Proof.
  intros Hq He e1 Hm. fold e1 in He.
  set (m1 := q / 2 ^ (e1 - e)) in *.
  assert (Hm01 : m1 ≤ m ≤ m1 + 1).
  { subst m. unfold round_nearest_even. destruct l as [|[]]; [lia| |lia..].
    destruct (Z.even m1); lia. }
  pose proof (Z.pow_pos_nonneg 2 (e1 - e) ltac:(lia) ltac:(lia)) as Hpow.
  assert (0 ≤ m1) by (apply Z.div_pos; lia).
  assert (m1 < 2 ^ prec).
  { destruct (Z.eq_dec q 0) as [->|Hq0].
    { unfold m1. rewrite Z.div_0_l by lia. apply Z.pow_pos_nonneg; lia. }
    pose proof (Zdigits2_bounds q ltac:(lia)) as [[_ Hu] ?].
    apply Z.div_lt_upper_bound; [done|]. rewrite <- Z.pow_add_r by lia.
    apply Z.lt_le_trans with (1 := Hu). apply Z.pow_le_mono_r; [lia|].
    unfold e1, SpecFloat.fexp in *. lia. }
  split; [lia|]. destruct (Z.eq_dec e1 emin); [by left|right].
  assert (He1 : e1 = Zdigits2 q + e - prec) by (unfold e1, SpecFloat.fexp in *; lia).
  destruct (Z.eq_dec q 0) as [->|Hq0]; [simpl in He1; lia|].
  pose proof (Zdigits2_bounds q ltac:(lia)) as [[Hl _] ?].
  enough (2 ^ (prec - 1) ≤ m1) by lia.
  apply Z.div_le_lower_bound; [done|]. rewrite <- Z.pow_add_r by lia.
  replace (e1 - e + (prec - 1)) with (Zdigits2 q - 1) by lia. done.
Qed.

(** What the end of [binary_round_aux] makes of a canonical mantissa. *)
Lemma finish_valid s m3 e3 :
  0 ≤ m3 → fexp (Zdigits2 m3 + e3) = e3 →
  valid_binary prec emax
    match m3 with
    | Z0 => S754_zero s
    | Zpos m => if e3 <=? emax - prec then S754_finite s m e3 else S754_infinity s
    | Zneg _ => S754_nan
    end = true.
Proof.
  intros Hm3 Hcan. destruct m3 as [|m3|]; [done| |lia].
  destruct (e3 <=? emax - prec) eqn:Hmax; [|done].
  unfold valid_binary, bounded, canonical_mantissa.
  simpl in Hcan. rewrite Hcan, Z.eqb_refl, Hmax. done.
Qed.

(** A mantissa of at most [2 ^ prec] is canonical once its carry is shifted
    out. *)
Lemma carry_canonical m2 e1 :
  emin ≤ e1 → 0 ≤ m2 ≤ 2 ^ prec → e1 = emin ∨ 2 ^ (prec - 1) ≤ m2 →
  fexp (Zdigits2 (m2 / 2 ^ (fexp (Zdigits2 m2 + e1) - e1)) + fexp (Zdigits2 m2 + e1)) =
  fexp (Zdigits2 m2 + e1).
Proof.
  intros He1 Hrange Hnorm. destruct (Z.eq_dec m2 (2 ^ prec)) as [Htop|Htop].
  - assert (∀ p, 0 ≤ p → Zdigits2 (2 ^ p) = p + 1) as Hpow.
    { intros p Hp. pose proof (Z.pow_pos_nonneg 2 p ltac:(lia) ltac:(lia)).
      apply Z.le_antisymm; [apply Zdigits2_le; [lia..|apply Z.pow_lt_mono_r; lia]|].
      pose proof (Zdigits2_ge (2 ^ p) p); lia. }
    rewrite Htop, Hpow by lia. replace (fexp (prec + 1 + e1)) with (e1 + 1)
      by (unfold SpecFloat.fexp; lia).
    replace (e1 + 1 - e1) with 1 by lia.
    assert (2 ^ prec = 2 ^ (prec - 1) * 2 ^ 1) as -> by (rewrite <- Z.pow_add_r by lia; f_equal; lia).
    rewrite Z.div_mul, Hpow by lia. unfold SpecFloat.fexp. lia.
  - assert (Hd : Zdigits2 m2 ≤ prec) by (apply Zdigits2_le; lia).
    assert (Hf : fexp (Zdigits2 m2 + e1) = e1).
    { destruct Hnorm as [->|Hlow]; [unfold SpecFloat.fexp; lia|].
      assert (prec - 1 < Zdigits2 m2) by (apply Zdigits2_ge; lia). unfold SpecFloat.fexp. lia. }
    rewrite Hf, Z.sub_diag. change (2 ^ 0) with 1. by rewrite Z.div_1_r.
Qed.

Lemma binary_round_aux_valid s q e l :
  0 ≤ q → e ≤ fexp (Zdigits2 q + e) →
  valid_binary prec emax (binary_round_aux prec emax s q e l) = true.
Proof.
  intros Hq He. unfold binary_round_aux.
  pose proof (shr_fexp_m q e l Hq He) as [Hm1 He1].
  destruct (shr_fexp prec emax q e l) as [mrs1 e1]. cbn [fst snd] in *. subst e1.
  rewrite Hm1. set (e1 := fexp (Zdigits2 q + e)) in *.
  set (l1 := loc_of_shr_record mrs1).
  destruct (rounded_range q e l1 _ Hq He eq_refl) as [Hrange Hnorm]. fold e1 in Hrange, Hnorm.
  set (m2 := round_nearest_even _ l1) in *.
  assert (He1 : emin ≤ e1 ∧ (e1 = emin ∨ e1 = Zdigits2 q + e - prec)).
  { unfold e1, SpecFloat.fexp. lia. }
  assert (Hcan2 : e1 ≤ fexp (Zdigits2 m2 + e1)).
  { destruct Hnorm as [->|Hlow]; [unfold SpecFloat.fexp; lia|].
    assert (prec - 1 < Zdigits2 m2) by (apply Zdigits2_ge; lia).
    unfold SpecFloat.fexp. lia. }
  pose proof (shr_fexp_m m2 e1 loc_Exact ltac:(lia) Hcan2) as [Hm3 He3].
  destruct (shr_fexp prec emax m2 e1 loc_Exact) as [mrs3 e3]. cbn [fst snd] in *.
  apply finish_valid.
  - rewrite Hm3. apply Z.div_pos; [lia|]. apply Z.pow_pos_nonneg; lia.
  - rewrite Hm3, He3. apply carry_canonical; [lia|lia|]. tauto.
Qed.

Lemma round_ratio_valid s num den :
  valid_binary prec emax (round_ratio prec emax s num den) = true.
Proof.
  unfold round_ratio, SFdiv_core_binary. simpl Zdigits2.
  set (d1 := Zpos (digits2_pos num)). set (d2 := Zpos (digits2_pos den)).
  rewrite !Z.add_0_r, Z.sub_diag.
  set (e' := Z.min (fexp (d1 - d2)) 0).
  replace (match 0 - e' with
           | Z0 => Zpos num | Zpos _ => Z.shiftl (Zpos num) (0 - e') | Zneg _ => 0
           end) with (Zpos num * 2 ^ (- e')).
  2: { change (0 - e') with (- e'). destruct (- e') as [|p|p] eqn:Hp.
       - simpl. lia.
       - rewrite Z.shiftl_mul_pow2 by lia. done.
       - unfold e' in Hp. lia. }
  pose proof (Z_div_mod (Zpos num * 2 ^ (- e')) (Zpos den) ltac:(lia)) as Hdm.
  destruct (Z.div_eucl _ _) as [q r]. destruct Hdm as [Hdm Hr].
  pose proof (Z.pow_pos_nonneg 2 (- e') ltac:(lia) ltac:(lia)) as Hpow.
  assert (Hq : 0 ≤ q) by nia. apply binary_round_aux_valid; [done|].
  assert (Hdig : d1 - d2 ≤ Zdigits2 q + e').
  { assert (0 ≤ Zdigits2 q) by (destruct q; simpl; lia).
    destruct (Z.leb_spec (d1 - 1 - e' - d2) (-1)); [lia|].
    assert (d1 - 1 - e' - d2 < Zdigits2 q); [|lia].
    apply Zdigits2_ge; [lia|].
    pose proof (digits2_pos_bounds num) as [Hn _]. fold d1 in Hn.
    pose proof (digits2_pos_bounds den) as [_ Hd]. fold d2 in Hd.
    replace q with ((Zpos num * 2 ^ (- e')) / Zpos den)
      by (symmetry; apply Z.div_unique with r; lia).
    apply Z.div_le_lower_bound; [lia|].
    apply Z.le_trans with (2 ^ d2 * 2 ^ (d1 - 1 - e' - d2)).
    - pose proof (Z.pow_pos_nonneg 2 (d1 - 1 - e' - d2) ltac:(lia) ltac:(lia)). nia.
    - rewrite <- Z.pow_add_r by lia.
      replace (d2 + (d1 - 1 - e' - d2)) with (d1 - 1 + - e') by lia.
      rewrite Z.pow_add_r by lia. nia. }
  pose proof (fexp_mono _ _ Hdig). unfold e' in *. lia.
Qed.

Lemma decimal_to_float_valid s d k :
  valid_binary prec emax (decimal_to_float prec emax s d k) = true.
Proof.
  unfold decimal_to_float. destruct (d <=? 0); [done|].
  destruct (0 <=? k); apply round_ratio_valid.
Qed.

(** Whatever parses is a value of the type. *)
Lemma parse_float_valid s x :
  parse_float prec emax s = Some x → valid_binary prec emax x = true.
Proof.
  unfold parse_float. generalize (decimal_to_float_valid).
  destruct (match s with
            | String "+"%char t => (false, t)
            | String "-"%char t => (true, t)
            | _ => (false, s)
            end) as [neg body]. intros Hdec.
  destruct (_ || _); [by intros [= <-]|]. destruct (String.eqb _ _); [by intros [= <-]|].
  unfold parse_number. destruct (span_digits body) as [ip rest].
  destruct (match rest with
            | String "."%char t => span_digits t
            | _ => (EmptyString, rest)
            end) as [fp rest'].
  destruct (ip +:+ fp); [done|]. destruct (parse_exponent rest'); [|done].
  destruct (digits_value _ _ _); [|done]. intros [= <-]. apply Hdec.
Qed.
End Valid.

Lemma parse_f32_valid s x : parse_f32 s = Some x → f32_valid x.
Proof. apply parse_float_valid. lia. Qed.

Lemma parse_f64_valid s x : parse_f64 s = Some x → f64_valid x.
Proof. apply parse_float_valid. lia. Qed.

#[export] Hint Resolve parse_f32_valid parse_f64_valid : emgr.

(** ** The order of floats

Every float but NaN has a key, compared lexicographically. *)
Definition is_nan (x : spec_float) : bool :=
  match x with S754_nan => true | _ => false end.

(** [f32::max]: the other operand when one is NaN. *)
Definition f_max (x y : spec_float) : spec_float :=
  if is_nan x then y else if is_nan y then x else if f_lt x y then y else x.

Definition float_key (x : spec_float) : Z * Z * Z :=
  match x with
  | S754_infinity s => (if s then -2 else 2, 0, 0)
  | S754_finite s m e => if s then (-1, - e, - Zpos m) else (1, e, Zpos m)
  | S754_zero _ | S754_nan => (0, 0, 0)
  end.

Definition key_lt (j k : Z * Z * Z) : Prop :=
  j.1.1 < k.1.1 ∨ (j.1.1 = k.1.1 ∧ (j.1.2 < k.1.2 ∨ (j.1.2 = k.1.2 ∧ j.2 < k.2))).

Lemma SFcompare_key x y :
  is_nan x = false → is_nan y = false →
  match SFcompare x y with
  | Some Lt => key_lt (float_key x) (float_key y)
  | Some Eq => float_key x = float_key y
  | Some Gt => key_lt (float_key y) (float_key x)
  | None => False
  end.
Proof.
  intros Hx Hy. unfold key_lt.
  destruct x as [sx|sx| |sx mx ex], y as [sy|sy| |sy my ey]; try done; simpl;
    try (destruct sx); try (destruct sy); simpl; try lia; try done.
  all: change (Pos.compare_cont Eq mx my) with (Pos.compare mx my).
  all: destruct (Z.compare_spec ex ey) as [->|H|H]; try lia.
  all: destruct (Pos.compare_spec mx my) as [->|H|H]; simpl; try lia; done.
Qed.

Lemma f_lt_key x y :
  f_lt x y = true ↔ is_nan x = false ∧ is_nan y = false ∧ key_lt (float_key x) (float_key y).
Proof.
  unfold f_lt, SFltb. destruct (is_nan x) eqn:Hx; [destruct x; try done; simpl; intuition done|].
  destruct (is_nan y) eqn:Hy; [destruct x as [| | |], y; try done; simpl; intuition done|].
  pose proof (SFcompare_key x y Hx Hy) as H. destruct (SFcompare x y) as [[]|]; [| | |done];
    split; try done; intros (_ & _ & H'); try rewrite H in H'; unfold key_lt in *; lia.
Qed.

Lemma f_le_key x y :
  f_le x y = true ↔
  is_nan x = false ∧ is_nan y = false ∧ ¬ key_lt (float_key y) (float_key x).
Proof.
  unfold f_le, SFleb. destruct (is_nan x) eqn:Hx; [destruct x; try done; simpl; intuition done|].
  destruct (is_nan y) eqn:Hy; [destruct x as [| | |], y; try done; simpl; intuition done|].
  pose proof (SFcompare_key x y Hx Hy) as H. destruct (SFcompare x y) as [[]|]; [| | |done];
    split; try done; intros; repeat split; try rewrite H; unfold key_lt in *; try lia.
  all: destruct_and?; try tauto.
Qed.

Lemma f_gt_lt x y : f_gt x y = f_lt y x.
Proof. done. Qed.

Lemma f_ge_le x y : f_ge x y = f_le y x.
Proof. done. Qed.

Lemma f_le_refl x : is_nan x = false → f_le x x = true.
Proof. intros Hx. apply f_le_key. unfold key_lt. split_and!; [done|done|lia]. Qed.

Lemma f_le_trans x y z : f_le x y = true → f_le y z = true → f_le x z = true.
Proof.
  rewrite !f_le_key. intros (Hx & Hy & H1) (_ & Hz & H2). split_and!; [done|done|].
  unfold key_lt in *. lia.
Qed.

Lemma f_lt_le_trans x y z : f_lt x y = true → f_le y z = true → f_lt x z = true.
Proof.
  rewrite !f_lt_key, f_le_key. intros (Hx & Hy & H1) (_ & Hz & H2). split_and!; [done|done|].
  unfold key_lt in *. lia.
Qed.

Lemma f_lt_not_le x y : is_nan x = false → is_nan y = false → f_lt x y = negb (f_le y x).
Proof.
  intros Hx Hy. apply eq_iff_eq_true. rewrite negb_true_iff, <- not_true_iff_false.
  rewrite f_lt_key, f_le_key, Hx, Hy. unfold key_lt. split; [intros (_ & _ & H)|intros H]; [lia|].
  split_and!; [done..|lia].
Qed.

Lemma f_max_le x y z :
  is_nan x = false → is_nan y = false →
  (f_le z (f_max x y) = true ↔ f_le z x = true ∨ f_le z y = true).
Proof.
  intros Hx Hy. unfold f_max. rewrite Hx, Hy. destruct (f_lt x y) eqn:H.
  - split; [by right|]. intros [Hz|]; [|done]. apply f_lt_key in H. apply f_le_key in Hz.
    apply f_le_key. unfold key_lt in *. split_and!; [tauto..|lia].
  - split; [by left|]. intros [|Hz]; [done|]. apply not_true_iff_false in H.
    apply f_le_key in Hz. apply f_le_key. rewrite f_lt_key in H. destruct Hz as (? & ? & ?).
    assert (¬ key_lt (float_key x) (float_key y)) by tauto.
    unfold key_lt in *. split_and!; [done..|]. lia.
Qed.
