(* ===== verification/FloatError.v ===== *)
(** * Rounding errors

[f64] arithmetic as the sources use it, and how far a rounded result can be
from the exact one: the relative error of one operation is at most [2^-53].
The image geometry divides, multiplies and rounds 32-bit dimensions; these
lemmas are what makes its results exact. *)
From Stdlib Require Import QArith Qpower Lqa.
From S2P Require Import Prelude RustStr RustFloat.

Local Open Scope Z_scope.

(** ** Conversions and arithmetic *)

(** [f64::from] an unsigned integer, and an [f32]. *)
Definition f64_of_uint (n : Z) : spec_float := binary_normalize 53 1024 n 0 false.
Definition f64_of_f32 (x : spec_float) : spec_float :=
  match x with
  | S754_finite s m e => binary_round 53 1024 s m e
  | _ => x
  end.

Definition f64_add : spec_float → spec_float → spec_float := SFadd 53 1024.
Definition f64_sub : spec_float → spec_float → spec_float := SFsub 53 1024.
Definition f64_mul : spec_float → spec_float → spec_float := SFmul 53 1024.
Definition f64_div : spec_float → spec_float → spec_float := SFdiv 53 1024.

(** [f64::min]: the other operand when one is NaN. *)
Definition f_min (x y : spec_float) : spec_float :=
  if is_nan x then y else if is_nan y then x else if f_lt y x then y else x.

(** [clamp]: NaN stays NaN. *)
Definition f_clamp (lo hi x : spec_float) : spec_float :=
  let x := if f_lt x lo then lo else x in
  if f_gt x hi then hi else x.

(** [m * 2 ^ e] rounded down, and up. *)
Definition floor_mag (m : positive) (e : Z) : Z :=
  if 0 <=? e then Zpos m * 2 ^ e else Zpos m / 2 ^ (- e).
Definition ceil_mag (m : positive) (e : Z) : Z :=
  if 0 <=? e then Zpos m * 2 ^ e else - (- Zpos m / 2 ^ (- e)).

(** [x.floor() as uN], [x.ceil() as uN] and [x as uN]: casts saturate and send
    NaN to zero. *)
Definition floor_as_uint (max : Z) (x : spec_float) : Z :=
  match x with
  | S754_finite false m e => Z.min max (floor_mag m e)
  | S754_infinity false => max
  | _ => 0
  end.
Definition ceil_as_uint (max : Z) (x : spec_float) : Z :=
  match x with
  | S754_finite false m e => Z.min max (ceil_mag m e)
  | S754_infinity false => max
  | _ => 0
  end.

(** [x.round().max(1.0) as uN]. *)
Definition round_max1_as_uint (max : Z) (x : spec_float) : Z := Z.max 1 (round_as_uint max x).

(** [x.round() as iN]. *)
Definition round_as_int (max : Z) (x : spec_float) : Z :=
  match x with
  | S754_finite s m e =>
      let v := cond_Zopp s (round_mag m e) in Z.max (- max - 1) (Z.min max v)
  | S754_infinity s => if s then - max - 1 else max
  | _ => 0
  end.

Example f64_third : f64_div (f64_of_uint 1) (f64_of_uint 3) = S754_finite false 6004799503160661 (-54).
Proof. reflexivity. Qed.
Example f64_round_half : round_as_uint u32_max (f64_div (f64_of_uint 5) (f64_of_uint 2)) = 3.
Proof. reflexivity. Qed.

(** ** What a shifted mantissa remembers

A shift record stands for the quotient [N / D]: its mantissa is the floor,
its two bits say where in the unit interval the remainder lies. *)
Definition rep (r : shr_record) (N D : Z) : Prop :=
  let f := N - shr_m r * D in
  match shr_r r, shr_s r with
  | false, false => f = 0
  | false, true => 0 < 2 * f < D
  | true, false => 2 * f = D
  | true, true => D < 2 * f < 2 * D
  end.

Lemma rep_shr_1 r N D : 0 < D → 0 ≤ shr_m r → rep r N D → rep (shr_1 r) N (2 * D).
Proof.
  intros HD Hm. destruct r as [m rb sb]. unfold rep. simpl in Hm |- *.
  destruct m as [|[p|p|]|p]; [| | | |lia]; simpl;
    destruct rb, sb; simpl; try rewrite (Pos2Z.inj_xI p); try rewrite (Pos2Z.inj_xO p); nia.
Qed.

Lemma shr_1_nonneg r : 0 ≤ shr_m r → 0 ≤ shr_m (shr_1 r).
Proof. destruct r as [[|[p|p|]|p] rb sb]; simpl; lia. Qed.

Lemma rep_iter n r N D :
  0 < D → 0 ≤ shr_m r → rep r N D →
  rep (Nat.iter n shr_1 r) N (D * 2 ^ Z.of_nat n).
Proof.
  intros HD. revert r. induction n as [|n IH]; intros r Hm Hr.
  - change (2 ^ Z.of_nat 0) with 1. by rewrite Z.mul_1_r.
  - rewrite Nat2Z.inj_succ, Z.pow_succ_r by lia.
    replace (D * (2 * 2 ^ Z.of_nat n)) with (2 * (D * 2 ^ Z.of_nat n)) by ring.
    simpl Nat.iter. apply rep_shr_1; [|clear IH|by apply IH].
    + pose proof (Z.pow_pos_nonneg 2 (Z.of_nat n) ltac:(lia) ltac:(lia)). nia.
    + clear Hr. induction n as [|n IHn]; [done|]. simpl. by apply shr_1_nonneg.
Qed.

(** Rounding to nearest is off by at most half a unit. *)
Lemma nearest_error r N D :
  0 < D → rep r N D →
  2 * Z.abs (round_nearest_even (shr_m r) (loc_of_shr_record r) * D - N) ≤ D.
Proof.
  intros HD. destruct r as [m [|] [|]]; unfold rep; simpl; intros Hf;
    try destruct (Z.even m); lia.
Qed.

Section Error.
Context (prec emax : Z).
Hypothesis prec_gt_0 : 0 < prec.

#[local] Abbreviation fexp := (fexp prec emax).
#[local] Abbreviation emin := (emin prec emax).

Lemma shr_fexp_rep q e l N D :
  0 < D → 0 ≤ q → rep (shr_record_of_loc q l) N D → e ≤ fexp (Zdigits2 q + e) →
  rep (shr_fexp prec emax q e l).1 N (D * 2 ^ (fexp (Zdigits2 q + e) - e)).
Proof.
  intros HD Hq Hr He. unfold shr_fexp, shr.
  destruct (fexp (Zdigits2 q + e) - e) as [|n|n] eqn:Hn; [| |lia].
  - change (2 ^ 0) with 1. by rewrite Z.mul_1_r.
  - rewrite iter_pos_nat. cbn [fst].
    replace (Zpos n) with (Z.of_nat (Pos.to_nat n)) by apply positive_nat_Z.
    apply rep_iter; [done| |done]. by destruct l as [|[]].
Qed.

(** A mantissa rounded up to [2 ^ prec] is even: the carry shifts it exactly. *)
Lemma carry_normal m2 e1 :
  emin ≤ e1 → 2 ^ (prec - 1) ≤ m2 ≤ 2 ^ prec →
  ∃ m e', Zpos m * 2 ^ (e' - e1) = m2 ∧ e1 ≤ e' ≤ e1 + 1
    ∧ Zpos (digits2_pos m) = prec
    ∧ shr_fexp prec emax m2 e1 loc_Exact = (Build_shr_record (Zpos m) false false, e').
Proof.
  intros Hemin Hm2.
  assert (Hdbl : 2 ^ prec = 2 ^ (prec - 1) * 2) by (rewrite Z.mul_comm, <- Z.pow_succ_r by lia; f_equal; lia).
  assert (Hp1 : 0 < 2 ^ (prec - 1)) by (apply Z.pow_pos_nonneg; lia).
  assert (∃ m e', Zpos m * 2 ^ (e' - e1) = m2 ∧ e1 ≤ e' ≤ e1 + 1
            ∧ Zpos (digits2_pos m) = prec) as (m & e' & H1 & H2 & H3).
  { destruct (Z.eq_dec m2 (2 ^ prec)) as [Htop|Htop].
    - exists (Z.to_pos (2 ^ (prec - 1))), (e1 + 1). replace (e1 + 1 - e1) with 1 by lia.
      rewrite Z2Pos.id by lia. split_and!; [lia|lia|lia|].
      apply digits2_unique; [lia|]. rewrite Z2Pos.id by lia. lia.
    - exists (Z.to_pos m2), e1. rewrite Z.sub_diag, Z2Pos.id by lia.
      split_and!; [lia|lia|lia|]. apply digits2_unique; [lia|]. rewrite Z2Pos.id; lia. }
  exists m, e'. split_and!; [done|lia|lia|done|]. apply shr_fexp_exact; [lia|done|].
  apply Z.eqb_eq. rewrite H3. unfold SpecFloat.fexp. lia.
Qed.

(** A mantissa of at least [prec] digits, away from underflow and overflow,
    rounds to a normal float with a relative error of at most [2 ^ - prec]
    against the exact [N / D * 2 ^ e]. *)
Lemma round_aux_normal s q e l N D :
  0 < D → 0 < q → rep (shr_record_of_loc q l) N D → prec ≤ Zdigits2 q →
  emin ≤ Zdigits2 q + e - prec → Zdigits2 q + e < emax →
  ∃ m e', binary_round_aux prec emax s q e l = S754_finite s m e'
    ∧ Zpos (digits2_pos m) = prec
    ∧ Zdigits2 q + e - prec ≤ e' ≤ Zdigits2 q + e - prec + 1
    ∧ Z.abs (Zpos m * 2 ^ (e' - e) * D - N) * 2 ^ prec ≤ N.
Proof.
  intros HD Hq Hrep Hdig Hemin Hemax.
  assert (He1 : fexp (Zdigits2 q + e) = Zdigits2 q + e - prec) by (unfold SpecFloat.fexp; lia).
  assert (He : e ≤ fexp (Zdigits2 q + e)) by lia.
  unfold binary_round_aux.
  pose proof (shr_fexp_m prec emax q e l ltac:(lia) He) as [Hm1 Hs1].
  pose proof (shr_fexp_rep q e l N D HD ltac:(lia) Hrep He) as Hrep1.
  destruct (shr_fexp prec emax q e l) as [mrs1 e1]. cbn [fst snd] in *. subst e1.
  rewrite He1 in *. set (e1 := Zdigits2 q + e - prec) in *.
  assert (Hlow : 2 ^ (prec - 1) ≤ shr_m mrs1 < 2 ^ prec).
  { rewrite Hm1. pose proof (Zdigits2_bounds q Hq) as [[Hl Hu] _].
    pose proof (Z.pow_pos_nonneg 2 (e1 - e) ltac:(lia) ltac:(lia)). split.
    - apply Z.div_le_lower_bound; [done|]. rewrite <- Z.pow_add_r by lia.
      by replace (e1 - e + (prec - 1)) with (Zdigits2 q - 1) by lia.
    - apply Z.div_lt_upper_bound; [done|]. rewrite <- Z.pow_add_r by lia.
      by replace (e1 - e + prec) with (Zdigits2 q) by lia. }
  pose proof (Z.pow_pos_nonneg 2 (e1 - e) ltac:(lia) ltac:(lia)) as Hpow.
  pose proof (nearest_error mrs1 N (D * 2 ^ (e1 - e)) ltac:(nia) Hrep1) as Herr.
  set (m2 := round_nearest_even _ _) in *.
  assert (Hm2 : 2 ^ (prec - 1) ≤ m2 ≤ 2 ^ prec).
  { subst m2. unfold round_nearest_even. destruct (loc_of_shr_record mrs1) as [|[]]; [lia| |lia..].
    destruct (Z.even (shr_m mrs1)); lia. }
  destruct (carry_normal m2 e1) as (m & e' & Hval & He' & Hdm & ->); [lia|done|]. simpl.
  exists m, e'. rewrite (proj2 (Z.leb_le _ _)) by lia. split_and!; [done|done|lia|lia|].
  replace (e' - e) with ((e' - e1) + (e1 - e)) by lia.
  rewrite Z.pow_add_r, Z.mul_assoc, Hval by lia.
  replace (m2 * 2 ^ (e1 - e) * D) with (m2 * (D * 2 ^ (e1 - e))) by ring.
  assert (HqN : q * D ≤ N).
  { clear - Hrep HD. unfold rep in Hrep. destruct l as [|[]]; simpl in Hrep; lia. }
  pose proof (Zdigits2_bounds q Hq) as [[Hl _] _].
  assert (Hp : 2 ^ (e1 - e) * 2 ^ prec = 2 * 2 ^ (Zdigits2 q - 1)).
  { rewrite <- Z.pow_add_r, <- Z.pow_succ_r by lia. f_equal. lia. }
  set (err := Z.abs _) in *.
  assert (2 * err * 2 ^ prec ≤ D * (2 ^ (e1 - e) * 2 ^ prec)) by nia.
  rewrite Hp in *. nia.
Qed.
End Error.

(** ** Values as rationals *)

Definition fq (m : positive) (e : Z) : Q := (inject_Z (Zpos m) * 2 ^ e)%Q.

Definition fval (x : spec_float) : Q :=
  match x with
  | S754_finite s m e => if s then - fq m e else fq m e
  | _ => 0
  end%Q.

(** The unit roundoff of [f64], [2 ^ -53]. *)
Definition ulp : Q := 1 # 9007199254740992.

(** [x] is the exact [v] up to one rounding. *)
Definition near (x v : Q) : Prop := (v - v * ulp <= x /\ x <= v + v * ulp)%Q.

#[export] Instance near_proper : Proper (Qeq ==> Qeq ==> iff) near.
Proof. intros x x' Hx v v' Hv. unfold near. by rewrite Hx, Hv. Qed.

(** A positive normal [f64] with its exponent between bounds. *)
Definition pos_in (lo hi : Z) (x : spec_float) : Prop :=
  ∃ m e, x = S754_finite false m e ∧ Zpos (digits2_pos m) = 53 ∧ lo ≤ e ≤ hi.

Lemma pow2_pos e : (0 < 2 ^ e)%Q.
Proof. by apply Qpower_0_lt. Qed.

Lemma pow2_add a b : (2 ^ (a + b) == 2 ^ a * 2 ^ b)%Q.
Proof. by apply Qpower_plus. Qed.

Lemma pow2_inject n : 0 ≤ n → (inject_Z (2 ^ n) == 2 ^ n)%Q.
Proof. intros Hn. by rewrite Zpower_Qpower. Qed.

Lemma inject_pos n : 0 < n → (0 < inject_Z n)%Q.
Proof. intros Hn. unfold Qlt, inject_Z. simpl. lia. Qed.

Lemma fq_pos m e : (0 < fq m e)%Q.
Proof.
  unfold fq. pose proof (pow2_pos e). rewrite <- (Qmult_0_l (2 ^ e)).
  apply Qmult_lt_compat_r; [done|]. by apply inject_pos.
Qed.

(** The integer error bound, read as rationals. *)
Lemma near_of_error m e' e N D v :
  0 < D → 0 < N → e ≤ e' → Z.abs (Zpos m * 2 ^ (e' - e) * D - N) * 2 ^ 53 ≤ N →
  (v * inject_Z D == inject_Z N * 2 ^ e)%Q → near (fq m e') v.
Proof.
  intros HD HN He Herr Hv.
  assert (Hfq : (fq m e' * inject_Z D == inject_Z (Zpos m * 2 ^ (e' - e) * D) * 2 ^ e)%Q).
  { unfold fq. rewrite !inject_Z_mult, pow2_inject by lia.
    replace e' with ((e' - e) + e) at 1 by lia. rewrite pow2_add. ring. }
  set (X := Zpos m * 2 ^ (e' - e) * D) in *.
  assert (HlX : (inject_Z N - inject_Z N * ulp <= inject_Z X)%Q
                ∧ (inject_Z X <= inject_Z N + inject_Z N * ulp)%Q).
  { assert (Hup : inject_Z N * ulp == N # 9007199254740992) by (unfold ulp, inject_Z, Qeq; simpl; lia).
    rewrite Hup. unfold Qle, Qminus, Qplus, Qopp, inject_Z; simpl. lia. }
  pose proof (inject_pos D HD).
  pose proof (pow2_pos e) as Hp.
  unfold near. split; apply (Qmult_le_r _ _ (inject_Z D)); try done; rewrite Hfq.
  - assert (Heq : ((v - v * ulp) * inject_Z D == (inject_Z N - inject_Z N * ulp) * 2 ^ e)%Q)
      by (transitivity ((v * inject_Z D) * (1 - ulp))%Q; [ring|rewrite Hv; ring]).
    rewrite Heq. apply Qmult_le_compat_r; [tauto|lra].
  - assert (Heq : ((v + v * ulp) * inject_Z D == (inject_Z N + inject_Z N * ulp) * 2 ^ e)%Q)
      by (transitivity ((v * inject_Z D) * (1 + ulp))%Q; [ring|rewrite Hv; ring]).
    rewrite Heq. apply Qmult_le_compat_r; [tauto|lra].
Qed.

(** One multiplication, and one division, of positive normal floats. *)
Lemma f64_mul_near x y lo hi lo' hi' :
  pos_in lo hi x → pos_in lo' hi' y → -1000 ≤ lo + lo' → hi + hi' ≤ 900 →
  pos_in (lo + lo' + 52) (hi + hi' + 54) (f64_mul x y) ∧ near (fval (f64_mul x y)) (fval x * fval y).
Proof.
  intros (m & e & -> & Hm & He) (m' & e' & -> & Hm' & He') Hlo Hhi.
  pose proof (digits2_pos_bounds m) as Hb. pose proof (digits2_pos_bounds m') as Hb'.
  rewrite Hm in Hb. rewrite Hm' in Hb'. change (2 ^ (53 - 1)) with 4503599627370496 in *.
  assert (Hd : 105 ≤ Zdigits2 (Zpos (m * m')) ≤ 106).
  { split; [assert (104 < Zdigits2 (Zpos (m * m'))); [|lia]; apply Zdigits2_ge|apply Zdigits2_le];
      try lia; rewrite Pos2Z.inj_mul; simpl; nia. }
  unfold f64_mul, SFmul. simpl xorb.
  destruct (round_aux_normal 53 1024 ltac:(lia) false (Zpos (m * m')) (e + e') loc_Exact
              (Zpos (m * m')) 1) as (r & er & -> & Hr & Her & Herr);
    [lia|lia|unfold rep; simpl; lia|lia|unfold emin; lia|lia|]. split.
  - exists r, er. split_and!; [done|done|lia|lia].
  - simpl fval. eapply (near_of_error _ _ (e + e') (Zpos (m * m')) 1); [lia|lia|lia|exact Herr|].
    unfold fq. rewrite Pos2Z.inj_mul, inject_Z_mult, pow2_add. ring.
Qed.

Lemma f64_div_near x y lo hi lo' hi' :
  pos_in lo hi x → pos_in lo' hi' y → -900 ≤ lo - hi' → hi - lo' ≤ 900 →
  pos_in (lo - hi' - 53) (hi - lo' - 51) (f64_div x y) ∧ near (fval (f64_div x y)) (fval x / fval y).
Proof.
  intros (m & e & -> & Hm & He) (m' & e' & -> & Hm' & He') Hlo Hhi.
  pose proof (digits2_pos_bounds m) as Hb. pose proof (digits2_pos_bounds m') as Hb'.
  rewrite Hm in Hb. rewrite Hm' in Hb'. change (2 ^ (53 - 1)) with 4503599627370496 in *.
  unfold f64_div, SFdiv, SFdiv_core_binary. simpl Zdigits2. simpl xorb. rewrite Hm, Hm'.
  assert (Hex : Z.min (fexp 53 1024 (53 + e - (53 + e'))) (e - e') = e - e' - 53)
    by (unfold fexp, emin; lia).
  rewrite Hex. replace (e - e' - (e - e' - 53)) with 53 by lia. cbn [Z.shiftl].
  rewrite Z.shiftl_mul_pow2 by lia.
  pose proof (Z_div_mod (Zpos m * 2 ^ 53) (Zpos m') ltac:(lia)) as Hdm.
  destruct (Z.div_eucl _ _) as [q r]. destruct Hdm as [Hdm Hr].
  change (2 ^ 53) with 9007199254740992 in *.
  assert (Hq : 4503599627370496 ≤ q < 2 * 9007199254740992) by nia.
  assert (Hd : 53 ≤ Zdigits2 q ≤ 54).
  { split; [assert (52 < Zdigits2 q); [|lia]; apply Zdigits2_ge|apply Zdigits2_le]; try lia;
      simpl; lia. }
  destruct (round_aux_normal 53 1024 ltac:(lia) false q (e - e' - 53) (new_location (Zpos m') r)
              (Zpos m * 9007199254740992) (Zpos m')) as (f & ef & Hf & Hdf & Hef & Herr);
    [lia|lia| |lia|unfold emin; lia|lia|].
  { unfold rep. rewrite Hdm. unfold new_location, new_location_even, new_location_odd.
    destruct (Z.even (Zpos m')) eqn:Hev; (destruct (Z.eqb_spec r 0) as [->|Hr0]; [simpl; lia|]).
    - destruct (Z.compare_spec (2 * r) (Zpos m')); simpl; lia.
    - assert (2 * r ≠ Zpos m') by (intros Heq; rewrite <- Heq, Z.even_mul in Hev; done).
      destruct (Z.compare_spec (2 * r + 1) (Zpos m')); simpl; lia. }
  rewrite Hf. split.
  - exists f, ef. split_and!; [done|done|lia|lia].
  - simpl fval. eapply (near_of_error _ _ (e - e' - 53) (Zpos m * 9007199254740992) (Zpos m'));
      [lia|lia|lia|exact Herr|].
    unfold fq. rewrite inject_Z_mult. change 9007199254740992 with (2 ^ 53).
    rewrite pow2_inject by lia. pose proof (inject_pos (Zpos m') ltac:(lia)). pose proof (pow2_pos e').
    rewrite <- (Qmult_assoc (inject_Z (Zpos m))).
    assert (Hsplit : (2 ^ e == 2 ^ e' * (2 ^ 53 * 2 ^ (e - e' - 53)))%Q).
    { rewrite <- !pow2_add. by replace (e' + (53 + (e - e' - 53))) with e by lia. }
    rewrite Hsplit. field. split; lra.
Qed.

(** ** Exact conversions *)

Lemma iter_xO m k : Zpos (Pos.iter xO m k) = Zpos m * 2 ^ Zpos k.
Proof.
  induction k as [|k IH] using Pos.peano_ind; [simpl; lia|].
  rewrite Pos.iter_succ, Pos2Z.inj_succ, Z.pow_succ_r by lia. rewrite Pos2Z.inj_xO, IH. ring.
Qed.

(** Widening a mantissa to 53 digits is exact. *)
Lemma binary_round_widen s m e :
  Zpos (digits2_pos m) ≤ 53 → -1000 ≤ e → e ≤ 900 →
  ∃ m' e', binary_round 53 1024 s m e = S754_finite s m' e' ∧ Zpos (digits2_pos m') = 53
    ∧ e' = Zpos (digits2_pos m) + e - 53
    ∧ Zpos m' = Zpos m * 2 ^ (53 - Zpos (digits2_pos m)) ∧ (fq m' e' == fq m e)%Q.
Proof.
  intros Hd Hlo Hhi. unfold binary_round, shl_align.
  assert (Hf : fexp 53 1024 (Zpos (digits2_pos m) + e) = Zpos (digits2_pos m) + e - 53)
    by (unfold fexp, emin; lia).
  rewrite Hf. set (d := Zpos (digits2_pos m)) in *.
  set (m' := match d + e - 53 - e with Zneg k => Pos.iter xO m k | _ => m end).
  assert (Hm' : Zpos m' = Zpos m * 2 ^ (53 - d)).
  { unfold m'. replace (d + e - 53 - e) with (- (53 - d)) by lia.
    destruct (53 - d) as [|k|k] eqn:Hk; [simpl; lia| |lia]. simpl Z.opp. cbv iota. apply iter_xO. }
  assert (Hdm' : Zpos (digits2_pos m') = 53).
  { rewrite (digits2_shift m (53 - d)) by (done || lia). unfold d. lia. }
  assert (Hz : (match d + e - 53 - e with Zneg k => (Pos.iter xO m k, d + e - 53) | _ => (m, e) end)
               = (m', d + e - 53)).
  { unfold m'. destruct (d + e - 53 - e) as [|k|k] eqn:Hk; [f_equal; lia|lia|done]. }
  rewrite Hz. exists m', (d + e - 53). split_and!; [|done|done|done|].
  - apply binary_round_aux_exact; [lia|by rewrite Z.sub_diag, Z.mul_1_r|].
    unfold bounded, canonical_mantissa. rewrite Hdm'. unfold fexp, emin.
    apply andb_true_iff. split; [apply Z.eqb_eq; lia|apply Z.leb_le; lia].
  - unfold fq. rewrite Hm', inject_Z_mult, pow2_inject, <- Qmult_assoc, <- pow2_add by lia.
    by replace (53 - d + (d + e - 53)) with e by lia.
Qed.

Lemma f64_of_uint_exact n :
  0 < n < 2 ^ 32 → pos_in (-52) (-21) (f64_of_uint n) ∧ (fval (f64_of_uint n) == inject_Z n)%Q.
Proof.
  intros Hn. destruct n as [|p|p]; [lia| |lia]. unfold f64_of_uint, binary_normalize.
  assert (Hd : 1 ≤ Zpos (digits2_pos p) ≤ 32).
  { split; [lia|]. apply (Zdigits2_le (Zpos p)); lia. }
  destruct (binary_round_widen false p 0) as (m & e & -> & Hm & He & _ & Hv); [lia..|]. split.
  - exists m, e. split_and!; [done|done|lia|lia].
  - simpl fval. rewrite Hv. unfold fq. change (2 ^ 0)%Q with 1%Q. ring.
Qed.

(** A positive finite [f32]. *)
Definition f32_positive (x : spec_float) : Prop :=
  f32_valid x ∧ ∃ m e, x = S754_finite false m e.

Lemma f64_of_f32_exact x :
  f32_positive x → pos_in (-201) 75 (f64_of_f32 x) ∧ (fval (f64_of_f32 x) == fval x)%Q.
Proof.
  intros [Hv (m & e & ->)]. unfold f32_valid, valid_binary, bounded, canonical_mantissa in Hv.
  apply andb_true_iff in Hv as [Hc%Z.eqb_eq Hmax%Z.leb_le]. unfold fexp, emin in Hc.
  unfold f64_of_f32.
  destruct (binary_round_widen false m e) as (m' & e' & -> & Hm & He & _ & Hv); [lia..|]. split.
  - exists m', e'. split_and!; [done|done|lia|lia].
  - by simpl fval.
Qed.

(** ** Order and integer rounding *)

Lemma pos_in_lt x y lo hi lo' hi' :
  pos_in lo hi x → pos_in lo' hi' y → f_lt x y = true ↔ (fval x < fval y)%Q.
Proof.
  intros (m & e & -> & Hm & _) (m' & e' & -> & Hm' & _). unfold f_lt, SFltb. simpl.
  change (Pos.compare_cont Eq m m') with (Pos.compare m m').
  pose proof (digits2_pos_bounds m) as Hb. pose proof (digits2_pos_bounds m') as Hb'.
  rewrite Hm in Hb. rewrite Hm' in Hb'. change (2 ^ (53 - 1)) with 4503599627370496 in *.
  change (2 ^ 53) with 9007199254740992 in *.
  assert (Hsmall : ∀ p q a b, 4503599627370496 ≤ Zpos q → Zpos p < 9007199254740992 →
            a < b → (fq p a < fq q b)%Q).
  { intros p q a b Hq Hp Hab. unfold fq. replace b with (a + (b - a)) by lia.
    rewrite pow2_add, Qmult_comm, (Qmult_comm (inject_Z (Zpos q))), <- Qmult_assoc.
    apply Qmult_lt_l; [apply pow2_pos|]. rewrite <- pow2_inject, <- inject_Z_mult, <- Zlt_Qlt by lia.
    pose proof (Z.pow_le_mono_r 2 1 (b - a) ltac:(lia) ltac:(lia)). nia. }
  destruct (Z.compare_spec e e') as [->|He|He].
  - assert (Hiff : (fq m e' < fq m' e')%Q ↔ Zpos m < Zpos m').
    { unfold fq. rewrite (Qmult_lt_r _ _ (2 ^ e')) by apply pow2_pos. by rewrite <- Zlt_Qlt. }
    destruct (Pos.compare_spec m m') as [->|H|H]; rewrite Hiff; split; try done; lia.
  - split; [|done]. intros _. apply Hsmall; lia.
  - split; [done|]. intros H. pose proof (Hsmall m' m e' e ltac:(lia) ltac:(lia) He). lra.
Qed.

Lemma f_min_pos x y lo hi :
  pos_in lo hi x → pos_in lo hi y →
  (f_min x y = x ∧ (fval x <= fval y)%Q) ∨ (f_min x y = y ∧ (fval y <= fval x)%Q).
Proof.
  intros Hx Hy. pose proof (pos_in_lt y x lo hi lo hi Hy Hx) as Hlt.
  pose proof Hx as (m & e & Ex & _). pose proof Hy as (m' & e' & Ey & _).
  unfold f_min. rewrite Ex, Ey. simpl is_nan. cbv iota. rewrite <- Ex, <- Ey.
  destruct (f_lt y x) eqn:H; [right|left]; split; try done.
  - pose proof (proj1 Hlt eq_refl). lra.
  - apply Qnot_lt_le. intros Hlt'. apply Hlt in Hlt'. done.
Qed.

Lemma f_max_pos x y lo hi :
  pos_in lo hi x → pos_in lo hi y →
  (f_max x y = x ∧ (fval y <= fval x)%Q) ∨ (f_max x y = y ∧ (fval x <= fval y)%Q).
Proof.
  intros Hx Hy. pose proof (pos_in_lt x y lo hi lo hi Hx Hy) as Hlt.
  pose proof Hx as (m & e & Ex & _). pose proof Hy as (m' & e' & Ey & _).
  unfold f_max. rewrite Ex, Ey. simpl is_nan. cbv iota. rewrite <- Ex, <- Ey.
  destruct (f_lt x y) eqn:H; [right|left]; split; try done.
  - pose proof (proj1 Hlt eq_refl). lra.
  - apply Qnot_lt_le. intros Hlt'. apply Hlt in Hlt'. done.
Qed.

Lemma fq_neg_exp m e : e < 0 → (fq m e * inject_Z (2 ^ (- e)) == inject_Z (Zpos m))%Q.
Proof.
  intros He. unfold fq. rewrite pow2_inject, <- Qmult_assoc, <- pow2_add by lia.
  replace (e + - e) with 0 by lia. change (2 ^ 0)%Q with 1%Q. ring.
Qed.

Lemma fq_nonneg_exp m e : 0 ≤ e → (fq m e == inject_Z (Zpos m * 2 ^ e))%Q.
Proof. intros He. unfold fq. by rewrite inject_Z_mult, pow2_inject. Qed.

(** [round] is the integer within a half, [ceil] the least one above. *)
Lemma round_mag_spec m e :
  (inject_Z (round_mag m e) <= fq m e + (1 # 2) /\ fq m e + (1 # 2) < inject_Z (round_mag m e) + 1)%Q.
Proof.
  unfold round_mag. destruct (Z.leb_spec 0 e) as [He|He].
  { rewrite (fq_nonneg_exp m e He). lra. }
  pose proof (fq_neg_exp m e He) as Hv. set (p := 2 ^ (- e)) in *.
  assert (Hp : p = 2 * 2 ^ (- e - 1)) by (unfold p; rewrite <- Z.pow_succ_r by lia; f_equal; lia).
  assert (0 < p) by (unfold p; apply Z.pow_pos_nonneg; lia).
  set (h := 2 ^ (- e - 1)) in *.
  pose proof (Z_div_mod (Zpos m + h) p ltac:(lia)) as Hdm. unfold Z.div.
  destruct (Z.div_eucl (Zpos m + h) p) as [k r]. destruct Hdm as [Hdm Hr].
  pose proof (inject_pos p ltac:(lia)) as HpQ.
  assert (Hh : (inject_Z h == inject_Z p * (1 # 2))%Q).
  { rewrite Hp, inject_Z_mult. change (inject_Z 2) with 2%Q. field. }
  assert (Hm : (inject_Z (Zpos m) == inject_Z p * inject_Z k + inject_Z r - inject_Z p * (1 # 2))%Q).
  { rewrite <- Hh, <- inject_Z_mult, <- inject_Z_plus, <- Hdm, inject_Z_plus. ring. }
  assert (0 <= inject_Z r)%Q by (unfold Qle, inject_Z; simpl; lia).
  assert (inject_Z r < inject_Z p)%Q by (rewrite <- Zlt_Qlt; lia).
  rewrite <- Hv in Hm. split; [apply (Qmult_lt_0_le_reg_r _ _ _ HpQ)|apply (Qmult_lt_r _ _ _ HpQ)]; lra.
Qed.

Lemma ceil_mag_ge m e : (fq m e <= inject_Z (ceil_mag m e))%Q.
Proof.
  unfold ceil_mag. destruct (Z.leb_spec 0 e) as [He|He].
  { rewrite (fq_nonneg_exp m e He). lra. }
  pose proof (fq_neg_exp m e He) as Hv. set (p := 2 ^ (- e)) in *.
  assert (0 < p) by (unfold p; apply Z.pow_pos_nonneg; lia).
  apply (Qmult_le_r _ _ (inject_Z p)); [by apply inject_pos|].
  rewrite Hv, <- inject_Z_mult, <- Zle_Qle.
  pose proof (Z.mul_div_le (- Zpos m) p ltac:(lia)). lia.
Qed.

Lemma round_as_uint_le max x n lo hi :
  pos_in lo hi x → (fval x < inject_Z n + (1 # 2))%Q → round_as_uint max x ≤ n.
Proof.
  intros (m & e & -> & _) H. simpl in *. pose proof (round_mag_spec m e) as [H1 _].
  assert (inject_Z (round_mag m e) < inject_Z (n + 1))%Q as Hlt
    by (rewrite inject_Z_plus; change (inject_Z 1) with 1%Q; lra).
  rewrite <- Zlt_Qlt in Hlt. lia.
Qed.

Lemma round_as_uint_ge max x n lo hi :
  pos_in lo hi x → n ≤ max → (inject_Z n - (1 # 2) <= fval x)%Q → n ≤ round_as_uint max x.
Proof.
  intros (m & e & -> & _) Hmax H. simpl in *. pose proof (round_mag_spec m e) as [_ H1].
  assert (inject_Z n < inject_Z (round_mag m e + 1))%Q as Hlt
    by (rewrite inject_Z_plus; change (inject_Z 1) with 1%Q; lra).
  rewrite <- Zlt_Qlt in Hlt. lia.
Qed.

Lemma ceil_as_uint_le max x n lo hi :
  pos_in lo hi x → ceil_as_uint max x ≤ n → n < max → (fval x <= inject_Z n)%Q.
Proof.
  intros (m & e & -> & _) H Hmax. simpl in *. pose proof (ceil_mag_ge m e) as H1.
  assert (ceil_mag m e ≤ n) as H2 by lia. rewrite Zle_Qle in H2. lra.
Qed.

Lemma near_scale x v w : near x v → (0 < w)%Q → near (w * x) (w * v).
Proof.
  intros [H1 H2] Hw. split.
  - apply Qle_trans with (w * (v - v * ulp))%Q; [lra|]. by apply Qmult_le_l.
  - apply Qle_trans with (w * (v + v * ulp))%Q; [by apply Qmult_le_l|lra].
Qed.

Lemma pos_in_weaken lo hi lo' hi' x : pos_in lo hi x → lo' ≤ lo → hi ≤ hi' → pos_in lo' hi' x.
Proof. intros (m & e & ? & ? & ?) ? ?. exists m, e. split_and!; [done|done|lia|lia]. Qed.

Lemma fval_pos x lo hi : pos_in lo hi x → (0 < fval x)%Q.
Proof. intros (m & e & -> & _). apply fq_pos. Qed.

(** An unsigned integer keeps its bits, shifted up to 53 digits. *)
Lemma f64_of_uint_bits n :
  0 < n < 2 ^ 32 →
  ∃ m e, f64_of_uint n = S754_finite false m e ∧ Zpos (digits2_pos m) = 53
    ∧ -52 ≤ e ≤ -21 ∧ Zpos m = n * 2 ^ (- e).
Proof.
  intros Hn. destruct n as [|p|p]; [lia| |lia]. unfold f64_of_uint, binary_normalize.
  assert (Hd : 1 ≤ Zpos (digits2_pos p) ≤ 32).
  { split; [lia|]. apply (Zdigits2_le (Zpos p)); lia. }
  destruct (binary_round_widen false p 0) as (m & e & -> & Hm & He & Hb & _); [lia..|].
  exists m, e. split_and!; [done|done|lia|lia|]. rewrite Hb. f_equal. f_equal. lia.
Qed.

Lemma floor_as_uint_of_uint n : 0 ≤ n ≤ u32_max → floor_as_uint u32_max (f64_of_uint n) = n.
Proof.
  intros Hn. destruct (Z.eq_dec n 0) as [->|Hn0]; [done|].
  destruct (f64_of_uint_bits n) as (m & e & -> & _ & He & Hm); [unfold u32_max in Hn; lia|].
  simpl. unfold floor_mag. rewrite (proj2 (Z.leb_gt 0 e)), Hm by lia.
  rewrite Z.div_mul by (apply Z.pow_nonzero; lia). lia.
Qed.

(** Halving is exact. *)
Lemma f64_half n :
  0 ≤ n ≤ u32_max → floor_as_uint u32_max (f64_div (f64_of_uint n) (f64_of_uint 2)) = n / 2.
Proof.
  intros Hn. destruct (Z.eq_dec n 0) as [->|Hn0]; [done|].
  destruct (f64_of_uint_bits n) as (m & e & -> & Hd & He & Hm); [unfold u32_max in Hn; lia|].
  assert (f64_div (S754_finite false m e) (f64_of_uint 2) = S754_finite false m (e - 1)) as ->.
  { change (f64_of_uint 2) with (S754_finite false 4503599627370496 (-51)).
    unfold f64_div, SFdiv, SFdiv_core_binary. simpl Zdigits2. rewrite Hd.
    match goal with |- context [Z.min ?a ?b] =>
      assert (Z.min a b = e - 2) as -> by (unfold fexp, emin; lia) end.
    replace (e - -51 - (e - 2)) with 53 by lia. cbn [Z.shiftl]. rewrite Z.shiftl_mul_pow2 by lia.
    pose proof (Z_div_mod (Zpos m * 2 ^ 53) 4503599627370496 ltac:(lia)) as Hdm.
    destruct (Z.div_eucl _ _) as [q r]. destruct Hdm as [Hdm Hr].
    change (2 ^ 53) with 9007199254740992 in Hdm.
    assert (q = Zpos m * 2 ∧ r = 0) as [-> ->] by lia.
    change (new_location 4503599627370496 0) with loc_Exact.
    apply binary_round_aux_exact; [lia|by replace (e - 1 - (e - 2)) with 1 by lia|].
    unfold bounded, canonical_mantissa. rewrite Hd. unfold fexp, emin.
    apply andb_true_iff. split; [apply Z.eqb_eq; lia|apply Z.leb_le; lia]. }
  simpl. unfold floor_mag. rewrite (proj2 (Z.leb_gt 0 (e - 1))) by lia.
  replace (- (e - 1)) with (- e + 1) by lia. rewrite Z.pow_add_r, Hm by lia.
  rewrite (Z.mul_comm n), Z.div_mul_cancel_l by (try apply Z.pow_nonzero; lia).
  change (2 ^ 1) with 2. assert (n / 2 ≤ n) by (apply Z.div_le_upper_bound; lia). lia.
Qed.

Lemma binary_round_valid s m e : f64_valid (binary_round 53 1024 s m e).
Proof.
  unfold f64_valid, binary_round, shl_align. set (d := Zpos (digits2_pos m)).
  destruct (fexp 53 1024 (d + e) - e) as [|k|k] eqn:Hk; cbv iota beta;
    apply binary_round_aux_valid; try lia; simpl Zdigits2; fold d; try lia.
  rewrite (digits2_shift m (Zpos k)) by (apply iter_xO || lia). fold d.
  replace (d + Zpos k + fexp 53 1024 (d + e)) with (d + e) by lia. lia.
Qed.

(** What a clamped value rounds down to, when the upper bound is an integer. *)
Lemma f_clamp_floor n v :
  0 ≤ n ≤ u32_max → f64_valid v →
  0 ≤ floor_as_uint u32_max (f_clamp f64_zero (f64_of_uint n) v) ≤ n.
Proof.
  intros Hn Hv. unfold f_clamp.
  set (v1 := if f_lt v f64_zero then f64_zero else v).
  assert (Hv1 : f64_valid v1) by (unfold v1; by destruct (f_lt v f64_zero)).
  clearbody v1. destruct (f_gt v1 (f64_of_uint n)) eqn:Hgt.
  { rewrite floor_as_uint_of_uint by done. lia. }
  destruct v1 as [s|[]| |[] m e]; simpl; try lia.
  - exfalso. revert Hgt. destruct (Z.eq_dec n 0) as [->|Hn0]; [done|].
    destruct (f64_of_uint_bits n) as (m & e & -> & _); [unfold u32_max in Hn; lia|]. done.
  - destruct (Z.eq_dec n 0) as [->|Hn0]; [done|].
    destruct (f64_of_uint_bits n) as (m' & e' & Hf & Hd' & He' & Hm'); [unfold u32_max in Hn; lia|].
    rewrite Hf in Hgt.
    assert (Hmag : floor_mag m e ≤ floor_mag m' e' ∧ 0 ≤ floor_mag m e).
    { unfold f64_valid, valid_binary, bounded, canonical_mantissa in Hv1.
      apply andb_true_iff in Hv1 as [Hc%Z.eqb_eq _]. unfold fexp, emin in Hc.
      pose proof (digits2_pos_bounds m) as [_ Hb]. pose proof (digits2_pos_bounds m') as [Hb' _].
      rewrite Hd' in Hb'. change (2 ^ (53 - 1)) with 4503599627370496 in Hb'.
      assert (Zpos m < 2 ^ 53).
      { eapply Z.lt_le_trans; [exact Hb|]. apply Z.pow_le_mono_r; lia. }
      unfold f_gt, SFltb in Hgt. simpl in Hgt.
      change (Pos.compare_cont Eq m' m) with (Pos.compare m' m) in Hgt.
      assert (He : e ≤ e' ∧ (e = e' → Zpos m ≤ Zpos m')).
      { destruct (Z.compare_spec e' e) as [H1|H1|H1]; [|done|lia]. split; [lia|intros _].
        destruct (Pos.compare_spec m' m) as [H2|H2|H2]; [rewrite H2; lia|done|lia]. }
      unfold floor_mag. rewrite (proj2 (Z.leb_gt 0 e)), (proj2 (Z.leb_gt 0 e')) by lia.
      pose proof (Z.pow_pos_nonneg 2 (- e) ltac:(lia) ltac:(lia)).
      pose proof (Z.pow_pos_nonneg 2 (- e') ltac:(lia) ltac:(lia)).
      split; [|apply Z.div_pos; lia].
      destruct (Z.eq_dec e e') as [->|Hne]; [apply Z.div_le_mono; lia|].
      apply Z.div_le_lower_bound; [lia|]. apply Z.le_trans with (2 ^ 52); [|].
      2: lia.
      pose proof (Z.mul_div_le (Zpos m) (2 ^ (- e)) ltac:(lia)).
      assert (2 * 2 ^ (- e') ≤ 2 ^ (- e)).
      { rewrite <- Z.pow_succ_r by lia. apply Z.pow_le_mono_r; lia. }
      assert (0 ≤ Zpos m / 2 ^ (- e)) by (apply Z.div_pos; lia). nia. }
    pose proof (floor_as_uint_of_uint n Hn) as Hfn. rewrite Hf in Hfn. simpl in Hfn. lia.
Qed.
