(* ===== verification/Samples.v ===== *)
(** * Samples of measurements: [f64] values sorted and ranked

What [sort_by(|a, b| a.partial_cmp(b)...)], sums, and ranks computed in [f64]
do to the timings that [src/bin/benchmark.rs], [src/examples/codec_report.rs]
and [src/tools/avif-asm-bench] collect. *)
From Stdlib Require Import QArith Lqa.
From stdpp Require Import sorting.
From S2P Require Import Prelude RustStr RustFloat FloatError.

Local Open Scope Z_scope.

(** ** Never NaN, never negative *)

Definition f_nonneg (x : spec_float) : Prop :=
  match x with
  | S754_zero _ | S754_infinity false | S754_finite false _ _ => True
  | _ => False
  end.

Lemma f_nonneg_not_nan x : f_nonneg x → is_nan x = false.
Proof. by destruct x. Qed.

Lemma round_aux_nonneg prec emax m e l : 0 ≤ m → f_nonneg (binary_round_aux prec emax false m e l).
Proof.
  assert (Hshr : ∀ m e l, 0 ≤ m → 0 ≤ shr_m (shr_fexp prec emax m e l).1).
  { clear. intros m e l Hm. unfold shr_fexp, shr.
    destruct (_ - e) as [|p|p]; [by destruct l as [|[]]| |by destruct l as [|[]]].
    rewrite iter_pos_nat. cbn [fst]. induction (Pos.to_nat p) as [|n IH]; [by destruct l as [|[]]|].
    simpl. by apply shr_1_nonneg. }
  intros Hm. unfold binary_round_aux. pose proof (Hshr m e l Hm) as H1.
  destruct (shr_fexp prec emax m e l) as [mrs1 e1]. cbn [fst] in H1.
  assert (0 ≤ round_nearest_even (shr_m mrs1) (loc_of_shr_record mrs1)) as H2.
  { unfold round_nearest_even. destruct (loc_of_shr_record mrs1) as [|[]]; try lia.
    destruct (Z.even (shr_m mrs1)); lia. }
  pose proof (Hshr _ e1 loc_Exact H2) as H3.
  destruct (shr_fexp prec emax (round_nearest_even _ _) e1 loc_Exact) as [mrs2 e2]. cbn [fst] in H3.
  destruct (shr_m mrs2) as [|p|p]; [done| |lia]. by destruct (e2 <=? emax - prec).
Qed.

Lemma normalize_nonneg m e : 0 ≤ m → f_nonneg (binary_normalize 53 1024 m e false).
Proof.
  destruct m as [|p|p]; [done| |lia]. intros _. cbn. unfold binary_round.
  destruct (shl_align _ _ _). by apply round_aux_nonneg.
Qed.

Lemma f64_of_uint_nonneg n : 0 ≤ n → f_nonneg (f64_of_uint n).
Proof. apply normalize_nonneg. Qed.

Lemma f64_add_nonneg x y : f_nonneg x → f_nonneg y → f_nonneg (f64_add x y).
Proof.
  destruct x as [[]|[]| |[] m e], y as [[]|[]| |[] m' e']; try done. intros _ _.
  apply normalize_nonneg. cbn [cond_Zopp]. lia.
Qed.

(** [y] is positive and finite. *)
Definition f_pos_finite (y : spec_float) : Prop := ∃ m e, y = S754_finite false m e.

Lemma f64_mul_nonneg x y : f_nonneg x → f_pos_finite y → f_nonneg (f64_mul x y).
Proof.
  intros Hx (m' & e' & ->). destruct x as [[]|[]| |[] m e]; try done.
  apply round_aux_nonneg. lia.
Qed.

Lemma f64_div_nonneg x y : f_nonneg x → f_pos_finite y → f_nonneg (f64_div x y).
Proof.
  intros Hx (m' & e' & ->). destruct x as [[]|[]| |[] m e]; try done.
  unfold f64_div, SFdiv. cbn [xorb]. unfold SFdiv_core_binary. set (k := Z.min _ _).
  match goal with |- context [Z.div_eucl ?a ?b] =>
    pose proof (Z_div_mod a b ltac:(lia)) as Hdm; assert (0 ≤ a) as Ha end.
  { destruct (e - e' - k) as [|p|p]; try lia. rewrite Z.shiftl_mul_pow2 by lia. lia. }
  destruct (Z.div_eucl _ _) as [q r]. destruct Hdm as [Hdm Hr]. apply round_aux_nonneg. nia.
Qed.

(** ** Sorting *)

(** [sort_by(|a, b| a.partial_cmp(b).expect(..))]: a comparison with NaN
    panics, and every element of two or more is compared. *)
Definition not_after (x y : spec_float) : Prop := f_lt y x = false.

#[export] Instance not_after_dec x y : Decision (not_after x y).
Proof. unfold not_after. apply _. Defined.

#[export] Instance not_after_total : Total not_after.
Proof.
  intros x y. unfold not_after. destruct (f_lt y x) eqn:Hyx, (f_lt x y) eqn:Hxy; auto.
  apply f_lt_key in Hyx, Hxy. unfold key_lt in *. lia.
Qed.

Definition sort_floats (l : list spec_float) : list spec_float := merge_sort not_after l.

Definition sort_panics (l : list spec_float) : bool :=
  (1 <? length l)%nat && List.existsb is_nan l.

(** [Iterator::sum] of samples none of which is negative zero, the only ones
    for which the sign of the zero it starts from could be seen. *)
Definition sum_floats (l : list spec_float) : spec_float := fold_left f64_add l f64_zero.

(** A decimal literal. *)
Definition f64_literal (s : string) : spec_float := default S754_nan (parse_f64 s).

Lemma samples_do_not_panic samples : Forall (λ x, is_nan x = false) samples → sort_panics samples = false.
Proof.
  intros no_nan. unfold sort_panics. apply andb_false_iff. right. apply not_true_iff_false. intros H.
  apply List.existsb_exists in H as (x & Hx & Hxn). apply list_elem_of_In in Hx.
  rewrite Forall_forall in no_nan. by rewrite (no_nan x Hx) in Hxn.
Qed.

Lemma sort_floats_perm l : sort_floats l ≡ₚ l.
Proof. apply merge_sort_Permutation. Qed.

Lemma not_after_le x y : is_nan x = false → is_nan y = false → not_after x y → f_le x y = true.
Proof. intros Hx Hy H. unfold not_after in H. rewrite f_lt_not_le in H by done. by apply negb_false_iff. Qed.

(** Without NaN the sorted list is in order. *)
Lemma sort_floats_sorted l :
  Forall (λ x, is_nan x = false) l → StronglySorted (λ x y, f_le x y = true) (sort_floats l).
Proof.
  intros Hl. assert (Forall (λ x, is_nan x = false) (sort_floats l)) as Hs.
  { by rewrite sort_floats_perm. }
  pose proof (Sorted_merge_sort not_after l) as Hsort. fold (sort_floats l) in Hsort. clear Hl.
  induction (sort_floats l) as [|x s IH]; constructor.
  - apply IH; [by apply Forall_inv_tail in Hs|by apply Sorted_inv in Hsort as [? _]].
  - apply Sorted_inv in Hsort as [Hsort Hhd]. apply Forall_cons in Hs as [Hx Hs].
    specialize (IH Hs Hsort). destruct s as [|y s]; [done|]. apply HdRel_inv in Hhd.
    apply Forall_cons in Hs as [Hy Hs]. pose proof (not_after_le _ _ Hx Hy Hhd) as Hxy.
    constructor; [done|]. apply StronglySorted_inv in IH as [_ Hys].
    eapply Forall_impl; [exact Hys|]. intros z Hz. by eapply f_le_trans.
Qed.

Lemma sorted_lookup_le {A} (R : A → A → Prop) l i j x y :
  StronglySorted R l → (∀ z, z ∈ l → R z z) → l !! i = Some x → l !! j = Some y → (i ≤ j)%nat → R x y.
Proof.
  intros Hl Hr. revert i j. induction Hl as [|z l Hl IH Hz]; intros i j Hi Hj Hij; [done|].
  destruct i as [|i], j as [|j]; simplify_eq/=; try lia.
  - apply Hr. left.
  - rewrite Forall_forall in Hz. apply Hz. by eapply list_elem_of_lookup_2.
  - eapply IH; [|done..|lia]. intros w Hw. apply Hr. by right.
Qed.

(** The element of rank [i] of samples without NaN. *)
Lemma sort_floats_lookup_le l i j x y :
  Forall (λ x, is_nan x = false) l →
  sort_floats l !! i = Some x → sort_floats l !! j = Some y → (i ≤ j)%nat → f_le x y = true.
Proof.
  intros Hl Hi Hj Hij. apply (sorted_lookup_le (λ x y, f_le x y = true) (sort_floats l) i j); try done;
    [by apply sort_floats_sorted|].
  intros z Hz. rewrite sort_floats_perm in Hz. rewrite Forall_forall in Hl. by apply f_le_refl, Hl.
Qed.

Lemma sort_floats_lookup l i : (i < length l)%nat → ∃ x, sort_floats l !! i = Some x ∧ x ∈ l.
Proof.
  intros Hi. rewrite <- (sort_floats_perm l) in Hi. apply lookup_lt_is_Some in Hi as [x Hx].
  exists x. split; [done|]. rewrite <- sort_floats_perm. by eapply list_elem_of_lookup_2.
Qed.

(** ** Ranks *)

(** Subtracting one from a count is exact. *)
Lemma f64_sub_one n : 1 ≤ n < 2 ^ 32 → f64_sub (f64_of_uint n) f64_one = f64_of_uint (n - 1).
Proof.
  intros Hn. destruct (Z.eq_dec n 1) as [->|Hn1]; [done|].
  destruct (f64_of_uint_bits n) as (m & e & -> & Hd & He & Hm); [lia|].
  destruct (f64_of_uint_bits (n - 1)) as (m' & e' & -> & Hd' & He' & Hm'); [lia|].
  unfold f64_sub, SFsub, f64_one. rewrite Z.min_r by lia. unfold shl_align at 2. simpl fst at 2.
  assert (Zpos (shl_align m e (-52)).1 = n * 2 ^ 52) as Hsh.
  { unfold shl_align. destruct (-52 - e) as [|k|k] eqn:Hk; [|lia|]; cbn [fst].
    - rewrite Hm. f_equal. f_equal. lia.
    - rewrite iter_xO, Hm, <- Z.mul_assoc, <- Z.pow_add_r by lia. do 2 f_equal. lia. }
  cbn [cond_Zopp]. rewrite Hsh. set (M := n * 2 ^ 52 - _).
  assert (M = Zpos m' * 2 ^ (e' + 52)) as HM.
  { rewrite Hm', <- Z.mul_assoc, <- Z.pow_add_r by lia. unfold M.
    replace (- e' + (e' + 52)) with 52 by lia. lia. }
  destruct M as [|p|p] eqn:Hp; [lia| |lia]. cbn [binary_normalize]. unfold binary_round.
  assert (Zpos (digits2_pos p) = 53 + (e' + 52)) as Hdp.
  { rewrite (digits2_shift m' (e' + 52) p) by (done || lia). lia. }
  rewrite Hdp. replace (fexp 53 1024 (53 + (e' + 52) + -52)) with e' by (unfold fexp, emin; lia).
  unfold shl_align. replace (e' - -52) with (e' + 52) by lia.
  assert (binary_round_aux 53 1024 false (Zpos p) (-52) loc_Exact = S754_finite false m' e') as Hex.
  { apply binary_round_aux_exact; [lia|by rewrite HM; do 2 f_equal; lia|].
    unfold bounded, canonical_mantissa. rewrite Hd'. unfold fexp, emin.
    apply andb_true_iff. split; [apply Z.eqb_eq; lia|apply Z.leb_le; lia]. }
  destruct (e' + 52) as [|k|k] eqn:Hk; [done..|lia].
Qed.

Lemma round_as_uint_mono max x y lo hi lo' hi' :
  pos_in lo hi x → pos_in lo' hi' y → (fval x <= fval y)%Q →
  round_as_uint max x ≤ round_as_uint max y.
Proof.
  intros (m & e & -> & _) (m' & e' & -> & _) Hle. simpl in *.
  pose proof (round_mag_spec m e) as [H1 _]. pose proof (round_mag_spec m' e') as [_ H2].
  assert (inject_Z (round_mag m e) < inject_Z (round_mag m' e' + 1))%Q as Hlt
    by (rewrite inject_Z_plus; change (inject_Z 1) with 1%Q; lra).
  rewrite <- Zlt_Qlt in Hlt. lia.
Qed.

(** ** Durations *)

(** [Duration::as_secs_f64] of nanoseconds. *)
Definition as_secs_f64 (d : Z) : spec_float :=
  f64_add (f64_of_uint (d / 10 ^ 9)) (f64_div (f64_of_uint (d mod 10 ^ 9)) (f64_of_uint (10 ^ 9))).

Definition duration_ms (d : Z) : spec_float := f64_mul (as_secs_f64 d) (f64_of_uint 1000).

Lemma duration_ms_nonneg d : 0 ≤ d → f_nonneg (duration_ms d).
Proof.
  intros Hd. apply f64_mul_nonneg; [|by eexists _, _].
  apply f64_add_nonneg; [apply f64_of_uint_nonneg, Z.div_pos; lia|].
  apply f64_div_nonneg; [|by eexists _, _]. apply f64_of_uint_nonneg, Z.mod_pos_bound. lia.
Qed.
