(* ===== verification/Performance.v ===== *)
(** * Performance configuration: [src/config/performance.rs] and
    [src/modules/utils/cgroup.rs]

The number of CPUs a cgroup quota grants, the named profiles, the
configuration built from the environment, and the counters of
[PerformanceMetrics]. *)
From Stdlib Require Import SpecFloat QArith.
From S2P Require Import Prelude RustStr RustFloat FloatError.

Local Open Scope Z_scope.

(** ** CPU quota *)

(** [quota.div_ceil(period).max(1)] *)
Definition quota_to_cpu_count (quota period : Z) : option Z :=
  if period =? 0 then None
  else Some (Z.max (if quota mod period =? 0 then quota / period else quota / period + 1) 1).

Definition parse_cgroup_v2_cpu_max (contents : string) : option Z :=
  match split_whitespace contents with
  | quota :: period :: _ =>
      period ← parse_u64 period;
      if String.eqb quota "max" then None
      else quota ← parse_u64 quota; quota_to_cpu_count quota period
  | _ => None
  end.

Definition parse_cgroup_v1_quota (quota period : string) : option Z :=
  quota ← parse_i64 (trim quota);
  period ← parse_u64 (trim period);
  if quota <? 0 then None else quota_to_cpu_count quota period.

(** The three files, [None] when one cannot be read. *)
Definition cgroup_cpu_quota (v2 v1_quota v1_period : option string) : option Z :=
  match v2 ≫= parse_cgroup_v2_cpu_max with
  | Some cpus => Some cpus
  | None =>
      quota ← v1_quota;
      period ← v1_period;
      parse_cgroup_v1_quota quota period
  end.

(** [num_cpus::get()] is [host]. *)
Definition effective_cpu_count (host : Z) (v2 v1_quota v1_period : option string) : Z :=
  let host_cpus := Z.max host 1 in
  match cgroup_cpu_quota v2 v1_quota v1_period with
  | Some quota => Z.max 1 (Z.min quota host_cpus)
  | None => host_cpus
  end.

Example cgroup_fractional : parse_cgroup_v2_cpu_max ("40000 100000" +:+ String (chr 10) EmptyString) = Some 1.
Proof. reflexivity. Qed.
Example cgroup_unlimited : parse_cgroup_v2_cpu_max "max 100000" = None.
Proof. reflexivity. Qed.

(** ** Configuration *)

(** Durations are in seconds. *)
Record PerformanceConfig := mk_PerformanceConfig {
  max_concurrent_downloads : Z;
  max_concurrent_processing : Z;
  http_timeout : Z;
  max_image_size : Z;
  cpu_thread_pool_size : option Z;
  enable_http2 : bool;
  connection_pool_size : Z;
  keep_alive_timeout : Z;
  max_redirects : Z;
  allowed_sources : option (list string);
  allow_loopback_source_addresses : bool;
  allow_link_local_source_addresses : bool;
  max_src_resolution_mp : Z;
  max_output_width : Z;
  max_output_height : Z;
  max_animation_frames : Z;
  watermark_url : option string;
  jpeg_progressive_default : bool;
  jpeg_no_subsampling_default : bool;
}.

(** The performance fields of [EnvConfig]. *)
Record PerformanceEnv := mk_PerformanceEnv {
  env_max_concurrent_downloads : option Z;
  env_max_concurrent_processing : option Z;
  env_http_timeout_secs : option Z;
  env_max_image_size_mb : option Z;
  env_cpu_thread_pool_size : option Z;
  env_enable_http2 : option bool;
  env_connection_pool_size : option Z;
  env_keep_alive_timeout_secs : option Z;
  env_performance_profile : option string;
  env_max_redirects : option Z;
  env_allowed_sources : option string;
  env_allow_loopback_source_addresses : option bool;
  env_allow_link_local_source_addresses : option bool;
  env_max_src_resolution_mp : option Z;
  env_max_output_width : option Z;
  env_max_output_height : option Z;
  env_max_animation_frames : option Z;
  env_watermark_url : option string;
  env_jpeg_progressive : option bool;
  env_jpeg_no_subsampling : option bool;
}.

Definition parse_allowed_sources (raw : string) : option (list string) :=
  match filter (λ s, str_is_empty s = false) (trim <$> split_on "," raw) with
  | [] => None
  | list => Some list
  end.

(** [mb * 1024 * 1024] on [u64], as release builds compute it. *)
Definition megabytes (mb : Z) : Z := (mb * 1024 * 1024) mod 2 ^ 64.

Section Config.
(** [effective_cpu_count()] *)
Context (cpus : Z).

Definition performance_default : PerformanceConfig := {|
  max_concurrent_downloads := 20; max_concurrent_processing := cpus; http_timeout := 30;
  max_image_size := 50 * 1024 * 1024; cpu_thread_pool_size := None; enable_http2 := true;
  connection_pool_size := 50; keep_alive_timeout := 60; max_redirects := 5;
  allowed_sources := None; allow_loopback_source_addresses := false;
  allow_link_local_source_addresses := false; max_src_resolution_mp := 50;
  max_output_width := 4096; max_output_height := 4096; max_animation_frames := 512;
  watermark_url := None; jpeg_progressive_default := false; jpeg_no_subsampling_default := false;
|}.

Definition high_throughput : PerformanceConfig := {|
  max_concurrent_downloads := 50; max_concurrent_processing := cpus * 2; http_timeout := 15;
  max_image_size := 100 * 1024 * 1024; cpu_thread_pool_size := Some cpus; enable_http2 := true;
  connection_pool_size := 100; keep_alive_timeout := 120; max_redirects := 5;
  allowed_sources := None; allow_loopback_source_addresses := false;
  allow_link_local_source_addresses := false; max_src_resolution_mp := 50;
  max_output_width := 4096; max_output_height := 4096; max_animation_frames := 512;
  watermark_url := None; jpeg_progressive_default := false; jpeg_no_subsampling_default := false;
|}.

Definition low_latency : PerformanceConfig := {|
  max_concurrent_downloads := 10; max_concurrent_processing := cpus; http_timeout := 10;
  max_image_size := 20 * 1024 * 1024; cpu_thread_pool_size := Some cpus; enable_http2 := true;
  connection_pool_size := 25; keep_alive_timeout := 30; max_redirects := 5;
  allowed_sources := None; allow_loopback_source_addresses := false;
  allow_link_local_source_addresses := false; max_src_resolution_mp := 50;
  max_output_width := 4096; max_output_height := 4096; max_animation_frames := 512;
  watermark_url := None; jpeg_progressive_default := false; jpeg_no_subsampling_default := false;
|}.

Definition memory_efficient : PerformanceConfig := {|
  max_concurrent_downloads := 5; max_concurrent_processing := cpus / 2; http_timeout := 45;
  max_image_size := 10 * 1024 * 1024; cpu_thread_pool_size := Some (cpus / 2);
  enable_http2 := false;
  connection_pool_size := 10; keep_alive_timeout := 30; max_redirects := 5;
  allowed_sources := None; allow_loopback_source_addresses := false;
  allow_link_local_source_addresses := false; max_src_resolution_mp := 25;
  max_output_width := 2048; max_output_height := 2048; max_animation_frames := 128;
  watermark_url := None; jpeg_progressive_default := false; jpeg_no_subsampling_default := false;
|}.

(** Only the variables that are set override the profile. *)
Definition apply_env_overrides (config : PerformanceConfig) (env : PerformanceEnv)
  : PerformanceConfig := {|
  max_concurrent_downloads :=
    default (max_concurrent_downloads config) (env_max_concurrent_downloads env);
  max_concurrent_processing :=
    default (max_concurrent_processing config) (env_max_concurrent_processing env);
  http_timeout := default (http_timeout config) (env_http_timeout_secs env);
  max_image_size :=
    match env_max_image_size_mb env with Some mb => megabytes mb | None => max_image_size config end;
  cpu_thread_pool_size :=
    match env_cpu_thread_pool_size env with Some n => Some n | None => cpu_thread_pool_size config end;
  enable_http2 := default (enable_http2 config) (env_enable_http2 env);
  connection_pool_size := default (connection_pool_size config) (env_connection_pool_size env);
  keep_alive_timeout := default (keep_alive_timeout config) (env_keep_alive_timeout_secs env);
  max_redirects := default (max_redirects config) (env_max_redirects env);
  allowed_sources :=
    match env_allowed_sources env with
    | Some raw => parse_allowed_sources raw
    | None => allowed_sources config
    end;
  allow_loopback_source_addresses :=
    default (allow_loopback_source_addresses config) (env_allow_loopback_source_addresses env);
  allow_link_local_source_addresses :=
    default (allow_link_local_source_addresses config) (env_allow_link_local_source_addresses env);
  max_src_resolution_mp := default (max_src_resolution_mp config) (env_max_src_resolution_mp env);
  max_output_width := default (max_output_width config) (env_max_output_width env);
  max_output_height := default (max_output_height config) (env_max_output_height env);
  max_animation_frames := default (max_animation_frames config) (env_max_animation_frames env);
  watermark_url :=
    match env_watermark_url env with Some u => Some u | None => watermark_url config end;
  jpeg_progressive_default := default (jpeg_progressive_default config) (env_jpeg_progressive env);
  jpeg_no_subsampling_default :=
    default (jpeg_no_subsampling_default config) (env_jpeg_no_subsampling env);
|}.

(** The settings used when no profile is named. *)
Definition custom (env : PerformanceEnv) : PerformanceConfig := {|
  max_concurrent_downloads := default 20 (env_max_concurrent_downloads env);
  max_concurrent_processing := default cpus (env_max_concurrent_processing env);
  http_timeout := default 30 (env_http_timeout_secs env);
  max_image_size := megabytes (default 50 (env_max_image_size_mb env));
  cpu_thread_pool_size := env_cpu_thread_pool_size env;
  enable_http2 := default true (env_enable_http2 env);
  connection_pool_size := default 50 (env_connection_pool_size env);
  keep_alive_timeout := default 60 (env_keep_alive_timeout_secs env);
  max_redirects := default 5 (env_max_redirects env);
  allowed_sources := env_allowed_sources env ≫= parse_allowed_sources;
  allow_loopback_source_addresses := default false (env_allow_loopback_source_addresses env);
  allow_link_local_source_addresses := default false (env_allow_link_local_source_addresses env);
  max_src_resolution_mp := default 50 (env_max_src_resolution_mp env);
  max_output_width := default 4096 (env_max_output_width env);
  max_output_height := default 4096 (env_max_output_height env);
  max_animation_frames := default 512 (env_max_animation_frames env);
  watermark_url := env_watermark_url env;
  jpeg_progressive_default := default false (env_jpeg_progressive env);
  jpeg_no_subsampling_default := default false (env_jpeg_no_subsampling env);
|}.

Definition high_throughput_from_env (env : PerformanceEnv) : PerformanceConfig :=
  apply_env_overrides high_throughput env.
Definition low_latency_from_env (env : PerformanceEnv) : PerformanceConfig :=
  apply_env_overrides low_latency env.
Definition memory_efficient_from_env (env : PerformanceEnv) : PerformanceConfig :=
  apply_env_overrides memory_efficient env.

(** [TryFrom<&EnvConfig>]: [Err] carries the unrecognised profile.  The three
    names are ASCII, and no other character lowercases to one of their letters
    alone, so the ASCII lowering decides the match. *)
Definition performance_try_from (env : PerformanceEnv) : result string PerformanceConfig :=
  match non_empty (trim <$> env_performance_profile env) with
  | Some profile =>
      let lower := to_ascii_lowercase profile in
      if String.eqb lower "high_throughput" then Ok (high_throughput_from_env env)
      else if String.eqb lower "low_latency" then Ok (low_latency_from_env env)
      else if String.eqb lower "memory_efficient" then Ok (memory_efficient_from_env env)
      else Err profile
  | None => Ok (custom env)
  end.

Definition get_cpu_thread_pool_size (config : PerformanceConfig) : Z :=
  default cpus (cpu_thread_pool_size config).
End Config.

(** ** Properties *)

(** No configuration variable set. *)
Definition performance_env_empty : PerformanceEnv :=
  mk_PerformanceEnv None None None None None None None None None None None None None None None
    None None None None None.

(** ** [PerformanceMetrics] *)

Record PerformanceMetrics := mk_PerformanceMetrics {
  total_requests : Z;
  cache_hits : Z;
  cache_misses : Z;
  avg_download_time_ms : Z;
  avg_processing_time_ms : Z;
  avg_upload_time_ms : Z;
}.

#[export] Instance eta_performance_metrics : Eta PerformanceMetrics := λ r,
  mk_PerformanceMetrics (total_requests r) (cache_hits r) (cache_misses r) (avg_download_time_ms r)
    (avg_processing_time_ms r) (avg_upload_time_ms r).

Definition performance_metrics_new : PerformanceMetrics := mk_PerformanceMetrics 0 0 0 0 0 0.

(** [fetch_add(1)] on an [AtomicU64] *)
Definition fetch_add_1 (n : Z) : Z := (n + 1) mod 2 ^ 64.

Definition increment_requests (m : PerformanceMetrics) : PerformanceMetrics :=
  m <| total_requests := fetch_add_1 (total_requests m) |>.
Definition increment_cache_hits (m : PerformanceMetrics) : PerformanceMetrics :=
  m <| cache_hits := fetch_add_1 (cache_hits m) |>.
Definition increment_cache_misses (m : PerformanceMetrics) : PerformanceMetrics :=
  m <| cache_misses := fetch_add_1 (cache_misses m) |>.

(** The sum is a [u64]'s, as release builds compute it. *)
Definition get_cache_hit_ratio (m : PerformanceMetrics) : spec_float :=
  let hits := cache_hits m in
  let misses := cache_misses m in
  let total := (hits + misses) mod 2 ^ 64 in
  if total =? 0 then f64_zero else f64_div (f64_of_uint hits) (f64_of_uint total).

(** The processing pool never exceeds the host, and never has no thread. *)
Lemma effective_cpu_count_range host v2 q p :
  1 ≤ effective_cpu_count host v2 q p ≤ Z.max host 1.
Proof. unfold effective_cpu_count. destruct (cgroup_cpu_quota v2 q p); lia. Qed.

(** The quota in whole CPUs is the real quota rounded up, never less than one:
    the granted time is always used and never exceeded by a whole CPU. *)
Theorem quota_to_cpu_count_ceil quota period n :
  0 ≤ quota → 0 < period →
  quota_to_cpu_count quota period = Some n ↔
  1 ≤ n ∧ quota ≤ n * period ∧ (n = 1 ∨ (n - 1) * period < quota).
Proof.
  intros Hq Hp. unfold quota_to_cpu_count. rewrite (proj2 (Z.eqb_neq period 0)) by lia.
  pose proof (Z.div_mod quota period ltac:(lia)) as Hdm.
  pose proof (Z.mod_pos_bound quota period Hp) as Hm.
  assert (0 ≤ quota / period) by (apply Z.div_pos; lia).
  set (d := quota / period) in *. set (m := quota mod period) in *.
  destruct (Z.eqb_spec m 0); split.
  - intros [= <-]. nia.
  - intros (H1 & H2 & H3). f_equal. nia.
  - intros [= <-]. nia.
  - intros (H1 & H2 & H3). f_equal. nia.
Qed.

(** With nothing set in the environment the code's two sources of defaults,
    [Default::default()] and the custom branch, agree. *)
Theorem performance_defaults_agree cpus :
  performance_try_from cpus performance_env_empty = Ok (performance_default cpus).
Proof. reflexivity. Qed.

(** Halving a single CPU leaves the [memory_efficient] profile without a
    processing permit and with an empty thread pool: a service configured so
    refuses every image. *)
Theorem memory_efficient_can_have_no_permit :
  ∃ config, performance_try_from 1
      (mk_PerformanceEnv None None None None None None None None (Some "memory_efficient")
         None None None None None None None None None None None) = Ok config
    ∧ max_concurrent_processing config = 0 ∧ get_cpu_thread_pool_size 1 config = 0.
Proof. eexists. split; [reflexivity|]. done. Qed.

Lemma quota_to_cpu_count_ceil_witness :
  quota_to_cpu_count 250000 100000 = Some 3
  ∧ 1 ≤ 3 ∧ 250000 ≤ 3 * 100000 ∧ (3 = 1 ∨ (3 - 1) * 100000 < 250000).
Proof.
  split; [reflexivity|].
  apply (quota_to_cpu_count_ceil 250000 100000 3); [lia|lia|reflexivity].
Defined.

(** The counters count, and the ratio is the one of the counts to the last bit
    of a double. *)
Theorem cache_hit_ratio_near hits misses m :
  (0 < hits)%nat → Z.of_nat hits + Z.of_nat misses < 2 ^ 32 →
  m = Nat.iter misses increment_cache_misses (Nat.iter hits increment_cache_hits performance_metrics_new) →
  near (fval (get_cache_hit_ratio m)) (inject_Z (Z.of_nat hits) / inject_Z (Z.of_nat hits + Z.of_nat misses)).
Proof.
  intros Hh Hn ->.
  assert (∀ n, Z.of_nat n < 2 ^ 32 →
    cache_hits (Nat.iter n increment_cache_hits performance_metrics_new) = Z.of_nat n
    ∧ cache_misses (Nat.iter n increment_cache_hits performance_metrics_new) = 0) as Hhits.
  { induction n as [|n IH]; intros Hlt; [done|]. rewrite Nat.iter_succ. destruct IH as [E1 E2]; [lia|].
    simpl. rewrite E1, E2. unfold fetch_add_1. rewrite Z.mod_small; lia. }
  assert (∀ n m, cache_misses m = 0 → Z.of_nat n < 2 ^ 32 →
    cache_hits (Nat.iter n increment_cache_misses m) = cache_hits m
    ∧ cache_misses (Nat.iter n increment_cache_misses m) = Z.of_nat n) as Hmisses.
  { intros n m Hm. induction n as [|n IH]; intros Hlt; [done|]. rewrite Nat.iter_succ.
    destruct IH as [E1 E2]; [lia|]. simpl. rewrite E1, E2. unfold fetch_add_1. rewrite Z.mod_small; lia. }
  destruct (Hhits hits ltac:(lia)) as [E1 E2]. destruct (Hmisses misses _ E2 ltac:(lia)) as [E3 E4].
  unfold get_cache_hit_ratio. rewrite E3, E4, E1. rewrite Z.mod_small by lia.
  rewrite (proj2 (Z.eqb_neq _ 0)) by lia.
  destruct (f64_of_uint_exact (Z.of_nat hits)) as [P1 V1]; [lia|].
  destruct (f64_of_uint_exact (Z.of_nat hits + Z.of_nat misses)) as [P2 V2]; [lia|].
  destruct (f64_div_near _ _ _ _ _ _ P1 P2) as [_ Hr]; [lia..|].
  unfold near in *. rewrite V1, V2 in Hr. exact Hr.
Qed.

Lemma cache_hit_ratio_near_witness :
  near (fval (get_cache_hit_ratio (Nat.iter 2 increment_cache_misses
         (Nat.iter 1 increment_cache_hits performance_metrics_new)))) (1 / 3).
Proof. refine (cache_hit_ratio_near 1 2 _ _ _ eq_refl); lia. Defined.
