(* ===== verification/Params.v ===== *)
(** * Request parameters: [src/models/params.rs]

The enumerations of the request (output format, resize type, gravity, crop
dimension, watermark position) with their [FromStr]/[Display] pairs, the
[ResizeQuery] record the URL grammar builds, and the validity predicates
that say a value lies in the ranges of its Rust types.  Error texts are
values of [Msg], one constructor per message with what it interpolates. *)
From S2P Require Import Prelude RustStr RustFloat.

Local Open Scope Z_scope.

(** A colour, [[u8; 3]]. *)
Definition Rgb : Type := Z * Z * Z.

(** The messages of the parsers' errors. *)
Inductive Msg :=
  | UnsupportedImageFormat (other : string)
  | UnsupportedResizeType (other : string)
  | ExpectedArgs (n : Z)
  | NotUnsignedInteger (raw : string)
  | NotIntegerIn (raw : string) (min max : Z)
  | OutOfRange (value min max : Z)
  | NotNumber (raw : string)
  | NotBoolean (raw : string)
  | ExpectedFormatQualityPairs
  | PngHasNoQuality
  | UnsupportedQualityFormat (other : string)
  | UnsupportedWebpCompression (other : string)
  | ExpectedJpegOptions
  | ExpectedCropArgs
  | ExpectedGravityArg
  | ExpectedFlipArgs
  | ExpectedWatermarkArgs
  | UnsupportedWatermarkPosition (other : string)
  | ExpectedBackgroundArgs
  | InvalidHexColour (hex : string)
  | NotNonNegativeFinite (value : spec_float)
  | InvalidFocusPointX (raw : string)
  | InvalidFocusPointY (raw : string)
  | FocusPointOutside (x y : spec_float)
  | ExpectedGravityType
  | UnsupportedGravity (other : string)
  | NotInteger (raw : string)
  | NotMultipleOf90 (angle : Z)
  | ExpectedZoomArgs
  | NotPositive (value : spec_float)
  | ExpectedPaddingArgs
  | PaddingTopRequired
  | NotNonNegativeInteger (raw : string)
  | ExpectedTrimArgs
  | TrimThresholdRequired
  | NotNonNegative (value : spec_float)
  | InvalidWatermarkUrlBase64
  | WatermarkUrlNotUtf8
  | InvalidPercentEncoding
  | Base64SourceNotOneSegment
  | InvalidBase64Source
  | SourceNotUtf8
  | MissingExtension (s : string)
  | UnrecognizedExtension (ext : string).

(** ** Output format *)

Module ImageFormat.
Inductive ImageFormat := Jpg | Png | Webp | Avif | Gif | Auto.
End ImageFormat.
Abbreviation ImageFormat := ImageFormat.ImageFormat.

#[export] Instance image_format_eq_dec : EqDecision ImageFormat.
Proof. solve_decision. Defined.

Definition image_format_to_string (f : ImageFormat) : string :=
  match f with
  | ImageFormat.Jpg => "jpg"
  | ImageFormat.Png => "png"
  | ImageFormat.Webp => "webp"
  | ImageFormat.Avif => "avif"
  | ImageFormat.Gif => "gif"
  | ImageFormat.Auto => "auto"
  end.

Definition image_format_from_str (s : string) : result Msg ImageFormat :=
  if String.eqb s "jpg" || String.eqb s "jpeg" then Ok ImageFormat.Jpg
  else if String.eqb s "png" then Ok ImageFormat.Png
  else if String.eqb s "webp" then Ok ImageFormat.Webp
  else if String.eqb s "avif" then Ok ImageFormat.Avif
  else if String.eqb s "gif" then Ok ImageFormat.Gif
  else if String.eqb s "auto" then Ok ImageFormat.Auto
  else Err (UnsupportedImageFormat s).

(** ** Resize type *)

Module ResizeType.
Inductive ResizeType := Fit | Fill | Force | Auto.
End ResizeType.
Abbreviation ResizeType := ResizeType.ResizeType.

#[export] Instance resize_type_eq_dec : EqDecision ResizeType.
Proof. solve_decision. Defined.

Definition resize_type_to_string (t : ResizeType) : string :=
  match t with
  | ResizeType.Fit => "fit"
  | ResizeType.Fill => "fill"
  | ResizeType.Force => "force"
  | ResizeType.Auto => "auto"
  end.

Definition resize_type_from_str (s : string) : result Msg ResizeType :=
  if str_is_empty s || String.eqb s "fit" then Ok ResizeType.Fit
  else if String.eqb s "fill" then Ok ResizeType.Fill
  else if String.eqb s "force" then Ok ResizeType.Force
  else if String.eqb s "auto" then Ok ResizeType.Auto
  else Err (UnsupportedResizeType s).

(** ** Gravity *)

Module Gravity.
Inductive Gravity :=
  | Center | North | South | East | West
  | NorthEast | NorthWest | SouthEast | SouthWest
  | FocusPoint (x y : spec_float).
End Gravity.
Abbreviation Gravity := Gravity.Gravity.

#[export] Instance gravity_eq_dec : EqDecision Gravity.
Proof. solve_decision. Defined.

Definition gravity_to_string (g : Gravity) : string :=
  match g with
  | Gravity.Center => "ce"
  | Gravity.North => "no"
  | Gravity.South => "so"
  | Gravity.East => "ea"
  | Gravity.West => "we"
  | Gravity.NorthEast => "noea"
  | Gravity.NorthWest => "nowe"
  | Gravity.SouthEast => "soea"
  | Gravity.SouthWest => "sowe"
  | Gravity.FocusPoint x y =>
      "fp:" +:+ f64_to_string x +:+ String ":"%char (f64_to_string y)
  end.

(** ** Explicit crop *)

Module CropDimension.
Inductive CropDimension :=
  | Full
  | Absolute (v : Z)
  | Relative (v : spec_float).
End CropDimension.
Abbreviation CropDimension := CropDimension.CropDimension.

#[export] Instance crop_dimension_eq_dec : EqDecision CropDimension.
Proof. solve_decision. Defined.

Definition crop_dimension_to_string (d : CropDimension) : string :=
  match d with
  | CropDimension.Full => "full"
  | CropDimension.Absolute v => "abs:" +:+ uint_to_string v
  | CropDimension.Relative v => "rel:" +:+ f64_to_string v
  end.

Record Crop := mk_Crop {
  crop_width : CropDimension;
  crop_height : CropDimension;
  crop_gravity : Gravity;
}.

#[export] Instance crop_eq_dec : EqDecision Crop.
Proof. solve_decision. Defined.

(** ** Padding and trim *)

Record Padding := mk_Padding {
  pad_top : Z;
  pad_right : Z;
  pad_bottom : Z;
  pad_left : Z;
}.

#[export] Instance padding_eq_dec : EqDecision Padding.
Proof. solve_decision. Defined.

Record TrimOptions := mk_TrimOptions {
  trim_threshold : spec_float;
  trim_color : option Rgb;
  trim_equal_hor : bool;
  trim_equal_ver : bool;
}.

#[export] Instance trim_options_eq_dec : EqDecision TrimOptions.
Proof. solve_decision. Defined.

(** ** Watermark *)

Module WatermarkPosition.
Inductive WatermarkPosition :=
  | Center | North | South | East | West
  | NorthEast | NorthWest | SouthEast | SouthWest.
End WatermarkPosition.
Abbreviation WatermarkPosition := WatermarkPosition.WatermarkPosition.

#[export] Instance watermark_position_eq_dec : EqDecision WatermarkPosition.
Proof. solve_decision. Defined.

(** The derived [Debug] text, which the cache key hashes. *)
Definition watermark_position_debug (p : WatermarkPosition) : string :=
  match p with
  | WatermarkPosition.Center => "Center"
  | WatermarkPosition.North => "North"
  | WatermarkPosition.South => "South"
  | WatermarkPosition.East => "East"
  | WatermarkPosition.West => "West"
  | WatermarkPosition.NorthEast => "NorthEast"
  | WatermarkPosition.NorthWest => "NorthWest"
  | WatermarkPosition.SouthEast => "SouthEast"
  | WatermarkPosition.SouthWest => "SouthWest"
  end.

Record WatermarkQuery := mk_WatermarkQuery {
  wm_opacity : spec_float;
  wm_position : WatermarkPosition;
  wm_x_offset : spec_float;
  wm_y_offset : spec_float;
  wm_scale : spec_float;
  wm_url : option string;
  wm_size : option (Z * Z);
  wm_rotate : spec_float;
  wm_shadow : option spec_float;
}.

#[export] Instance watermark_query_eq_dec : EqDecision WatermarkQuery.
Proof. solve_decision. Defined.

(** ** The query *)

Record ResizeQuery := mk_ResizeQuery {
  rq_url : string;
  rq_width : option Z;
  rq_height : option Z;
  rq_resize_type : ResizeType;
  rq_format : ImageFormat;
  rq_blur_sigma : option spec_float;
  rq_grayscale : option bool;
  rq_enlarge : bool;
  rq_quality : option Z;
  rq_jpeg_quality : option Z;
  rq_webp_quality : option Z;
  rq_webp_lossless : option bool;
  rq_jpeg_progressive : option bool;
  rq_jpeg_no_subsampling : option bool;
  rq_max_bytes : option Z;
  rq_background : option Rgb;
  rq_autorotate : bool;
  rq_strip_metadata : bool;
  rq_crop : option Crop;
  rq_gravity : Gravity;
  rq_rotate : Z;
  rq_flip_horizontal : bool;
  rq_flip_vertical : bool;
  rq_trim : option TrimOptions;
  rq_extend : bool;
  rq_padding : option Padding;
  rq_zoom_x : spec_float;
  rq_zoom_y : spec_float;
  rq_dpr : spec_float;
  rq_min_width : option Z;
  rq_min_height : option Z;
  rq_watermark : option WatermarkQuery;
}.

#[export] Instance resize_query_eq_dec : EqDecision ResizeQuery.
Proof. solve_decision. Defined.

#[export] Instance resize_query_eta : Eta ResizeQuery := λ q, {|
  rq_url := rq_url q; rq_width := rq_width q; rq_height := rq_height q;
  rq_resize_type := rq_resize_type q; rq_format := rq_format q;
  rq_blur_sigma := rq_blur_sigma q; rq_grayscale := rq_grayscale q;
  rq_enlarge := rq_enlarge q; rq_quality := rq_quality q;
  rq_jpeg_quality := rq_jpeg_quality q; rq_webp_quality := rq_webp_quality q;
  rq_webp_lossless := rq_webp_lossless q; rq_jpeg_progressive := rq_jpeg_progressive q;
  rq_jpeg_no_subsampling := rq_jpeg_no_subsampling q; rq_max_bytes := rq_max_bytes q;
  rq_background := rq_background q; rq_autorotate := rq_autorotate q;
  rq_strip_metadata := rq_strip_metadata q; rq_crop := rq_crop q;
  rq_gravity := rq_gravity q; rq_rotate := rq_rotate q;
  rq_flip_horizontal := rq_flip_horizontal q; rq_flip_vertical := rq_flip_vertical q;
  rq_trim := rq_trim q; rq_extend := rq_extend q; rq_padding := rq_padding q;
  rq_zoom_x := rq_zoom_x q; rq_zoom_y := rq_zoom_y q; rq_dpr := rq_dpr q;
  rq_min_width := rq_min_width q; rq_min_height := rq_min_height q;
  rq_watermark := rq_watermark q |}.

Definition resize_query_default : ResizeQuery := {|
  rq_url := EmptyString;
  rq_width := None;
  rq_height := None;
  rq_resize_type := ResizeType.Fit;
  rq_format := ImageFormat.Jpg;
  rq_blur_sigma := None;
  rq_grayscale := None;
  rq_enlarge := false;
  rq_quality := None;
  rq_jpeg_quality := None;
  rq_webp_quality := None;
  rq_webp_lossless := None;
  rq_jpeg_progressive := None;
  rq_jpeg_no_subsampling := None;
  rq_max_bytes := None;
  rq_background := None;
  rq_autorotate := true;
  rq_strip_metadata := true;
  rq_crop := None;
  rq_gravity := Gravity.Center;
  rq_rotate := 0;
  rq_flip_horizontal := false;
  rq_flip_vertical := false;
  rq_trim := None;
  rq_extend := false;
  rq_padding := None;
  rq_zoom_x := f32_one;
  rq_zoom_y := f32_one;
  rq_dpr := f32_one;
  rq_min_width := None;
  rq_min_height := None;
  rq_watermark := None;
|}.

(** ** Validity: the ranges of the Rust types *)

Definition opt_valid {A} (P : A → Prop) (o : option A) : Prop :=
  match o with Some a => P a | None => True end.

Definition u8_valid := in_uint u8_max.
Definition u32_valid := in_uint u32_max.
Definition u64_valid := in_uint u64_max.

Definition rgb_valid (c : Rgb) : Prop :=
  u8_valid c.1.1 ∧ u8_valid c.1.2 ∧ u8_valid c.2.

Definition gravity_valid (g : Gravity) : Prop :=
  match g with
  | Gravity.FocusPoint x y => f64_valid x ∧ f64_valid y
  | _ => True
  end.

Definition crop_dimension_valid (d : CropDimension) : Prop :=
  match d with
  | CropDimension.Full => True
  | CropDimension.Absolute v => u32_valid v
  | CropDimension.Relative v => f64_valid v
  end.

Definition crop_valid (c : Crop) : Prop :=
  crop_dimension_valid (crop_width c) ∧ crop_dimension_valid (crop_height c)
  ∧ gravity_valid (crop_gravity c).

Definition padding_valid (p : Padding) : Prop :=
  u32_valid (pad_top p) ∧ u32_valid (pad_right p)
  ∧ u32_valid (pad_bottom p) ∧ u32_valid (pad_left p).

Definition trim_valid (t : TrimOptions) : Prop :=
  f32_valid (trim_threshold t) ∧ opt_valid rgb_valid (trim_color t).

Definition watermark_valid (w : WatermarkQuery) : Prop :=
  f32_valid (wm_opacity w) ∧ f32_valid (wm_x_offset w) ∧ f32_valid (wm_y_offset w)
  ∧ f32_valid (wm_scale w)
  ∧ opt_valid (λ sz, u32_valid sz.1 ∧ u32_valid sz.2) (wm_size w)
  ∧ f32_valid (wm_rotate w) ∧ opt_valid f32_valid (wm_shadow w).

Record query_valid (q : ResizeQuery) : Prop := {
  qv_width : opt_valid u32_valid (rq_width q);
  qv_height : opt_valid u32_valid (rq_height q);
  qv_blur_sigma : opt_valid f32_valid (rq_blur_sigma q);
  qv_quality : opt_valid u8_valid (rq_quality q);
  qv_jpeg_quality : opt_valid u8_valid (rq_jpeg_quality q);
  qv_webp_quality : opt_valid u8_valid (rq_webp_quality q);
  qv_max_bytes : opt_valid u64_valid (rq_max_bytes q);
  qv_background : opt_valid rgb_valid (rq_background q);
  qv_crop : opt_valid crop_valid (rq_crop q);
  qv_gravity : gravity_valid (rq_gravity q);
  qv_trim : opt_valid trim_valid (rq_trim q);
  qv_padding : opt_valid padding_valid (rq_padding q);
  qv_zoom_x : f32_valid (rq_zoom_x q);
  qv_zoom_y : f32_valid (rq_zoom_y q);
  qv_dpr : f32_valid (rq_dpr q);
  qv_min_width : opt_valid u32_valid (rq_min_width q);
  qv_min_height : opt_valid u32_valid (rq_min_height q);
  qv_watermark : opt_valid watermark_valid (rq_watermark q);
}.

(** ** Text round trips *)

Lemma image_format_roundtrip f :
  image_format_from_str (image_format_to_string f) = Ok f.
Proof. by destruct f. Qed.

Lemma resize_type_roundtrip t :
  resize_type_from_str (resize_type_to_string t) = Ok t.
Proof. by destruct t. Qed.

Lemma image_format_to_string_inj f g :
  image_format_to_string f = image_format_to_string g → f = g.
Proof. by destruct f, g. Qed.

Lemma resize_type_to_string_inj f g :
  resize_type_to_string f = resize_type_to_string g → f = g.
Proof. by destruct f, g. Qed.

Lemma watermark_position_debug_inj p q :
  watermark_position_debug p = watermark_position_debug q → p = q.
Proof. by destruct p, q. Qed.

(** ** Distinct values have distinct texts *)

(** The characters a printed float is made of. *)
Definition float_char (a : ascii) : bool :=
  is_ascii_digit a || str_contains a "-.infNa".

Lemma digits_float_char s :
  str_forall is_ascii_digit s = true → str_forall float_char s = true.
Proof.
  induction s as [|a s IH]; simpl; [done|].
  intros [Ha Hs]%andb_true_iff. rewrite (IH Hs). unfold float_char. by rewrite Ha.
Qed.

Lemma print_decimal_chars d k :
  0 ≤ d → str_forall float_char (print_decimal d k) = true.
Proof.
  intros Hd. unfold print_decimal.
  pose proof (digits_float_char _ (uint_to_string_digits d Hd)) as Hds.
  pose proof (λ n, digits_float_char _ (zeros_digits n)) as Hz.
  set (ds := uint_to_string d) in *.
  destruct (0 <=? k); [by rewrite str_forall_app, Hds, Hz|].
  destruct (_ <=? 0).
  - by rewrite !str_forall_app, Hds, Hz.
  - set (p := Z.to_nat _). rewrite <- (str_take_drop p ds), str_forall_app in Hds.
    apply andb_true_iff in Hds as [H1 H2].
    by rewrite !str_forall_app, H1, H2.
Qed.

Lemma float_to_string_chars prec emax x :
  valid_binary prec emax x = true →
  str_forall float_char (float_to_string prec emax x) = true.
Proof.
  intros Hx. destruct x as [[]|[]| |s m e]; try reflexivity.
  unfold float_to_string. pose proof (shortest_sound prec emax s m e Hx) as [_ Hd].
  destruct (shortest prec emax m e) as [d k]. cbn [fst] in Hd.
  pose proof (print_decimal_chars d k ltac:(lia)). by destruct s.
Qed.

Lemma f64_to_string_no_colon x :
  f64_valid x → str_contains ":" (f64_to_string x) = false.
Proof.
  intros Hx. apply (str_forall_not_contains float_char); [done|].
  by apply float_to_string_chars.
Qed.

Lemma gravity_to_string_inj g h :
  gravity_valid g → gravity_valid h → gravity_to_string g = gravity_to_string h → g = h.
Proof.
  intros Hg Hh. destruct g, h; try (by intros [=]); try done. simpl in *.
  destruct Hg as [Hx Hy], Hh as [Hx' Hy']. intros Heq.
  apply (str_app_inv_l "fp:") in Heq.
  apply sep_inj in Heq as [Hxx Hyy]; [|by apply f64_to_string_no_colon..].
  f_equal; by apply f64_to_string_inj.
Qed.

Lemma crop_dimension_to_string_inj c d :
  crop_dimension_valid c → crop_dimension_valid d →
  crop_dimension_to_string c = crop_dimension_to_string d → c = d.
Proof.
  intros Hc Hd. destruct c as [|v|v], d as [|w|w]; try (by intros [=]); try done;
    simpl in *; intros Heq; f_equal.
  - apply (str_app_inv_l "abs:") in Heq. unfold u32_valid, in_uint in *.
    apply uint_to_string_inj in Heq; lia.
  - apply (str_app_inv_l "rel:") in Heq. by apply f64_to_string_inj.
Qed.
