(* ===== verification/UrlOptions.v ===== *)
(** * Processing options: [src/modules/url/options.rs]

[ProcessingOptions::parse] and the argument parsers it dispatches to.  The
loop over the segments is a fold of [parse_segment] over a state holding the
options built so far and the not yet resolved crop.  The [base64] crate's
decoder is the parameter [b64_decode]. *)
From S2P Require Import Prelude RustStr RustFloat Params.

Local Open Scope Z_scope.

(** ** Errors: [src/modules/url/mod.rs] *)

Inductive UrlParseError :=
  | Malformed (raw_path : string)
  | UnknownOption (code : string)
  | InvalidOptionValue (option : string) (reason : Msg)
  | EmptySource
  | InvalidSource (reason : Msg)
  | OptionNotAllowed (code : string)
  | UnknownPreset (name : string).

(** ** Options *)

Record ProcessingOptions := mk_ProcessingOptions {
  po_width : option Z;
  po_height : option Z;
  po_resize_type : ResizeType;
  po_blur_sigma : option spec_float;
  po_grayscale : option bool;
  po_enlarge : option bool;
  po_quality : option Z;
  po_jpeg_quality : option Z;
  po_webp_quality : option Z;
  po_webp_lossless : option bool;
  po_jpeg_progressive : option bool;
  po_jpeg_no_subsampling : option bool;
  po_max_bytes : option Z;
  po_background : option Rgb;
  po_autorotate : option bool;
  po_strip_metadata : option bool;
  po_crop : option Crop;
  po_gravity : Gravity;
  po_rotate : Z;
  po_flip_horizontal : bool;
  po_flip_vertical : bool;
  po_trim : option TrimOptions;
  po_extend : option bool;
  po_padding : option Padding;
  po_zoom_x : spec_float;
  po_zoom_y : spec_float;
  po_dpr : spec_float;
  po_min_width : option Z;
  po_min_height : option Z;
  po_watermark_opacity : option spec_float;
  po_watermark_position : WatermarkPosition;
  po_watermark_x_offset : spec_float;
  po_watermark_y_offset : spec_float;
  po_watermark_scale : spec_float;
  po_watermark_url : option string;
  po_watermark_size : option (Z * Z);
  po_watermark_rotate : spec_float;
  po_watermark_shadow : option spec_float;
}.

#[export] Instance po_eta : Eta ProcessingOptions := λ o,
  mk_ProcessingOptions (po_width o) (po_height o) (po_resize_type o) (po_blur_sigma o)
    (po_grayscale o) (po_enlarge o) (po_quality o) (po_jpeg_quality o) (po_webp_quality o)
    (po_webp_lossless o) (po_jpeg_progressive o) (po_jpeg_no_subsampling o)
    (po_max_bytes o) (po_background o) (po_autorotate o) (po_strip_metadata o) (po_crop o)
    (po_gravity o) (po_rotate o) (po_flip_horizontal o) (po_flip_vertical o) (po_trim o)
    (po_extend o) (po_padding o) (po_zoom_x o) (po_zoom_y o) (po_dpr o) (po_min_width o)
    (po_min_height o) (po_watermark_opacity o) (po_watermark_position o)
    (po_watermark_x_offset o) (po_watermark_y_offset o) (po_watermark_scale o)
    (po_watermark_url o) (po_watermark_size o) (po_watermark_rotate o)
    (po_watermark_shadow o).

Definition processing_options_default : ProcessingOptions := {|
  po_width := None;
  po_height := None;
  po_resize_type := ResizeType.Fit;
  po_blur_sigma := None;
  po_grayscale := None;
  po_enlarge := None;
  po_quality := None;
  po_jpeg_quality := None;
  po_webp_quality := None;
  po_webp_lossless := None;
  po_jpeg_progressive := None;
  po_jpeg_no_subsampling := None;
  po_max_bytes := None;
  po_background := None;
  po_autorotate := None;
  po_strip_metadata := None;
  po_crop := None;
  po_gravity := Gravity.Center;
  po_rotate := 0;
  po_flip_horizontal := false;
  po_flip_vertical := false;
  po_trim := None;
  po_extend := None;
  po_padding := None;
  po_zoom_x := f32_one;
  po_zoom_y := f32_one;
  po_dpr := f32_one;
  po_min_width := None;
  po_min_height := None;
  po_watermark_opacity := None;
  po_watermark_position := WatermarkPosition.Center;
  po_watermark_x_offset := f32_zero;
  po_watermark_y_offset := f32_zero;
  po_watermark_scale := f32_zero;
  po_watermark_url := None;
  po_watermark_size := None;
  po_watermark_rotate := f32_zero;
  po_watermark_shadow := None;
|}.

Definition looks_like_option (segment : string) : bool := str_contains ":" segment.

(** ** Argument parsers *)

Definition invalid_option {A} (segment : string) (reason : Msg) : result UrlParseError A :=
  Err (InvalidOptionValue segment reason).

Definition require_args1 (args : list string) (segment : string) : result UrlParseError string :=
  match args with
  | [a] => Ok a
  | _ => invalid_option segment (ExpectedArgs 1)
  end.

Definition require_args2 (args : list string) (segment : string)
  : result UrlParseError (string * string) :=
  match args with
  | [a; b] => Ok (a, b)
  | _ => invalid_option segment (ExpectedArgs 2)
  end.

Definition require_args3 (args : list string) (segment : string)
  : result UrlParseError (string * string * string) :=
  match args with
  | [a; b; c] => Ok (a, b, c)
  | _ => invalid_option segment (ExpectedArgs 3)
  end.

Definition parse_dimension (raw segment : string) : result UrlParseError (option Z) :=
  value ← ok_or (parse_u32 raw) (InvalidOptionValue segment (NotUnsignedInteger raw));
  Ok (if value =? 0 then None else Some value).

Definition parse_dimension_allow_zero (raw segment : string) : result UrlParseError Z :=
  ok_or (parse_u32 raw) (InvalidOptionValue segment (NotUnsignedInteger raw)).

Definition parse_bounded (raw segment : string) (min max : Z) : result UrlParseError Z :=
  value ← ok_or (parse_u8 raw) (InvalidOptionValue segment (NotIntegerIn raw min max));
  if (value <? min) || (max <? value) then
    invalid_option segment (OutOfRange value min max)
  else Ok value.

Definition parse_float (raw segment : string) : result UrlParseError spec_float :=
  ok_or (parse_f32 raw) (InvalidOptionValue segment (NotNumber raw)).

Definition parse_resize_type (raw segment : string) : result UrlParseError ResizeType :=
  map_err (InvalidOptionValue segment) (resize_type_from_str raw).

Definition parse_bool (raw segment : string) : result UrlParseError bool :=
  if String.eqb raw "true" || String.eqb raw "1" then Ok true
  else if String.eqb raw "false" || String.eqb raw "0" then Ok false
  else invalid_option segment (NotBoolean raw).

Definition parse_watermark_position (raw segment : string)
  : result UrlParseError WatermarkPosition :=
  if String.eqb raw "ce" then Ok WatermarkPosition.Center
  else if String.eqb raw "no" then Ok WatermarkPosition.North
  else if String.eqb raw "so" then Ok WatermarkPosition.South
  else if String.eqb raw "ea" then Ok WatermarkPosition.East
  else if String.eqb raw "we" then Ok WatermarkPosition.West
  else if String.eqb raw "noea" then Ok WatermarkPosition.NorthEast
  else if String.eqb raw "nowe" then Ok WatermarkPosition.NorthWest
  else if String.eqb raw "soea" then Ok WatermarkPosition.SouthEast
  else if String.eqb raw "sowe" then Ok WatermarkPosition.SouthWest
  else invalid_option segment (UnsupportedWatermarkPosition raw).

(** [expand]: a hex digit doubled. *)
Definition expand_hex (c : ascii) : option Z :=
  digit ← to_digit 16 c;
  Some (digit * 16 + digit).

Definition parse_hex_color (hex segment : string) : result UrlParseError Rgb :=
  let invalid := InvalidOptionValue segment (InvalidHexColour hex) in
  if negb (str_forall is_ascii_hexdigit hex) then Err invalid
  else match hex with
  | String c1 (String c2 (String c3 EmptyString)) =>
      r ← ok_or (expand_hex c1) invalid;
      g ← ok_or (expand_hex c2) invalid;
      b ← ok_or (expand_hex c3) invalid;
      Ok (r, g, b)
  | String c1 (String c2 (String c3 (String c4 (String c5 (String c6 EmptyString))))) =>
      let channel a b :=
        ok_or (parse_uint_radix u8_max 16 (String a (String b EmptyString))) invalid in
      r ← channel c1 c2;
      g ← channel c3 c4;
      b ← channel c5 c6;
      Ok (r, g, b)
  | _ => Err invalid
  end.

Definition parse_background (args : list string) (segment : string)
  : result UrlParseError Rgb :=
  match args with
  | [r; g; b] =>
      r ← parse_bounded r segment 0 255;
      g ← parse_bounded g segment 0 255;
      b ← parse_bounded b segment 0 255;
      Ok (r, g, b)
  | [hex] => parse_hex_color hex segment
  | _ => invalid_option segment ExpectedBackgroundArgs
  end.

Definition parse_crop_dimension (raw segment : string)
  : result UrlParseError CropDimension :=
  value ← ok_or (parse_f64 raw) (InvalidOptionValue segment (NotNumber raw));
  if negb (is_finite value) || f_lt value f64_zero then
    invalid_option segment (NotNonNegativeFinite value)
  else Ok (if f_eq value f64_zero then CropDimension.Full
           else if f_lt value f64_one then CropDimension.Relative value
           else CropDimension.Absolute (round_as_uint u32_max value)).

(** [(0.0..=1.0).contains(&x)]. *)
Definition in_unit_interval (x : spec_float) : bool :=
  f_le f64_zero x && f_le x f64_one.

Definition parse_gravity (tokens : list string) (segment : string)
  : result UrlParseError Gravity :=
  match tokens with
  | [] => invalid_option segment ExpectedGravityType
  | [t] =>
      if String.eqb t "ce" then Ok Gravity.Center
      else if String.eqb t "no" then Ok Gravity.North
      else if String.eqb t "so" then Ok Gravity.South
      else if String.eqb t "ea" then Ok Gravity.East
      else if String.eqb t "we" then Ok Gravity.West
      else if String.eqb t "noea" then Ok Gravity.NorthEast
      else if String.eqb t "nowe" then Ok Gravity.NorthWest
      else if String.eqb t "soea" then Ok Gravity.SouthEast
      else if String.eqb t "sowe" then Ok Gravity.SouthWest
      else invalid_option segment (UnsupportedGravity t)
  | [t; x; y] =>
      if String.eqb t "fp" then
        fx ← ok_or (parse_f64 x) (InvalidOptionValue segment (InvalidFocusPointX x));
        fy ← ok_or (parse_f64 y) (InvalidOptionValue segment (InvalidFocusPointY y));
        if negb (in_unit_interval fx) || negb (in_unit_interval fy) then
          invalid_option segment (FocusPointOutside fx fy)
        else Ok (Gravity.FocusPoint fx fy)
      else invalid_option segment (UnsupportedGravity t)
  | t :: _ => invalid_option segment (UnsupportedGravity t)
  end.

Definition parse_rotate_angle (raw segment : string) : result UrlParseError Z :=
  angle ← ok_or (parse_i32 raw) (InvalidOptionValue segment (NotInteger raw));
  if negb (Z.rem angle 90 =? 0) then invalid_option segment (NotMultipleOf90 angle)
  else Ok (angle mod 360).

Definition parse_positive_nonzero_float (raw segment : string)
  : result UrlParseError spec_float :=
  value ← parse_float raw segment;
  if f_gt value f32_zero then Ok value
  else invalid_option segment (NotPositive value).

Definition parse_zoom (args : list string) (segment : string)
  : result UrlParseError (spec_float * spec_float) :=
  match args with
  | [zoom] =>
      z ← parse_positive_nonzero_float zoom segment;
      Ok (z, z)
  | [zoom_x; zoom_y] =>
      zx ← parse_positive_nonzero_float zoom_x segment;
      zy ← parse_positive_nonzero_float zoom_y segment;
      Ok (zx, zy)
  | _ => invalid_option segment ExpectedZoomArgs
  end.

Definition parse_non_negative_int (raw segment : string) : result UrlParseError Z :=
  ok_or (parse_u32 raw) (InvalidOptionValue segment (NotNonNegativeInteger raw)).

(** The [slot] closure of [parse_padding]. *)
Definition padding_slot (value : option string) (segment : string)
  : result UrlParseError (option Z) :=
  match non_empty value with
  | Some s => v ← parse_non_negative_int s segment; Ok (Some v)
  | None => Ok None
  end.

Definition parse_padding (args : list string) (segment : string)
  : result UrlParseError Padding :=
  if (length args =? 0)%nat || (4 <? length args)%nat then
    invalid_option segment ExpectedPaddingArgs
  else
    top ← padding_slot (args !! 0%nat) segment;
    top ← ok_or top (InvalidOptionValue segment PaddingTopRequired);
    right ← padding_slot (args !! 1%nat) segment;
    let right := default top right in
    bottom ← padding_slot (args !! 2%nat) segment;
    let bottom := default top bottom in
    left ← padding_slot (args !! 3%nat) segment;
    let left := default right left in
    Ok (mk_Padding top right bottom left).

(** An optional boolean slot that defaults to [d]. *)
Definition bool_slot (value : option string) (segment : string) (d : bool)
  : result UrlParseError bool :=
  match non_empty value with
  | Some v => parse_bool v segment
  | None => Ok d
  end.

Definition parse_trim (args : list string) (segment : string)
  : result UrlParseError TrimOptions :=
  if (length args =? 0)%nat || (4 <? length args)%nat then
    invalid_option segment ExpectedTrimArgs
  else
    let threshold_raw := default EmptyString (args !! 0%nat) in
    if str_is_empty threshold_raw then invalid_option segment TrimThresholdRequired
    else
      threshold ← parse_float threshold_raw segment;
      if f_lt threshold f32_zero then invalid_option segment (NotNonNegative threshold)
      else
        color ← match non_empty (args !! 1%nat) with
                | Some hex => c ← parse_hex_color hex segment; Ok (Some c)
                | None => Ok None
                end;
        equal_hor ← bool_slot (args !! 2%nat) segment false;
        equal_ver ← bool_slot (args !! 3%nat) segment false;
        Ok (mk_TrimOptions threshold color equal_hor equal_ver).

(** ** The segment loop *)

(** The crop as its segment gave it, before its gravity is resolved. *)
Definition CropRaw : Type := CropDimension * CropDimension * option Gravity.

Record ParseState := mk_ParseState {
  ps_opts : ProcessingOptions;
  ps_crop_raw : option CropRaw;
}.

#[export] Instance ps_eta : Eta ParseState := λ s, mk_ParseState (ps_opts s) (ps_crop_raw s).

(** An optional slot of [fl], [jpgo] or [wm]: absent or empty keeps the field. *)
Definition slot {A} (value : option string) (parse : string → result UrlParseError A)
    (keep : A) : result UrlParseError A :=
  match non_empty value with
  | Some v => parse v
  | None => Ok keep
  end.

(** One [format:quality] pair of [fq]. *)
Definition apply_format_quality (segment : string) (opts : ProcessingOptions)
    (format value : string) : result UrlParseError ProcessingOptions :=
  quality ← parse_bounded value segment 0 100;
  if String.eqb format "jpg" || String.eqb format "jpeg" then
    Ok (opts <| po_jpeg_quality := Some quality |>)
  else if String.eqb format "webp" then Ok (opts <| po_webp_quality := Some quality |>)
  else if String.eqb format "png" then invalid_option segment PngHasNoQuality
  else invalid_option segment (UnsupportedQualityFormat format).

(** The [args.chunks(2)] loop of [fq]. *)
Fixpoint apply_format_qualities (segment : string) (opts : ProcessingOptions)
    (args : list string) : result UrlParseError ProcessingOptions :=
  match args with
  | format :: value :: rest =>
      opts ← apply_format_quality segment opts format value;
      apply_format_qualities segment opts rest
  | _ => Ok opts
  end.

Definition parse_watermark (args : list string) (segment : string)
    (opts : ProcessingOptions) : result UrlParseError ProcessingOptions :=
  if (length args =? 0)%nat || (5 <? length args)%nat then
    invalid_option segment ExpectedWatermarkArgs
  else
    opacity ← parse_float (default EmptyString (args !! 0%nat)) segment;
    position ← slot (args !! 1%nat) (λ v, parse_watermark_position v segment)
                 (po_watermark_position opts);
    x_offset ← slot (args !! 2%nat) (λ v, parse_float v segment) (po_watermark_x_offset opts);
    y_offset ← slot (args !! 3%nat) (λ v, parse_float v segment) (po_watermark_y_offset opts);
    scale ← slot (args !! 4%nat) (λ v, parse_float v segment) (po_watermark_scale opts);
    Ok (opts <| po_watermark_opacity := Some opacity |>
             <| po_watermark_position := position |>
             <| po_watermark_x_offset := x_offset |>
             <| po_watermark_y_offset := y_offset |>
             <| po_watermark_scale := scale |>).

Section Parse.
(** [URL_SAFE_NO_PAD.decode] of the [base64] crate. *)
Context (b64_decode : string → option string).

(** The arms of the [match] on the option code that set options, in their
    source order; each group falls through to the next. *)
Definition apply_watermark_option (code : string) (args : list string) (segment : string)
    (opts : ProcessingOptions) : result UrlParseError ProcessingOptions :=
  if String.eqb code "wm" then parse_watermark args segment opts
  else if String.eqb code "wmu" then
    encoded ← require_args1 args segment;
    decoded ← ok_or (b64_decode encoded) (InvalidOptionValue segment InvalidWatermarkUrlBase64);
    url ← ok_or (from_utf8 decoded) (InvalidOptionValue segment WatermarkUrlNotUtf8);
    Ok (opts <| po_watermark_url := Some url |>)
  else if String.eqb code "wms" then
    '(w, h) ← require_args2 args segment;
    width ← parse_dimension_allow_zero w segment;
    height ← parse_dimension_allow_zero h segment;
    Ok (opts <| po_watermark_size := Some (width, height) |>)
  else if String.eqb code "wmr" then
    angle ← require_args1 args segment;
    a ← parse_float angle segment;
    Ok (opts <| po_watermark_rotate := a |>)
  else if String.eqb code "wmsh" then
    sigma ← require_args1 args segment;
    s ← parse_float sigma segment;
    Ok (opts <| po_watermark_shadow := Some s |>)
  else Err (UnknownOption code).

Definition apply_geometry_option (code : string) (args : list string) (segment : string)
    (opts : ProcessingOptions) : result UrlParseError ProcessingOptions :=
  if String.eqb code "rot" then
    value ← require_args1 args segment;
    angle ← parse_rotate_angle value segment;
    Ok (opts <| po_rotate := angle |>)
  else if String.eqb code "fl" then
    if (2 <? length args)%nat then invalid_option segment ExpectedFlipArgs
    else
      h ← slot (args !! 0%nat) (λ v, parse_bool v segment) (po_flip_horizontal opts);
      v ← slot (args !! 1%nat) (λ v, parse_bool v segment) (po_flip_vertical opts);
      Ok (opts <| po_flip_horizontal := h |> <| po_flip_vertical := v |>)
  else if String.eqb code "t" then
    t ← parse_trim args segment;
    Ok (opts <| po_trim := Some t |>)
  else if String.eqb code "ex" then
    value ← require_args1 args segment;
    b ← parse_bool value segment;
    Ok (opts <| po_extend := Some b |>)
  else if String.eqb code "pd" then
    p ← parse_padding args segment;
    Ok (opts <| po_padding := Some p |>)
  else if String.eqb code "z" then
    '(zx, zy) ← parse_zoom args segment;
    Ok (opts <| po_zoom_x := zx |> <| po_zoom_y := zy |>)
  else if String.eqb code "dpr" then
    value ← require_args1 args segment;
    d ← parse_positive_nonzero_float value segment;
    Ok (opts <| po_dpr := d |>)
  else if String.eqb code "mw" then
    value ← require_args1 args segment;
    w ← parse_dimension value segment;
    Ok (opts <| po_min_width := w |>)
  else if String.eqb code "mh" then
    value ← require_args1 args segment;
    h ← parse_dimension value segment;
    Ok (opts <| po_min_height := h |>)
  else apply_watermark_option code args segment opts.

Definition apply_pixel_option (code : string) (args : list string) (segment : string)
    (opts : ProcessingOptions) : result UrlParseError ProcessingOptions :=
  if String.eqb code "bl" then
    value ← require_args1 args segment;
    sigma ← parse_float value segment;
    Ok (opts <| po_blur_sigma := Some sigma |>)
  else if String.eqb code "g" then
    value ← require_args1 args segment;
    b ← parse_bool value segment;
    Ok (opts <| po_grayscale := Some b |>)
  else if String.eqb code "el" then
    value ← require_args1 args segment;
    b ← parse_bool value segment;
    Ok (opts <| po_enlarge := Some b |>)
  else if String.eqb code "bg" then
    c ← parse_background args segment;
    Ok (opts <| po_background := Some c |>)
  else if String.eqb code "ar" then
    value ← require_args1 args segment;
    b ← parse_bool value segment;
    Ok (opts <| po_autorotate := Some b |>)
  else if String.eqb code "sm" then
    value ← require_args1 args segment;
    b ← parse_bool value segment;
    Ok (opts <| po_strip_metadata := Some b |>)
  else if String.eqb code "gr" then
    if (length args =? 0)%nat then invalid_option segment ExpectedGravityArg
    else
      g ← parse_gravity args segment;
      Ok (opts <| po_gravity := g |>)
  else apply_geometry_option code args segment opts.

Definition apply_option (code : string) (args : list string) (segment : string)
    (opts : ProcessingOptions) : result UrlParseError ProcessingOptions :=
  if String.eqb code "rs" then
    '(kind, width, height) ← require_args3 args segment;
    t ← parse_resize_type kind segment;
    w ← parse_dimension width segment;
    h ← parse_dimension height segment;
    Ok (opts <| po_resize_type := t |> <| po_width := w |> <| po_height := h |>)
  else if String.eqb code "q" then
    value ← require_args1 args segment;
    q ← parse_bounded value segment 0 100;
    Ok (opts <| po_quality := Some q |>)
  else if String.eqb code "fq" then
    if (length args =? 0)%nat || negb (Nat.even (length args)) then
      invalid_option segment ExpectedFormatQualityPairs
    else apply_format_qualities segment opts args
  else if String.eqb code "webpo" then
    compression ← require_args1 args segment;
    if String.eqb compression "lossy" then Ok (opts <| po_webp_lossless := Some false |>)
    else if String.eqb compression "lossless" then
      Ok (opts <| po_webp_lossless := Some true |>)
    else invalid_option segment (UnsupportedWebpCompression compression)
  else if String.eqb code "jpgo" then
    if (length args =? 0)%nat || (2 <? length args)%nat then
      invalid_option segment ExpectedJpegOptions
    else
      progressive ← slot (args !! 0%nat) (λ v, b ← parse_bool v segment; Ok (Some b))
                      (po_jpeg_progressive opts);
      no_subsample ← slot (args !! 1%nat) (λ v, b ← parse_bool v segment; Ok (Some b))
                       (po_jpeg_no_subsampling opts);
      Ok (opts <| po_jpeg_progressive := progressive |>
               <| po_jpeg_no_subsampling := no_subsample |>)
  else if String.eqb code "mb" then
    value ← require_args1 args segment;
    bytes ← ok_or (parse_u64 value) (InvalidOptionValue segment (NotUnsignedInteger value));
    Ok (opts <| po_max_bytes := if bytes =? 0 then None else Some bytes |>)
  else apply_pixel_option code args segment opts.

(** The [c] arm: the raw crop, its gravity unresolved when not given. *)
Definition parse_crop (args : list string) (segment : string)
    : result UrlParseError CropRaw :=
  match args with
  | w :: h :: rest =>
      width ← parse_crop_dimension w segment;
      height ← parse_crop_dimension h segment;
      gravity ← match rest with
                | [] => Ok None
                | _ => g ← parse_gravity rest segment; Ok (Some g)
                end;
      Ok (width, height, gravity)
  | _ => invalid_option segment ExpectedCropArgs
  end.

Definition segment_code (segment : string) : string :=
  default EmptyString (head (split_on ":" segment)).

Definition segment_args (segment : string) : list string :=
  tail (split_on ":" segment).

Definition parse_segment (st : ParseState) (segment : string)
    : result UrlParseError ParseState :=
  let code := segment_code segment in
  let args := segment_args segment in
  if String.eqb code "c" then
    raw ← parse_crop args segment;
    Ok (st <| ps_crop_raw := Some raw |>)
  else
    opts ← apply_option code args segment (ps_opts st);
    Ok (st <| ps_opts := opts |>).

Fixpoint parse_segments (st : ParseState) (segments : list string)
    : result UrlParseError ParseState :=
  match segments with
  | [] => Ok st
  | segment :: rest =>
      st ← parse_segment st segment;
      parse_segments st rest
  end.

(** The crop's own gravity, or the top-level one. *)
Definition resolve_crop (st : ParseState) : ProcessingOptions :=
  let opts := ps_opts st in
  opts <| po_crop :=
    match ps_crop_raw st with
    | Some (width, height, gravity) =>
        Some (mk_Crop width height (default (po_gravity opts) gravity))
    | None => None
    end |>.

Definition parse (segments : list string) : result UrlParseError ProcessingOptions :=
  st ← parse_segments (mk_ParseState processing_options_default None) segments;
  Ok (resolve_crop st).
End Parse.

Example parse_example :
  (λ o, (po_width o, po_rotate o, po_flip_vertical o, po_padding o))
    <$> parse (λ _, None) ["rs:fill:300:0"; "rot:-90"; "fl::1"; "pd:10:20"]
  = Ok (Some 300, 270, true, Some (mk_Padding 10 20 10 20)).
Proof. vm_compute. reflexivity. Qed.

(** ** Well-formed options

What the pipeline may rely on after a successful parse; stronger than the
ranges of the Rust types. *)
Definition dim_wf (v : Z) : Prop := 1 ≤ v ≤ u32_max.
Definition quality_wf (v : Z) : Prop := 0 ≤ v ≤ 100.

Definition gravity_wf (g : Gravity) : Prop :=
  match g with
  | Gravity.FocusPoint x y =>
      (f64_valid x ∧ in_unit_interval x = true) ∧ (f64_valid y ∧ in_unit_interval y = true)
  | _ => True
  end.

Definition crop_dimension_wf (d : CropDimension) : Prop :=
  match d with
  | CropDimension.Full => True
  | CropDimension.Absolute v => dim_wf v
  | CropDimension.Relative v =>
      f64_valid v ∧ f_gt v f64_zero = true ∧ f_lt v f64_one = true
  end.

Definition crop_wf (c : Crop) : Prop :=
  crop_dimension_wf (crop_width c) ∧ crop_dimension_wf (crop_height c)
  ∧ gravity_wf (crop_gravity c).

Definition trim_wf (t : TrimOptions) : Prop :=
  f32_valid (trim_threshold t) ∧ f_lt (trim_threshold t) f32_zero = false
  ∧ opt_valid rgb_valid (trim_color t).

Record options_wf (o : ProcessingOptions) : Prop := {
  wf_width : opt_valid dim_wf (po_width o);
  wf_height : opt_valid dim_wf (po_height o);
  wf_blur_sigma : opt_valid f32_valid (po_blur_sigma o);
  wf_quality : opt_valid quality_wf (po_quality o);
  wf_jpeg_quality : opt_valid quality_wf (po_jpeg_quality o);
  wf_webp_quality : opt_valid quality_wf (po_webp_quality o);
  wf_max_bytes : opt_valid (λ v, 1 ≤ v ≤ u64_max) (po_max_bytes o);
  wf_background : opt_valid rgb_valid (po_background o);
  wf_crop : opt_valid crop_wf (po_crop o);
  wf_gravity : gravity_wf (po_gravity o);
  wf_rotate : po_rotate o ∈ [0; 90; 180; 270];
  wf_trim : opt_valid trim_wf (po_trim o);
  wf_padding : opt_valid padding_valid (po_padding o);
  wf_zoom_x : positive_f32 (po_zoom_x o);
  wf_zoom_y : positive_f32 (po_zoom_y o);
  wf_dpr : positive_f32 (po_dpr o);
  wf_min_width : opt_valid dim_wf (po_min_width o);
  wf_min_height : opt_valid dim_wf (po_min_height o);
  wf_watermark_opacity : opt_valid f32_valid (po_watermark_opacity o);
  wf_watermark_x_offset : f32_valid (po_watermark_x_offset o);
  wf_watermark_y_offset : f32_valid (po_watermark_y_offset o);
  wf_watermark_scale : f32_valid (po_watermark_scale o);
  wf_watermark_size :
    opt_valid (λ sz, u32_valid sz.1 ∧ u32_valid sz.2) (po_watermark_size o);
  wf_watermark_rotate : f32_valid (po_watermark_rotate o);
  wf_watermark_shadow : opt_valid f32_valid (po_watermark_shadow o);
}.

Definition crop_raw_wf (c : CropRaw) : Prop :=
  crop_dimension_wf c.1.1 ∧ crop_dimension_wf c.1.2 ∧ opt_valid gravity_wf c.2.

(** ** What each argument parser returns *)

Create HintDb options discriminated.

Lemma parse_dimension_wf raw seg v :
  parse_dimension raw seg = Ok v → opt_valid dim_wf v.
Proof.
  unfold parse_dimension. intros. invert_ok. subst.
  destruct (Z.eqb_spec x 0); simpl; [done|].
  apply parse_uint_range in H. unfold in_uint, dim_wf in *. lia.
Qed.

Lemma parse_u32_valid raw seg e v :
  ok_or (parse_u32 raw) (InvalidOptionValue seg e) = Ok v → u32_valid v.
Proof. intros. invert_ok. by eapply parse_uint_range. Qed.

Lemma parse_float_wf raw seg x : parse_float raw seg = Ok x → f32_valid x.
Proof. unfold parse_float. intros. invert_ok. by eapply parse_f32_valid. Qed.

Lemma parse_bounded_wf raw seg lo hi v :
  parse_bounded raw seg lo hi = Ok v → lo ≤ v ≤ hi ∧ u8_valid v.
Proof.
  unfold parse_bounded. intros. invert_ok. apply parse_uint_range in H.
  destruct (Z.ltb_spec x lo), (Z.ltb_spec hi x); simpl in *; invert_ok; subst;
    try done; lia.
Qed.

Lemma parse_positive_wf raw seg x :
  parse_positive_nonzero_float raw seg = Ok x → positive_f32 x.
Proof.
  unfold parse_positive_nonzero_float. intros. invert_ok. apply parse_float_wf in H.
  destruct (f_gt _ _) eqn:Hgt; unfold invalid_option in *; invert_ok; by subst.
Qed.

Lemma to_digit_hex_range c d : to_digit 16 c = Some d → 0 ≤ d < 16.
Proof. apply to_digit_range. lia. Qed.

Lemma expand_hex_valid c v : expand_hex c = Some v → u8_valid v.
Proof.
  unfold expand_hex. intros (d & Hd & [= <-])%bind_Some.
  apply to_digit_hex_range in Hd. unfold u8_valid, in_uint, u8_max. lia.
Qed.

Lemma parse_hex_color_wf hex seg c : parse_hex_color hex seg = Ok c → rgb_valid c.
Proof.
  unfold parse_hex_color. cbv zeta. destruct (str_forall _ _); simpl; [|done].
  destruct hex as [|c1 [|c2 [|c3 [|c4 [|c5 [|c6 [|]]]]]]]; try done; intros; invert_ok; subst.
  - split_and!; by eapply expand_hex_valid.
  - split_and!; simpl; (eapply parse_uint_radix_range; [|eassumption]; lia).
Qed.

Lemma parse_background_wf args seg c : parse_background args seg = Ok c → rgb_valid c.
Proof.
  unfold parse_background. destruct args as [|a [|b [|d [|]]]]; try done.
  - apply parse_hex_color_wf.
  - intros. invert_ok. subst. split_and!; by eapply parse_bounded_wf.
Qed.

(** A finite float not below one rounds to at least one. *)
Lemma round_as_uint_ge_1 x :
  f64_valid x → is_finite x = true → f_lt x f64_zero = false →
  f_eq x f64_zero = false → f_lt x f64_one = false →
  1 ≤ round_as_uint u32_max x.
Proof.
  intros Hv Hfin Hnn Hnz Hlt. destruct x as [[]|[]| |[] m e]; try done.
  unfold round_as_uint. apply Z.min_glb; [by unfold u32_max|].
  unfold f_lt, SFltb, SFcompare, f64_one in Hlt.
  unfold round_mag. destruct (Z.leb_spec 0 e) as [He|He].
  { pose proof (Z.pow_pos_nonneg 2 e ltac:(lia) He). nia. }
  assert (Hm : 2 ^ 52 ≤ Zpos m ∧ -52 ≤ e).
  { change (2 ^ 52) with 4503599627370496. unfold f64_valid, valid_binary, bounded, canonical_mantissa in Hv.
    apply andb_true_iff in Hv as [Hcan%Z.eqb_eq _].
    destruct (Z.compare_spec e (-52)) as [->| |]; [|done|].
    - change (Pos.compare_cont Eq) with Pos.compare in Hlt.
      destruct (Pos.compare_spec m 4503599627370496); [|done|]; lia.
    - pose proof (digits2_pos_bounds m) as [Hl _].
      unfold fexp, emin in Hcan. assert (Zpos (digits2_pos m) = 53) as Hd by lia.
      rewrite Hd in Hl. change (2 ^ (53 - 1)) with 4503599627370496 in Hl. lia. }
  destruct Hm as [Hm He52].
  pose proof (Z.pow_pos_nonneg 2 (- e) ltac:(lia) ltac:(lia)).
  pose proof (Z.pow_le_mono_r 2 (- e) 52 ltac:(lia) ltac:(lia)).
  pose proof (Z.pow_nonneg 2 (- e - 1) ltac:(lia)).
  apply Z.div_le_lower_bound; lia.
Qed.

Lemma parse_crop_dimension_wf raw seg d :
  parse_crop_dimension raw seg = Ok d → crop_dimension_wf d.
Proof.
  unfold parse_crop_dimension, invalid_option. intros. invert_ok.
  apply parse_f64_valid in H.
  destruct (is_finite x) eqn:Hfin; [|done]. destruct (f_lt x f64_zero) eqn:Hneg; [done|].
  simpl in *. invert_ok. subst. destruct (f_eq x f64_zero) eqn:Hz; [done|].
  destruct (f_lt x f64_one) eqn:H1; simpl.
  - split_and!; try done. by destruct x as [[]|[]| |[]].
  - split; [by apply round_as_uint_ge_1|]. unfold round_as_uint, u32_max.
    destruct x as [|[]| |[]]; lia.
Qed.

Lemma parse_gravity_wf tokens seg g : parse_gravity tokens seg = Ok g → gravity_wf g.
Proof.
  unfold parse_gravity, invalid_option. destruct tokens as [|t [|x [|y [|]]]]; try done.
  - repeat (destruct (String.eqb _ _); [by intros [= <-]|]). done.
  - destruct (String.eqb _ _); [|done]. intros. invert_ok.
    apply parse_f64_valid in H, H0.
    destruct (in_unit_interval x0) eqn:?; [|done]. destruct (in_unit_interval x1) eqn:?; [|done].
    simpl in *. invert_ok. by subst.
Qed.

Lemma parse_rotate_angle_wf raw seg a :
  parse_rotate_angle raw seg = Ok a → a ∈ [0; 90; 180; 270].
Proof.
  unfold parse_rotate_angle, invalid_option. intros. invert_ok.
  destruct (Z.eqb_spec (Z.rem x 90) 0) as [Hrem|]; simpl in *; [|done]. invert_ok. subst.
  apply Z.rem_divide in Hrem as [k ->]; [|done].
  replace 360 with (4 * 90) by done. rewrite Z.mul_mod_distr_r by done.
  pose proof (Z.mod_pos_bound k 4 ltac:(lia)).
  assert (k mod 4 = 0 ∨ k mod 4 = 1 ∨ k mod 4 = 2 ∨ k mod 4 = 3) as Hk by lia.
  rewrite list_elem_of_In. simpl. lia.
Qed.

Lemma parse_zoom_wf args seg z :
  parse_zoom args seg = Ok z → positive_f32 z.1 ∧ positive_f32 z.2.
Proof.
  unfold parse_zoom. destruct args as [|a [|b [|]]]; try done; intros; invert_ok; subst; simpl.
  - split; by eapply parse_positive_wf.
  - split; by eapply parse_positive_wf.
Qed.

Lemma padding_slot_valid value seg v :
  padding_slot value seg = Ok v → opt_valid u32_valid v.
Proof.
  unfold padding_slot. destruct (non_empty value); intros; invert_ok; subst; [|done].
  by eapply parse_u32_valid.
Qed.

Lemma default_valid {A} (P : A → Prop) (d : A) o :
  P d → opt_valid P o → P (default d o).
Proof. by destruct o. Qed.

Lemma parse_padding_valid args seg p : parse_padding args seg = Ok p → padding_valid p.
Proof.
  unfold parse_padding. destruct (_ || _); [done|]. intros. invert_ok. subst.
  repeat match goal with
  | H : padding_slot _ _ = Ok _ |- _ => apply padding_slot_valid in H
  end.
  simplify_eq/=. unfold padding_valid; simpl.
  split_and!; repeat (apply (default_valid u32_valid); [|done]); done.
Qed.

Lemma parse_trim_wf args seg t : parse_trim args seg = Ok t → trim_wf t.
Proof.
  unfold parse_trim. destruct (_ || _); [done|]. cbv zeta.
  destruct (str_is_empty _); [done|]. intros. invert_ok. apply parse_float_wf in H.
  destruct (f_lt x f32_zero) eqn:Hlt; [done|]. invert_ok. subst.
  unfold trim_wf; simpl. split_and!; [done..|].
  destruct (non_empty _); invert_ok; subst; [|done]. by eapply parse_hex_color_wf.
Qed.

Lemma slot_valid {A} (P : A → Prop) value parse keep r :
  slot value parse keep = Ok r → (∀ s v, parse s = Ok v → P v) → P keep → P r.
Proof.
  unfold slot. destruct (non_empty value); [|by intros [= <-]].
  intros H Hp _. by eapply Hp.
Qed.

Lemma parse_quality_wf raw seg v : parse_bounded raw seg 0 100 = Ok v → quality_wf v.
Proof. by intros [? _]%parse_bounded_wf. Qed.

Lemma max_bytes_wf value b :
  parse_u64 value = Some b →
  opt_valid (λ v, 1 ≤ v ≤ u64_max) (if b =? 0 then None else Some b).
Proof.
  intros H%parse_uint_range. unfold in_uint in H. destruct (Z.eqb_spec b 0); simpl; lia.
Qed.

Lemma parse_zoom_x_wf args seg x y : parse_zoom args seg = Ok (x, y) → positive_f32 x.
Proof. by intros [? _]%parse_zoom_wf. Qed.

Lemma parse_zoom_y_wf args seg x y : parse_zoom args seg = Ok (x, y) → positive_f32 y.
Proof. by intros [_ ?]%parse_zoom_wf. Qed.

#[export] Hint Resolve parse_quality_wf max_bytes_wf parse_zoom_x_wf parse_zoom_y_wf
  parse_dimension_wf parse_u32_valid parse_float_wf
  parse_positive_wf parse_background_wf parse_gravity_wf parse_rotate_angle_wf
  parse_padding_valid parse_trim_wf : options.

(** ** Every step keeps the options well-formed *)

Lemma default_wf : options_wf processing_options_default.
Proof. constructor; simpl; try done. rewrite list_elem_of_In. simpl. lia. Qed.

Lemma apply_format_qualities_wf seg opts args opts' :
  options_wf opts → apply_format_qualities seg opts args = Ok opts' → options_wf opts'.
Proof.
  enough (∀ n args opts, (length args < n)%nat → options_wf opts →
    apply_format_qualities seg opts args = Ok opts' → options_wf opts') by eauto.
  clear. intros n. induction n as [|n IH]; intros args opts Hn Hwf H; [lia|].
  destruct args as [|f [|v rest]]; simpl in *; [by invert_ok; subst..|].
  invert_ok. eapply IH; [| |done]; [lia|]. clear IH H0 Hn.
  unfold apply_format_quality, invalid_option in H. invert_ok.
  apply parse_bounded_wf in H as [H _].
  destruct (_ || _); [|destruct (String.eqb _ _); [|by destruct (String.eqb _ _)]];
    invert_ok; subst; destruct Hwf; by constructor.
Qed.

Lemma parse_watermark_wf args seg opts opts' :
  options_wf opts → parse_watermark args seg opts = Ok opts' → options_wf opts'.
Proof.
  unfold parse_watermark. destruct (_ || _); [done|]. intros Hwf H. invert_ok. subst.
  repeat match goal with
  | Hs : slot _ (λ v, parse_float v _) _ = Ok _ |- _ =>
      apply (slot_valid f32_valid) in Hs; [|by eauto using parse_float_wf|by destruct Hwf]
  end.
  destruct Hwf. constructor; simpl; eauto using parse_float_wf.
Qed.

(** Take a successful option arm apart and re-establish the invariant. *)
Ltac solve_arm Hwf :=
  unfold invalid_option;
  intros; invert_ok;
  repeat match goal with
  | x : _ * _ |- _ => destruct x
  | H : (if _ then _ else _) = Ok _ |- _ => case_match; try discriminate H
  | H : opt_valid _ (Some _) |- _ => simpl in H
  end; simpl in *; invert_ok; simplify_eq/=;
  destruct Hwf; constructor; simpl; eauto with options.

Section ParseWf.
Context (b64_decode : string → option string).

Lemma apply_option_wf code args seg opts opts' :
  options_wf opts → apply_option b64_decode code args seg opts = Ok opts' →
  options_wf opts'.
Proof.
  intros Hwf. unfold apply_option, apply_pixel_option, apply_geometry_option, apply_watermark_option.
  repeat (destruct (String.eqb code _);
    [first [ by apply parse_watermark_wf
           | destruct (_ || _); [done|]; by apply apply_format_qualities_wf
           | solve_arm Hwf ] |]); done.
Qed.

Lemma parse_crop_wf args seg c : parse_crop args seg = Ok c → crop_raw_wf c.
Proof.
  unfold parse_crop. destruct args as [|w [|h rest]]; try done.
  intros. invert_ok. subst. unfold crop_raw_wf; simpl.
  split_and!; [by eapply parse_crop_dimension_wf..|].
  destruct rest; invert_ok; subst; simpl; eauto with options.
Qed.

Definition state_wf (st : ParseState) : Prop :=
  options_wf (ps_opts st) ∧ opt_valid crop_raw_wf (ps_crop_raw st).

Lemma parse_segment_wf st seg st' :
  state_wf st → parse_segment b64_decode st seg = Ok st' → state_wf st'.
Proof.
  intros [Ho Hc]. unfold parse_segment. destruct (String.eqb _ _); intros; invert_ok; subst.
  - split; [done|]. by eapply parse_crop_wf.
  - split; [|done]. by eapply apply_option_wf.
Qed.

Lemma parse_segments_wf segs st st' :
  state_wf st → parse_segments b64_decode st segs = Ok st' → state_wf st'.
Proof.
  revert st. induction segs as [|seg segs IH]; intros st Hst; simpl.
  - by intros [= <-].
  - intros. invert_ok. eapply IH; [|done]. by eapply parse_segment_wf.
Qed.

Lemma resolve_crop_wf st : state_wf st → options_wf (resolve_crop st).
Proof.
  intros [Ho Hc]. destruct Ho. constructor; simpl; try done.
  destruct (ps_crop_raw st) as [[[w h] g]|]; simpl in *; [|done].
  destruct Hc as (Hw & Hh & Hg). split_and!; [done..|]. simpl in *.
  by apply default_valid.
Qed.

Lemma parse_wf segs opts : parse b64_decode segs = Ok opts → options_wf opts.
Proof.
  unfold parse. intros. invert_ok. subst. apply resolve_crop_wf.
  eapply parse_segments_wf; [|done]. split; [apply default_wf|done].
Qed.

Lemma parse_segments_app st l1 l2 :
  parse_segments b64_decode st (l1 ++ l2) =
  (st' ← parse_segments b64_decode st l1; parse_segments b64_decode st' l2).
Proof.
  revert st. induction l1 as [|s l1 IH]; intros st; simpl; [done|].
  destruct (parse_segment b64_decode st s); simpl; [apply IH|done].
Qed.
End ParseWf.

(** ** Properties *)

Section ParseProperties.
Context (b64_decode : string → option string).

(** Segments of the two crop-related codes act on disjoint parts of the
    state, so they commute. *)
Lemma parse_segment_crop_comm st s1 s2 st' :
  segment_code s1 = "c" → segment_code s2 ≠ "c" →
  (st1 ← parse_segment b64_decode st s1; parse_segment b64_decode st1 s2) = Ok st' →
  (st2 ← parse_segment b64_decode st s2; parse_segment b64_decode st2 s1) = Ok st'.
Proof.
  intros Hc1 Hc2. unfold parse_segment. rewrite Hc1.
  apply String.eqb_neq in Hc2. rewrite Hc2. simpl.
  destruct (parse_crop _ s1) as [raw|]; [|done]. simpl.
  by destruct (apply_option b64_decode _ _ s2 (ps_opts st)).
Qed.

(** A crop segment and the segment after it may be exchanged; the crop's
    default gravity is the final top-level one either way. *)
Theorem crop_segment_order l1 l2 s1 s2 opts :
  segment_code s1 = "c" → segment_code s2 ≠ "c" →
  parse b64_decode (l1 ++ s1 :: s2 :: l2) = Ok opts →
  parse b64_decode (l1 ++ s2 :: s1 :: l2) = Ok opts.
Proof.
  intros Hc1 Hc2. unfold parse. rewrite !parse_segments_app.
  destruct (parse_segments b64_decode _ l1) as [st|]; [|done]. simpl.
  destruct (st1 ← parse_segment b64_decode st s1; parse_segment b64_decode st1 s2)
    as [st'|] eqn:Hboth.
  - pose proof (parse_segment_crop_comm st s1 s2 st' Hc1 Hc2 Hboth) as Hswap.
    destruct (parse_segment b64_decode st s1) as [st1|]; [|done]. simpl in *.
    rewrite Hboth. destruct (parse_segment b64_decode st s2) as [st2|]; [|done].
    simpl in *. by rewrite Hswap.
  - destruct (parse_segment b64_decode st s1) as [st1|]; [|done]. simpl in *.
    by rewrite Hboth.
Qed.

(** Whatever the option segments, a successful parse is well-formed. *)
Theorem parse_well_formed segs opts :
  parse b64_decode segs = Ok opts → options_wf opts.
Proof. apply parse_wf. Qed.

(** Options are applied in order: an unknown code is reported as such, and
    nothing after it matters. *)
Theorem parse_unknown_option l1 s l2 opts :
  parse b64_decode l1 = Ok opts →
  segment_code s ∉ ["rs"; "q"; "fq"; "webpo"; "jpgo"; "mb"; "bl"; "g"; "el"; "bg"; "ar";
    "sm"; "c"; "gr"; "rot"; "fl"; "t"; "ex"; "pd"; "z"; "dpr"; "mw"; "mh"; "wm"; "wmu";
    "wms"; "wmr"; "wmsh"] →
  parse b64_decode (l1 ++ s :: l2) = Err (UnknownOption (segment_code s)).
Proof.
  unfold parse. intros Hl1 Hs. invert_ok. rewrite parse_segments_app, H. simpl.
  unfold parse_segment. rewrite !not_elem_of_cons in Hs. destruct_and! Hs.
  repeat match goal with
  | Hne : segment_code s ≠ _ |- _ => apply String.eqb_neq in Hne
  end.
  unfold apply_option, apply_pixel_option, apply_geometry_option, apply_watermark_option.
  repeat match goal with
  | Hne : String.eqb _ _ = false |- _ => rewrite Hne; clear Hne
  end. done.
Qed.
End ParseProperties.

(** The value of a padding slot: absent or empty means [d]. *)
Definition slot_value (value : option string) (d : Z) : option Z :=
  match non_empty value with
  | Some s => parse_u32 s
  | None => Some d
  end.

(** The CSS-style cascade: right and bottom default to top, left to right. *)
Theorem parse_padding_cascade args seg p :
  parse_padding args seg = Ok p ↔
  (1 ≤ length args ≤ 4)%nat ∧ args !! 0%nat ≠ Some EmptyString ∧
  parse_u32 (default EmptyString (args !! 0%nat)) = Some (pad_top p) ∧
  slot_value (args !! 1%nat) (pad_top p) = Some (pad_right p) ∧
  slot_value (args !! 2%nat) (pad_top p) = Some (pad_bottom p) ∧
  slot_value (args !! 3%nat) (pad_right p) = Some (pad_left p).
Proof.
  assert (Hslot : ∀ value d v,
    (r ← padding_slot value seg; Ok (default d r)) = Ok v ↔ slot_value value d = Some v).
  { intros value d v. unfold padding_slot, slot_value, parse_non_negative_int.
    destruct (non_empty value) as [s|]; simpl; [|split; congruence].
    destruct (parse_u32 s); simpl; split; congruence. }
  unfold parse_padding. destruct args as [|a args]; simpl.
  { split; [done|lia]. }
  destruct (Nat.ltb_spec 4 (S (length args))) as [|Hlen]; simpl.
  { split; [done|lia]. }
  split.
  - intros. invert_ok. subst. simpl.
    unfold padding_slot at 1 in H. simpl in H.
    destruct a as [|c a]; simpl in H; invert_ok; subst; [done|]. simplify_eq.
    split_and!; [lia|lia|done| |apply Hslot; by rewrite H1|apply Hslot; by rewrite H2
      |apply Hslot; by rewrite H3].
    unfold parse_non_negative_int in H. by apply ok_or_Ok in H.
  - intros (_ & Hne & Ht & Hr & Hb & Hl).
    destruct a as [|c a]; [done|]. cbn [default from_option] in Ht.
    assert (Ht' : padding_slot (Some (String c a)) seg = Ok (Some (pad_top p))).
    { unfold padding_slot, parse_non_negative_int. cbn [non_empty]. by rewrite Ht. }
    rewrite Ht'. simpl. apply Hslot in Hr, Hb, Hl. invert_ok. simplify_eq.
    repeat match goal with E : padding_slot _ _ = _ |- _ => rewrite E; clear E; simpl end.
    destruct p; simpl in *; congruence.
Qed.

(** A three-digit colour is the six-digit one with each digit doubled. *)
Theorem parse_hex_color_short c1 c2 c3 seg seg' :
  ok (parse_hex_color (String c1 (String c2 (String c3 EmptyString))) seg) =
  ok (parse_hex_color (String c1 (String c1 (String c2 (String c2
       (String c3 (String c3 EmptyString)))))) seg').
Proof.
  unfold parse_hex_color, expand_hex, is_ascii_hexdigit. simpl.
  assert (Hpair : ∀ c d, to_digit 16 c = Some d →
    parse_uint_radix u8_max 16 (String c (String c EmptyString)) = Some (d * 16 + d)).
  { intros c d Hd. pose proof (to_digit_hex_range c d Hd).
    unfold parse_uint_radix.
    replace (match String c (String c EmptyString) with
             | String "+"%char (String _ _ as s') => s'
             | _ => String c (String c EmptyString)
             end) with (String c (String c EmptyString)).
    - simpl. rewrite Hd. destruct (Z.leb_spec ((0 * 16 + d) * 16 + d) u8_max) as [|Hgt]; [f_equal; lia|].
      unfold u8_max in Hgt. lia.
    - by destruct c as [[] [] [] [] [] [] [] []]. }
  destruct (to_digit 16 c1) as [d1|] eqn:H1; [|done].
  destruct (to_digit 16 c2) as [d2|] eqn:H2; [|done].
  destruct (to_digit 16 c3) as [d3|] eqn:H3; [|done].
  simpl. by rewrite (Hpair _ _ H1), (Hpair _ _ H2), (Hpair _ _ H3).
Qed.

(** Rotation angles: exactly the multiples of 90 in [i32], reduced modulo 360. *)
Theorem parse_rotate_angle_spec raw seg a :
  parse_rotate_angle raw seg = Ok a ↔
  ∃ angle, parse_i32 raw = Some angle ∧ (90 | angle) ∧ a = angle mod 360.
Proof.
  unfold parse_rotate_angle, invalid_option. split.
  - intros. invert_ok. exists x. destruct (Z.eqb_spec (Z.rem x 90) 0) as [Hr|]; [|done].
    simpl in *. invert_ok. split_and!; [done|by apply Z.rem_divide|done].
  - intros (angle & -> & Hdiv & ->). simpl. apply Z.rem_divide in Hdiv; [|done].
    by rewrite Hdiv.
Qed.

(** The threshold guard of [t] rejects negative numbers and lets NaN through. *)
Theorem parse_trim_accepts_nan seg :
  parse_trim ["nan"] seg = Ok (mk_TrimOptions S754_nan None false false).
Proof. reflexivity. Qed.

(** ** Instances *)

Lemma crop_segment_order_witness :
  ∃ opts, parse Some ["c:10:20"; "gr:so"] = Ok opts ∧ parse Some ["gr:so"; "c:10:20"] = Ok opts.
Proof.
  destruct (parse Some ["c:10:20"; "gr:so"]) as [opts|] eqn:H; [|by exfalso; vm_compute in H; discriminate H].
  exists opts. split; [done|].
  by apply (crop_segment_order Some [] [] "c:10:20" "gr:so" opts).
Defined.

Lemma parse_well_formed_witness :
  ∃ opts, parse Some ["rs:fit:640:0"; "q:80"; "t:10"; "z:2"] = Ok opts ∧ options_wf opts.
Proof.
  destruct (parse Some ["rs:fit:640:0"; "q:80"; "t:10"; "z:2"]) as [opts|] eqn:H;
    [|by exfalso; vm_compute in H; discriminate H].
  exists opts. split; [done|]. by apply (parse_well_formed Some _ _ H).
Defined.

Lemma parse_unknown_option_witness :
  parse Some ["q:80"; "sharpen:3"; "bl:2"] = Err (UnknownOption "sharpen").
Proof.
  destruct (parse Some ["q:80"]) as [opts|] eqn:H; [|by exfalso; vm_compute in H; discriminate H].
  apply (parse_unknown_option Some ["q:80"] "sharpen:3" ["bl:2"] opts); [exact H|].
  by apply (bool_decide_unpack _).
Defined.
