(* ===== verification/Geometry.v ===== *)
(** * Image geometry: the arithmetic of [src/services/image/handler.rs]

Which dimensions a request resolves to, where a crop or a watermark is
anchored, how far a JPEG may be shrunk while it is decoded.  Dimensions are
[u32] values; the ratios are computed in [f64] as the source does. *)
From Stdlib Require Import QArith Lqa.
From S2P Require Import Prelude RustStr RustFloat FloatError Params Performance.

Local Open Scope Z_scope.

Definition f64_two : spec_float := f64_of_uint 2.

(** [f64 as u64] of a value that [round().max(1.0)] or [ceil()] produced. *)
Definition resize_dimensions (width height nwidth nheight : Z) (fill : bool) : Z * Z :=
  let wratio := f64_div (f64_of_uint nwidth) (f64_of_uint width) in
  let hratio := f64_div (f64_of_uint nheight) (f64_of_uint height) in
  let ratio := if fill then f_max wratio hratio else f_min wratio hratio in
  let nw := round_max1_as_uint u64_max (f64_mul (f64_of_uint width) ratio) in
  let nh := round_max1_as_uint u64_max (f64_mul (f64_of_uint height) ratio) in
  if u32_max <? nw then
    let ratio := f64_div (f64_of_uint u32_max) (f64_of_uint width) in
    (u32_max, round_max1_as_uint u32_max (f64_mul (f64_of_uint height) ratio))
  else if u32_max <? nh then
    let ratio := f64_div (f64_of_uint u32_max) (f64_of_uint height) in
    (round_max1_as_uint u32_max (f64_mul (f64_of_uint width) ratio), u32_max)
  else (nw, nh).

(** ** Anchoring a box in a container *)

Definition gravity_anchor (gravity : Gravity) (container_w container_h box_w box_h : Z) : Z * Z :=
  let box_w := Z.min box_w container_w in
  let box_h := Z.min box_h container_h in
  let max_x := f64_of_uint (container_w - box_w) in
  let max_y := f64_of_uint (container_h - box_h) in
  let half x := f64_div x f64_two in
  let '(x, y) :=
    match gravity with
    | Gravity.Center => (half max_x, half max_y)
    | Gravity.North => (half max_x, f64_zero)
    | Gravity.South => (half max_x, max_y)
    | Gravity.West => (f64_zero, half max_y)
    | Gravity.East => (max_x, half max_y)
    | Gravity.NorthWest => (f64_zero, f64_zero)
    | Gravity.NorthEast => (max_x, f64_zero)
    | Gravity.SouthWest => (f64_zero, max_y)
    | Gravity.SouthEast => (max_x, max_y)
    | Gravity.FocusPoint x y =>
        let center_x := f64_mul (f64_of_uint container_w) (f_clamp f64_zero f64_one x) in
        let center_y := f64_mul (f64_of_uint container_h) (f_clamp f64_zero f64_one y) in
        (f_clamp f64_zero max_x (f64_sub center_x (half (f64_of_uint box_w))),
         f_clamp f64_zero max_y (f64_sub center_y (half (f64_of_uint box_h))))
    end in
  (floor_as_uint u32_max x, floor_as_uint u32_max y).

(** The [resolve] closure of [apply_crop]. *)
Definition resolve_crop_dimension (dim : CropDimension) (source : Z) : Z :=
  let resolved :=
    match dim with
    | CropDimension.Full => source
    | CropDimension.Absolute v => v
    | CropDimension.Relative fraction =>
        round_as_uint u32_max (f64_mul (f64_of_uint source) fraction)
    end in
  Z.max 1 (Z.min resolved (Z.max source 1)).

(** The rectangle [x, y, width, height] that [apply_crop] cuts out. *)
Definition crop_rectangle (crop : Crop) (src_width src_height : Z) : Z * Z * Z * Z :=
  let crop_width := resolve_crop_dimension (crop_width crop) src_width in
  let crop_height := resolve_crop_dimension (crop_height crop) src_height in
  let '(x, y) := gravity_anchor (crop_gravity crop) src_width src_height crop_width crop_height in
  (x, y, crop_width, crop_height).

(** [offset.abs() >= 1.0] is pixels, anything smaller a fraction. *)
Definition resolve_offset (offset : spec_float) (dimension : Z) : Z :=
  if f_ge (SFabs offset) f32_one then round_as_int (2 ^ 63 - 1) offset
  else round_as_int (2 ^ 63 - 1) (f64_mul (f64_of_f32 offset) (f64_of_uint dimension)).

(** [i64] addition as release builds compute it. *)
Definition wrap_i64 (v : Z) : Z := (v + 2 ^ 63) mod 2 ^ 64 - 2 ^ 63.

Lemma wrap_i64_small v : - 2 ^ 63 ≤ v < 2 ^ 63 → wrap_i64 v = v.
Proof. intros Hv. unfold wrap_i64. rewrite Z.mod_small; lia. Qed.

(** [/] on integers truncates towards zero. *)
Definition watermark_position (position : WatermarkPosition) (x_offset y_offset : spec_float)
    (base_width base_height watermark_width watermark_height : Z) : Z * Z :=
  let dx := resolve_offset x_offset base_width in
  let dy := resolve_offset y_offset base_height in
  let bw := base_width in let bh := base_height in
  let ww := watermark_width in let wh := watermark_height in
  let '(base_x, base_y) :=
    match position with
    | WatermarkPosition.Center => (Z.quot (bw - ww) 2, Z.quot (bh - wh) 2)
    | WatermarkPosition.North => (Z.quot (bw - ww) 2, 0)
    | WatermarkPosition.South => (Z.quot (bw - ww) 2, bh - wh)
    | WatermarkPosition.East => (bw - ww, Z.quot (bh - wh) 2)
    | WatermarkPosition.West => (0, Z.quot (bh - wh) 2)
    | WatermarkPosition.NorthEast => (bw - ww, 0)
    | WatermarkPosition.NorthWest => (0, 0)
    | WatermarkPosition.SouthEast => (bw - ww, bh - wh)
    | WatermarkPosition.SouthWest => (0, bh - wh)
    end in
  (wrap_i64 (base_x + dx), wrap_i64 (base_y + dy)).

(** ** Limits *)

Inductive GeometryError :=
  | AxisTooLarge (axis_name : string) (bound max : Z)
  | SourceTooLarge (width height megapixels max : Z)
  | SourceOverflow.

Definition check_axis_bound (explicit min : option Z) (zoom dpr : spec_float) (max : Z)
    (axis_name : string) : result GeometryError unit :=
  let multiplier := f64_mul (f64_of_f32 (f_max zoom f32_one)) (f64_of_f32 (f_max dpr f32_one)) in
  let scaled_explicit :=
    (λ v, ceil_as_uint u64_max (f64_mul (f64_of_uint v) multiplier)) <$> explicit in
  match (match scaled_explicit, min with
         | Some a, Some b => Some (Z.max a b)
         | Some a, None => Some a
         | None, Some b => Some b
         | None, None => None
         end) with
  | None => Ok ()
  | Some bound => if max <? bound then Err (AxisTooLarge axis_name bound max) else Ok ()
  end.

Definition check_output_dimensions (params : ResizeQuery) (config : PerformanceConfig)
  : result GeometryError unit :=
  _ ← check_axis_bound (rq_width params) (rq_min_width params) (rq_zoom_x params) (rq_dpr params)
        (max_output_width config) "width";
  check_axis_bound (rq_height params) (rq_min_height params) (rq_zoom_y params) (rq_dpr params)
    (max_output_height config) "height".

Lemma check_output_dimensions_Err params config g :
  check_output_dimensions params config = Err g → ∃ axis bound max, g = AxisTooLarge axis bound max.
Proof.
  unfold check_output_dimensions, check_axis_bound. intros Hc.
  repeat (simplify_eq/=; case_match); simplify_eq/=; eauto.
Qed.

Definition check_source_resolution (width height max_src_resolution_mp : Z)
  : result GeometryError unit :=
  pixels ← ok_or (if width * height <=? u64_max then Some (width * height) else None) SourceOverflow;
  let megapixels := pixels / 1000000 in
  if max_src_resolution_mp <? megapixels
  then Err (SourceTooLarge width height megapixels max_src_resolution_mp)
  else Ok ().

(** ** The resize box *)

(** [rem_euclid(360) / 90 % 2 == 1] *)
Definition rotate_swaps_axes (degrees : Z) : bool := degrees mod 360 / 90 mod 2 =? 1.

Record EffectiveSizing := mk_EffectiveSizing {
  resize_box : option Z * option Z;
  extend_box : option (Z * Z);
}.

(** The [scale_axis] closure. *)
Definition scale_axis (dpr : spec_float) (value : option Z) (zoom : spec_float) : option Z :=
  (λ v, round_max1_as_uint u32_max
          (f64_mul (f64_mul (f64_of_uint v) (f64_of_f32 zoom)) (f64_of_f32 dpr))) <$> value.

Definition swap_if {A} (swap : bool) (p : A * A) : A * A := if swap then (p.2, p.1) else p.

Definition effective_resize_box (params : ResizeQuery) (src_width src_height : Z) : EffectiveSizing :=
  if negb (bool_decide (is_Some (rq_width params)) || bool_decide (is_Some (rq_height params))
           || bool_decide (is_Some (rq_min_width params))
           || bool_decide (is_Some (rq_min_height params)))
  then mk_EffectiveSizing (None, None) None
  else
    let swap := rotate_swaps_axes (rq_rotate params) in
    let '(final_src_w, final_src_h) := swap_if swap (src_width, src_height) in
    let final_width := scale_axis (rq_dpr params) (rq_width params) (rq_zoom_x params) in
    let final_height := scale_axis (rq_dpr params) (rq_height params) (rq_zoom_y params) in
    let extend_box :=
      match final_width, final_height with
      | Some w, Some h => Some (w, h)
      | _, _ => None
      end in
    let guard src v := if rq_enlarge params then v else Z.min v src in
    let final_width := guard final_src_w <$> final_width in
    let final_height := guard final_src_h <$> final_height in
    let floor src min v :=
      match min with Some m => Some (Z.max (default src v) m) | None => v end in
    let final_width := floor final_src_w (rq_min_width params) final_width in
    let final_height := floor final_src_h (rq_min_height params) final_height in
    mk_EffectiveSizing (swap_if swap (final_width, final_height)) extend_box.

(** Whether [auto] fills: the box has the source's orientation. *)
Definition auto_fills (src_width src_height w h : Z) : bool :=
  Bool.eqb (src_height <=? src_width) (h <=? w).

Definition effective_resize_target (src_width src_height : Z) (params : ResizeQuery) : Z * Z :=
  match resize_box (effective_resize_box params src_width src_height) with
  | (Some w, None) => resize_dimensions src_width src_height w u32_max false
  | (None, Some h) => resize_dimensions src_width src_height u32_max h false
  | (Some w, Some h) =>
      match rq_resize_type params with
      | ResizeType.Fit => resize_dimensions src_width src_height w h false
      | ResizeType.Fill => resize_dimensions src_width src_height w h true
      | ResizeType.Force => (Z.max w 1, Z.max h 1)
      | ResizeType.Auto =>
          resize_dimensions src_width src_height w h (auto_fills src_width src_height w h)
      end
  | (None, None) => (src_width, src_height)
  end.

(** ** Shrink-on-load *)

(** [(dim * scale_num).div_ceil(8)] *)
Definition jpeg_scaled_dimension (dim scale_num : Z) : Z := (dim * scale_num + 7) / 8.

Definition select_jpeg_dct_scale (raw_width raw_height target_width target_height : Z) : Z :=
  let fits scale_num :=
    (target_width <=? jpeg_scaled_dimension raw_width scale_num)
    && (target_height <=? jpeg_scaled_dimension raw_height scale_num) in
  default 8 (List.find fits [1; 2; 4]).

(** What [decode_jpeg_scaled] computes from the header before it decodes: the
    size after orientation, and the scale in the file's own axes.  [axis_swap]
    is its flag for an orientation by a quarter turn with [autorotate] on. *)
Definition jpeg_decode_scale (params : ResizeQuery) (axis_swap : bool)
    (header_width header_height : Z) : Z :=
  let '(post_orientation_width, post_orientation_height) :=
    swap_if axis_swap (header_width, header_height) in
  let '(raw_target_width, raw_target_height) :=
    swap_if axis_swap
      (effective_resize_target post_orientation_width post_orientation_height params) in
  select_jpeg_dct_scale header_width header_height raw_target_width raw_target_height.

(** The size of the image the resize stage receives, before trim and crop. *)
Definition jpeg_decoded_dimensions (params : ResizeQuery) (axis_swap : bool)
    (header_width header_height : Z) : Z * Z :=
  let scale_num := jpeg_decode_scale params axis_swap header_width header_height in
  swap_if axis_swap
    (jpeg_scaled_dimension header_width scale_num, jpeg_scaled_dimension header_height scale_num).

Example fit_example : resize_dimensions 4000 3000 500 500 false = (500, 375).
Proof. vm_compute. reflexivity. Qed.
Example fill_example : resize_dimensions 4000 3000 500 500 true = (667, 500).
Proof. vm_compute. reflexivity. Qed.
Example anchor_example : gravity_anchor Gravity.SouthEast 100 80 30 30 = (70, 50).
Proof. vm_compute. reflexivity. Qed.
Example watermark_example :
  watermark_position WatermarkPosition.SouthEast (S754_finite true 10485760 (-20)) f32_zero
    800 600 100 50 = (690, 550).
Proof. vm_compute. reflexivity. Qed.

(** ** A scaled dimension is exact up to rounding to the nearest integer *)

Definition dim (n : Z) : Prop := 1 ≤ n ≤ u32_max.

Lemma dim_pos n : dim n → 0 < n < 2 ^ 32.
Proof. unfold dim, u32_max. lia. Qed.

(** A quotient of dimensions. *)
Definition ratio_in : spec_float → Prop := pos_in (-84) (-20).

Lemma ratio_near n w :
  dim n → dim w →
  let r := f64_div (f64_of_uint n) (f64_of_uint w) in
  ratio_in r ∧ near (fval r) (inject_Z n / inject_Z w).
Proof.
  intros Hn Hw r. destruct (f64_of_uint_exact n (dim_pos _ Hn)) as [Pn Vn].
  destruct (f64_of_uint_exact w (dim_pos _ Hw)) as [Pw Vw].
  destruct (f64_div_near _ _ _ _ _ _ Pn Pw) as [Pr Hr]; [lia..|]. split; [exact Pr|].
  by rewrite Vn, Vw in Hr.
Qed.

(** [w] scaled by a ratio known up to one rounding. *)
Lemma scaled_near w r :
  dim w → ratio_in r →
  let p := f64_mul (f64_of_uint w) r in
  pos_in (-84) (13) p ∧ near (fval p) (inject_Z w * fval r).
Proof.
  intros Hw Hr p. destruct (f64_of_uint_exact w (dim_pos _ Hw)) as [Pw Vw].
  destruct (f64_mul_near _ _ _ _ _ _ Pw Hr) as [Pp Hp]; [lia..|]. split; [exact Pp|].
  by rewrite Vw in Hp.
Qed.

Lemma scaled_le w r v n max :
  dim w → ratio_in r → (fval r <= v + v * ulp)%Q → (inject_Z w * v <= inject_Z n)%Q →
  1 ≤ n < 2 ^ 33 → round_max1_as_uint max (f64_mul (f64_of_uint w) r) ≤ n.
Proof.
  intros Hw Hr Hv Hwv Hn. destruct (scaled_near w r Hw Hr) as [Pp [_ Hp]].
  unfold round_max1_as_uint. apply Z.max_lub; [lia|].
  eapply round_as_uint_le; [exact Pp|].
  assert (inject_Z w * fval r <= inject_Z w * (v + v * ulp))%Q as H1.
  { apply Qmult_le_l; [|done]. apply inject_pos. unfold dim in Hw. lia. }
  assert (inject_Z n <= 8589934592)%Q as H2.
  { change 8589934592%Q with (inject_Z (2 ^ 33)). rewrite <- Zle_Qle. lia. }
  unfold ulp in *. lra.
Qed.

Lemma scaled_ge w r v n max :
  dim w → ratio_in r → (v - v * ulp <= fval r)%Q → (inject_Z n <= inject_Z w * v)%Q →
  0 ≤ n < 2 ^ 33 → n ≤ max → n ≤ round_max1_as_uint max (f64_mul (f64_of_uint w) r).
Proof.
  intros Hw Hr Hv Hwv Hn Hmax. destruct (scaled_near w r Hw Hr) as [Pp [Hp _]].
  unfold round_max1_as_uint.
  enough (n ≤ round_as_uint max (f64_mul (f64_of_uint w) r)) by lia.
  eapply round_as_uint_ge; [exact Pp|done|].
  assert (inject_Z w * (v - v * ulp) <= inject_Z w * fval r)%Q as H1.
  { apply Qmult_le_l; [|done]. apply inject_pos. unfold dim in Hw. lia. }
  assert (0 <= inject_Z n)%Q by (unfold Qle, inject_Z; simpl; lia).
  assert (inject_Z n <= 8589934592)%Q as H2.
  { change 8589934592%Q with (inject_Z (2 ^ 33)). rewrite <- Zle_Qle. lia. }
  (* the larger of the two sides carries the error *)
  assert (inject_Z n * (1 - ulp) * (1 - ulp) <= fval (f64_mul (f64_of_uint w) r))%Q as H3.
  { apply Qle_trans with ((inject_Z w * fval r) * (1 - ulp))%Q; [|lra].
    apply Qmult_le_compat_r; [|unfold ulp; lra].
    apply Qle_trans with (inject_Z w * v * (1 - ulp))%Q; [|lra].
    apply Qmult_le_compat_r; [done|unfold ulp; lra]. }
  unfold ulp in H3. lra.
Qed.

Lemma mul_ratio w n : dim w → (inject_Z w * (inject_Z n / inject_Z w) == inject_Z n)%Q.
Proof.
  intros Hw. pose proof (inject_pos w ltac:(unfold dim in Hw; lia)). field. lra.
Qed.

(** A dimension scaled by its own ratio is the requested one exactly. *)
Lemma scaled_self w n max :
  dim w → dim n → n ≤ max →
  round_max1_as_uint max (f64_mul (f64_of_uint w) (f64_div (f64_of_uint n) (f64_of_uint w))) = n.
Proof.
  intros Hw Hn Hmax. destruct (ratio_near n w Hn Hw) as [Pr [Hlo Hhi]].
  pose proof (mul_ratio w n Hw) as Hm. unfold dim, u32_max in Hn. apply Z.le_antisymm.
  - eapply scaled_le; [done|done|exact Hhi|rewrite Hm; lra|lia].
  - eapply scaled_ge; [done|done|exact Hlo|rewrite Hm; lra|lia|done].
Qed.

(** The other dimension stays on its side of the requested one. *)
Lemma scaled_other_le h n r max :
  dim h → dim n → ratio_in r →
  (fval r <= fval (f64_div (f64_of_uint n) (f64_of_uint h)))%Q →
  round_max1_as_uint max (f64_mul (f64_of_uint h) r) ≤ n.
Proof.
  intros Hh Hn Hr Hle. destruct (ratio_near n h Hn Hh) as [Pr [_ Hhi]].
  unfold dim, u32_max in Hn.
  eapply (scaled_le h r (inject_Z n / inject_Z h)); [done|done|lra| |lia].
  rewrite mul_ratio by done. lra.
Qed.

Lemma scaled_other_ge h n r max :
  dim h → dim n → ratio_in r → n ≤ max →
  (fval (f64_div (f64_of_uint n) (f64_of_uint h)) <= fval r)%Q →
  n ≤ round_max1_as_uint max (f64_mul (f64_of_uint h) r).
Proof.
  intros Hh Hn Hr Hmax Hle. destruct (ratio_near n h Hn Hh) as [Pr [Hlo _]].
  unfold dim, u32_max in Hn.
  eapply (scaled_ge h r (inject_Z n / inject_Z h)); [done|done|lra| |lia|done].
  rewrite mul_ratio by done. lra.
Qed.

Lemma round_max1_ge1 max x : 1 ≤ round_max1_as_uint max x.
Proof. unfold round_max1_as_uint. lia. Qed.

(** A [fit] never leaves the requested box and reaches one of its sides: the
    roundings of the division and of the multiplication cancel. *)
Lemma resize_dimensions_fit w h nw nh a b :
  dim w → dim h → dim nw → dim nh →
  resize_dimensions w h nw nh false = (a, b) →
  1 ≤ a ≤ nw ∧ 1 ≤ b ≤ nh ∧ (a = nw ∨ b = nh).
Proof.
  intros Hw Hh Hnw Hnh. unfold resize_dimensions.
  set (wr := f64_div (f64_of_uint nw) _). set (hr := f64_div (f64_of_uint nh) _).
  destruct (ratio_near nw w Hnw Hw) as [Pw _]. destruct (ratio_near nh h Hnh Hh) as [Ph _].
  assert (nw ≤ u64_max ∧ nh ≤ u64_max) by (unfold dim, u32_max, u64_max in *; lia).
  destruct (f_min_pos wr hr _ _ Pw Ph) as [[-> Hle]|[-> Hle]].
  - pose proof (scaled_self w nw u64_max Hw Hnw ltac:(tauto)) as Hself. fold wr in Hself.
    rewrite Hself.
    pose proof (scaled_other_le h nh wr u64_max Hh Hnh Pw Hle).
    pose proof (round_max1_ge1 u64_max (f64_mul (f64_of_uint h) wr)).
    unfold dim in *. rewrite !(proj2 (Z.ltb_ge _ _)) by lia. intros [= <- <-]. lia.
  - pose proof (scaled_self h nh u64_max Hh Hnh ltac:(tauto)) as Hself. fold hr in Hself.
    rewrite Hself.
    pose proof (scaled_other_le w nw hr u64_max Hw Hnw Ph Hle).
    pose proof (round_max1_ge1 u64_max (f64_mul (f64_of_uint w) hr)).
    unfold dim in *. rewrite !(proj2 (Z.ltb_ge _ _)) by lia. intros [= <- <-]. lia.
Qed.

(** A [fill] covers the requested box and touches it on one side, as long as
    neither side overflows 32 bits; 16-bit dimensions never do. *)
Theorem resize_dimensions_fill w h nw nh a b :
  dim w → dim h → dim nw → dim nh → h * nw ≤ u32_max * w → w * nh ≤ u32_max * h →
  resize_dimensions w h nw nh true = (a, b) →
  nw ≤ a ≤ u32_max ∧ nh ≤ b ≤ u32_max ∧ (a = nw ∨ b = nh).
Proof.
  intros Hw Hh Hnw Hnh Hb Ha. unfold resize_dimensions.
  set (wr := f64_div (f64_of_uint nw) _). set (hr := f64_div (f64_of_uint nh) _).
  destruct (ratio_near nw w Hnw Hw) as [Pw [_ Ew]]. destruct (ratio_near nh h Hnh Hh) as [Ph [_ Eh]].
  fold wr in Pw, Ew. fold hr in Ph, Eh.
  assert (Hbound : ∀ w n h, dim w → dim h → h * n ≤ u32_max * w →
            (inject_Z h * (inject_Z n / inject_Z w) <= inject_Z u32_max)%Q).
  { intros w0 n0 h0 Hw0 Hh0 Hle. apply (Qmult_le_r _ _ (inject_Z w0)).
    - apply inject_pos. unfold dim in Hw0. lia.
    - rewrite <- Qmult_assoc, (Qmult_comm (_ / _)), mul_ratio, <- !inject_Z_mult, <- Zle_Qle by done.
      done. }
  assert (nw ≤ u64_max ∧ nh ≤ u64_max) by (unfold dim, u32_max, u64_max in *; lia).
  destruct (f_max_pos wr hr _ _ Pw Ph) as [[-> Hle]|[-> Hle]].
  - pose proof (scaled_self w nw u64_max Hw Hnw ltac:(tauto)) as Hself. fold wr in Hself.
    rewrite Hself.
    pose proof (scaled_other_ge h nh wr u64_max Hh Hnh Pw ltac:(tauto) Hle).
    assert (round_max1_as_uint u64_max (f64_mul (f64_of_uint h) wr) ≤ u32_max).
    { eapply scaled_le; [done|done|exact Ew|by apply Hbound|unfold u32_max; lia]. }
    unfold dim in *. rewrite !(proj2 (Z.ltb_ge _ _)) by lia. intros [= <- <-]. lia.
  - pose proof (scaled_self h nh u64_max Hh Hnh ltac:(tauto)) as Hself. fold hr in Hself.
    rewrite Hself.
    pose proof (scaled_other_ge w nw hr u64_max Hw Hnw Ph ltac:(tauto) Hle).
    assert (round_max1_as_uint u64_max (f64_mul (f64_of_uint w) hr) ≤ u32_max).
    { eapply scaled_le; [done|done|exact Eh|by apply Hbound|unfold u32_max; lia]. }
    unfold dim in *. rewrite !(proj2 (Z.ltb_ge _ _)) by lia. intros [= <- <-]. lia.
Qed.

(** ** Anchors stay inside *)

Lemma anchor_axis n v :
  0 ≤ n ≤ u32_max →
  v = f64_zero ∨ v = f64_of_uint n ∨ v = f64_div (f64_of_uint n) f64_two →
  0 ≤ floor_as_uint u32_max v ≤ n.
Proof.
  intros Hn [-> | [-> | ->]].
  - simpl. lia.
  - rewrite floor_as_uint_of_uint by done. lia.
  - unfold f64_two. rewrite f64_half by done.
    split; [apply Z.div_pos; lia|apply Z.div_le_upper_bound; lia].
Qed.

(** The centre of a focused box is a value of the type. *)
Lemma focus_valid n fraction b :
  0 ≤ n ≤ u32_max → dim b →
  f64_valid (f64_sub (f64_mul (f64_of_uint n) fraction) (f64_div (f64_of_uint b) f64_two)).
Proof.
  intros Hn Hb. set (c := f64_mul _ _).
  assert (Hhalf : ∃ m e, f64_div (f64_of_uint b) f64_two = S754_finite false m e
                    ∧ f64_valid (S754_finite true m e)).
  { destruct (f64_of_uint_exact b (dim_pos _ Hb)) as [Pb _].
    destruct (f64_of_uint_exact 2 ltac:(lia)) as [P2 _].
    destruct (f64_div_near _ _ _ _ _ _ Pb P2) as [(m & e & Heq & Hd & He) _]; [lia..|].
    exists m, e. split; [exact Heq|]. unfold f64_valid, valid_binary, bounded, canonical_mantissa.
    rewrite Hd. unfold fexp, emin. apply andb_true_iff. split; [apply Z.eqb_eq; lia|apply Z.leb_le; lia]. }
  destruct Hhalf as (m & e & -> & Hv). destruct c as [s|s| |s mc ec]; try done.
  unfold f64_sub, SFsub, binary_normalize. destruct (_ - _); [done|apply binary_round_valid..].
Qed.

(** The anchored box lies inside its container. *)
Lemma anchored_inside g cw ch bw bh x y :
  dim cw → dim ch → dim bw → dim bh → gravity_anchor g cw ch bw bh = (x, y) →
  0 ≤ x ∧ x + Z.min bw cw ≤ cw ∧ 0 ≤ y ∧ y + Z.min bh ch ≤ ch.
Proof.
  intros Hcw Hch Hbw Hbh. unfold gravity_anchor.
  assert (Hw : 0 ≤ cw - Z.min bw cw ≤ u32_max) by (unfold dim, u32_max in *; lia).
  assert (Hh : 0 ≤ ch - Z.min bh ch ≤ u32_max) by (unfold dim, u32_max in *; lia).
  set (mx := cw - Z.min bw cw) in *. set (my := ch - Z.min bh ch) in *.
  assert (Hgoal : ∀ vx vy, 0 ≤ floor_as_uint u32_max vx ≤ mx → 0 ≤ floor_as_uint u32_max vy ≤ my →
            (floor_as_uint u32_max vx, floor_as_uint u32_max vy) = (x, y) →
            0 ≤ x ∧ x + Z.min bw cw ≤ cw ∧ 0 ≤ y ∧ y + Z.min bh ch ≤ ch).
  { intros vx vy Hx Hy [= <- <-]. lia. }
  destruct g; apply Hgoal; try (apply anchor_axis; [done|by auto]).
  all: apply f_clamp_floor; [done|apply focus_valid; unfold dim, u32_max in *; lia].
Qed.

(** Whatever the gravity, the anchored box lies inside its container, so no
    later crop is cut short; the floats involved never leave the range. *)
Theorem gravity_anchor_inside g cw ch bw bh x y :
  dim cw → dim ch → dim bw → dim bh → gravity_anchor g cw ch bw bh = (x, y) →
  0 ≤ x ∧ x + Z.min bw cw ≤ cw ∧ 0 ≤ y ∧ y + Z.min bh ch ≤ ch.
Proof. apply anchored_inside. Qed.

(** The centre is the even split of the leftover space, in integers. *)
Theorem gravity_anchor_center cw ch bw bh :
  dim cw → dim ch → 1 ≤ bw ≤ cw → 1 ≤ bh ≤ ch →
  gravity_anchor Gravity.Center cw ch bw bh = ((cw - bw) / 2, (ch - bh) / 2).
Proof.
  intros Hcw Hch Hbw Hbh. unfold gravity_anchor, f64_two.
  rewrite !Z.min_l, !f64_half by (unfold dim, u32_max in *; lia). done.
Qed.

(** The rectangle of an explicit crop is a nonempty part of the image. *)
Theorem crop_rectangle_inside c sw sh x y w h :
  dim sw → dim sh → crop_rectangle c sw sh = (x, y, w, h) →
  0 ≤ x ∧ 1 ≤ w ∧ x + w ≤ sw ∧ 0 ≤ y ∧ 1 ≤ h ∧ y + h ≤ sh.
Proof.
  intros Hsw Hsh. unfold crop_rectangle.
  assert (Hr : ∀ d s, dim s → 1 ≤ resolve_crop_dimension d s ≤ s).
  { intros d s Hs. unfold resolve_crop_dimension, dim in *. lia. }
  pose proof (Hr (crop_width c) sw Hsw) as Hw. pose proof (Hr (crop_height c) sh Hsh) as Hh.
  destruct (gravity_anchor _ _ _ _ _) as [ax ay] eqn:Ha.
  apply anchored_inside in Ha; [|unfold dim in *; lia..]. intros [= <- <- <- <-]. lia.
Qed.

(** ** The enlarge guard *)

(** A ratio of at most one shrinks every dimension. *)
Lemma scaled_shrinks w r n m max :
  dim w → dim n → dim m → n ≤ m → ratio_in r →
  (fval r <= fval (f64_div (f64_of_uint n) (f64_of_uint m)))%Q →
  1 ≤ round_max1_as_uint max (f64_mul (f64_of_uint w) r) ≤ w.
Proof.
  intros Hw Hn Hm Hnm Hr Hle. split; [apply round_max1_ge1|].
  destruct (ratio_near n m Hn Hm) as [Pr [_ Hhi]].
  eapply (scaled_le w r (inject_Z n / inject_Z m)); [done|done|lra| |unfold dim, u32_max in *; lia].
  pose proof (inject_pos m ltac:(unfold dim in Hm; lia)) as Hm0.
  apply (Qmult_le_r _ _ (inject_Z m)); [done|].
  rewrite <- Qmult_assoc, (Qmult_comm (_ / _)), mul_ratio, <- !inject_Z_mult, <- Zle_Qle by done.
  unfold dim in *. nia.
Qed.

(** A box no larger than the source - on either side when fitting, on both
    when filling - gives dimensions no larger than the source's. *)
Lemma resize_dimensions_shrinks w h nw nh (fill : bool) a b :
  dim w → dim h → dim nw → dim nh →
  (if fill then nw ≤ w ∧ nh ≤ h else nw ≤ w ∨ nh ≤ h) →
  resize_dimensions w h nw nh fill = (a, b) → 1 ≤ a ≤ w ∧ 1 ≤ b ≤ h.
Proof.
  intros Hw Hh Hnw Hnh Hle. unfold resize_dimensions.
  set (wr := f64_div (f64_of_uint nw) _). set (hr := f64_div (f64_of_uint nh) _).
  destruct (ratio_near nw w Hnw Hw) as [Pw _]. destruct (ratio_near nh h Hnh Hh) as [Ph _].
  fold wr in Pw. fold hr in Ph. set (r := if fill then f_max wr hr else f_min wr hr).
  assert (Hr : ∃ n m, dim n ∧ dim m ∧ n ≤ m ∧ ratio_in r
            ∧ (fval r <= fval (f64_div (f64_of_uint n) (f64_of_uint m)))%Q).
  { unfold r. destruct fill.
    - destruct (f_max_pos wr hr _ _ Pw Ph) as [[-> _]|[-> _]];
        [exists nw, w|exists nh, h]; split_and!; try done; tauto || apply Qle_refl.
    - destruct (f_min_pos wr hr _ _ Pw Ph) as [[-> Hm]|[-> Hm]]; destruct Hle as [Hle|Hle];
        first [exists nw, w; split_and!; try done; by fold wr; lra|exists nh, h; split_and!; try done; by fold hr; lra]. }
  destruct Hr as (n & m & Hn & Hm & Hnm & Pr & Hv).
  pose proof (scaled_shrinks w r n m u64_max Hw Hn Hm Hnm Pr Hv).
  pose proof (scaled_shrinks h r n m u64_max Hh Hn Hm Hnm Pr Hv).
  unfold dim in *. rewrite !(proj2 (Z.ltb_ge _ _)) by lia. intros [= <- <-]. lia.
Qed.

Lemma scale_axis_dim dpr v zoom k : scale_axis dpr v zoom = Some k → dim k.
Proof.
  unfold scale_axis. destruct v as [v|]; [|done]. intros [= <-].
  unfold round_max1_as_uint, dim. set (x := f64_mul _ _). 
  assert (round_as_uint u32_max x ≤ u32_max); [|unfold u32_max in *; lia].
  unfold round_as_uint, u32_max. destruct x as [|[]| |[] m e]; lia.
Qed.

(** The box without [min-width] and [min-height], both axes in the physical
    orientation: every side is a dimension no larger than the source's. *)
Lemma guarded_box params sw sh :
  dim sw → dim sh → rq_enlarge params = false →
  rq_min_width params = None → rq_min_height params = None →
  let box := resize_box (effective_resize_box params sw sh) in
  (∀ w, box.1 = Some w → dim w ∧ w ≤ sw) ∧ (∀ h, box.2 = Some h → dim h ∧ h ≤ sh).
Proof.
  intros Hsw Hsh Hen Hmw Hmh. unfold effective_resize_box.
  destruct (negb _); [by split|]. rewrite Hen, Hmw, Hmh.
  assert (Haxis : ∀ v z src k, dim src →
            (λ v, Z.min v src) <$> scale_axis (rq_dpr params) v z = Some k → dim k ∧ k ≤ src).
  { intros v z src k Hsrc (j & Hj & ->)%fmap_Some. apply scale_axis_dim in Hj.
    unfold dim in *. lia. }
  destruct (rotate_swaps_axes _); simpl; split; intros k Hk; by eapply Haxis.
Qed.

(** The size shrink-on-load predicts is never larger than the source without
    [enlarge] and minimum dimensions; for the image itself see [Pipeline.v]. *)
Theorem target_never_upscales params sw sh a b :
  dim sw → dim sh → rq_enlarge params = false →
  rq_min_width params = None → rq_min_height params = None →
  effective_resize_target sw sh params = (a, b) → 1 ≤ a ≤ sw ∧ 1 ≤ b ≤ sh.
Proof.
  intros Hsw Hsh Hen Hmw Hmh. unfold effective_resize_target.
  pose proof (guarded_box params sw sh Hsw Hsh Hen Hmw Hmh) as [Hbw Hbh].
  assert (Hmax : dim u32_max) by (unfold dim, u32_max; lia).
  destruct (resize_box _) as [[w|] [h|]]; simpl in *.
  - destruct (Hbw w eq_refl) as [Hw ?]. destruct (Hbh h eq_refl) as [Hh ?].
    assert (Hbox : ∀ fill : bool, if fill then w ≤ sw ∧ h ≤ sh else w ≤ sw ∨ h ≤ sh)
      by (intros []; lia).
    destruct (rq_resize_type params);
      try exact (resize_dimensions_shrinks _ _ _ _ _ _ _ Hsw Hsh Hw Hh (Hbox _)).
    intros [= <- <-]. unfold dim in *. lia.
  - destruct (Hbw w eq_refl) as [Hw ?]. apply resize_dimensions_shrinks; try done. by left.
  - destruct (Hbh h eq_refl) as [Hh ?]. apply resize_dimensions_shrinks; try done. by right.
  - intros [= <- <-]. unfold dim in *. lia.
Qed.

(** ** The output cap *)

Lemma positive_f32_cases x :
  f32_valid x → f_gt x f32_zero = true → x = S754_infinity false ∨ f32_positive x.
Proof.
  intros Hv Hgt. destruct x as [s|[]| |[] m e]; try done; [by left|right].
  split; [done|by eexists _, _].
Qed.

(** [zoom.max(1.0)] is at least the zoom and at least one. *)
Lemma f_max_one x :
  f32_positive x →
  f32_positive (f_max x f32_one) ∧ (fval x <= fval (f_max x f32_one))%Q.
Proof.
  assert (Hone : ∃ k, f32_one = S754_finite false k (-23) ∧ Zpos k = 2 ^ 23) by (by eexists).
  assert (Hone' : f32_positive f32_one) by (split; [done|by eexists _, _]).
  destruct Hone as (k & Hk & Hk2). revert Hone'. rewrite Hk. intros Hone'.
  intros Hx. pose proof Hx as [Hv (m & e & ->)]. unfold f_max. simpl is_nan. cbv iota.
  destruct (f_lt (S754_finite false m e) _) eqn:Hlt; [|split; [done|lra]].
  split; [done|].
  unfold f32_valid, valid_binary, bounded, canonical_mantissa in Hv.
  apply andb_true_iff in Hv as [Hc%Z.eqb_eq _]. unfold fexp, emin in Hc.
  pose proof (digits2_pos_bounds m) as [_ Hb].
  assert (Hm : Zpos m < 2 ^ 24) by (eapply Z.lt_le_trans; [exact Hb|]; apply Z.pow_le_mono_r; lia).
  unfold f_lt, SFltb in Hlt. cbn [SFcompare] in Hlt.
  change (Pos.compare_cont Eq m k) with (Pos.compare m k) in Hlt.
  simpl fval. unfold fq.
  destruct (Z.compare_spec e (-23)) as [->|He|He]; [| |done].
  - destruct (Pos.compare_spec m k) as [|H|]; [done| |done].
    apply Qmult_le_compat_r; [|apply Qlt_le_weak, pow2_pos]. rewrite <- Zle_Qle. lia.
  - replace (-23) with (e + (-23 - e)) by lia. rewrite pow2_add, Qmult_comm.
    rewrite (Qmult_comm (inject_Z (Zpos k))), <- Qmult_assoc.
    apply Qmult_le_l; [apply pow2_pos|].
    rewrite <- pow2_inject, <- inject_Z_mult, <- Zle_Qle, Hk2 by lia.
    pose proof (Z.pow_le_mono_r 2 1 (-23 - e) ltac:(lia) ltac:(lia)).
    change (2 ^ 24) with (2 * 2 ^ 23) in Hm. nia.
Qed.

Lemma Qmult_le_both a b c d : (0 <= a -> a <= b -> 0 <= c -> c <= d -> a * c <= b * d)%Q.
Proof.
  intros Ha Hab Hc Hcd. apply Qle_trans with (b * c)%Q.
  - by apply Qmult_le_compat_r.
  - rewrite !(Qmult_comm b). apply Qmult_le_compat_r; lra.
Qed.

(** Two roundings of the larger product against two of the smaller: what the
    rounded larger one does not exceed, the rounded smaller one does not by a
    half. *)
Lemma rounded_products_le (v z d Zm Dm M A t B max : Q) :
  (0 < v → 0 < z → 0 < d → z <= Zm → d <= Dm → max <= 4294967296 →
   Zm * Dm - Zm * Dm * ulp <= M → v * M - v * M * ulp <= A → A <= max →
   t <= v * z + v * z * ulp → B <= t * d + t * d * ulp → B < max + (1 # 2))%Q.
Proof.
  intros v0 z0 d0 HZ HD Hmax NM NA HA Nt NB.
  (* the exact product, below both *)
  set (X := (v * z * d)%Q).
  assert (HX1 : (X * (1 - ulp) * (1 - ulp) <= A)%Q).
  { assert (z * d <= Zm * Dm)%Q by (apply Qmult_le_both; lra).
    assert (v * (z * d * (1 - ulp)) <= v * M)%Q by (apply Qmult_le_l; [done|unfold ulp in *; lra]).
    unfold X, ulp in *. lra. }
  assert (HX2 : (B <= X * (1 + ulp) * (1 + ulp))%Q).
  { assert (t * d <= (v * z + v * z * ulp) * d)%Q by (apply Qmult_le_compat_r; [done|lra]).
    unfold X, ulp in *. lra. }
  unfold ulp in *. lra.
Qed.

(** The check before decoding covers what the resize will ask for, although
    the two multiply their factors in different orders. *)
Lemma check_axis_bound_covers v min zoom dpr max name k :
  dim v → positive_f32 zoom → positive_f32 dpr → dim max →
  check_axis_bound (Some v) min zoom dpr max name = Ok () →
  scale_axis dpr (Some v) zoom = Some k → k ≤ max.
Proof.
  intros Hv [Vz Gz] [Vd Gd] Hmax Hcheck [= <-].
  destruct (f64_of_uint_exact v (dim_pos _ Hv)) as [Pv Ev].
  pose proof Pv as (mv & ev & Fv & _).
  assert (Hceil : ceil_as_uint u64_max (f64_mul (f64_of_uint v)
            (f64_mul (f64_of_f32 (f_max zoom f32_one)) (f64_of_f32 (f_max dpr f32_one)))) ≤ max).
  { unfold check_axis_bound in Hcheck. simpl in Hcheck. set (c := ceil_as_uint _ _) in *.
    destruct min as [b|]; case_match; try done; apply Z.ltb_ge in H; lia. }
  clear Hcheck. assert (Hbig : max < u64_max) by (unfold dim, u32_max, u64_max in *; lia).
  (* an infinite factor makes the bound infinite *)
  destruct (positive_f32_cases zoom Vz Gz) as [->|Pz].
  { exfalso. revert Hceil. rewrite Fv. destruct (positive_f32_cases dpr Vd Gd) as [->|Pd].
    - simpl. lia.
    - destruct (f_max_one dpr Pd) as [Pd' _]. destruct (f64_of_f32_exact _ Pd') as [(m & e & -> & _) _].
      simpl. lia. }
  destruct (f_max_one zoom Pz) as [PZ HZ]. destruct (f64_of_f32_exact _ PZ) as [PZ' EZ].
  destruct (positive_f32_cases dpr Vd Gd) as [->|Pd].
  { exfalso. revert Hceil. rewrite Fv. destruct PZ' as (m & e & -> & _). simpl. lia. }
  destruct (f_max_one dpr Pd) as [PD HD]. destruct (f64_of_f32_exact _ PD) as [PD' ED].
  destruct (f64_of_f32_exact _ Pz) as [Pz' Ez]. destruct (f64_of_f32_exact _ Pd) as [Pd' Ed].
  rewrite <- EZ, <- Ez in HZ. rewrite <- ED, <- Ed in HD. clear EZ ED Ez Ed.
  set (z := f64_of_f32 zoom) in *. set (d := f64_of_f32 dpr) in *.
  set (Zm := f64_of_f32 (f_max zoom f32_one)) in *. set (Dm := f64_of_f32 (f_max dpr f32_one)) in *.
  destruct (f64_mul_near _ _ _ _ _ _ PZ' PD') as [PM [NM _]]; [lia..|].
  destruct (f64_mul_near _ _ _ _ _ _ Pv PM) as [PA [NA _]]; [lia..|].
  destruct (f64_mul_near _ _ _ _ _ _ Pv Pz') as [Pt [_ Nt]]; [lia..|].
  destruct (f64_mul_near _ _ _ _ _ _ Pt Pd') as [PB [_ NB]]; [lia..|].
  pose proof (ceil_as_uint_le u64_max _ max _ _ PA Hceil Hbig) as HA.
  pose proof (fval_pos _ _ _ Pz') as z0. pose proof (fval_pos _ _ _ Pd') as d0.
  pose proof (fval_pos _ _ _ Pv) as v0. pose proof (fval_pos _ _ _ Pt) as t0.
  unfold round_max1_as_uint. apply Z.max_lub; [unfold dim in Hmax; lia|].
  eapply round_as_uint_le; [exact PB|].
  eapply rounded_products_le; [exact v0|exact z0|exact d0|exact HZ|exact HD| |exact NM|exact NA|exact HA|exact Nt|exact NB].
  change 4294967296%Q with (inject_Z (2 ^ 32)). rewrite <- Zle_Qle. unfold dim, u32_max in Hmax. lia.
Qed.

Lemma check_axis_bound_min explicit m zoom dpr max name :
  check_axis_bound explicit (Some m) zoom dpr max name = Ok () → m ≤ max.
Proof.
  unfold check_axis_bound. destruct explicit as [v|]; simpl;
    case_match; try done; intros _; apply Z.ltb_ge in H; lia.
Qed.

(** What a request that passes the check before decoding resolves to: the
    canvas that [extend] pads to, and every axis the request names, stay
    within the configured maximum, for any source and rotation. *)
Theorem output_cap_covers params config sw sh :
  opt_valid dim (rq_width params) → opt_valid dim (rq_height params) →
  positive_f32 (rq_zoom_x params) → positive_f32 (rq_zoom_y params) → positive_f32 (rq_dpr params) →
  dim (max_output_width config) → dim (max_output_height config) →
  check_output_dimensions params config = Ok () →
  let sizing := effective_resize_box params sw sh in
  let box := swap_if (rotate_swaps_axes (rq_rotate params)) (resize_box sizing) in
  (∀ w h, extend_box sizing = Some (w, h) → w ≤ max_output_width config ∧ h ≤ max_output_height config)
  ∧ (∀ w, is_Some (rq_width params) → box.1 = Some w → w ≤ max_output_width config)
  ∧ (∀ h, is_Some (rq_height params) → box.2 = Some h → h ≤ max_output_height config).
Proof.
  intros Hw Hh Hzx Hzy Hd Hmw Hmh Hcheck.
  apply bind_Ok in Hcheck as ([] & Hcw & Hch).
  assert (Haxis : ∀ explicit min zoom max name, opt_valid dim explicit → positive_f32 zoom →
    dim max → check_axis_bound explicit min zoom (rq_dpr params) max name = Ok () →
    (∀ k, scale_axis (rq_dpr params) explicit zoom = Some k → k ≤ max)
    ∧ ∀ (src : Z) (k : Z), is_Some explicit →
        match min with
        | Some m => Some (Z.max (default src ((λ v, if rq_enlarge params then v else Z.min v src)
                          <$> scale_axis (rq_dpr params) explicit zoom)) m)
        | None => (λ v, if rq_enlarge params then v else Z.min v src)
                    <$> scale_axis (rq_dpr params) explicit zoom
        end = Some k → k ≤ max).
  { intros explicit min zoom max name He Hz Hm Hc. destruct explicit as [v|].
    2: { split; [done|]. by intros ? ? [? [=]]. }
    assert (Hk : ∀ k, scale_axis (rq_dpr params) (Some v) zoom = Some k → k ≤ max)
      by (intros k; exact (check_axis_bound_covers v min zoom _ max name k He Hz Hd Hm Hc)).
    split; [exact Hk|]. intros src k _. specialize (Hk _ eq_refl).
    set (s := round_max1_as_uint _ _) in *. unfold scale_axis. simpl. fold s.
    destruct min as [m|]; intros [= <-].
    - apply check_axis_bound_min in Hc. destruct (rq_enlarge params); lia.
    - destruct (rq_enlarge params); lia. }
  destruct (Haxis _ _ _ _ _ Hw Hzx Hmw Hcw) as [Ew Bw].
  destruct (Haxis _ _ _ _ _ Hh Hzy Hmh Hch) as [Eh Bh]. clear Haxis.
  unfold effective_resize_box. destruct (negb _) eqn:Hactive.
  { split_and!; [done|..]; simpl; destruct (rotate_swaps_axes _); done. }
  destruct (rotate_swaps_axes _); cbn [swap_if fst snd extend_box resize_box]; split_and!.
  all: try (intros ? ?; by apply Bw || by apply Bh).
  all: intros w h; destruct (scale_axis _ (rq_width params) _) as [w'|]; [|done];
    destruct (scale_axis _ (rq_height params) _) as [h'|]; [|done]; intros [= <- <-];
    split; [by apply Ew|by apply Eh].
Qed.

(** A request that names one axis passes the check, and the other axis is not
    bounded by anything: the canvas below has over a trillion pixels. *)
Theorem one_axis_unbounded cpus :
  let params := resize_query_default <| rq_width := Some 4096 |> <| rq_enlarge := true |> in
  check_output_dimensions params (performance_default cpus) = Ok ()
  ∧ check_source_resolution 1 65535 (max_src_resolution_mp (performance_default cpus)) = Ok ()
  ∧ effective_resize_target 1 65535 params = (4096, 268431360).
Proof. split_and!; by vm_compute. Qed.

(** Shrink-on-load decodes no smaller than the target, and no larger than it
    must among the scales it tries. *)
Theorem select_jpeg_dct_scale_spec rw rh tw th :
  0 ≤ rw → 0 ≤ rh →
  let s := select_jpeg_dct_scale rw rh tw th in
  s ∈ [1; 2; 4; 8]
  ∧ Z.min rw tw ≤ jpeg_scaled_dimension rw s ≤ rw ∧ Z.min rh th ≤ jpeg_scaled_dimension rh s ≤ rh
  ∧ ∀ s', s' ∈ [1; 2; 4] → s' < s →
      jpeg_scaled_dimension rw s' < tw ∨ jpeg_scaled_dimension rh s' < th.
Proof.
  intros Hrw Hrh s.
  assert (Hle : ∀ r k, 0 ≤ r → k ∈ [1; 2; 4; 8] → jpeg_scaled_dimension r k ≤ r).
  { intros r k Hr Hk. unfold jpeg_scaled_dimension. apply Z.lt_succ_r, Z.div_lt_upper_bound; [lia|].
    rewrite !elem_of_cons, elem_of_nil in Hk. lia. }
  assert (H8 : ∀ r, jpeg_scaled_dimension r 8 = r).
  { intros r. unfold jpeg_scaled_dimension.
    rewrite Z.div_add_l by lia. change (7 / 8) with 0. lia. }
  assert (Hs : s ∈ [1; 2; 4; 8]
    ∧ (s < 8 → tw ≤ jpeg_scaled_dimension rw s ∧ th ≤ jpeg_scaled_dimension rh s)
    ∧ ∀ s', s' ∈ [1; 2; 4] → s' < s →
        jpeg_scaled_dimension rw s' < tw ∨ jpeg_scaled_dimension rh s' < th).
  { unfold s, select_jpeg_dct_scale. set (fits := λ k, _ && _).
    assert (Hfits : ∀ k, fits k = true ↔ tw ≤ jpeg_scaled_dimension rw k ∧ th ≤ jpeg_scaled_dimension rh k)
      by (intros k; unfold fits; rewrite andb_true_iff; lia).
    assert (Hno : ∀ k, fits k = false → jpeg_scaled_dimension rw k < tw ∨ jpeg_scaled_dimension rh k < th)
      by (intros k; unfold fits; rewrite andb_false_iff; lia).
    simpl. setoid_rewrite elem_of_cons. setoid_rewrite elem_of_cons. setoid_rewrite elem_of_cons.
    setoid_rewrite elem_of_nil.
    destruct (fits 1) eqn:H1; [|destruct (fits 2) eqn:H2; [|destruct (fits 4) eqn:H4]]; simpl;
      (split; [rewrite elem_of_cons; tauto|]);
      (split; [intros ?; apply Hfits; done || lia|]); intros s' Hin Hlt;
      (destruct Hin as [->|[->|[->|[]]]]; try lia; by apply Hno). }
  destruct Hs as (Hin & Hge & Hmin).
  pose proof (Hle rw s Hrw Hin) as Hw. pose proof (Hle rh s Hrh Hin) as Hh.
  assert (s < 8 ∨ s = 8) as [Hlt|Heq] by (rewrite !elem_of_cons, elem_of_nil in Hin; lia).
  - destruct (Hge Hlt). split_and!; [done|lia..|done].
  - rewrite Heq in *. rewrite !H8 in *. split_and!; [done|lia..|done].
Qed.

(** Shrink-on-load never hands the resize stage an image smaller than what it
    is to produce - or than the source, where that is smaller still - whether
    or not the EXIF orientation turns the image. *)
Theorem shrink_on_load_keeps_target params axis_swap hw hh sw sh tw th w h :
  dim hw → dim hh → swap_if axis_swap (hw, hh) = (sw, sh) →
  effective_resize_target sw sh params = (tw, th) →
  jpeg_decoded_dimensions params axis_swap hw hh = (w, h) →
  Z.min sw tw ≤ w ≤ sw ∧ Z.min sh th ≤ h ≤ sh.
Proof.
  intros Hw Hh Hs Ht. unfold jpeg_decoded_dimensions, jpeg_decode_scale. rewrite Hs, Ht.
  assert (Hspec : ∀ a b, let k := select_jpeg_dct_scale hw hh a b in
            Z.min hw a ≤ jpeg_scaled_dimension hw k ≤ hw ∧ Z.min hh b ≤ jpeg_scaled_dimension hh k ≤ hh).
  { intros a b. unfold dim in *.
    destruct (select_jpeg_dct_scale_spec hw hh a b ltac:(lia) ltac:(lia)) as (_ & H1 & H2 & _).
    by split. }
  destruct axis_swap; cbn [swap_if fst snd] in *; injection Hs as <- <-; intros [= <- <-];
    [destruct (Hspec th tw)|destruct (Hspec tw th)]; by split.
Qed.

(** The crop, though, is taken from the shrunken image: one that cuts a
    thousand pixels out of the middle of a four thousand pixel source receives
    a source of five hundred and keeps all of it. *)
Theorem crop_sees_shrunken_source :
  let crop := mk_Crop (CropDimension.Absolute 1000) (CropDimension.Absolute 1000) Gravity.Center in
  let params := resize_query_default <| rq_width := Some 500 |> <| rq_height := Some 500 |>
                  <| rq_crop := Some crop |> in
  crop_rectangle crop 4000 4000 = (1500, 1500, 1000, 1000)
  ∧ jpeg_decoded_dimensions params false 4000 4000 = (500, 500)
  ∧ crop_rectangle crop 500 500 = (0, 0, 500, 500).
Proof. split_and!; vm_compute; reflexivity. Qed.

(** ** Concrete inputs *)

Ltac dims := unfold dim, u32_max; simpl; lia.

Lemma resize_dimensions_fit_witness : 1 ≤ 500 ≤ 500 ∧ 1 ≤ 375 ≤ 500 ∧ (500 = 500 ∨ 375 = 500).
Proof.
  apply (resize_dimensions_fit 4000 3000); [dims..|vm_compute; reflexivity].
Defined.

Lemma gravity_anchor_inside_witness :
  0 ≤ 70 ∧ 70 + Z.min 30 100 ≤ 100 ∧ 0 ≤ 50 ∧ 50 + Z.min 30 80 ≤ 80.
Proof.
  apply (gravity_anchor_inside Gravity.SouthEast); [dims..|vm_compute; reflexivity].
Defined.

Lemma gravity_anchor_center_witness : gravity_anchor Gravity.Center 101 80 30 30 = (35, 25).
Proof. apply (gravity_anchor_center 101 80 30 30); dims. Defined.

Lemma crop_rectangle_inside_witness :
  0 ≤ 0 ∧ 1 ≤ 500 ∧ 0 + 500 ≤ 500 ∧ 0 ≤ 0 ∧ 1 ≤ 400 ∧ 0 + 400 ≤ 400.
Proof.
  apply (crop_rectangle_inside
    (mk_Crop (CropDimension.Absolute 1000) CropDimension.Full Gravity.Center));
    [dims..|vm_compute; reflexivity].
Defined.

(** A request for 300 by 900 with a pixel ratio of two, filling, of a source of
    400 by 500. *)
Definition fill_query : ResizeQuery :=
  resize_query_default <| rq_width := Some 300 |> <| rq_height := Some 900 |>
    <| rq_resize_type := ResizeType.Fill |> <| rq_dpr := S754_finite false 8388608 (-22) |>.

Lemma target_never_upscales_witness :
  effective_resize_target 400 500 fill_query = (400, 500) ∧ 1 ≤ 400 ≤ 400 ∧ 1 ≤ 500 ≤ 500.
Proof.
  split; [vm_compute; reflexivity|].
  apply (target_never_upscales fill_query); [dims..|done|done|done|vm_compute; reflexivity].
Defined.

Lemma output_cap_covers_witness :
  extend_box (effective_resize_box fill_query 400 500) = Some (600, 1800)
  ∧ 600 ≤ max_output_width (performance_default 4)
  ∧ 1800 ≤ max_output_height (performance_default 4).
Proof.
  split; [vm_compute; reflexivity|].
  apply (output_cap_covers fill_query (performance_default 4) 400 500);
    [simpl; dims..|done|done|done|dims|dims|vm_compute; reflexivity|vm_compute; reflexivity].
Defined.

Lemma select_jpeg_dct_scale_spec_witness : Z.min 4000 900 ≤ jpeg_scaled_dimension 4000 2.
Proof. apply (select_jpeg_dct_scale_spec 4000 3000 900 700); lia. Defined.

Lemma shrink_on_load_keeps_target_witness :
  jpeg_decoded_dimensions fill_query true 2000 1600 = (1600, 2000)
  ∧ Z.min 1600 1440 ≤ 1600 ≤ 1600 ∧ Z.min 2000 1800 ≤ 2000 ≤ 2000.
Proof.
  split; [vm_compute; reflexivity|].
  apply (shrink_on_load_keeps_target fill_query true 2000 1600); [dims..|done| |];
    vm_compute; reflexivity.
Defined.
