(* ===== verification/Raster.v ===== *)
(** * Pixels: trimming and compositing in [src/services/image/handler.rs]

An image buffer is its dimensions and its pixels; a pixel outside the
dimensions is never read.  The loops of [apply_trim] and [composite_over] run
as the source's do, in [f32] arithmetic; decoding, resampling and blurring
belong to the [image] crate. *)
From S2P Require Import Prelude RustStr RustFloat FloatError Params Geometry.

Local Open Scope Z_scope.

(** Red, green, blue, alpha. *)
Definition Rgba : Type := Z * Z * Z * Z.

Record RgbaImage := mk_RgbaImage {
  img_width : Z;
  img_height : Z;
  get_pixel : Z → Z → Rgba;
}.

#[export] Instance rgba_image_eta : Eta RgbaImage :=
  λ i, mk_RgbaImage (img_width i) (img_height i) (get_pixel i).

Definition put_pixel (img : RgbaImage) (x y : Z) (p : Rgba) : RgbaImage :=
  img <| get_pixel := λ x' y', if (x' =? x) && (y' =? y) then p else get_pixel img x' y' |>.

Definition map_pixels (f : Rgba → Rgba) (img : RgbaImage) : RgbaImage :=
  img <| get_pixel := λ x y, f (get_pixel img x y) |>.

Definition inside_image (img : RgbaImage) (x y : Z) : Prop :=
  0 ≤ x < img_width img ∧ 0 ≤ y < img_height img.

(** ** [f32] arithmetic *)

Definition f32_of_uint (n : Z) : spec_float := binary_normalize 24 128 n 0 false.
Definition f32_add : spec_float → spec_float → spec_float := SFadd 24 128.
Definition f32_sub : spec_float → spec_float → spec_float := SFsub 24 128.
Definition f32_mul : spec_float → spec_float → spec_float := SFmul 24 128.
Definition f32_div : spec_float → spec_float → spec_float := SFdiv 24 128.

(** [f32::from(a) / 255.0] *)
Definition alpha_fraction (a : Z) : spec_float := f32_div (f32_of_uint a) (f32_of_uint 255).

(** ** Backgrounds *)

(** The closure of [flatten_onto_background], and the three cases around it. *)
Definition flatten_channel (alpha : spec_float) (c bg : Z) : Z :=
  round_as_uint u8_max
    (f32_add (f32_mul (f32_of_uint c) alpha)
             (f32_mul (f32_of_uint bg) (f32_sub f32_one alpha))).

Definition flatten_pixel (background : Rgb) (p : Rgba) : Rgb :=
  let '(r, g, b, a) := p in
  let '(bg_r, bg_g, bg_b) := background in
  if a =? 255 then (r, g, b)
  else if a =? 0 then background
  else
    let alpha := alpha_fraction a in
    (flatten_channel alpha r bg_r, flatten_channel alpha g bg_g, flatten_channel alpha b bg_b).

(** The result is an opaque RGB image. *)
Definition flatten_onto_background (img : RgbaImage) (background : Rgb) : RgbaImage :=
  map_pixels (λ p, (flatten_pixel background p, 255)) img.

Definition normalize_transparent_pixels (rgba : RgbaImage) (background : Rgb) : RgbaImage :=
  map_pixels (λ p, if p.2 =? 0 then (background, p.2) else p) rgba.

(** The opaque black shape that [build_shadow_layer] blurs. *)
Definition shadow_silhouette (watermark : RgbaImage) : RgbaImage :=
  map_pixels (λ p, (0, 0, 0, p.2)) watermark.

(** ** Compositing *)

(** One channel of the [blend] closure. *)
Definition blend_channel (src_a dst_a out_a : spec_float) (s d : Z) : Z :=
  round_as_uint u8_max
    (f32_div (f32_add (f32_mul (f32_of_uint s) src_a)
                      (f32_mul (f32_mul (f32_of_uint d) dst_a) (f32_sub f32_one src_a)))
             out_a).

(** The body of the inner loop for one overlay pixel over one canvas pixel. *)
Definition blend_pixel (opacity : spec_float) (src dst : Rgba) : Rgba :=
  let '(sr, sg, sb, sa) := src in
  let '(dr, dg, db, da) := dst in
  let src_a := f32_mul (alpha_fraction sa) opacity in
  if f_le src_a f32_zero then dst
  else
    let dst_a := alpha_fraction da in
    let out_a := f32_add src_a (f32_mul dst_a (f32_sub f32_one src_a)) in
    if f_le out_a f32_zero then (0, 0, 0, 0)
    else
      (blend_channel src_a dst_a out_a sr dr, blend_channel src_a dst_a out_a sg dg,
       blend_channel src_a dst_a out_a sb db,
       round_as_uint u8_max (f32_mul out_a (f32_of_uint 255))).

(** [0..n] *)
Definition range (n : Z) : list Z := Z.of_nat <$> seq 0 (Z.to_nat n).

(** The body of the inner loop of [composite_over]. *)
Definition composite_pixel (overlay : RgbaImage) (x : Z) (opacity : spec_float)
    (canvas_y overlay_y : Z) (canvas : RgbaImage) (overlay_x : Z) : RgbaImage :=
  let canvas_x := wrap_i64 (x + overlay_x) in
  if (canvas_x <? 0) || (img_width canvas <=? canvas_x) then canvas
  else
    put_pixel canvas canvas_x canvas_y
      (blend_pixel opacity (get_pixel overlay overlay_x overlay_y)
         (get_pixel canvas canvas_x canvas_y)).

(** The body of its outer loop. *)
Definition composite_line (overlay : RgbaImage) (x y : Z) (opacity : spec_float)
    (canvas : RgbaImage) (overlay_y : Z) : RgbaImage :=
  let canvas_y := wrap_i64 (y + overlay_y) in
  if (canvas_y <? 0) || (img_height canvas <=? canvas_y) then canvas
  else
    fold_left (composite_pixel overlay x opacity canvas_y overlay_y)
      (range (img_width overlay)) canvas.

Definition composite_over (canvas overlay : RgbaImage) (x y : Z) (opacity : spec_float)
  : RgbaImage :=
  if f_le opacity f32_zero then canvas
  else fold_left (composite_line overlay x y opacity) (range (img_height overlay)) canvas.

(** ** Trimming *)

(** [while k < limit && p(k) { k += 1 }] from zero. *)
Fixpoint count_while_from (p : Z → bool) (fuel : nat) (k : Z) : Z :=
  match fuel with
  | O => k
  | S fuel' => if p k then count_while_from p fuel' (k + 1) else k
  end.
Definition count_while (p : Z → bool) (limit : Z) : Z := count_while_from p (Z.to_nat limit) 0.

(** [(f32::from(a) - f32::from(b)).abs()] *)
Definition channel_distance (a b : Z) : spec_float :=
  SFabs (f32_sub (f32_of_uint a) (f32_of_uint b)).

Definition is_background (target : Rgb) (threshold : spec_float) (p : Rgba) : bool :=
  let '(r, g, b, _) := p in
  let '(tr, tg, tb) := target in
  f_le (f_max (f_max (channel_distance r tr) (channel_distance g tg)) (channel_distance b tb))
    threshold.

(** The rectangle [apply_trim] cuts out, [None] when the image is kept. *)
Definition trim_rectangle (img : RgbaImage) (trim : TrimOptions) : option (Z * Z * Z * Z) :=
  let width := img_width img in
  let height := img_height img in
  if (width =? 0) || (height =? 0) then None
  else
    let target := default (get_pixel img 0 0).1 (trim_color trim) in
    let background x y := is_background target (trim_threshold trim) (get_pixel img x y) in
    let row_is_background y := forallb (λ x, background x y) (range width) in
    let col_is_background x := forallb (λ y, background x y) (range height) in
    let top := count_while row_is_background height in
    let bottom := count_while (λ b, row_is_background (height - 1 - b)) (height - top) in
    let lft := count_while col_is_background width in
    let rgt := count_while (λ r, col_is_background (width - 1 - r)) (width - lft) in
    let '(lft, rgt) :=
      if trim_equal_hor trim then (Z.min lft rgt, Z.min lft rgt) else (lft, rgt) in
    let '(top, bottom) :=
      if trim_equal_ver trim then (Z.min top bottom, Z.min top bottom) else (top, bottom) in
    if (height <=? top + bottom) || (width <=? lft + rgt) then None
    else Some (lft, top, width - lft - rgt, height - top - bottom).

(** A white 5 by 4 image with one red pixel at (3, 1). *)
Definition red_dot : RgbaImage :=
  mk_RgbaImage 5 4 (λ x y, if (x =? 3) && (y =? 1) then (255, 0, 0, 255) else (255, 255, 255, 255)).

Example trim_red_dot :
  trim_rectangle red_dot (mk_TrimOptions f32_zero None false false) = Some (3, 1, 1, 1).
Proof. vm_compute. reflexivity. Qed.
Example trim_red_dot_equal :
  trim_rectangle red_dot (mk_TrimOptions f32_zero None true true) = Some (1, 1, 3, 2).
Proof. vm_compute. reflexivity. Qed.
Example half_red_over_white :
  blend_pixel (f32_div f32_one (f32_of_uint 2)) (255, 0, 0, 255) (255, 255, 255, 255)
  = (255, 128, 128, 255).
Proof. vm_compute. reflexivity. Qed.

(** ** The trimmed rectangle *)

Lemma elem_of_range n i : i ∈ range n ↔ 0 ≤ i < n.
Proof.
  unfold range. rewrite list_elem_of_fmap. setoid_rewrite elem_of_seq. split.
  - intros (k & -> & Hk). lia.
  - intros Hi. exists (Z.to_nat i). lia.
Qed.

Lemma forallb_range (p : Z → bool) n :
  forallb p (range n) = true ↔ ∀ i, 0 ≤ i < n → p i = true.
Proof.
  rewrite List.forallb_forall. setoid_rewrite <- list_elem_of_In.
  setoid_rewrite elem_of_range. done.
Qed.

(** A margin: every line of it satisfies [p], and the next one does not. *)
Definition margin (p : Z → bool) (n k : Z) : Prop :=
  0 ≤ k ≤ n ∧ (∀ i, 0 ≤ i < k → p i = true) ∧ (k < n → p k = false).

Lemma count_while_margin p n : 0 ≤ n → margin p n (count_while p n).
Proof.
  intros Hn. unfold count_while, margin.
  assert (Hgen : ∀ fuel k, 0 ≤ k → (∀ i, 0 ≤ i < k → p i = true) →
    let c := count_while_from p fuel k in
    k ≤ c ≤ k + Z.of_nat fuel ∧ (∀ i, 0 ≤ i < c → p i = true)
    ∧ (c < k + Z.of_nat fuel → p c = false)).
  { induction fuel as [|fuel IH]; intros k Hk Hall; cbn [count_while_from].
    - split_and!; [lia|lia|done|lia].
    - destruct (p k) eqn:Hp; [|split_and!; [lia|lia|done|done]].
      destruct (IH (k + 1)) as (H1 & H2 & H3); [lia| |].
      + intros i Hi. destruct (Z.eq_dec i k) as [->|]; [done|apply Hall; lia].
      + split_and!; [lia|lia|done|]. intros Hlt. apply H3. lia. }
  destruct (Hgen (Z.to_nat n) 0) as (H1 & H2 & H3); [lia|lia|].
  rewrite Z2Nat.id in * by done. split_and!; [lia|lia|done|by rewrite Z.add_0_l in H3].
Qed.

Lemma forallb_range_false (p : Z → bool) n :
  forallb p (range n) = false ↔ ∃ i, 0 ≤ i < n ∧ p i = false.
Proof.
  setoid_rewrite <- elem_of_range. induction (range n) as [|i l IH]; simpl.
  - split; [done|]. by intros (i & Hi%not_elem_of_nil & _).
  - rewrite andb_false_iff, IH. split.
    + intros [H|(j & Hj & H)]; [exists i|exists j]; split; try done; [left|by right].
    + intros (j & [->|Hj]%elem_of_cons & H); [by left|right; by exists j].
Qed.

(** The two margins of one axis: either every line is background, or they
    stop at lines that are not and meet nowhere. *)
Lemma axis_margins p n :
  0 ≤ n →
  let a := count_while p n in
  let b := count_while (λ i, p (n - 1 - i)) (n - a) in
  (a = n ∧ b = 0 ∧ ∀ i, 0 ≤ i < n → p i = true)
  ∨ (0 ≤ a ∧ 0 ≤ b ∧ a + b < n ∧ p a = false ∧ p (n - 1 - b) = false
     ∧ ∀ i, 0 ≤ i < n → p i = false → a ≤ i < n - b).
Proof.
  intros Hn a b.
  destruct (count_while_margin p n Hn) as (Ha & Hba & Hsa). fold a in Ha, Hba, Hsa.
  destruct (count_while_margin (λ i, p (n - 1 - i)) (n - a) ltac:(lia)) as (Hb & Hbb & Hsb).
  fold b in Hb, Hbb, Hsb. destruct (Z.eq_dec a n) as [Heq|Hne].
  - left. split_and!; [done|lia|]. intros i Hi. apply Hba. lia.
  - right. specialize (Hsa ltac:(lia)).
    assert (b < n - a) as Hlt.
    { apply Z.lt_nge. intros Hge. specialize (Hbb (n - 1 - a) ltac:(lia)).
      replace (n - 1 - (n - 1 - a)) with a in Hbb by lia. congruence. }
    split_and!; try lia; [done|by apply Hsb|]. intros i Hi Hp. split.
    + apply Z.le_ngt. intros Hlt'. rewrite Hba in Hp; [done|lia].
    + apply Z.lt_nge. intros Hge. specialize (Hbb (n - 1 - i) ltac:(lia)).
      replace (n - 1 - (n - 1 - i)) with i in Hbb by lia. congruence.
Qed.

(** The rectangle as a function of its four margins. *)
Definition cut_margins (trim : TrimOptions) (width height lft rgt top bottom : Z)
  : option (Z * Z * Z * Z) :=
  let l := if trim_equal_hor trim then Z.min lft rgt else lft in
  let r := if trim_equal_hor trim then Z.min lft rgt else rgt in
  let t := if trim_equal_ver trim then Z.min top bottom else top in
  let b := if trim_equal_ver trim then Z.min top bottom else bottom in
  if (height <=? t + b) || (width <=? l + r) then None
  else Some (l, t, width - l - r, height - t - b).

Lemma trim_rectangle_eq img trim (background : Z → Z → bool) :
  0 < img_width img → 0 < img_height img →
  background = (λ x y, is_background (default (get_pixel img 0 0).1 (trim_color trim))
                         (trim_threshold trim) (get_pixel img x y)) →
  let rowb y := forallb (λ x, background x y) (range (img_width img)) in
  let colb x := forallb (λ y, background x y) (range (img_height img)) in
  let top := count_while rowb (img_height img) in
  let lft := count_while colb (img_width img) in
  trim_rectangle img trim
  = cut_margins trim (img_width img) (img_height img)
      lft (count_while (λ i, colb (img_width img - 1 - i)) (img_width img - lft))
      top (count_while (λ i, rowb (img_height img - 1 - i)) (img_height img - top)).
Proof.
  intros Hw Hh ->. cbv zeta. unfold trim_rectangle, cut_margins.
  rewrite !(proj2 (Z.eqb_neq _ _)) by lia. cbv zeta. cbn [orb].
  by destruct (trim_equal_hor trim), (trim_equal_ver trim).
Qed.

Lemma cut_margins_blank trim w h :
  0 < w → 0 < h → default (0, 0, w, h) (cut_margins trim w h w 0 h 0) = (0, 0, w, h).
Proof.
  intros Hw Hh. unfold cut_margins. cbv zeta. rewrite !Z.min_r by lia.
  destruct (trim_equal_hor trim), (trim_equal_ver trim); case_match; simpl; try done;
    [repeat f_equal; lia|..]; exfalso; rewrite orb_false_iff, !Z.leb_gt in *; lia.
Qed.

(** What is cut off one axis: both margins, or the smaller of them twice; a
    property of the lines they stop at. *)
Lemma cut_axis (equal : bool) (line : Z → Prop) n a b :
  line a → line (n - 1 - b) →
  let l := if equal then Z.min a b else a in
  let r := if equal then Z.min a b else b in
  if equal then l = n - (l + (n - l - r)) ∧ (line l ∨ line (l + (n - l - r) - 1))
  else line l ∧ line (l + (n - l - r) - 1).
Proof.
  intros Ha Hb. cbv zeta. destruct equal.
  - split; [lia|]. destruct (Z.min_spec a b) as [[_ ->]|[_ ->]]; [by left|right].
    by replace (b + (n - b - b) - 1) with (n - 1 - b) by lia.
  - by replace (a + (n - a - b) - 1) with (n - 1 - b) by lia.
Qed.

(** Trimming keeps everything that is not background and nothing around it:
    no pixel outside the rectangle differs from the background, and each side
    of the rectangle - one of the two opposite sides, when they are to be cut
    equally - holds a pixel that does.  An image of nothing but background is
    kept whole. *)
Theorem trim_rectangle_spec img trim :
  0 < img_width img → 0 < img_height img →
  let background x y :=
    is_background (default (get_pixel img 0 0).1 (trim_color trim)) (trim_threshold trim)
      (get_pixel img x y) in
  let row y := ∃ x, 0 ≤ x < img_width img ∧ background x y = false in
  let col x := ∃ y, 0 ≤ y < img_height img ∧ background x y = false in
  ((∀ x y, inside_image img x y → background x y = true) →
     default (0, 0, img_width img, img_height img) (trim_rectangle img trim)
       = (0, 0, img_width img, img_height img))
  ∧ ((∃ i j, inside_image img i j ∧ background i j = false) →
     ∃ x y w h, trim_rectangle img trim = Some (x, y, w, h)
       ∧ 0 ≤ x ∧ 1 ≤ w ∧ x + w ≤ img_width img ∧ 0 ≤ y ∧ 1 ≤ h ∧ y + h ≤ img_height img
       ∧ (∀ i j, inside_image img i j → background i j = false → x ≤ i < x + w ∧ y ≤ j < y + h)
       ∧ (if trim_equal_ver trim then y = img_height img - (y + h) ∧ (row y ∨ row (y + h - 1))
          else row y ∧ row (y + h - 1))
       ∧ (if trim_equal_hor trim then x = img_width img - (x + w) ∧ (col x ∨ col (x + w - 1))
          else col x ∧ col (x + w - 1))).
Proof.
  intros Hw Hh background row col.
  set (rowb := λ y, forallb (λ x, background x y) (range (img_width img))).
  set (colb := λ x, forallb (λ y, background x y) (range (img_height img))).
  assert (Hrow : ∀ y, rowb y = false ↔ row y) by (intros y; apply forallb_range_false).
  assert (Hcol : ∀ x, colb x = false ↔ col x) by (intros x; apply forallb_range_false).
  pose proof (axis_margins rowb (img_height img) ltac:(lia)) as Hv.
  pose proof (axis_margins colb (img_width img) ltac:(lia)) as Hc. cbv zeta in Hv, Hc.
  pose proof (trim_rectangle_eq img trim background Hw Hh eq_refl) as Heq.
  cbv zeta in Heq. fold rowb colb in Heq. rewrite Heq. clear Heq. revert Hv Hc.
  generalize (count_while rowb (img_height img)) (count_while colb (img_width img)).
  intros top lft.
  generalize (count_while (λ i, rowb (img_height img - 1 - i)) (img_height img - top)).
  generalize (count_while (λ i, colb (img_width img - 1 - i)) (img_width img - lft)).
  intros rgt bottom Hv Hc. split.
  - intros Hall.
    destruct Hv as [(-> & -> & _)|(? & ? & ? & (x & Hx & Hf)%Hrow & _)]; [|rewrite Hall in Hf; [done|split; lia]].
    destruct Hc as [(-> & -> & _)|(? & ? & ? & (y & Hy & Hf)%Hcol & _)]; [|rewrite Hall in Hf; [done|split; lia]].
    by apply cut_margins_blank.
  - intros (i0 & j0 & [Hi0 Hj0] & Hb0).
    assert (Hr0 : rowb j0 = false) by (apply Hrow; by exists i0).
    assert (Hc0 : colb i0 = false) by (apply Hcol; by exists j0).
    destruct Hv as [(_ & _ & Hv)|(Ht & Hbm & Hv & Hst & Hsb & Hinv)]; [by rewrite Hv in Hr0|].
    destruct Hc as [(_ & _ & Hc)|(Hl & Hrm & Hc & Hsl & Hsr & Hinh)]; [by rewrite Hc in Hc0|].
    apply Hrow in Hst, Hsb. apply Hcol in Hsl, Hsr. unfold cut_margins. cbv zeta.
    pose proof (cut_axis (trim_equal_ver trim) row _ _ _ Hst Hsb) as Hrows.
    pose proof (cut_axis (trim_equal_hor trim) col _ _ _ Hsl Hsr) as Hcols. cbv zeta in Hrows, Hcols.
    set (l := if trim_equal_hor trim then Z.min lft rgt else lft) in *.
    set (r := if trim_equal_hor trim then Z.min lft rgt else rgt) in *.
    set (t := if trim_equal_ver trim then Z.min top bottom else top) in *.
    set (b := if trim_equal_ver trim then Z.min top bottom else bottom) in *.
    assert (0 ≤ l ≤ lft ∧ 0 ≤ r ≤ rgt) by (unfold l, r; destruct (trim_equal_hor trim); lia).
    assert (0 ≤ t ≤ top ∧ 0 ≤ b ≤ bottom) by (unfold t, b; destruct (trim_equal_ver trim); lia).
    exists l, t, (img_width img - l - r), (img_height img - t - b). split_and!; try lia; try done.
    + by rewrite !(proj2 (Z.leb_gt _ _)) by lia.
    + intros i j [Hi Hj] Hb.
      specialize (Hinv j Hj (proj2 (Hrow j) (ex_intro _ i (conj Hi Hb)))).
      specialize (Hinh i Hi (proj2 (Hcol i) (ex_intro _ j (conj Hj Hb)))). lia.
Qed.

(** ** Compositing, pixel by pixel *)

(** [out] is [canvas] with the overlay pixels of the columns in [l], of row
    [oy], blended in. *)
Definition row_blended (overlay : RgbaImage) (x : Z) (opacity : spec_float) (cy oy : Z)
    (l : list Z) (canvas out : RgbaImage) : Prop :=
  img_width out = img_width canvas ∧ img_height out = img_height canvas
  ∧ ∀ i j,
      let covered := j = cy ∧ 0 ≤ i < img_width canvas ∧ i - x ∈ l in
      (covered → get_pixel out i j
         = blend_pixel opacity (get_pixel overlay (i - x) oy) (get_pixel canvas i j))
      ∧ (¬ covered → get_pixel out i j = get_pixel canvas i j).

Lemma composite_pixel_spec overlay x opacity cy oy canvas o :
  wrap_i64 (x + o) = x + o →
  row_blended overlay x opacity cy oy [o] canvas
    (composite_pixel overlay x opacity cy oy canvas o).
Proof.
  intros Hwo. unfold composite_pixel, row_blended. rewrite Hwo.
  setoid_rewrite list_elem_of_singleton.
  destruct (_ || _) eqn:Hout; [|unfold put_pixel; simpl]; (split_and!; [done..|]); intros i j.
  - rewrite orb_true_iff, Z.ltb_lt, Z.leb_le in Hout. split; [lia|done].
  - rewrite orb_false_iff, Z.ltb_ge, Z.leb_gt in Hout.
    destruct (Z.eqb_spec i (x + o)) as [->|], (Z.eqb_spec j cy) as [->|]; simpl;
      split; try done; try lia.
    by replace (x + o - x) with o by lia.
Qed.

Lemma composite_row_spec overlay x opacity cy oy (l : list Z) canvas :
  NoDup l → (∀ o, o ∈ l → wrap_i64 (x + o) = x + o) →
  row_blended overlay x opacity cy oy l canvas
    (fold_left (composite_pixel overlay x opacity cy oy) l canvas).
Proof.
  revert canvas. induction l as [|o l IH]; intros canvas Hnd Hw; cbn [fold_left].
  - split_and!; [done..|]. intros i j. split; [|done].
    intros (_ & _ & H). by apply not_elem_of_nil in H.
  - apply NoDup_cons in Hnd as [Hno Hnd].
    destruct (composite_pixel_spec overlay x opacity cy oy canvas o) as (Hw1 & Hh1 & Hp1);
      [apply Hw; by left|].
    destruct (IH (composite_pixel overlay x opacity cy oy canvas o) Hnd) as (Hw2 & Hh2 & Hp2);
      [intros o' Ho'; apply Hw; by right|].
    split_and!; [congruence..|]. intros i j. specialize (Hp1 i j). specialize (Hp2 i j).
    rewrite Hw1 in Hp2. cbv zeta in *. rewrite list_elem_of_singleton in Hp1.
    rewrite elem_of_cons. destruct Hp1 as [Hi1 Ho1], Hp2 as [Hi2 Ho2]. split.
    + intros (Hj & Hi & [Heq|Hin]).
      * rewrite Ho2, Hi1; [done|done|]. intros (_ & _ & H). by rewrite Heq in H.
      * rewrite Hi2, Ho1; [done| |done]. intros (_ & _ & Heq). by rewrite Heq in Hin.
    + intros Hnot. rewrite Ho2, Ho1; [done|tauto..].
Qed.

Lemma range_nodup n : NoDup (range n).
Proof. unfold range. apply NoDup_fmap_2; [intros a b; lia|apply NoDup_seq]. Qed.

(** [out] is [canvas] with the overlay's rows in [l] blended in. *)
Definition lines_blended (overlay : RgbaImage) (x y : Z) (opacity : spec_float)
    (l : list Z) (canvas out : RgbaImage) : Prop :=
  img_width out = img_width canvas ∧ img_height out = img_height canvas
  ∧ ∀ i j,
      let covered := inside_image canvas i j ∧ 0 ≤ i - x < img_width overlay ∧ j - y ∈ l in
      (covered → get_pixel out i j
         = blend_pixel opacity (get_pixel overlay (i - x) (j - y)) (get_pixel canvas i j))
      ∧ (¬ covered → get_pixel out i j = get_pixel canvas i j).

Lemma composite_line_spec overlay x y opacity canvas o :
  (∀ o, o ∈ range (img_width overlay) → wrap_i64 (x + o) = x + o) →
  wrap_i64 (y + o) = y + o →
  lines_blended overlay x y opacity [o] canvas (composite_line overlay x y opacity canvas o).
Proof.
  intros Hwx Hwo. unfold composite_line, lines_blended, inside_image. rewrite Hwo.
  setoid_rewrite list_elem_of_singleton. destruct (_ || _) eqn:Hout.
  - rewrite orb_true_iff, Z.ltb_lt, Z.leb_le in Hout. split_and!; [done..|]. intros i j.
    split; [lia|done].
  - rewrite orb_false_iff, Z.ltb_ge, Z.leb_gt in Hout.
    destruct (composite_row_spec overlay x opacity (y + o) o (range (img_width overlay)) canvas
      (range_nodup _) Hwx) as (Hw & Hh & Hp).
    split_and!; [done..|]. intros i j. specialize (Hp i j) as [Hin Hnot].
    rewrite elem_of_range in *. split.
    + intros (Hi & Ho & <-). apply Hin. lia.
    + intros H. apply Hnot. lia.
Qed.

Lemma composite_lines_spec overlay x y opacity (l : list Z) canvas :
  (∀ o, o ∈ range (img_width overlay) → wrap_i64 (x + o) = x + o) →
  NoDup l → (∀ o, o ∈ l → wrap_i64 (y + o) = y + o) →
  lines_blended overlay x y opacity l canvas
    (fold_left (composite_line overlay x y opacity) l canvas).
Proof.
  intros Hwx. revert canvas. induction l as [|o l IH]; intros canvas Hnd Hw; cbn [fold_left].
  - split_and!; [done..|]. intros i j. split; [|done].
    intros (_ & _ & H). by apply not_elem_of_nil in H.
  - apply NoDup_cons in Hnd as [Hno Hnd].
    destruct (composite_line_spec overlay x y opacity canvas o) as (Hw1 & Hh1 & Hp1);
      [done|apply Hw; by left|].
    destruct (IH (composite_line overlay x y opacity canvas o) Hnd) as (Hw2 & Hh2 & Hp2);
      [intros o' Ho'; apply Hw; by right|].
    split_and!; [congruence..|]. intros i j. specialize (Hp1 i j). specialize (Hp2 i j).
    unfold inside_image in *. rewrite Hw1, Hh1 in Hp2. cbv zeta in *.
    rewrite list_elem_of_singleton in Hp1.
    rewrite elem_of_cons. destruct Hp1 as [Hi1 Ho1], Hp2 as [Hi2 Ho2]. split.
    + intros (Hj & Hi & [Heq|Hin]).
      * rewrite Ho2, Hi1; [done|done|]. intros (_ & _ & H). by rewrite Heq in H.
      * rewrite Hi2, Ho1; [done| |done]. intros (_ & _ & Heq). by rewrite Heq in Hin.
    + intros Hnot. rewrite Ho2, Ho1; [done|tauto..].
Qed.

(** Compositing touches exactly the canvas pixels the overlay covers, each
    once: such a pixel becomes the overlay pixel at its place blended over the
    canvas pixel, every other pixel and the canvas's size stay, wherever the
    overlay is placed - off the canvas too. *)
Theorem composite_over_pointwise canvas overlay x y opacity :
  - 2 ^ 62 ≤ x ≤ 2 ^ 62 → - 2 ^ 62 ≤ y ≤ 2 ^ 62 →
  0 ≤ img_width overlay ≤ u32_max → 0 ≤ img_height overlay ≤ u32_max →
  let out := composite_over canvas overlay x y opacity in
  img_width out = img_width canvas ∧ img_height out = img_height canvas
  ∧ ∀ i j, get_pixel out i j
      = if decide (f_le opacity f32_zero = false ∧ inside_image canvas i j
                   ∧ inside_image overlay (i - x) (j - y))
        then blend_pixel opacity (get_pixel overlay (i - x) (j - y)) (get_pixel canvas i j)
        else get_pixel canvas i j.
Proof.
  intros Hx Hy Hw Hh out. unfold out, composite_over. unfold u32_max in *.
  destruct (f_le opacity f32_zero).
  { split_and!; [done..|]. intros i j. rewrite decide_False; [done|]. by intros []. }
  destruct (composite_lines_spec overlay x y opacity (range (img_height overlay)) canvas)
    as (Hw1 & Hh1 & Hp).
  - intros o Ho%elem_of_range. apply wrap_i64_small. lia.
  - apply range_nodup.
  - intros o Ho%elem_of_range. apply wrap_i64_small. lia.
  - split_and!; [done..|]. intros i j. specialize (Hp i j) as [Hin Hnot].
    rewrite elem_of_range in *. case_decide as Hd; [apply Hin|apply Hnot].
    + by destruct Hd as (_ & ? & ? & ?).
    + intros (H1 & H2 & H3). by apply Hd.
Qed.

(** ** Opaque overlays *)

Lemma forallb_range_at (p : Z → bool) n i : forallb p (range n) = true → 0 ≤ i < n → p i = true.
Proof. intros H. by apply forallb_range. Qed.

Definition is_f32_zero (x : spec_float) : bool :=
  match x with S754_zero false => true | _ => false end.

Lemma is_f32_zero_eq x : is_f32_zero x = true → x = f32_zero.
Proof. by destruct x as [[]| | |]. Qed.

Lemma alpha_times_zero a : 0 ≤ a < 256 → f32_mul (alpha_fraction a) f32_zero = f32_zero.
Proof.
  intros Ha. apply is_f32_zero_eq.
  apply (forallb_range_at (λ a, is_f32_zero (f32_mul (alpha_fraction a) f32_zero)) 256);
    [vm_compute; reflexivity|done].
Qed.

(** A positive [f32] of full precision and moderate exponent. *)
Definition moderate_f32 (x : spec_float) : bool :=
  match x with
  | S754_finite false m e => (digits2_pos m =? 24)%positive && (-40 <=? e) && (e <=? 20)
  | _ => false
  end.

Lemma moderate_product x y :
  moderate_f32 x = true → moderate_f32 y = true → f32_mul (f32_mul x y) f32_zero = f32_zero.
Proof.
  destruct x as [| | |[] m e], y as [| | |[] m' e']; cbn [moderate_f32]; try done.
  rewrite !andb_true_iff, !Pos.eqb_eq, !Z.leb_le. intros [[Hm He] He'] [[Hm' He2] He2'].
  pose proof (digits2_pos_bounds m) as Hb. pose proof (digits2_pos_bounds m') as Hb'.
  rewrite Hm in Hb. rewrite Hm' in Hb'. change (2 ^ (24 - 1)) with 8388608 in *.
  change (2 ^ 24) with 16777216 in *.
  pose proof (Zdigits2_bounds (Zpos (m * m')) ltac:(lia)) as [[Hl Hu] Hpos].
  assert (47 ≤ Zdigits2 (Zpos (m * m')) ≤ 48) as Hd.
  { generalize dependent (Zdigits2 (Zpos (m * m'))). intros dg. rewrite Pos2Z.inj_mul.
    intros Hl Hu _. split; apply Z.le_ngt; intros H.
    - assert (2 ^ dg ≤ 2 ^ 46) by (apply Z.pow_le_mono_r; lia).
      change (2 ^ 46) with 70368744177664 in *. nia.
    - assert (2 ^ 48 ≤ 2 ^ (dg - 1)) by (apply Z.pow_le_mono_r; lia).
      change (2 ^ 48) with 281474976710656 in *. nia. }
  destruct (round_aux_normal 24 128 ltac:(lia) false (Zpos (m * m')) (e + e') loc_Exact
    (Zpos (m * m')) 1) as (r & er & Heq & _);
    [lia|lia|unfold rep; simpl; lia|lia|unfold emin; lia|lia|].
  unfold f32_mul at 2, SFmul. simpl xorb. by rewrite Heq.
Qed.

Lemma premultiplied_times_zero d a :
  0 ≤ d < 256 → 0 ≤ a < 256 →
  f32_mul (f32_mul (f32_of_uint d) (alpha_fraction a)) f32_zero = f32_zero.
Proof.
  intros Hd Ha. destruct (decide (d = 0)) as [->|Hd0].
  { change (f32_of_uint 0) with f32_zero.
    apply is_f32_zero_eq. revert a Ha. apply forallb_range. vm_compute. reflexivity. }
  destruct (decide (a = 0)) as [->|Ha0].
  { change (alpha_fraction 0) with f32_zero.
    apply is_f32_zero_eq. revert d Hd Hd0. intros d Hd _. revert d Hd.
    apply forallb_range. vm_compute. reflexivity. }
  apply moderate_product.
  - replace d with (d - 1 + 1) by lia.
    apply (forallb_range_at (λ d, moderate_f32 (f32_of_uint (d + 1))) 255);
      [vm_compute; reflexivity|lia].
  - replace a with (a - 1 + 1) by lia.
    apply (forallb_range_at (λ a, moderate_f32 (alpha_fraction (a + 1))) 255);
      [vm_compute; reflexivity|lia].
Qed.

Lemma channel_over_zero c :
  0 ≤ c < 256 →
  round_as_uint u8_max
    (f32_div (f32_add (f32_mul (f32_of_uint c) f32_one) f32_zero) f32_one) = c.
Proof.
  intros Hc. apply Z.eqb_eq.
  apply (forallb_range_at (λ c, round_as_uint u8_max
           (f32_div (f32_add (f32_mul (f32_of_uint c) f32_one) f32_zero) f32_one) =? c) 256);
    [vm_compute; reflexivity|done].
Qed.

(** An opaque overlay pixel at full opacity replaces the canvas pixel, and a
    transparent one leaves it: compositing has no rounding loss at either end
    of the alpha range. *)
Theorem blend_pixel_ends r g b dst :
  0 ≤ r ≤ 255 → 0 ≤ g ≤ 255 → 0 ≤ b ≤ 255 →
  0 ≤ dst.1.1.1 ≤ 255 → 0 ≤ dst.1.1.2 ≤ 255 → 0 ≤ dst.1.2 ≤ 255 → 0 ≤ dst.2 ≤ 255 →
  blend_pixel f32_one (r, g, b, 255) dst = (r, g, b, 255)
  ∧ blend_pixel f32_one (r, g, b, 0) dst = dst.
Proof.
  destruct dst as [[[dr dg] db] da]. cbn [fst snd]. intros Hr Hg Hb Hdr Hdg Hdb Hda.
  split; [|done]. unfold blend_pixel, blend_channel.
  replace (f32_mul (alpha_fraction 255) f32_one) with f32_one by (vm_compute; reflexivity).
  replace (f32_sub f32_one f32_one) with f32_zero by (vm_compute; reflexivity).
  replace (f_le f32_one f32_zero) with false by (vm_compute; reflexivity). cbv zeta.
  rewrite alpha_times_zero, !premultiplied_times_zero by lia.
  replace (f32_add f32_one f32_zero) with f32_one by (vm_compute; reflexivity).
  replace (f_le f32_one f32_zero) with false by (vm_compute; reflexivity). cbn [negb].
  rewrite !channel_over_zero by lia. vm_compute (round_as_uint _ _). done.
Qed.

Lemma trim_rectangle_spec_witness :
  ∃ x y w h, trim_rectangle red_dot (mk_TrimOptions f32_zero None false false) = Some (x, y, w, h)
    ∧ x ≤ 3 < x + w ∧ y ≤ 1 < y + h.
Proof.
  destruct (trim_rectangle_spec red_dot (mk_TrimOptions f32_zero None false false)
    ltac:(simpl; lia) ltac:(simpl; lia)) as [_ H].
  destruct H as (x & y & w & h & Heq & _ & _ & _ & _ & _ & _ & Hin & _).
  - exists 3, 1. split; [unfold inside_image; simpl; lia|vm_compute; reflexivity].
  - exists x, y, w, h. split; [exact Heq|].
    apply Hin; [unfold inside_image; simpl; lia|vm_compute; reflexivity].
Defined.

(** A two by two blue canvas with the red dot's image placed so that only its
    pixel (3, 1) and its neighbours land on it. *)
Definition blue_canvas : RgbaImage := mk_RgbaImage 2 2 (λ _ _, (0, 0, 255, 255)).

Lemma composite_over_pointwise_witness :
  let out := composite_over blue_canvas red_dot (-3) (-1) f32_one in
  img_width out = 2 ∧ get_pixel out 0 0 = (255, 0, 0, 255)
  ∧ get_pixel out 7 7 = (0, 0, 255, 255).
Proof.
  destruct (composite_over_pointwise blue_canvas red_dot (-3) (-1) f32_one) as (Hw & _ & Hp);
    [lia|lia|unfold u32_max; simpl; lia|unfold u32_max; simpl; lia|].
  split; [exact Hw|]. rewrite !Hp. split; vm_compute; reflexivity.
Defined.

Lemma blend_pixel_ends_witness :
  blend_pixel f32_one (1, 2, 3, 255) (9, 8, 7, 77) = (1, 2, 3, 255).
Proof. apply (blend_pixel_ends 1 2 3 (9, 8, 7, 77)); simpl; lia. Defined.
