(* ===== verification/Presets.v ===== *)
(** * Presets and the option allowlist: [src/modules/url/presets.rs]

[PresetRegistry::parse] as a fold over the comma-separated entries into a
map from names to option segments, and [AllowedOptions]. *)
From S2P Require Import Prelude RustStr.

(** The messages of [PresetParseError]. *)
Inductive PresetParseError :=
  | PresetMissingEquals (entry : string)
  | PresetEmptyName (entry : string)
  | PresetNoOptions (name : string)
  | PresetNestedReference (name bad : string)
  | PresetDuplicate (name : string).

Record PresetRegistry := mk_PresetRegistry {
  presets : gmap string (list string);
}.

Definition preset_registry_empty : PresetRegistry := mk_PresetRegistry ∅.

(** [seg.split(':').next().unwrap_or_default()]. *)
Definition option_code (seg : string) : string :=
  default EmptyString (head (split_on ":" seg)).

(** The [/]-separated segments of an entry, trimmed, the empty ones dropped. *)
Definition preset_segments (options : string) : list string :=
  filter (λ s, str_is_empty s = false) (trim <$> split_on "/" options).

(** One turn of the loop over the entries. *)
Definition parse_preset_entry (m : gmap string (list string)) (entry : string)
  : result PresetParseError (gmap string (list string)) :=
  let entry := trim entry in
  if str_is_empty entry then Ok m
  else
    '(name, options) ← ok_or (split_once "=" entry) (PresetMissingEquals entry);
    let name := trim name in
    if str_is_empty name then Err (PresetEmptyName entry)
    else
      let segments := preset_segments options in
      match segments with
      | [] => Err (PresetNoOptions name)
      | _ =>
          match List.find (λ seg, String.eqb (option_code seg) "pr") segments with
          | Some bad => Err (PresetNestedReference name bad)
          | None =>
              match m !! name with
              | Some _ => Err (PresetDuplicate name)
              | None => Ok (<[name := segments]> m)
              end
          end
      end.

Fixpoint parse_preset_entries (m : gmap string (list string)) (entries : list string)
  : result PresetParseError (gmap string (list string)) :=
  match entries with
  | [] => Ok m
  | entry :: rest =>
      m ← parse_preset_entry m entry;
      parse_preset_entries m rest
  end.

Definition preset_registry_parse (raw : string) : result PresetParseError PresetRegistry :=
  m ← parse_preset_entries ∅ (split_on "," raw);
  Ok (mk_PresetRegistry m).

Definition preset_get (r : PresetRegistry) (name : string) : option (list string) :=
  presets r !! name.

Definition default_preset (r : PresetRegistry) : option (list string) :=
  presets r !! "default".

(** ** Allowlist *)

Record AllowedOptions := mk_AllowedOptions {
  allowed : option (gset string);
}.

Definition unrestricted : AllowedOptions := mk_AllowedOptions None.

Definition allowed_options_parse (raw : string) : AllowedOptions :=
  let codes := filter (λ s, str_is_empty s = false) (trim <$> split_on "," raw) in
  match codes with
  | [] => unrestricted
  | _ => mk_AllowedOptions (Some (list_to_set codes))
  end.

Definition is_allowed (a : AllowedOptions) (code : string) : bool :=
  match allowed a with
  | None => true
  | Some set => bool_decide (code ∈ set)
  end.

Example preset_parse_example :
  (λ r, preset_get r "thumb") <$> preset_registry_parse " thumb = rs:fill:300:300/q:80 , default=el:1"
  = Ok (Some ["rs:fill:300:300"; "q:80"]).
Proof. vm_compute. reflexivity. Qed.

(** ** A parsed registry

No configured preset is empty or refers to another one, so expansion needs
no recursion. *)
Definition preset_wf (segments : list string) : Prop :=
  segments ≠ [] ∧ Forall (λ seg, option_code seg ≠ "pr") segments.

Definition registry_wf (r : PresetRegistry) : Prop :=
  map_Forall (λ name segments, name ≠ EmptyString ∧ preset_wf segments) (presets r).

Lemma parse_preset_entry_wf m entry m' :
  map_Forall (λ name segments, name ≠ EmptyString ∧ preset_wf segments) m →
  parse_preset_entry m entry = Ok m' →
  map_Forall (λ name segments, name ≠ EmptyString ∧ preset_wf segments) m'.
Proof.
  unfold parse_preset_entry. cbv zeta. intros Hm.
  destruct (str_is_empty (trim entry)); [by intros [= <-]|]. intros H. invert_ok.
  destruct x as [name options]. destruct (str_is_empty (trim name)) eqn:Hname; [done|].
  destruct (preset_segments options) as [|s l] eqn:Hsegs; [done|].
  destruct (List.find _ _) eqn:Hfind; [done|].
  destruct (m !! trim name); [done|]. injection H0 as <-.
  apply map_Forall_insert_2; [|done]. split.
  - intros Heq. by rewrite Heq in Hname.
  - split; [done|]. apply Forall_forall. intros seg Hseg Hpr.
    apply list_elem_of_In, (List.find_none _ _ Hfind seg) in Hseg.
    by rewrite Hpr in Hseg.
Qed.

Lemma parse_preset_entries_wf m entries m' :
  map_Forall (λ name segments, name ≠ EmptyString ∧ preset_wf segments) m →
  parse_preset_entries m entries = Ok m' →
  map_Forall (λ name segments, name ≠ EmptyString ∧ preset_wf segments) m'.
Proof.
  revert m. induction entries as [|e entries IH]; intros m Hm; simpl.
  - by intros [= <-].
  - intros. invert_ok. eapply IH; [|done]. by eapply parse_preset_entry_wf.
Qed.

Lemma registry_parse_wf raw r : preset_registry_parse raw = Ok r → registry_wf r.
Proof.
  unfold preset_registry_parse. intros. invert_ok. subst.
  eapply parse_preset_entries_wf; [|done]. apply map_Forall_empty.
Qed.

Lemma preset_get_wf r name segments :
  registry_wf r → preset_get r name = Some segments → preset_wf segments.
Proof. intros Hr H. by apply (map_Forall_lookup_1 _ _ _ _ Hr) in H as [_ ?]. Qed.

(** A blank list of codes restricts nothing; otherwise membership decides. *)
Lemma is_allowed_parse raw code :
  is_allowed (allowed_options_parse raw) code = true ↔
  (∀ s, s ∈ split_on "," raw → trim s = EmptyString) ∨
  (code ≠ EmptyString ∧ code ∈ trim <$> split_on "," raw).
Proof.
  unfold allowed_options_parse, is_allowed. cbv zeta.
  set (codes := filter _ _).
  assert (Hin : ∀ c, c ∈ codes ↔ c ≠ EmptyString ∧ c ∈ trim <$> split_on "," raw).
  { intros c. unfold codes. rewrite list_elem_of_filter. destruct c; simpl; naive_solver. }
  destruct codes as [|c codes]; simpl.
  - split; [|done]. intros _. left. intros s Hs.
    destruct (trim s) as [|a t] eqn:Ht; [done|].
    assert (String a t ∈ []) as []%not_elem_of_nil. apply Hin. split; [done|].
    rewrite <- Ht. by apply list_elem_of_fmap_2.
  - rewrite bool_decide_eq_true. rewrite <- Hin.
    rewrite <- (elem_of_list_to_set (C := gset string)). split; [by right|].
    intros [Hall|]; [|done]. exfalso.
    destruct (proj1 (Hin c)) as [Hc Hc']; [by left|].
    apply list_elem_of_fmap in Hc' as (s & Hcs & Hs). apply Hc. rewrite Hcs. by apply Hall.
Qed.
