(* ===== verification/UrlSource.v ===== *)
(** * The source segment: [src/modules/url/source.rs]

[parse_source] and its plain and base64 forms.  [b64_decode] stands for
[URL_SAFE_NO_PAD.decode] of the [base64] crate, [url_decode] for the
[urlencoding] crate's [decode]. *)
From S2P Require Import Prelude RustStr RustFloat Params UrlOptions.

Record SourceSpec := mk_SourceSpec {
  src_url : string;
  src_format : ImageFormat;
}.

Definition KNOWN_EXTENSIONS : list string :=
  ["jpg"; "jpeg"; "png"; "webp"; "avif"; "gif"; "auto"].

Definition split_extension (s : string) : result UrlParseError (string * ImageFormat) :=
  '(base, ext) ← ok_or (rsplit_once "." s) (InvalidSource (MissingExtension s));
  if negb (List.existsb (String.eqb ext) KNOWN_EXTENSIONS) then
    Err (InvalidSource (UnrecognizedExtension ext))
  else
    format ← map_err InvalidSource (image_format_from_str ext);
    Ok (base, format).

Section Source.
Context (b64_decode url_decode : string → option string).

Definition parse_plain_source (rest : list string) : result UrlParseError SourceSpec :=
  match rest with
  | [] => Err EmptySource
  | _ =>
      '(raw_url, format) ← split_extension (join "/" rest);
      url ← ok_or (url_decode raw_url) (InvalidSource InvalidPercentEncoding);
      if str_is_empty url then Err EmptySource else Ok (mk_SourceSpec url format)
  end.

Definition parse_base64_source (segments : list string) : result UrlParseError SourceSpec :=
  match segments with
  | [segment] =>
      '(encoded, format) ← split_extension segment;
      decoded ← ok_or (b64_decode encoded) (InvalidSource InvalidBase64Source);
      url ← ok_or (from_utf8 decoded) (InvalidSource SourceNotUtf8);
      if str_is_empty url then Err EmptySource else Ok (mk_SourceSpec url format)
  | _ => Err (InvalidSource Base64SourceNotOneSegment)
  end.

Definition parse_source (segments : list string) : result UrlParseError SourceSpec :=
  match segments with
  | [] => Err EmptySource
  | first :: rest =>
      if String.eqb first "plain" then parse_plain_source rest
      else parse_base64_source segments
  end.

(** The extension list and the format parser agree: the inner error of
    [split_extension] is never taken. *)
Lemma split_extension_Ok s base format :
  split_extension s = Ok (base, format) ↔
  ∃ ext, s = base +:+ String "." ext ∧ str_contains "." ext = false
         ∧ image_format_from_str ext = Ok format.
Proof.
  unfold split_extension. split.
  - intros. invert_ok. destruct x as [base' ext]. apply rsplit_once_Some in H as [-> Hdot].
    destruct (List.existsb (String.eqb ext) KNOWN_EXTENSIONS); [|done]. simpl in H0. invert_ok. subst.
    by exists ext.
  - intros (ext & -> & Hdot & Hf). rewrite rsplit_once_app by done. cbn [ok_or mbind result_bind].
    assert (List.existsb (String.eqb ext) KNOWN_EXTENSIONS = true) as ->; [|by rewrite Hf].
    revert Hf. unfold image_format_from_str. simpl.
    repeat (destruct (String.eqb ext _); simpl; [done|]). done.
Qed.

Lemma parse_source_nonempty segments spec :
  parse_source segments = Ok spec → src_url spec ≠ EmptyString.
Proof.
  unfold parse_source, parse_plain_source, parse_base64_source.
  destruct segments as [|s rest]; [done|]. destruct (String.eqb s "plain").
  - destruct rest; [done|]. intros H. invert_ok. destruct x. invert_ok.
    destruct (str_is_empty x) eqn:He; invert_ok. subst. by destruct x.
  - destruct rest; [|done]. intros H. invert_ok. destruct x. invert_ok.
    destruct (str_is_empty _) eqn:He; invert_ok. subst. simpl. by intros ->.
Qed.

(** A URL encoded by an inverse of the decoder comes back, in both forms,
    with the format its extension names. *)
Section RoundTrip.
Context (b64_encode url_encode : string → string).
Hypothesis b64_decode_encode : ∀ s, b64_decode (b64_encode s) = Some s.
Hypothesis url_decode_encode : ∀ s, url_decode (url_encode s) = Some s.

(** Base64 form: one segment [{base64}.{ext}]; the URL is valid UTF-8 as
    every Rust string is. *)
Theorem parse_source_base64_roundtrip url ext format :
  url ≠ EmptyString → utf8_valid url = true →
  image_format_from_str ext = Ok format → str_contains "." ext = false →
  b64_encode url +:+ String "." ext ≠ "plain" →
  parse_source [b64_encode url +:+ String "." ext] = Ok (mk_SourceSpec url format).
Proof.
  intros Hne Hutf Hf Hdot Hplain. unfold parse_source.
  apply String.eqb_neq in Hplain. rewrite Hplain. unfold parse_base64_source.
  rewrite (proj2 (split_extension_Ok _ (b64_encode url) format)) by eauto.
  simpl. rewrite b64_decode_encode. simpl. unfold from_utf8. rewrite Hutf. simpl.
  by destruct url.
Qed.

(** Plain form: the literal URL may span several segments. *)
Theorem parse_source_plain_roundtrip url ext format :
  url ≠ EmptyString →
  image_format_from_str ext = Ok format → str_contains "." ext = false →
  parse_source ("plain" :: split_on "/" (url_encode url +:+ String "." ext))
    = Ok (mk_SourceSpec url format).
Proof.
  intros Hne Hf Hdot. unfold parse_source. simpl.
  unfold parse_plain_source. rewrite join_split.
  rewrite (proj2 (split_extension_Ok _ (url_encode url) format)) by eauto.
  simpl. rewrite url_decode_encode. simpl.
  pose proof (split_on_not_nil "/" (url_encode url +:+ String "." ext)).
  destruct (split_on "/" _); [done|]. by destruct url.
Qed.
End RoundTrip.
End Source.

(** ** Instances *)

Lemma parse_source_base64_roundtrip_witness :
  parse_source Some Some ["http://h/cat.webp"] = Ok (mk_SourceSpec "http://h/cat" ImageFormat.Webp).
Proof.
  by apply (parse_source_base64_roundtrip Some Some (λ s, s) ltac:(done) "http://h/cat" "webp").
Defined.

Lemma parse_source_plain_roundtrip_witness :
  parse_source Some Some ["plain"; "http:"; EmptyString; "h"; "cat.png.avif"] =
    Ok (mk_SourceSpec "http://h/cat.png" ImageFormat.Avif).
Proof.
  by apply (parse_source_plain_roundtrip Some Some (λ s, s) ltac:(done) "http://h/cat.png" "avif").
Defined.
