(* ===== verification/UrlGrammar.v ===== *)
(** * The signed URL grammar: [src/modules/url/mod.rs]

[split], the preset expansion and allowlist check of [parse_with_config],
and the conversion to a [ResizeQuery]. *)
From S2P Require Import Prelude RustStr RustFloat Params UrlOptions Presets UrlSource.

Local Open Scope Z_scope.

Record SignedRequest := mk_SignedRequest {
  signature_segment : string;
  signed_path : string;
  remainder_segments : list string;
}.

Definition split (raw_path : string) : result UrlParseError SignedRequest :=
  let trimmed := default raw_path (strip_prefix "/" raw_path) in
  match split_once "/" trimmed with
  | Some (sig, remainder) =>
      if str_is_empty remainder then Err (Malformed raw_path)
      else Ok (mk_SignedRequest sig (String "/" remainder) (split_on "/" remainder))
  | None => Err (Malformed raw_path)
  end.

Record ParsedRequest := mk_ParsedRequest {
  pr_options : ProcessingOptions;
  pr_source : SourceSpec;
}.

(** The position of the first segment that is not an option. *)
Fixpoint source_index (segments : list string) : nat :=
  match segments with
  | [] => O
  | seg :: rest =>
      if String.eqb seg "plain" || negb (looks_like_option seg) then O
      else S (source_index rest)
  end.

(** The names of a [pr:] segment, each replaced by its preset's segments. *)
Fixpoint expand_presets (registry : PresetRegistry) (names : list string)
  : result UrlParseError (list string) :=
  match names with
  | [] => Ok []
  | name :: rest =>
      segments ← ok_or (preset_get registry name) (UnknownPreset name);
      more ← expand_presets registry rest;
      Ok (segments ++ more)
  end.

(** The loop over the option segments: allowlist, then expansion. *)
Fixpoint expand_segments (registry : PresetRegistry) (allowed : AllowedOptions)
    (segments : list string) : result UrlParseError (list string) :=
  match segments with
  | [] => Ok []
  | seg :: rest =>
      let code := segment_code seg in
      if negb (is_allowed allowed code) then Err (OptionNotAllowed code)
      else
        expanded ← (if String.eqb code "pr" then expand_presets registry (segment_args seg)
                    else Ok [seg]);
        more ← expand_segments registry allowed rest;
        Ok (expanded ++ more)
  end.

Definition into_resize_query (p : ParsedRequest) : ResizeQuery :=
  let o := pr_options p in
  {|
    rq_url := src_url (pr_source p);
    rq_width := po_width o;
    rq_height := po_height o;
    rq_resize_type := po_resize_type o;
    rq_format := src_format (pr_source p);
    rq_blur_sigma := po_blur_sigma o;
    rq_grayscale := po_grayscale o;
    rq_enlarge := default false (po_enlarge o);
    rq_quality := po_quality o;
    rq_jpeg_quality := po_jpeg_quality o;
    rq_webp_quality := po_webp_quality o;
    rq_webp_lossless := po_webp_lossless o;
    rq_jpeg_progressive := po_jpeg_progressive o;
    rq_jpeg_no_subsampling := po_jpeg_no_subsampling o;
    rq_max_bytes := po_max_bytes o;
    rq_background := po_background o;
    rq_autorotate := default true (po_autorotate o);
    rq_strip_metadata := default true (po_strip_metadata o);
    rq_crop := po_crop o;
    rq_gravity := po_gravity o;
    rq_rotate := po_rotate o;
    rq_flip_horizontal := po_flip_horizontal o;
    rq_flip_vertical := po_flip_vertical o;
    rq_trim := po_trim o;
    rq_extend := default false (po_extend o);
    rq_padding := po_padding o;
    rq_zoom_x := po_zoom_x o;
    rq_zoom_y := po_zoom_y o;
    rq_dpr := po_dpr o;
    rq_min_width := po_min_width o;
    rq_min_height := po_min_height o;
    rq_watermark :=
      (λ opacity, {|
        wm_opacity := opacity;
        wm_position := po_watermark_position o;
        wm_x_offset := po_watermark_x_offset o;
        wm_y_offset := po_watermark_y_offset o;
        wm_scale := po_watermark_scale o;
        wm_url := po_watermark_url o;
        wm_size := po_watermark_size o;
        wm_rotate := po_watermark_rotate o;
        wm_shadow := po_watermark_shadow o;
      |}) <$> po_watermark_opacity o;
  |}.

Section Grammar.
Context (b64_decode url_decode : string → option string).

Definition parse_with_config (r : SignedRequest) (registry : PresetRegistry)
    (allowed : AllowedOptions) : result UrlParseError ParsedRequest :=
  let segments := remainder_segments r in
  let idx := source_index segments in
  expanded ← expand_segments registry allowed (take idx segments);
  options ← parse b64_decode (default [] (default_preset registry) ++ expanded);
  source ← parse_source b64_decode url_decode (drop idx segments);
  Ok (mk_ParsedRequest options source).

(** [SignedRequest::parse]: no presets, no allowlist. *)
Definition parse_request (r : SignedRequest) : result UrlParseError ParsedRequest :=
  parse_with_config r preset_registry_empty unrestricted.
End Grammar.

(** ** Splitting off the signature *)

(** The signature and the signed path are exactly the two halves of the path:
    nothing is decoded, dropped or reordered before verification. *)
Theorem split_spec raw r :
  split raw = Ok r ↔
  ∃ rest, rest ≠ EmptyString ∧ signed_path r = String "/" rest
    ∧ str_contains "/" (signature_segment r) = false
    ∧ remainder_segments r = split_on "/" rest
    ∧ default raw (strip_prefix "/" raw) = signature_segment r +:+ signed_path r.
Proof.
  unfold split. set (trimmed := default raw (strip_prefix "/" raw)). split.
  - destruct (split_once "/" trimmed) as [[sig rest]|] eqn:Hs; [|done].
    apply split_once_Some in Hs as [Heq Hsig].
    destruct (str_is_empty rest) eqn:He; [done|]. intros [= <-]. simpl.
    exists rest. split_and!; try done. by intros ->.
  - intros (rest & Hne & Hp & Hsig & Hrem & Heq).
    rewrite Hp in Heq. rewrite (proj2 (split_once_Some "/" _ _ _)) by eauto.
    destruct r as [sig p segs]. simpl in *. subst. by destruct rest.
Qed.

(** ** Expansion *)

Lemma expand_segments_app registry allowed l1 l2 :
  expand_segments registry allowed (l1 ++ l2) =
  (e1 ← expand_segments registry allowed l1;
   e2 ← expand_segments registry allowed l2;
   Ok (e1 ++ e2)).
Proof.
  induction l1 as [|seg l1 IH]; simpl.
  - by destruct (expand_segments registry allowed l2).
  - destruct (negb _); [done|]. destruct (if String.eqb _ _ then _ else _) as [e|]; [|done].
    simpl. rewrite IH. destruct (expand_segments registry allowed l1) as [e1|]; [|done].
    simpl. destruct (expand_segments registry allowed l2); [|done].
    simpl. by rewrite (assoc_L (++)).
Qed.

Lemma expand_segments_allowed registry allowed segs e :
  expand_segments registry allowed segs = Ok e →
  Forall (λ seg, is_allowed allowed (segment_code seg) = true) segs.
Proof.
  revert e. induction segs as [|seg segs IH]; intros e; simpl; [constructor|].
  destruct (is_allowed allowed (segment_code seg)) eqn:Ha; simpl; [|done].
  intros. invert_ok. constructor; eauto.
Qed.

(** No expanded segment is a preset reference: what comes out of a
    well-formed registry never needs another expansion. *)
Lemma expand_segments_no_pr registry allowed segs e :
  registry_wf registry → expand_segments registry allowed segs = Ok e →
  Forall (λ seg, segment_code seg ≠ "pr") e.
Proof.
  intros Hwf. revert e. induction segs as [|seg segs IH]; intros e; simpl.
  { intros [= <-]. constructor. }
  destruct (negb _); [done|]. intros. invert_ok. subst. apply Forall_app. split; [|by eauto].
  destruct (String.eqb_spec (segment_code seg) "pr") as [Hpr|Hpr].
  - clear -H Hwf. revert x H. generalize (segment_args seg). intros names.
    induction names as [|n names IH]; intros x; simpl.
    { intros [= <-]. constructor. }
    intros. invert_ok. subst. apply Forall_app. split; [|by eauto].
    by apply (preset_get_wf registry n).
  - invert_ok. subst. by constructor.
Qed.

Section GrammarProperties.
Context (b64_decode url_decode : string → option string).

(** C39. Only options the allowlist names can appear directly in an accepted
    request; what presets expand to is not checked against it. *)
Theorem accepted_segments_allowed r registry allowed p :
  parse_with_config b64_decode url_decode r registry allowed = Ok p →
  Forall (λ seg, is_allowed allowed (segment_code seg) = true)
    (take (source_index (remainder_segments r)) (remainder_segments r)).
Proof.
  unfold parse_with_config. intros. invert_ok. by eapply expand_segments_allowed.
Qed.

Lemma source_index_app segs src :
  Forall (λ s, s ≠ "plain" ∧ looks_like_option s = true) segs →
  source_index (segs ++ src) = (length segs + source_index src)%nat.
Proof.
  induction 1 as [|s segs [Hp Ho] _ IH]; simpl; [done|].
  apply String.eqb_neq in Hp. by rewrite Hp, Ho, IH.
Qed.

(** Naming a preset is writing its segments out: [pr:{name}] in front of any
    options parses like the preset's own segments in the same place. *)
Theorem preset_is_its_expansion r r' registry name segs before after src :
  registry_wf registry → preset_get registry name = Some segs →
  str_contains ":" name = false →
  Forall (λ s, s ≠ "plain" ∧ looks_like_option s = true) (before ++ segs ++ after) →
  source_index src = 0%nat →
  remainder_segments r = before ++ ("pr:" +:+ name) :: after ++ src →
  remainder_segments r' = before ++ segs ++ after ++ src →
  parse_with_config b64_decode url_decode r registry unrestricted =
  parse_with_config b64_decode url_decode r' registry unrestricted.
Proof.
  intros Hwf Hget Hname Hopt Hsrc Hr Hr'.
  assert (Hcode : segment_code ("pr:" +:+ name) = "pr" ∧ segment_args ("pr:" +:+ name) = [name]).
  { unfold segment_code, segment_args. change ("pr:" +:+ name) with ("pr" +:+ String ":" name).
    by rewrite split_on_app_sep, split_on_whole. }
  assert (Hself : ∀ l, Forall (λ s, segment_code s ≠ "pr") l →
            expand_segments registry unrestricted l = Ok l).
  { induction 1 as [|s l Hs _ IH]; simpl; [done|].
    apply String.eqb_neq in Hs. by rewrite Hs, IH. }
  apply Forall_app in Hopt as [Hb Hopt]. apply Forall_app in Hopt as [Hs Ha].
  assert (Hpr : Forall (λ s, s ≠ "plain" ∧ looks_like_option s = true)
            (before ++ ("pr:" +:+ name) :: after)).
  { apply Forall_app. split; [done|]. constructor; [|done]. split; [done|].
    unfold looks_like_option. change ("pr:" +:+ name) with ("pr" +:+ String ":" name).
    by rewrite str_contains_app. }
  remember ("pr:" +:+ name) as pr eqn:Epr. clear Epr.
  assert (Htd : ∀ l, Forall (λ s, s ≠ "plain" ∧ looks_like_option s = true) l →
            take (source_index (l ++ src)) (l ++ src) = l ∧
            drop (source_index (l ++ src)) (l ++ src) = src).
  { intros l Hl. rewrite source_index_app by done. rewrite Hsrc, Nat.add_0_r.
    by rewrite take_app_length, drop_app_length. }
  assert (Hr2 : remainder_segments r = (before ++ pr :: after) ++ src)
    by (rewrite Hr, <- (assoc_L (++)); done).
  assert (Hr2' : remainder_segments r' = (before ++ segs ++ after) ++ src)
    by (rewrite Hr', <- !(assoc_L (++)); done).
  unfold parse_with_config. rewrite Hr2, Hr2'.
  destruct (Htd _ Hpr) as [-> ->].
  destruct (Htd (before ++ segs ++ after)) as [-> ->].
  { by rewrite !Forall_app. }
  replace (expand_segments registry unrestricted (before ++ segs ++ after)) with
    (expand_segments registry unrestricted (before ++ pr :: after)); [done|].
  rewrite !expand_segments_app. simpl. destruct Hcode as [-> ->]. simpl. rewrite Hget. simpl.
  rewrite (Hself segs).
  - simpl. by rewrite app_nil_r.
  - by apply (preset_get_wf registry name).
Qed.

Lemma into_resize_query_valid p :
  options_wf (pr_options p) → query_valid (into_resize_query p).
Proof.
  intros []. 
  assert (Hd : ∀ o, opt_valid dim_wf o → opt_valid u32_valid o).
  { intros [v|]; [|done]. unfold opt_valid, dim_wf, u32_valid, in_uint. lia. }
  assert (Hq : ∀ o, opt_valid quality_wf o → opt_valid u8_valid o).
  { intros [v|]; [|done]. unfold opt_valid, quality_wf, u8_valid, in_uint, u8_max. lia. }
  assert (Hg : ∀ g, gravity_wf g → gravity_valid g).
  { intros []; try done. by intros [[] []]. }
  assert (Hc : ∀ c, crop_dimension_wf c → crop_dimension_valid c).
  { intros [|v|v]; [done| |by intros []]. simpl. unfold dim_wf, u32_valid, in_uint. lia. }
  constructor; cbn; eauto;
    try match goal with H : positive_f32 ?z |- f32_valid ?z => exact (proj1 H) end.
  - destruct (po_max_bytes _); [|done]. simpl in *. unfold u64_valid, in_uint. lia.
  - destruct (po_crop _); [|done]. destruct wf_crop as (? & ? & ?).
    split_and!; [by apply Hc..|by apply Hg].
  - destruct (po_trim _); [|done]. by destruct wf_trim as (? & ? & ?).
  - by destruct (po_watermark_opacity _).
Qed.

(** What the guards of the option parsers leave of the types' ranges: no zero
    dimension or byte budget, qualities of at most 100, a rotation by quarter
    turns, positive factors, relative crops strictly inside the image, focus
    points on it, and a trim threshold that is not negative. *)
Record query_guarded (q : ResizeQuery) : Prop := {
  qg_width : opt_valid dim_wf (rq_width q);
  qg_height : opt_valid dim_wf (rq_height q);
  qg_min_width : opt_valid dim_wf (rq_min_width q);
  qg_min_height : opt_valid dim_wf (rq_min_height q);
  qg_quality : opt_valid quality_wf (rq_quality q);
  qg_jpeg_quality : opt_valid quality_wf (rq_jpeg_quality q);
  qg_webp_quality : opt_valid quality_wf (rq_webp_quality q);
  qg_max_bytes : opt_valid (λ v, 1 ≤ v) (rq_max_bytes q);
  qg_crop : opt_valid crop_wf (rq_crop q);
  qg_gravity : gravity_wf (rq_gravity q);
  qg_rotate : rq_rotate q ∈ [0; 90; 180; 270];
  qg_trim : opt_valid trim_wf (rq_trim q);
  qg_zoom_x : positive_f32 (rq_zoom_x q);
  qg_zoom_y : positive_f32 (rq_zoom_y q);
  qg_dpr : positive_f32 (rq_dpr q);
}.

Lemma into_resize_query_guarded p :
  options_wf (pr_options p) → query_guarded (into_resize_query p).
Proof.
  intros []. constructor; cbn; try done.
  destruct (po_max_bytes _); [|done]. simpl in *. lia.
Qed.

(** C21. Every accepted request yields a query inside its types' ranges and
    inside what the guards of the option parsers allow, with a non-empty
    source: a width, height, minimum dimension or byte budget is at least 1
    when given (a zero dimension is no dimension), the three qualities are at
    most 100, the rotation is 0, 90, 180 or 270, zoom and dpr are above zero, a
    crop takes the full axis, a fraction strictly between 0 and 1 of it or at
    least one pixel, focus points lie in the unit square, and a trim threshold
    is not below zero. *)
Theorem accepted_query_valid r registry allowed p :
  parse_with_config b64_decode url_decode r registry allowed = Ok p →
  query_valid (into_resize_query p) ∧ query_guarded (into_resize_query p)
  ∧ rq_url (into_resize_query p) ≠ EmptyString.
Proof.
  unfold parse_with_config. intros. invert_ok. subst.
  match goal with H : parse _ _ = Ok _ |- _ => apply parse_wf in H end. split_and!.
  - by apply into_resize_query_valid.
  - by apply into_resize_query_guarded.
  - simpl. by eapply parse_source_nonempty.
Qed.
End GrammarProperties.

(** ** Instances *)

Definition example_registry : PresetRegistry :=
  match preset_registry_parse "thumb=rs:fill:100:100/q:70" with
  | Ok r => r
  | Err _ => preset_registry_empty
  end.

Lemma accepted_segments_allowed_witness :
  Forall (λ seg, is_allowed (allowed_options_parse "rs,q") (segment_code seg) = true)
    ["rs:fit:100:0"; "q:70"].
Proof.
  set (r := mk_SignedRequest EmptyString EmptyString ["rs:fit:100:0"; "q:70"; "aGk.png"]).
  destruct (parse_with_config Some Some r preset_registry_empty (allowed_options_parse "rs,q"))
    as [p|] eqn:H; [|by exfalso; vm_compute in H; discriminate H].
  exact (accepted_segments_allowed Some Some r _ _ p H).
Defined.

Lemma preset_is_its_expansion_witness :
  let r segs := mk_SignedRequest EmptyString EmptyString segs in
  parse_with_config Some Some (r ["bl:2"; "pr:thumb"; "aGk.png"]) example_registry unrestricted =
  parse_with_config Some Some (r ["bl:2"; "rs:fill:100:100"; "q:70"; "aGk.png"])
    example_registry unrestricted.
Proof.
  apply (preset_is_its_expansion Some Some _ _ _ "thumb" ["rs:fill:100:100"; "q:70"] ["bl:2"] []
           ["aGk.png"]); try reflexivity.
  - apply (registry_parse_wf "thumb=rs:fill:100:100/q:70"). reflexivity.
  - repeat constructor; done.
Defined.

Lemma accepted_query_valid_witness :
  ∃ p, parse_with_config Some Some
         (mk_SignedRequest EmptyString EmptyString
            ["rs:fit:100:0"; "q:100"; "rot:-90"; "z:0.5"; "c:0.25:10"; "aGk.png"])
         preset_registry_empty unrestricted = Ok p
    ∧ query_valid (into_resize_query p) ∧ query_guarded (into_resize_query p)
    ∧ rq_url (into_resize_query p) ≠ EmptyString.
Proof.
  set (r := mk_SignedRequest EmptyString EmptyString
              ["rs:fit:100:0"; "q:100"; "rot:-90"; "z:0.5"; "c:0.25:10"; "aGk.png"]).
  destruct (parse_with_config Some Some r preset_registry_empty unrestricted)
    as [p|] eqn:H; [|by exfalso; vm_compute in H; discriminate H].
  exists p. split; [done|]. by apply (accepted_query_valid Some Some r _ _ p H).
Defined.
