(* ===== verification/CacheKey.v ===== *)
(** * Cache keys: [src/services/cache/handler.rs]

The byte stream [CacheService::generate_key] hashes, and the key it prints.
A hasher is the list of the bytes fed to it so far; [sha256] stands for the
[sha2] crate's digest of such a list. *)
From S2P Require Import Prelude RustStr RustFloat Params.

Local Open Scope Z_scope.

Definition CACHE_KEY_VERSION : byte := x0b.

Abbreviation bytes := (list byte).

(** [u32::to_be_bytes]. *)
Definition u32_to_be_bytes (n : Z) : bytes :=
  [byte_of_val (n / 2 ^ 24); byte_of_val (n / 2 ^ 16); byte_of_val (n / 2 ^ 8); byte_of_val n].

(** [(bytes.len() as u32)] wraps. *)
Definition update_field (hasher bs : bytes) : bytes :=
  hasher ++ u32_to_be_bytes (Z.of_nat (length bs) mod 2 ^ 32) ++ bs.

Definition canonical_blur_sigma (sigma : option spec_float) : string :=
  match sigma with
  | Some s => if f_gt s f32_zero then f32_to_string s else "None"
  | None => "None"
  end.

(** ** The fields, in the order they are hashed *)

Definition text (s : string) : bytes := list_byte_of_string s.
Definition rgb_bytes (c : Rgb) : bytes :=
  [byte_of_val c.1.1; byte_of_val c.1.2; byte_of_val c.2].

(** One field for an optional value, [b"None"] when it is absent. *)
Definition opt_field {A} (f : A → bytes) (o : option A) : list bytes :=
  [match o with Some a => f a | None => text "None" end].

(** The fields of an optional group, one [b"None"] when it is absent. *)
Definition opt_fields {A} (f : A → list bytes) (o : option A) : list bytes :=
  match o with Some a => f a | None => [text "None"] end.

Definition quality_byte (q : Z) : bytes := [byte_of_val q].
Definition bool_text (b : bool) : bytes := text (bool_to_string b).
Definition uint_text (n : Z) : bytes := text (uint_to_string n).
Definition f32_text (x : spec_float) : bytes := text (f32_to_string x).

Definition crop_fields (c : Crop) : list bytes :=
  [text (crop_dimension_to_string (crop_width c));
   text (crop_dimension_to_string (crop_height c));
   text (gravity_to_string (crop_gravity c))].

Definition trim_fields (t : TrimOptions) : list bytes :=
  [f32_text (trim_threshold t)] ++ opt_field rgb_bytes (trim_color t)
  ++ [bool_text (trim_equal_hor t); bool_text (trim_equal_ver t)].

Definition size_text (wh : Z * Z) : bytes :=
  text (uint_to_string wh.1 +:+ String "x" (uint_to_string wh.2)).

Definition watermark_fields (w : WatermarkQuery) : list bytes :=
  [f32_text (wm_opacity w)]
  ++ [text (watermark_position_debug (wm_position w))]
  ++ [f32_text (wm_x_offset w)] ++ [f32_text (wm_y_offset w)] ++ [f32_text (wm_scale w)]
  ++ opt_field text (wm_url w)
  ++ opt_field size_text (wm_size w)
  ++ [f32_text (wm_rotate w)]
  ++ opt_field f32_text (wm_shadow w).

Definition padding_text (p : Padding) : bytes :=
  text (uint_to_string (pad_top p) +:+ String ":" (uint_to_string (pad_right p)
        +:+ String ":" (uint_to_string (pad_bottom p)
        +:+ String ":" (uint_to_string (pad_left p))))).

Definition key_fields (q : ResizeQuery) : list bytes :=
  [text (rq_url q)]
  ++ opt_field uint_text (rq_width q)
  ++ opt_field uint_text (rq_height q)
  ++ [text (resize_type_to_string (rq_resize_type q))]
  ++ [text (image_format_to_string (rq_format q))]
  ++ [text (canonical_blur_sigma (rq_blur_sigma q))]
  ++ opt_field bool_text (rq_grayscale q)
  ++ [bool_text (rq_enlarge q)]
  ++ opt_field quality_byte (rq_quality q)
  ++ opt_field quality_byte (rq_jpeg_quality q)
  ++ opt_field quality_byte (rq_webp_quality q)
  ++ opt_field bool_text (rq_webp_lossless q)
  ++ opt_field bool_text (rq_jpeg_progressive q)
  ++ opt_field bool_text (rq_jpeg_no_subsampling q)
  ++ opt_field uint_text (rq_max_bytes q)
  ++ opt_field rgb_bytes (rq_background q)
  ++ [bool_text (rq_autorotate q)]
  ++ [text (gravity_to_string (rq_gravity q))]
  ++ opt_fields crop_fields (rq_crop q)
  ++ [text (int_to_string (rq_rotate q))]
  ++ [bool_text (rq_flip_horizontal q)]
  ++ [bool_text (rq_flip_vertical q)]
  ++ opt_fields trim_fields (rq_trim q)
  ++ opt_fields watermark_fields (rq_watermark q)
  ++ [bool_text (rq_extend q)]
  ++ opt_field padding_text (rq_padding q)
  ++ [f32_text (rq_zoom_x q)] ++ [f32_text (rq_zoom_y q)] ++ [f32_text (rq_dpr q)]
  ++ opt_field uint_text (rq_min_width q)
  ++ opt_field uint_text (rq_min_height q)
  ++ [bool_text (rq_strip_metadata q)].

(** Everything the hasher has absorbed when [finalize] is called. *)
Definition key_stream (q : ResizeQuery) : bytes :=
  fold_left update_field (key_fields q) [CACHE_KEY_VERSION].

Definition hex_char (d : Z) : ascii := if d <? 10 then chr (48 + d) else chr (87 + d).

(** [{:x}] of a digest: two lowercase hex digits per byte. *)
Fixpoint lower_hex (bs : bytes) : string :=
  match bs with
  | [] => EmptyString
  | b :: rest =>
      String (hex_char (byte_val b / 16)) (String (hex_char (byte_val b mod 16)) (lower_hex rest))
  end.

Definition generate_key (sha256 : bytes → bytes) (minio_sub_path : string) (q : ResizeQuery)
  : string :=
  minio_sub_path +:+ lower_hex (sha256 (key_stream q))
  +:+ String "." (image_format_to_string (rq_format q)).

(** ** Length prefixes make field boundaries unambiguous *)

Lemma u32_to_be_bytes_inj m n :
  0 ≤ m < 2 ^ 32 → 0 ≤ n < 2 ^ 32 → u32_to_be_bytes m = u32_to_be_bytes n → m = n.
Proof.
  intros Hm Hn [= H1 H2 H3 H4].
  assert (Hb : ∀ a b, byte_of_val a = byte_of_val b → a mod 256 = b mod 256).
  { intros a b H. apply (f_equal byte_val) in H. revert H. unfold byte_of_val.
    intros H. rewrite <- (byte_val_of_val (a mod 256)), <- (byte_val_of_val (b mod 256))
      by (apply Z.mod_pos_bound; lia). unfold byte_of_val. by rewrite !Z.mod_mod. }
  apply Hb in H1, H2, H3, H4. clear Hb.
  change (2 ^ 24) with (256 * 256 * 256) in *. change (2 ^ 16) with (256 * 256) in *.
  change (2 ^ 8) with 256 in *. change (2 ^ 32) with (256 * 256 * 256 * 256) in *.
  rewrite <- !Z.div_div in H1 by lia. rewrite <- !Z.div_div in H2 by lia.
  pose proof (Z.div_mod m 256). pose proof (Z.div_mod n 256).
  pose proof (Z.div_mod (m / 256) 256). pose proof (Z.div_mod (n / 256) 256).
  pose proof (Z.div_mod (m / 256 / 256) 256). pose proof (Z.div_mod (n / 256 / 256) 256).
  assert (∀ x, 0 ≤ x < 256 * 256 * 256 * 256 → 0 ≤ x / 256 / 256 / 256 < 256) as Hsm.
  { intros x Hx. rewrite !Z.div_div by lia. split; [apply Z.div_pos; lia|].
    apply Z.div_lt_upper_bound; lia. }
  rewrite !Z.mod_small in H1 by (by apply Hsm). lia.
Qed.

Definition fits (f : bytes) : Prop := Z.of_nat (length f) ≤ u32_max.

Lemma update_field_inj f g (r s : bytes) :
  fits f → fits g → update_field [] f ++ r = update_field [] g ++ s → f = g ∧ r = s.
Proof.
  unfold fits, u32_max, update_field. intros Hf Hg Heq.
  rewrite !app_nil_l, <- !app_assoc in Heq. apply app_inj_1 in Heq as [Hlen Heq]; [|done].
  rewrite !Z.mod_small in Hlen by lia. apply u32_to_be_bytes_inj in Hlen; [|lia..].
  apply app_inj_1 in Heq; [done|lia].
Qed.

Lemma absorb_app h fs : fold_left update_field fs h = h ++ fold_left update_field fs [].
Proof.
  revert h. induction fs as [|f fs IH]; intros h; simpl; [by rewrite app_nil_r|].
  rewrite IH, (IH (update_field [] f)). unfold update_field. simpl.
  by rewrite <- !(assoc_L (++)).
Qed.

(** The absorbed bytes determine the list of fields. *)
Lemma absorb_inj fs gs :
  Forall fits fs → Forall fits gs →
  fold_left update_field fs [] = fold_left update_field gs [] → fs = gs.
Proof.
  intros Hfs. revert gs. induction Hfs as [|f fs Hf Hfs IH]; intros gs Hgs.
  - destruct gs as [|g gs]; [done|]. simpl. rewrite absorb_app. by unfold update_field.
  - destruct Hgs as [|g gs Hg Hgs]; simpl.
    + rewrite absorb_app. by unfold update_field.
    + rewrite !(absorb_app (update_field _ _)). intros Heq.
      apply update_field_inj in Heq as [-> Heq]; [|done..]. f_equal. by apply IH.
Qed.

(** ** Field writers that can be read back

A writer produces the fields of one value; it is [Readable] on [P] when the
value and the fields that follow can be told from the whole list. *)
Class Readable {A} (P : A → Prop) (w : A → list bytes) : Prop :=
  readable a b r s : P a → P b → w a ++ r = w b ++ s → a = b ∧ r = s.

Class FieldInj {A} (P : A → Prop) (f : A → bytes) : Prop :=
  field_inj a b : P a → P b → f a = f b → a = b.

(** No value is written as the sentinel [b"None"]. *)
Class NotNone {A} (P : A → Prop) (f : A → bytes) : Prop :=
  not_none a : P a → f a ≠ text "None".

#[export] Instance readable_one {A} P (f : A → bytes) :
  FieldInj P f → Readable P (λ a, [f a]).
Proof. intros Hf a b r s Ha Hb [= Hab ->]. split; [by apply Hf|done]. Qed.

#[export] Instance readable_opt {A} P (f : A → bytes) :
  FieldInj P f → NotNone P f → Readable (opt_valid P) (opt_field f).
Proof.
  intros Hf Hn [a|] [b|] r s Ha Hb; simpl in *; intros Heq;
    pose proof (f_equal (hd []) Heq) as Hab; pose proof (f_equal tail Heq) as Hrs;
    simpl in Hab, Hrs.
  - split; [|done]. f_equal. by apply Hf.
  - by destruct (Hn a Ha).
  - by destruct (Hn b Hb).
  - done.
Qed.

Lemma readable_group {A} (P : A → Prop) w (first : A → bytes) rest :
  (∀ a, w a = first a :: rest a) → NotNone P first →
  Readable P w → Readable (opt_valid P) (opt_fields w).
Proof.
  intros Hw Hn Hr [a|] [b|] r s Ha Hb; simpl in *; intros Heq.
  - destruct (Hr a b r s Ha Hb Heq) as [-> ->]. done.
  - rewrite Hw in Heq. injection Heq as Heq _. by destruct (Hn a Ha).
  - rewrite Hw in Heq. injection Heq as Heq _. by destruct (Hn b Hb).
  - by injection Heq.
Qed.

Lemma text_inj s t : text s = text t → s = t.
Proof. apply list_byte_of_string_inj. Qed.

Lemma not_none_text {A} (P : A → Prop) (f : A → string) :
  (∀ a, P a → f a ≠ "None") → NotNone P (λ a, text (f a)).
Proof. intros H a Ha Heq. by apply (H a Ha), text_inj. Qed.

Lemma opt_valid_mono {A} (P Q : A → Prop) o :
  (∀ a, P a → Q a) → opt_valid P o → opt_valid Q o.
Proof. destruct o; simpl; auto. Qed.

Lemma opt_valid_any {A} (o : option A) : opt_valid (λ _, True) o.
Proof. by destruct o. Qed.

Lemma digits_not_contain c n :
  is_ascii_digit c = false → 0 ≤ n → str_contains c (uint_to_string n) = false.
Proof.
  intros Hc Hn. apply (str_forall_not_contains is_ascii_digit); [done|].
  by apply uint_to_string_digits.
Qed.

Lemma digits_then_not_None n rest : 0 ≤ n → uint_to_string n +:+ rest ≠ "None".
Proof.
  intros Hn Heq. pose proof (uint_to_string_head n Hn) as (d & t & Hd & Hs).
  rewrite Hs in Heq. injection Heq as Hc _.
  pose proof (is_ascii_digit_char d Hd) as H. by rewrite Hc in H.
Qed.

(** ** One instance per kind of field *)

#[export] Instance uint_text_inj : FieldInj (λ n, 0 ≤ n) uint_text.
Proof. intros a b Ha Hb Heq. by apply text_inj, uint_to_string_inj in Heq. Qed.
#[export] Instance uint_text_not_none : NotNone (λ n, 0 ≤ n) uint_text.
Proof.
  apply not_none_text. intros n Hn. rewrite <- (str_app_nil_r (uint_to_string n)).
  by apply digits_then_not_None.
Qed.

#[export] Instance bool_text_inj : FieldInj (λ _, True) bool_text.
Proof. intros [] [] _ _; by try intros [=]. Qed.
#[export] Instance bool_text_not_none : NotNone (λ _, True) bool_text.
Proof. by intros []. Qed.

#[export] Instance f32_text_inj : FieldInj f32_valid f32_text.
Proof. intros a b Ha Hb Heq. by apply text_inj, f32_to_string_inj in Heq. Qed.
#[export] Instance f32_text_not_none : NotNone f32_valid f32_text.
Proof.
  apply not_none_text. intros x Hx Heq.
  pose proof (float_to_string_chars 24 128 x Hx) as H. unfold f32_to_string in Heq.
  by rewrite Heq in H.
Qed.

Lemma byte_of_val_inj a b : u8_valid a → u8_valid b → byte_of_val a = byte_of_val b → a = b.
Proof.
  unfold u8_valid, in_uint, u8_max. intros Ha Hb Heq.
  rewrite <- (byte_val_of_val a), <- (byte_val_of_val b) by lia. by rewrite Heq.
Qed.

#[export] Instance quality_byte_inj : FieldInj u8_valid quality_byte.
Proof. intros a b Ha Hb [= Heq]. by apply byte_of_val_inj. Qed.
#[export] Instance quality_byte_not_none : NotNone u8_valid quality_byte.
Proof. done. Qed.

#[export] Instance rgb_bytes_inj : FieldInj rgb_valid rgb_bytes.
Proof.
  intros [[a b] c] [[a' b'] c'] (? & ? & ?) (? & ? & ?) [= E1 E2 E3]. simpl in *.
  apply byte_of_val_inj in E1; [|done..]. apply byte_of_val_inj in E2; [|done..].
  apply byte_of_val_inj in E3; [|done..]. by subst.
Qed.
#[export] Instance rgb_bytes_not_none : NotNone rgb_valid rgb_bytes.
Proof. done. Qed.

(** A literal watermark URL [None] is written as an absent one is. *)
#[export] Instance text_field_inj : FieldInj (λ s, s ≠ "None") text.
Proof. intros a b _ _. apply text_inj. Qed.
#[export] Instance text_field_not_none : NotNone (λ s, s ≠ "None") text.
Proof. by apply not_none_text. Qed.

Definition size_valid (wh : Z * Z) : Prop := u32_valid wh.1 ∧ u32_valid wh.2.

#[export] Instance size_text_inj : FieldInj size_valid size_text.
Proof.
  intros [w h] [w' h'] [[? _] [? _]] [[? _] [? _]] Heq. simpl in *.
  apply text_inj, sep_inj in Heq as [E1 E2]; [|by apply digits_not_contain..].
  apply uint_to_string_inj in E1; [|done..]. apply uint_to_string_inj in E2; [|done..].
  simpl in *. by subst.
Qed.
#[export] Instance size_text_not_none : NotNone size_valid size_text.
Proof. apply not_none_text. intros [w h] [[? _] _]. by apply digits_then_not_None. Qed.

#[export] Instance padding_text_inj : FieldInj padding_valid padding_text.
Proof.
  intros [t r b l] [t' r' b' l'] ([? _] & [? _] & [? _] & [? _])
    ([? _] & [? _] & [? _] & [? _]) Heq. simpl in *.
  apply text_inj in Heq.
  do 3 (apply sep_inj in Heq as [? Heq]; [|by apply digits_not_contain..]).
  f_equal; by apply uint_to_string_inj.
Qed.
#[export] Instance padding_text_not_none : NotNone padding_valid padding_text.
Proof. apply not_none_text. intros p [[? _] _]. by apply digits_then_not_None. Qed.

(** ** Grouped fields *)

(** The part of a value a writer's first fields carry is read first. *)
Ltac read P H :=
  let E := fresh "E" in
  apply (readable (P := P)) in H as [E H];
    [|solve [eauto using opt_valid_any, opt_valid_mono]..].

(** One plain field. *)
Lemma head_field_inj (x y : bytes) r s : [x] ++ r = [y] ++ s → x = y ∧ r = s.
Proof. by intros [= -> ->]. Qed.

Ltac read1 H := let E := fresh "E" in apply head_field_inj in H as [E H].

#[export] Instance crop_fields_readable : Readable crop_valid crop_fields.
Proof.
  intros [w h g] [w' h' g'] r s (? & ? & ?) (? & ? & ?) [= E1 E2 E3 ->]. simpl in *.
  apply text_inj, crop_dimension_to_string_inj in E1; [|done..].
  apply text_inj, crop_dimension_to_string_inj in E2; [|done..].
  apply text_inj, gravity_to_string_inj in E3; [|done..]. by subst.
Qed.

#[export] Instance trim_fields_readable : Readable trim_valid trim_fields.
Proof.
  intros [t c h v] [t' c' h' v'] r s [Ht Hc] [Ht' Hc'] Heq. unfold trim_fields in Heq.
  rewrite <- !app_assoc in Heq. simpl trim_color in Heq.
  read1 Heq. read (opt_valid rgb_valid) Heq. injection Heq as E2 E3 ->.
  simpl in *. apply field_inj in E; [|done..].
  apply (field_inj (P := λ _, True)) in E2, E3; [|done..]. by subst.
Qed.

(** A watermark whose URL is not the literal [None]. *)
Definition watermark_hashable (w : WatermarkQuery) : Prop :=
  watermark_valid w ∧ opt_valid (λ u, u ≠ "None") (wm_url w).

#[export] Instance watermark_fields_readable : Readable watermark_hashable watermark_fields.
Proof.
  intros [o p x y sc u sz ro sh] [o' p' x' y' sc' u' sz' ro' sh'] r s
    [(? & ? & ? & ? & ? & ? & ?) ?] [(? & ? & ? & ? & ? & ? & ?) ?] Heq.
  unfold watermark_fields in Heq. rewrite <- !app_assoc in Heq. simpl wm_url in *.
  simpl wm_size in *. simpl wm_shadow in *.
  do 5 read1 Heq. read (opt_valid (λ u, u ≠ "None")) Heq. read (opt_valid size_valid) Heq.
  read1 Heq. read (opt_valid f32_valid) Heq. simpl in *.
  apply text_inj, watermark_position_debug_inj in E0.
  repeat match goal with
         | H : f32_text _ = f32_text _ |- _ => apply field_inj in H; [|done..]
         end.
  by subst.
Qed.

#[export] Instance opt_crop_readable : Readable (opt_valid crop_valid) (opt_fields crop_fields).
Proof.
  eapply readable_group; [done| |apply _]. apply not_none_text.
  intros [[] ? ?] _; by intros [=].
Qed.
#[export] Instance opt_trim_readable : Readable (opt_valid trim_valid) (opt_fields trim_fields).
Proof.
  eapply (readable_group _ _ (λ t, f32_text (trim_threshold t))); [done| |apply _].
  intros t [Ht _]. by apply not_none.
Qed.
#[export] Instance opt_watermark_readable :
  Readable (opt_valid watermark_hashable) (opt_fields watermark_fields).
Proof.
  eapply (readable_group _ _ (λ w, f32_text (wm_opacity w))); [done| |apply _].
  intros t [[Ht _] _]. by apply not_none.
Qed.

(** ** What the key identifies *)

(** The resize pipeline blurs only when [sigma > 0.0]; every other value is
    the absence of a blur. *)
Definition canonical_blur (sigma : option spec_float) : option spec_float :=
  s ← sigma; if f_gt s f32_zero then Some s else None.

Definition canonical_query (q : ResizeQuery) : ResizeQuery :=
  q <| rq_blur_sigma := canonical_blur (rq_blur_sigma q) |>.

(** No field is 4 GiB long, and no watermark URL is the literal [None]. *)
Definition hashable (q : ResizeQuery) : Prop :=
  query_valid q ∧ Forall fits (key_fields q)
  ∧ opt_valid (λ w, opt_valid (λ u, u ≠ "None") (wm_url w)) (rq_watermark q).

Lemma canonical_blur_sigma_spec s :
  canonical_blur_sigma s = default "None" (f32_to_string <$> canonical_blur s).
Proof. destruct s as [s|]; [|done]. simpl. by destruct (f_gt s f32_zero). Qed.

Lemma canonical_blur_sigma_eq s t :
  opt_valid f32_valid s → opt_valid f32_valid t →
  canonical_blur_sigma s = canonical_blur_sigma t ↔ canonical_blur s = canonical_blur t.
Proof.
  intros Hs Ht. rewrite !canonical_blur_sigma_spec.
  assert (Hv : ∀ o, opt_valid f32_valid o → opt_valid f32_valid (canonical_blur o)).
  { intros [x|] Hx; [|done]. simpl. by destruct (f_gt x f32_zero). }
  apply Hv in Hs, Ht. split; [|by intros ->]. intros Heq.
  assert (opt_field f32_text (canonical_blur s) ++ [] =
          opt_field f32_text (canonical_blur t) ++ []) as Hf.
  { unfold opt_field, f32_text. by destruct (canonical_blur s), (canonical_blur t);
      simpl in *; rewrite ?Heq, <- ?Heq. }
  by apply (readable (P := opt_valid f32_valid)) in Hf as [? _].
Qed.

Lemma key_fields_inj p q :
  hashable p → hashable q → key_fields p = key_fields q → canonical_query p = canonical_query q.
Proof.
  intros (Hp & _ & Hwp) (Hq & _ & Hwq) Heq.
  assert (Hw : ∀ x, query_valid x →
    opt_valid (λ w, opt_valid (λ u, u ≠ "None") (wm_url w)) (rq_watermark x) →
    opt_valid watermark_hashable (rq_watermark x)).
  { intros x Hx. pose proof (qv_watermark x Hx). by destruct (rq_watermark x). }
  apply Hw in Hwp, Hwq; [|done..]. clear Hw. destruct Hp, Hq. unfold key_fields in Heq.
  assert (Hu : ∀ o, opt_valid u32_valid o → opt_valid (λ n, 0 ≤ n) o)
    by (intros o; apply opt_valid_mono; by intros a [? _]).
  assert (Hu' : ∀ o, opt_valid u64_valid o → opt_valid (λ n, 0 ≤ n) o)
    by (intros o; apply opt_valid_mono; by intros a [? _]).
  read1 Heq. do 2 read (opt_valid (λ n : Z, 0 ≤ n)) Heq. do 3 read1 Heq.
  read (opt_valid (λ _ : bool, True)) Heq. read1 Heq.
  do 3 read (opt_valid u8_valid) Heq. do 3 read (opt_valid (λ _ : bool, True)) Heq.
  read (opt_valid (λ n : Z, 0 ≤ n)) Heq. read (opt_valid rgb_valid) Heq. do 2 read1 Heq.
  read (opt_valid crop_valid) Heq. do 3 read1 Heq. read (opt_valid trim_valid) Heq.
  read (opt_valid watermark_hashable) Heq. read1 Heq. read (opt_valid padding_valid) Heq.
  do 3 read1 Heq. do 2 read (opt_valid (λ n : Z, 0 ≤ n)) Heq. injection Heq as Heq.
  repeat match goal with
         | H : text _ = text _ |- _ => apply text_inj in H
         | H : bool_text _ = bool_text _ |- _ =>
             apply (field_inj (P := λ _, True)) in H; [|done..]
         | H : f32_text _ = f32_text _ |- _ => apply field_inj in H; [|done..]
         | H : resize_type_to_string _ = _ |- _ => apply resize_type_to_string_inj in H
         | H : image_format_to_string _ = _ |- _ => apply image_format_to_string_inj in H
         | H : gravity_to_string _ = _ |- _ => apply gravity_to_string_inj in H; [|done..]
         | H : int_to_string _ = _ |- _ => apply int_to_string_inj in H
         | H : canonical_blur_sigma _ = _ |- _ => apply canonical_blur_sigma_eq in H; [|done..]
         end.
  destruct p, q. unfold canonical_query. simpl in *. subst. by f_equal.
Qed.

Lemma key_stream_fields p q :
  hashable p → hashable q → key_stream p = key_stream q ↔ key_fields p = key_fields q.
Proof.
  intros (_ & Hp & _) (_ & Hq & _). unfold key_stream. split; [|by intros ->].
  rewrite !(absorb_app [_]). intros [= Heq]. by apply absorb_inj.
Qed.

Lemma canonical_query_fields p q :
  hashable p → hashable q → canonical_query p = canonical_query q → key_fields p = key_fields q.
Proof.
  intros [Hp _] [Hq _]. pose proof (canonical_blur_sigma_eq (rq_blur_sigma p) (rq_blur_sigma q)
    (qv_blur_sigma p Hp) (qv_blur_sigma q Hq)) as [_ Hb].
  destruct p, q. unfold canonical_query. simpl in *. intros [=]. subst.
  unfold key_fields. simpl. by rewrite Hb.
Qed.

Lemma hex_char_inj a b : 0 ≤ a < 16 → 0 ≤ b < 16 → hex_char a = hex_char b → a = b.
Proof.
  unfold hex_char. intros Ha Hb Heq. apply (f_equal code) in Heq.
  destruct (Z.ltb_spec a 10), (Z.ltb_spec b 10); rewrite !code_chr in Heq; lia.
Qed.

Lemma lower_hex_inj xs ys : lower_hex xs = lower_hex ys → xs = ys.
Proof.
  revert ys. induction xs as [|x xs IH]; intros [|y ys]; try done. intros [= H1 H2 H3].
  pose proof (byte_val_range x). pose proof (byte_val_range y).
  apply hex_char_inj in H1, H2;
    try (split; [apply Z.div_pos; lia|apply Z.div_lt_upper_bound; lia]);
    try (apply Z.mod_pos_bound; lia).
  f_equal; [|by apply IH]. apply byte_val_inj.
  rewrite (Z.div_mod (byte_val x) 16), (Z.div_mod (byte_val y) 16); lia.
Qed.

Definition is_hex (a : ascii) : bool := is_ascii_digit a || str_contains a "abcdef".

Lemma hex_char_is_hex d : 0 ≤ d < 16 → is_hex (hex_char d) = true.
Proof.
  intros Hd. assert (d ∈ [0; 1; 2; 3; 4; 5; 6; 7; 8; 9; 10; 11; 12; 13; 14; 15]) as Hin
    by (rewrite !elem_of_cons, elem_of_nil; lia).
  revert Hin. rewrite !elem_of_cons, elem_of_nil. by intuition subst.
Qed.

Lemma lower_hex_chars bs : str_forall is_hex (lower_hex bs) = true.
Proof.
  induction bs as [|b bs IH]; simpl; [done|]. rewrite IH. pose proof (byte_val_range b).
  rewrite !hex_char_is_hex; [done| |].
  - apply Z.mod_pos_bound; lia.
  - split; [apply Z.div_pos; lia|apply Z.div_lt_upper_bound; lia].
Qed.

Lemma lower_hex_length bs : String.length (lower_hex bs) = (2 * length bs)%nat.
Proof. induction bs as [|b bs IH]; simpl; lia. Qed.

Section Key.
Context (sha256 : bytes → bytes) (minio_sub_path : string).

Lemma generate_key_digest p q :
  generate_key sha256 minio_sub_path p = generate_key sha256 minio_sub_path q →
  sha256 (key_stream p) = sha256 (key_stream q) ∧ rq_format p = rq_format q.
Proof.
  unfold generate_key. intros Heq. apply str_app_inv_l, sep_inj in Heq as [H1 H2].
  - apply lower_hex_inj in H1. by apply image_format_to_string_inj in H2.
  - by apply (str_forall_not_contains is_hex), lower_hex_chars.
  - by apply (str_forall_not_contains is_hex), lower_hex_chars.
Qed.

(** C1. Two requests share a key exactly when they ask for the same picture, or
    when they exhibit a SHA-256 collision. *)
Theorem generate_key_identifies p q :
  hashable p → hashable q →
  generate_key sha256 minio_sub_path p = generate_key sha256 minio_sub_path q ↔
  canonical_query p = canonical_query q ∨
  (key_stream p ≠ key_stream q ∧ sha256 (key_stream p) = sha256 (key_stream q)
   ∧ rq_format p = rq_format q).
Proof.
  intros Hp Hq. split.
  - intros Heq. apply generate_key_digest in Heq as [Hsha Hf].
    destruct (decide (key_stream p = key_stream q)) as [Hk|Hk]; [left|by right].
    apply key_stream_fields in Hk; [|done..]. by apply key_fields_inj.
  - intros [Hc|(_ & Hsha & Hf)]; unfold generate_key.
    + assert (rq_format p = rq_format q) as ->.
      { apply (f_equal rq_format) in Hc. by destruct p, q. }
      rewrite (proj2 (key_stream_fields p q Hp Hq)); [done|].
      by apply canonical_query_fields.
    + by rewrite Hsha, Hf.
Qed.
End Key.

(** The sentinel of an absent watermark URL is itself a URL a request can
    carry: these two different requests always share a key. *)
Theorem generate_key_none_collision sha256 sub_path :
  ∃ p q, query_valid p ∧ query_valid q ∧ canonical_query p ≠ canonical_query q
    ∧ generate_key sha256 sub_path p = generate_key sha256 sub_path q.
Proof.
  set (w u := {| wm_opacity := f32_one; wm_position := WatermarkPosition.Center;
                 wm_x_offset := f32_zero; wm_y_offset := f32_zero; wm_scale := f32_zero;
                 wm_url := u; wm_size := None; wm_rotate := f32_zero; wm_shadow := None |}).
  set (q u := resize_query_default <| rq_watermark := Some (w u) |>).
  exists (q None), (q (Some "None")). split_and!; [| |done|done].
  all: constructor; vm_compute; intuition discriminate.
Qed.

(** ** Instances *)

Lemma generate_key_identifies_witness :
  let unblurred := resize_query_default <| rq_blur_sigma := Some f32_zero |> in
  generate_key (λ m, m) "cache/" resize_query_default = generate_key (λ m, m) "cache/" unblurred.
Proof.
  intros unblurred. apply (generate_key_identifies (λ m, m) "cache/").
  1-2: (split; [constructor; vm_compute; intuition discriminate|]);
       (split; [by apply (bool_decide_unpack _); vm_compute|done]).
  by left.
Defined.
