(* ===== verification/KeyValidation.v ===== *)
(** * Cache-key validation: [src/services/storage/key_validation.rs]

[validate_cache_key] guards every storage backend; [split_key] recovers the
parts of a validated key. *)
From S2P Require Import Prelude RustStr RustFloat Params CacheKey.

Local Open Scope Z_scope.

Definition HASH_LEN : nat := 64.
Definition ALLOWED_EXTENSIONS : list string := ["jpg"; "png"; "webp"; "avif"; "gif"].

(** [InvalidKeyError]; its [Display] text reads as a missing image. *)
Record InvalidKeyError := mk_InvalidKeyError { invalid_key : string }.

Definition invalid_key_message (e : InvalidKeyError) : string :=
  "Image not found in storage: " +:+ invalid_key e.

Definition is_lower_hex (b : ascii) : bool :=
  is_ascii_digit b || ((code "a" <=? code b) && (code b <=? code "f")).

Definition is_control (b : ascii) : bool := (code b <? 32) || (code b =? 127).

Definition validate_cache_key (key prefix : string) : result InvalidKeyError unit :=
  let err := mk_InvalidKeyError key in
  if str_exists is_control key then Err err
  else
    rest ← ok_or (strip_prefix prefix key) err;
    '(hash, ext) ← ok_or (split_once "." rest) err;
    if negb (Nat.eqb (String.length hash) HASH_LEN) || negb (str_forall is_lower_hex hash)
    then Err err
    else if negb (List.existsb (String.eqb ext) ALLOWED_EXTENSIONS) then Err err
    else Ok ().

(** [rfind('.')] and the two [split_at]s. *)
Definition split_key (key : string) : option (string * string * string) :=
  match rsplit_once "." key with
  | None => None
  | Some (before_ext, ext) =>
      if (String.length before_ext <? HASH_LEN)%nat then None
      else
        let hash_start := (String.length before_ext - HASH_LEN)%nat in
        Some (str_take hash_start before_ext, str_drop hash_start before_ext, ext)
  end.

(** ** What validation admits *)

(** Exactly the keys [prefix ++ 64 lowercase hex ++ "." ++ extension]. *)
Definition well_shaped (prefix key : string) : Prop :=
  ∃ hash ext, key = prefix +:+ hash +:+ String "." ext
    ∧ String.length hash = HASH_LEN ∧ str_forall is_lower_hex hash = true
    ∧ ext ∈ ALLOWED_EXTENSIONS.

Lemma existsb_eqb_elem s l : List.existsb (String.eqb s) l = true ↔ s ∈ l.
Proof.
  rewrite List.existsb_exists. setoid_rewrite String.eqb_eq. split.
  - intros (x & Hx & ->). by apply list_elem_of_In.
  - intros Hs. exists s. split; [by apply list_elem_of_In|done].
Qed.

Lemma hash_no_control hash :
  str_forall is_lower_hex hash = true → str_exists is_control hash = false.
Proof.
  induction hash as [|a hash IH]; simpl; [done|].
  intros [Ha Hh]%andb_true_iff. rewrite (IH Hh), orb_false_r. clear IH Hh.
  revert Ha. unfold is_lower_hex, is_ascii_digit, is_control.
  rewrite orb_true_iff, !andb_true_iff, !Z.leb_le. rewrite orb_false_iff, Z.ltb_ge, Z.eqb_neq.
  change (code "a") with 97. change (code "f") with 102.
  change (code "0") with 48. change (code "9") with 57. lia.
Qed.

Lemma hash_no_dot hash :
  str_forall is_lower_hex hash = true → str_contains "." hash = false.
Proof. intros. by apply (str_forall_not_contains is_lower_hex). Qed.

Lemma ext_no_control ext : ext ∈ ALLOWED_EXTENSIONS → str_exists is_control ext = false.
Proof. unfold ALLOWED_EXTENSIONS. rewrite !elem_of_cons, elem_of_nil. intuition by subst. Qed.

Lemma ext_no_dot ext : ext ∈ ALLOWED_EXTENSIONS → str_contains "." ext = false.
Proof. unfold ALLOWED_EXTENSIONS. rewrite !elem_of_cons, elem_of_nil. intuition by subst. Qed.

Lemma validate_cache_key_err key prefix e :
  validate_cache_key key prefix = Err e → e = mk_InvalidKeyError key.
Proof.
  unfold validate_cache_key. destruct (str_exists is_control key); [by intros [= <-]|].
  rewrite bind_Err. destruct (strip_prefix prefix key) as [rest|]; simpl;
    [|by intros [[= <-]|(? & ? & ?)]].
  intros [|(? & [= <-] & H)]; [done|]. revert H.
  destruct (split_once "." rest) as [[hash ext]|]; simpl; [|by intros [= <-]].
  destruct (_ || _); [by intros [= <-]|]. destruct (negb _); [by intros [= <-]|done].
Qed.

Lemma validate_cache_key_Ok key prefix :
  validate_cache_key key prefix = Ok () ↔
  well_shaped prefix key ∧ str_exists is_control prefix = false.
Proof.
  unfold validate_cache_key, well_shaped. cbv zeta. split.
  - destruct (str_exists is_control key) eqn:Hc; [done|]. intros H.
    apply bind_Ok in H as (rest & Hrest & H). apply ok_or_Ok, strip_prefix_Some in Hrest as ->.
    apply bind_Ok in H as ([hash ext] & Hsplit & H).
    apply ok_or_Ok, split_once_Some in Hsplit as [-> Hdot].
    destruct (Nat.eqb_spec (String.length hash) HASH_LEN) as [Hlen|]; [|done].
    destruct (str_forall is_lower_hex hash) eqn:Hhex; [|done].
    destruct (List.existsb (String.eqb ext) ALLOWED_EXTENSIONS) eqn:He; [|done].
    apply existsb_eqb_elem in He. rewrite str_exists_app in Hc.
    apply orb_false_iff in Hc as [Hc _]. split; [|done]. by exists hash, ext.
  - intros [(hash & ext & -> & Hlen & Hhex & He) Hp].
    rewrite !str_exists_app, Hp, (hash_no_control _ Hhex). cbn [orb str_exists].
    rewrite (ext_no_control _ He), strip_prefix_app. cbn [ok_or mbind result_bind orb].
    rewrite (proj2 (split_once_Some "." _ hash ext)) by (split; [done|by apply hash_no_dot]).
    cbn [ok_or mbind result_bind]. apply existsb_eqb_elem in He.
    by rewrite Hlen, Nat.eqb_refl, Hhex, He.
Qed.

(** C19. Validation is exact: it accepts the shape the generator emits and nothing
    else, and whatever it rejects it reports as a missing image under the key
    that was asked for. *)
Theorem validate_cache_key_exact key prefix :
  (validate_cache_key key prefix = Ok () ∧ well_shaped prefix key
     ∧ str_exists is_control prefix = false)
  ∨ (validate_cache_key key prefix = Err (mk_InvalidKeyError key)
     ∧ ¬ (well_shaped prefix key ∧ str_exists is_control prefix = false)).
Proof.
  destruct (validate_cache_key key prefix) as [[]|e] eqn:H.
  - left. split; [done|]. by apply validate_cache_key_Ok.
  - right. rewrite <- validate_cache_key_Ok, H. split; [|done]. f_equal.
    by eapply validate_cache_key_err.
Qed.

(** ** Splitting a validated key *)

Lemma str_take_app s t : str_take (String.length s) (s +:+ t) = s.
Proof. induction s as [|a s IH]; simpl; [by destruct t|by rewrite IH]. Qed.

Lemma str_drop_app s t : str_drop (String.length s) (s +:+ t) = t.
Proof. induction s as [|a s IH]; simpl; [by destruct t|done]. Qed.

(** [split_key] finds the prefix without knowing the configured one. *)
Lemma split_key_spec prefix hash ext :
  String.length hash = HASH_LEN → str_contains "." ext = false →
  split_key (prefix +:+ hash +:+ String "." ext) = Some (prefix, hash, ext).
Proof.
  intros Hlen Hext. unfold split_key. rewrite <- str_app_assoc, rsplit_once_app by done.
  rewrite str_length_app, Hlen.
  replace (String.length prefix + HASH_LEN - HASH_LEN)%nat with (String.length prefix) by lia.
  destruct (Nat.ltb_spec (String.length prefix + HASH_LEN) HASH_LEN); [lia|].
  by rewrite str_take_app, str_drop_app.
Qed.

Theorem split_key_validated key prefix :
  validate_cache_key key prefix = Ok () →
  ∃ hash ext, split_key key = Some (prefix, hash, ext)
    ∧ key = prefix +:+ hash +:+ String "." ext
    ∧ String.length hash = HASH_LEN ∧ str_forall is_lower_hex hash = true.
Proof.
  intros H. apply validate_cache_key_Ok in H as [(hash & ext & -> & Hlen & Hhex & He) _].
  exists hash, ext. split_and!; try done. apply split_key_spec; [done|by apply ext_no_dot].
Qed.

(** ** Generated keys *)

Lemma lower_hex_is_lower_hex bs : str_forall is_lower_hex (lower_hex bs) = true.
Proof.
  assert (Hc : ∀ a, is_hex a = true → is_lower_hex a = true).
  { intros a. unfold is_hex, is_lower_hex. rewrite !orb_true_iff. intros [->|H]; [by left|right].
    revert H. unfold str_contains. simpl. rewrite !orb_true_iff.
    rewrite !Ascii.eqb_eq. intros H. by destruct_or! H; subst. }
  pose proof (lower_hex_chars bs) as H. induction (lower_hex bs) as [|a s IH]; [done|].
  simpl in *. apply andb_true_iff in H as [Ha Hs]. by rewrite (Hc a Ha), IH.
Qed.

(** Whatever [generate_key] prints for a concrete output format passes
    validation under the same sub-path and splits back into its parts; an
    unresolved [auto] format is the only one that does not. *)
Theorem generated_key_validates sha256 sub_path q :
  (∀ m, length (sha256 m) = 32%nat) → str_exists is_control sub_path = false →
  (validate_cache_key (generate_key sha256 sub_path q) sub_path = Ok ()
     ↔ rq_format q ≠ ImageFormat.Auto)
  ∧ split_key (generate_key sha256 sub_path q)
    = Some (sub_path, lower_hex (sha256 (key_stream q)), image_format_to_string (rq_format q)).
Proof.
  intros Hsha Hsub.
  assert (Hlen : String.length (lower_hex (sha256 (key_stream q))) = HASH_LEN)
    by (by rewrite lower_hex_length, Hsha).
  split; [|apply split_key_spec; [done|by destruct (rq_format q)]].
  rewrite validate_cache_key_Ok. unfold generate_key, well_shaped. split.
  - intros [(hash & ext & Heq & _ & Hhex & He) _] Hf. rewrite Hf in Heq.
    apply str_app_inv_l, sep_inj in Heq as [_ <-].
    + by apply existsb_eqb_elem in He.
    + apply hash_no_dot, lower_hex_is_lower_hex.
    + by apply hash_no_dot.
  - intros Hf. split; [|done]. eexists _, _. split; [done|].
    split_and!; [done|apply lower_hex_is_lower_hex|].
    unfold ALLOWED_EXTENSIONS. rewrite !elem_of_cons, elem_of_nil.
    destruct (rq_format q); simpl; tauto || done.
Qed.

(** ** Instances *)

Definition example_hash : string := lower_hex (replicate 32 Byte.xa5).

Lemma split_key_validated_witness :
  split_key ("cache/" +:+ example_hash +:+ ".png") = Some ("cache/", example_hash, "png").
Proof.
  destruct (split_key_validated ("cache/" +:+ example_hash +:+ ".png") "cache/")
    as (hash & ext & Hsplit & Heq & Hlen & Hhex); [by vm_compute|].
  rewrite Hsplit. by vm_compute in Hsplit; injection Hsplit as <- <-.
Defined.

Lemma generated_key_validates_witness :
  validate_cache_key (generate_key (λ _, replicate 32 Byte.xa5) "cache/"
    (resize_query_default <| rq_format := ImageFormat.Avif |>)) "cache/" = Ok ().
Proof.
  by apply (generated_key_validates (λ _, replicate 32 Byte.xa5) "cache/"
    (resize_query_default <| rq_format := ImageFormat.Avif |>)).
Defined.
