(* ===== verification/SourceGuard.v ===== *)
(** * The SSRF guard: [src/services/image/source_guard.rs]

An IPv4 address is its 32-bit value, an IPv6 address its 128-bit value.
[std::net]'s address predicates and text parser are modelled; the [url] and
[ipnet] crates and DNS resolution are parameters. *)
From S2P Require Import Prelude RustStr.

Local Open Scope Z_scope.

Inductive IpAddr := V4 (a : Z) | V6 (a : Z).

#[export] Instance ip_addr_eq_dec : EqDecision IpAddr.
Proof. solve_decision. Defined.

Definition u128_max : Z := 2 ^ 128 - 1.

Definition ip_valid (ip : IpAddr) : Prop :=
  match ip with V4 a => in_uint u32_max a | V6 a => in_uint u128_max a end.

Record SocketAddr := mk_SocketAddr { sa_ip : IpAddr; sa_port : Z }.

(** [inr]-style causes other than a rejection are the DNS failure. *)
Inductive SourceRejected :=
  | UnsupportedScheme (scheme : string)
  | NotAllowlisted (url : string)
  | BlockedIpLiteral (host : string) (addr : IpAddr)
  | BlockedResolvedAddress (host : string) (addr : IpAddr)
  | NoAddressesResolved (host : string).

Inductive SourceError :=
  | Rejected (r : SourceRejected)
  | DnsResolutionFailed (host : string).

(** ** [std::net] predicates *)

Definition octet (i : Z) (a : Z) : Z := a / 2 ^ (8 * (3 - i)) mod 256.

Definition v4_is_loopback (a : Z) : bool := octet 0 a =? 127.
Definition v4_is_link_local (a : Z) : bool := (octet 0 a =? 169) && (octet 1 a =? 254).
Definition v4_is_private (a : Z) : bool :=
  (octet 0 a =? 10)
  || ((octet 0 a =? 172) && (16 <=? octet 1 a) && (octet 1 a <=? 31))
  || ((octet 0 a =? 192) && (octet 1 a =? 168)).
Definition v4_is_unspecified (a : Z) : bool := a =? 0.
Definition v4_is_broadcast (a : Z) : bool := a =? u32_max.

Definition to_ipv4_mapped (a : Z) : option Z :=
  if a / 2 ^ 32 =? 65535 then Some (a mod 2 ^ 32) else None.
Definition v6_is_loopback (a : Z) : bool := a =? 1.
Definition v6_is_unspecified (a : Z) : bool := a =? 0.

(** ** The blocked ranges *)

(** The literals [100.64.0.0/10], [fe80::/10] and [fc00::/7]. *)
Definition CGNAT_V4 : Z * Z := (100 * 2 ^ 24 + 64 * 2 ^ 16, 10).
Definition LINK_LOCAL_V6 : Z * Z := (65152 * 2 ^ 112, 10).
Definition UNIQUE_LOCAL_V6 : Z * Z := (64512 * 2 ^ 112, 7).

Section Policy.
(** [Ipv4Net::contains] and [Ipv6Net::contains] of the [ipnet] crate. *)
Context (v4net_contains v6net_contains : Z * Z → Z → bool).

Definition is_blocked_ipv4 (ip : Z) (allow_loopback allow_link_local allow_private : bool)
  : bool :=
  (negb allow_loopback && v4_is_loopback ip)
  || (negb allow_link_local && v4_is_link_local ip)
  || (negb allow_private && v4_is_private ip)
  || v4_is_unspecified ip
  || v4_is_broadcast ip
  || (negb allow_private && v4net_contains CGNAT_V4 ip).

Definition is_blocked_ipv6 (ip : Z) (allow_loopback allow_link_local allow_private : bool)
  : bool :=
  match to_ipv4_mapped ip with
  | Some mapped => is_blocked_ipv4 mapped allow_loopback allow_link_local allow_private
  | None =>
      (negb allow_loopback && v6_is_loopback ip)
      || v6_is_unspecified ip
      || (negb allow_link_local && v6net_contains LINK_LOCAL_V6 ip)
      || (negb allow_private && v6net_contains UNIQUE_LOCAL_V6 ip)
  end.

Definition is_blocked_ip_with_policy (ip : IpAddr)
    (allow_loopback allow_link_local allow_private : bool) : bool :=
  match ip with
  | V4 v4 => is_blocked_ipv4 v4 allow_loopback allow_link_local allow_private
  | V6 v6 => is_blocked_ipv6 v6 allow_loopback allow_link_local allow_private
  end.

Definition is_blocked_ip (ip : IpAddr) : bool :=
  is_blocked_ip_with_policy ip false false false.
End Policy.

(** ** [std::net]'s text parser

A parser takes the remaining text and gives a value with the text after it;
failing leaves the text unread, as [read_atomically] does. *)
Definition parser (A : Type) : Type := string → option (A * string).

Definition read_given_char (c : ascii) : parser unit := λ s,
  match s with
  | String a rest => if Ascii.eqb a c then Some ((), rest) else None
  | EmptyString => None
  end.

(** The digits of a number, giving up when there are more than [max_digits]. *)
Fixpoint read_digits (radix : Z) (max_digits : nat) (acc : Z) (count : nat) (s : string)
  : option (Z * nat * string) :=
  match s with
  | String a rest =>
      match to_digit radix a with
      | Some d =>
          if (max_digits <? S count)%nat then None
          else read_digits radix max_digits (acc * radix + d) (S count) rest
      | None => Some (acc, count, s)
      end
  | EmptyString => Some (acc, count, s)
  end.

Definition read_number (max radix : Z) (max_digits : nat) (allow_zero_prefix : bool)
  : parser Z := λ s,
  match read_digits radix max_digits 0 0 s with
  | Some (result, digit_count, rest) =>
      if (digit_count =? 0)%nat then None
      else if negb allow_zero_prefix && starts_with "0" s && (1 <? digit_count)%nat then None
      else if result <=? max then Some (result, rest) else None
  | None => None
  end.

(** A separator comes before every element but the first. *)
Definition read_separator {A} (sep : ascii) (index : nat) (inner : parser A) : parser A := λ s,
  match index with
  | O => inner s
  | S _ => '(_, rest) ← read_given_char sep s; inner rest
  end.

Definition read_ipv4_addr : parser Z := λ s,
  let group i := read_separator "." i (read_number u8_max 10 3 false) in
  '(a, s) ← group 0%nat s;
  '(b, s) ← group 1%nat s;
  '(c, s) ← group 2%nat s;
  '(d, s) ← group 3%nat s;
  Some (a * 2 ^ 24 + b * 2 ^ 16 + c * 2 ^ 8 + d, s).

(** At most [room] more groups, the [i]-th first; with whether the last two
    came from an embedded IPv4 address. *)
Fixpoint read_groups (room i : nat) (s : string) : list Z * bool * string :=
  match room with
  | O => ([], false, s)
  | S room' =>
      let next :=
        match read_separator ":" i (read_number u16_max 16 4 true) s with
        | Some (g, rest) =>
            let '(gs, v4, rest') := read_groups room' (S i) rest in (g :: gs, v4, rest')
        | None => ([], false, s)
        end in
      match room' with
      | O => next
      | S _ =>
          match read_separator ":" i read_ipv4_addr s with
          | Some (v4_addr, rest) => ([v4_addr / 2 ^ 16; v4_addr mod 2 ^ 16], true, rest)
          | None => next
          end
      end
  end.

Definition groups_value (gs : list Z) : Z := fold_left (λ acc g, acc * 2 ^ 16 + g) gs 0.

Definition read_ipv6_addr : parser Z := λ s,
  let '(head, head_ipv4, s) := read_groups 8 0 s in
  if (length head =? 8)%nat then Some (groups_value head, s)
  else if head_ipv4 : bool then None
  else
    '(_, s) ← read_given_char ":" s;
    '(_, s) ← read_given_char ":" s;
    let '(tail, _, s) := read_groups (8 - (length head + 1)) 0 s in
    Some (groups_value (head ++ replicate (8 - length head - length tail) 0 ++ tail), s).

Definition read_ip_addr : parser IpAddr := λ s,
  match read_ipv4_addr s with
  | Some (a, rest) => Some (V4 a, rest)
  | None => '(a, rest) ← read_ipv6_addr s; Some (V6 a, rest)
  end.

(** [host.parse::<IpAddr>().ok()]: the parser must consume all of the text. *)
Definition parse_ip_addr (host : string) : option IpAddr :=
  match read_ip_addr host with
  | Some (ip, EmptyString) => Some ip
  | _ => None
  end.

Example parse_v6_unspecified : parse_ip_addr "::" = Some (V6 0).
Proof. reflexivity. Qed.
Example parse_v6_mapped : parse_ip_addr "::ffff:169.254.169.254" = Some (V6 (65535 * 2 ^ 32 + 2852039166)).
Proof. reflexivity. Qed.
Example parse_v6_full : parse_ip_addr "1:2:3:4:5:6:7:8" = Some (V6 5192455318486707404433266433261576).
Proof. reflexivity. Qed.
Example parse_v6_tail : parse_ip_addr "fe80::1:2" = Some (V6 (65152 * 2 ^ 112 + 65538)).
Proof. reflexivity. Qed.
Example parse_v4_leading_zero : parse_ip_addr "0177.0.0.1" = None.
Proof. reflexivity. Qed.

(** ** Disguised literals *)

Definition parse_flexible_u64 (part : string) : option Z :=
  if str_is_empty part then None
  else
    match (match strip_prefix "0x" part with Some h => Some h | None => strip_prefix "0X" part end)
    with
    | Some hex => parse_uint_radix u64_max 16 hex
    | None =>
        if (1 <? String.length part)%nat && starts_with "0" part
           && str_forall is_ascii_digit part
        then parse_uint_radix u64_max 8 part
        else parse_u64 part
    end.

Definition parse_ipv4_literal (host : string) : option Z :=
  let parts := split_on "." host in
  if (length parts =? 0)%nat || (4 <? length parts)%nat then None
  else
    nums ← mapM parse_flexible_u64 parts;
    value ← match nums with
            | [a] => Some a
            | [a; b] =>
                if (255 <? a) || (16777215 <? b) then None
                else Some (Z.lor (Z.shiftl a 24) b)
            | [a; b; c] =>
                if (255 <? a) || (255 <? b) || (65535 <? c) then None
                else Some (Z.lor (Z.lor (Z.shiftl a 24) (Z.shiftl b 16)) c)
            | [a; b; c; d] =>
                if List.existsb (λ n, 255 <? n) [a; b; c; d] then None
                else Some (Z.lor (Z.lor (Z.lor (Z.shiftl a 24) (Z.shiftl b 16)) (Z.shiftl c 8)) d)
            | _ => None
            end;
    if value <=? u32_max then Some value else None.

Definition parse_ip_literal (host : string) : option IpAddr :=
  match parse_ip_addr host with
  | Some ip => Some ip
  | None => V4 <$> parse_ipv4_literal host
  end.

Example literal_hex : parse_ip_literal "0x7f.0.0.1" = Some (V4 2130706433).
Proof. reflexivity. Qed.
Example literal_short : parse_ip_literal "0177.1" = Some (V4 2130706433).
Proof. reflexivity. Qed.

(** ** Scheme and allowlist *)

Section Guard.
Context (v4net_contains v6net_contains : Z * Z → Z → bool).

(** The [url] crate: a parsed URL and its accessors. *)
Context {Url : Type} (url_parse : string → option Url)
  (url_scheme : Url → string) (url_host_str : Url → option string)
  (url_port_or_known_default : Url → option Z) (url_path : Url → string).

Definition validate_scheme (url : Url) : result SourceRejected unit :=
  if String.eqb (url_scheme url) "http" || String.eqb (url_scheme url) "https" then Ok ()
  else Err (UnsupportedScheme (url_scheme url)).

Definition matches_allowed_prefix (url : Url) (prefix : string) : bool :=
  match url_parse prefix with
  | None => false
  | Some prefix_url =>
      String.eqb (url_scheme url) (url_scheme prefix_url)
      && bool_decide (is_Some (url_host_str url))
      && bool_decide (url_host_str url = url_host_str prefix_url)
      && bool_decide (url_port_or_known_default url = url_port_or_known_default prefix_url)
      && starts_with (url_path prefix_url) (url_path url)
  end.

Definition is_allowed_source (url : Url) (allowed : list string) : bool :=
  List.existsb (matches_allowed_prefix url) allowed.

(** [tokio::net::lookup_host]: [None] when resolution fails. *)
Context (lookup_host : string → Z → option (list SocketAddr)).

(** The loop over the resolved addresses: the first blocked one. *)
Definition first_blocked (addrs : list SocketAddr)
    (allow_loopback allow_link_local allow_private : bool) : option IpAddr :=
  sa_ip <$> List.find (λ addr, is_blocked_ip_with_policy v4net_contains v6net_contains
                    (sa_ip addr) allow_loopback allow_link_local allow_private) addrs.

Definition resolve_validated_addr (host : string) (port : Z)
    (allow_loopback allow_link_local allow_private : bool) : result SourceError SocketAddr :=
  match parse_ip_literal host with
  | Some ip =>
      if is_blocked_ip_with_policy v4net_contains v6net_contains
           ip allow_loopback allow_link_local allow_private
      then Err (Rejected (BlockedIpLiteral host ip))
      else Ok (mk_SocketAddr ip port)
  | None =>
      addrs ← ok_or (lookup_host host port) (DnsResolutionFailed host);
      match addrs with
      | [] => Err (Rejected (NoAddressesResolved host))
      | first :: _ =>
          match first_blocked addrs allow_loopback allow_link_local allow_private with
          | Some ip => Err (Rejected (BlockedResolvedAddress host ip))
          | None => Ok first
          end
      end
  end.
End Guard.

(** ** The policy as a classification of addresses *)

Inductive AddrClass := NeverReachable | Loopback | LinkLocal | PrivateNet | Public.

(** Closed intervals of IPv4 addresses with their class. *)
Definition V4_RANGES : list (Z * Z * AddrClass) :=
  [(0, 0, NeverReachable);
   (10 * 2 ^ 24, 11 * 2 ^ 24 - 1, PrivateNet);
   (100 * 2 ^ 24 + 64 * 2 ^ 16, 100 * 2 ^ 24 + 128 * 2 ^ 16 - 1, PrivateNet);
   (127 * 2 ^ 24, 128 * 2 ^ 24 - 1, Loopback);
   (169 * 2 ^ 24 + 254 * 2 ^ 16, 169 * 2 ^ 24 + 255 * 2 ^ 16 - 1, LinkLocal);
   (172 * 2 ^ 24 + 16 * 2 ^ 16, 172 * 2 ^ 24 + 32 * 2 ^ 16 - 1, PrivateNet);
   (192 * 2 ^ 24 + 168 * 2 ^ 16, 192 * 2 ^ 24 + 169 * 2 ^ 16 - 1, PrivateNet);
   (2 ^ 32 - 1, 2 ^ 32 - 1, NeverReachable)].

Definition V6_RANGES : list (Z * Z * AddrClass) :=
  [(0, 0, NeverReachable);
   (1, 1, Loopback);
   (64512 * 2 ^ 112, 65024 * 2 ^ 112 - 1, PrivateNet);
   (65152 * 2 ^ 112, 65216 * 2 ^ 112 - 1, LinkLocal)].

Fixpoint class_in (ranges : list (Z * Z * AddrClass)) (a : Z) : AddrClass :=
  match ranges with
  | [] => Public
  | (lo, hi, c) :: rest => if (lo <=? a) && (a <=? hi) then c else class_in rest a
  end.

(** An IPv4-mapped IPv6 address has the class of the address it maps. *)
Definition ip_class (ip : IpAddr) : AddrClass :=
  match ip with
  | V4 a => class_in V4_RANGES a
  | V6 a =>
      if (65535 * 2 ^ 32 <=? a) && (a <? 65536 * 2 ^ 32)
      then class_in V4_RANGES (a - 65535 * 2 ^ 32) else class_in V6_RANGES a
  end.

Definition class_blocked (c : AddrClass) (allow_loopback allow_link_local allow_private : bool)
  : bool :=
  match c with
  | NeverReachable => true
  | Loopback => negb allow_loopback
  | LinkLocal => negb allow_link_local
  | PrivateNet => negb allow_private
  | Public => false
  end.

Lemma between_spec lo hi a : (lo <=? a) && (a <=? hi) = bool_decide (lo ≤ a ≤ hi).
Proof.
  apply eq_iff_eq_true. by rewrite andb_true_iff, !Z.leb_le, bool_decide_eq_true.
Qed.

(** Bounds on the high bits of a number are an interval of the number. *)
Lemma div_between a k lo hi :
  0 < k → lo ≤ a / k ≤ hi ↔ lo * k ≤ a ≤ hi * k + (k - 1).
Proof.
  intros Hk. split; intros [H1 H2].
  - pose proof (Z.mul_div_le a k Hk). pose proof (Z.mul_succ_div_gt a k Hk). nia.
  - split; [apply Z.div_le_lower_bound; lia|].
    assert (a / k < hi + 1); [apply Z.div_lt_upper_bound; lia|lia].
Qed.

Lemma octet0_div a : in_uint u32_max a → octet 0 a = a / 2 ^ 24.
Proof.
  unfold in_uint, u32_max, octet. intros Ha. apply Z.mod_small.
  change (2 ^ (8 * (3 - 0))) with (2 ^ 24). change 256 with (2 ^ 8).
  split; [apply Z.div_pos; lia|apply Z.div_lt_upper_bound; lia].
Qed.

Lemma octet1_div a h lo hi :
  in_uint u32_max a → 0 ≤ lo ≤ hi → hi ≤ 255 →
  octet 0 a = h ∧ lo ≤ octet 1 a ≤ hi ↔
  h * 256 + lo ≤ a / 2 ^ 16 ≤ h * 256 + hi.
Proof.
  intros Ha Hlo Hhi. rewrite octet0_div by done. unfold octet.
  change (2 ^ (8 * (3 - 1))) with (2 ^ 16).
  replace (a / 2 ^ 24) with (a / 2 ^ 16 / 256) by (rewrite Z.div_div by lia; f_equal).
  pose proof (Z.div_mod (a / 2 ^ 16) 256). pose proof (Z.mod_pos_bound (a / 2 ^ 16) 256).
  lia.
Qed.

(** The address predicates of [std::net] are intervals. *)
Definition inside (lo hi a : Z) : bool := (lo <=? a) && (a <=? hi).

Lemma inside_true lo hi a : inside lo hi a = true ↔ lo ≤ a ≤ hi.
Proof. unfold inside. by rewrite andb_true_iff, !Z.leb_le. Qed.

Lemma octet0_inside a k :
  in_uint u32_max a → (octet 0 a =? k) = inside (k * 2 ^ 24) (k * 2 ^ 24 + (2 ^ 24 - 1)) a.
Proof.
  intros Ha. apply eq_iff_eq_true. rewrite inside_true, Z.eqb_eq, octet0_div by done.
  rewrite <- div_between by lia. lia.
Qed.

Lemma octet1_inside a h lo hi :
  in_uint u32_max a → 0 ≤ lo ≤ hi → hi ≤ 255 →
  (octet 0 a =? h) && (lo <=? octet 1 a) && (octet 1 a <=? hi) =
  inside ((h * 256 + lo) * 2 ^ 16) ((h * 256 + hi) * 2 ^ 16 + (2 ^ 16 - 1)) a.
Proof.
  intros Ha Hlo Hhi. apply eq_iff_eq_true.
  rewrite inside_true, !andb_true_iff, Z.eqb_eq, !Z.leb_le, <- div_between by lia.
  rewrite <- octet1_div by done. tauto.
Qed.

Lemma octet1_eq_inside a h k :
  in_uint u32_max a → 0 ≤ k ≤ 255 →
  (octet 0 a =? h) && (octet 1 a =? k) =
  inside ((h * 256 + k) * 2 ^ 16) ((h * 256 + k) * 2 ^ 16 + (2 ^ 16 - 1)) a.
Proof.
  intros Ha Hk. rewrite <- octet1_inside by lia || done. apply eq_iff_eq_true.
  rewrite !andb_true_iff, !Z.eqb_eq, !Z.leb_le. lia.
Qed.

Section PolicyProperties.
Context (v4net_contains v6net_contains : Z * Z → Z → bool).
(** CIDR membership: the network's leading bits are the address's. *)
Hypothesis v4net_contains_spec : ∀ net len ip,
  in_uint u32_max ip → v4net_contains (net, len) ip = (ip / 2 ^ (32 - len) =? net / 2 ^ (32 - len)).
Hypothesis v6net_contains_spec : ∀ net len ip,
  in_uint u128_max ip →
  v6net_contains (net, len) ip = (ip / 2 ^ (128 - len) =? net / 2 ^ (128 - len)).

Lemma net_inside (a k n : Z) : 0 < k → (a / k =? n) = inside (n * k) (n * k + (k - 1)) a.
Proof.
  intros Hk. apply eq_iff_eq_true. rewrite inside_true, Z.eqb_eq, <- div_between by done. lia.
Qed.

Lemma eqb_inside a k : (a =? k) = inside k k a.
Proof. apply eq_iff_eq_true. rewrite inside_true, Z.eqb_eq. lia. Qed.

Lemma class_in_cons lo hi c ranges a :
  class_in ((lo, hi, c) :: ranges) a = if inside lo hi a then c else class_in ranges a.
Proof. done. Qed.

Lemma inside_false lo hi a : a < lo ∨ hi < a → inside lo hi a = false.
Proof. intros H. apply not_true_iff_false. rewrite inside_true. lia. Qed.

(** The intervals of a table are disjoint: knowing one that holds decides
    the others. *)
Ltac decide_inside :=
  repeat match goal with
         | |- context [inside ?lo ?hi ?a] =>
             first [rewrite (inside_false lo hi a) by lia
                   |rewrite (proj2 (inside_true lo hi a)) by lia]
         end.

Ltac numerals :=
  repeat match goal with
         | |- context [inside ?lo ?hi ?a] =>
             progress (let lo' := eval vm_compute in lo in
                       let hi' := eval vm_compute in hi in
                       change (inside lo hi a) with (inside lo' hi' a))
         end.

Ltac by_ranges :=
  numerals;
  repeat match goal with
         | |- context [inside ?lo ?hi ?a] =>
             let H := fresh in
             destruct (inside lo hi a) eqn:H;
             [apply inside_true in H; decide_inside; cbn [orb andb negb];
              rewrite ?andb_true_r, ?andb_false_r, ?orb_false_r, ?orb_true_r; try done|]
         end.

Lemma is_blocked_ipv4_class a al all ap :
  in_uint u32_max a →
  is_blocked_ipv4 v4net_contains a al all ap = class_blocked (class_in V4_RANGES a) al all ap.
Proof.
  intros Ha. unfold is_blocked_ipv4, v4_is_loopback, v4_is_link_local, v4_is_private,
    v4_is_unspecified, v4_is_broadcast, CGNAT_V4, V4_RANGES.
  rewrite v4net_contains_spec, net_inside, (eqb_inside a 0), (eqb_inside a u32_max) by lia || done.
  rewrite !octet1_eq_inside, octet1_inside, !octet0_inside by lia || done.
  rewrite !class_in_cons. cbn [class_in].
  by_ranges. by destruct al, all, ap.
Qed.

Lemma to_ipv4_mapped_inside a :
  to_ipv4_mapped a =
  if inside (65535 * 2 ^ 32) (65536 * 2 ^ 32 - 1) a then Some (a - 65535 * 2 ^ 32) else None.
Proof.
  unfold to_ipv4_mapped. rewrite net_inside by lia.
  replace (65535 * 2 ^ 32 + (2 ^ 32 - 1)) with (65536 * 2 ^ 32 - 1) by done.
  destruct (inside _ _ a) eqn:H; [|done]. apply inside_true in H. f_equal.
  symmetry. apply (Zmod_unique _ _ 65535); lia.
Qed.

Lemma is_blocked_ipv6_class a al all ap :
  in_uint u128_max a →
  is_blocked_ipv6 v4net_contains v6net_contains a al all ap =
  class_blocked (ip_class (V6 a)) al all ap.
Proof.
  intros Ha. unfold is_blocked_ipv6, ip_class. rewrite to_ipv4_mapped_inside.
  replace ((65535 * 2 ^ 32 <=? a) && (a <? 65536 * 2 ^ 32))
    with (inside (65535 * 2 ^ 32) (65536 * 2 ^ 32 - 1) a)
    by (unfold inside; f_equal; apply eq_iff_eq_true; rewrite Z.leb_le, Z.ltb_lt; lia).
  destruct (inside _ _ a) eqn:Hm.
  - apply inside_true in Hm. apply is_blocked_ipv4_class. unfold in_uint, u32_max. lia.
  - clear Hm. unfold v6_is_loopback, v6_is_unspecified, LINK_LOCAL_V6, UNIQUE_LOCAL_V6, V6_RANGES.
    rewrite !v6net_contains_spec, !net_inside, (eqb_inside a 0), (eqb_inside a 1) by lia || done.
    rewrite !class_in_cons. cbn [class_in]. by_ranges. by destruct al, all, ap.
Qed.

(** C34. The policy blocks exactly by address class: loopback, link-local and
    private addresses unless their own override is on, the unspecified and
    broadcast addresses always, and nothing else. *)
Theorem blocked_by_class ip allow_loopback allow_link_local allow_private :
  ip_valid ip →
  is_blocked_ip_with_policy v4net_contains v6net_contains
    ip allow_loopback allow_link_local allow_private =
  class_blocked (ip_class ip) allow_loopback allow_link_local allow_private.
Proof.
  destruct ip; simpl ip_valid; intros Hv; [by apply is_blocked_ipv4_class|].
  by apply is_blocked_ipv6_class.
Qed.
End PolicyProperties.

(** CIDR membership, for the witnesses. *)
Definition cidr_contains (bits : Z) (net : Z * Z) (ip : Z) : bool :=
  ip / 2 ^ (bits - net.2) =? net.1 / 2 ^ (bits - net.2).

(** The mapped form of the cloud metadata address stays blocked when private
    sources are allowed. *)
Lemma blocked_by_class_witness :
  is_blocked_ip_with_policy (cidr_contains 32) (cidr_contains 128)
    (V6 (65535 * 2 ^ 32 + 2852039166)) true false true = true.
Proof.
  rewrite (blocked_by_class (cidr_contains 32) (cidr_contains 128)); [reflexivity|done|done|].
  unfold ip_valid, in_uint, u128_max. lia.
Defined.

(** ** Disguised spellings

[inet_aton]'s grammar, as a specification: each number is decimal, octal
with a leading [0] or hexadecimal with [0x], and the last of one to four
numbers fills the remaining bytes. *)
Inductive number : string → Z → Prop :=
  | number_zero : number "0" 0
  | number_dec s v : starts_with "0" s = false → s ≠ EmptyString →
      digits_value 10 0 s = Some v → v ≤ u64_max → number s v
  | number_oct s v : s ≠ EmptyString →
      digits_value 8 0 s = Some v → v ≤ u64_max → number (String "0" s) v
  | number_hex s v : s ≠ EmptyString →
      digits_value 16 0 s = Some v → v ≤ u64_max → number ("0x" +:+ s) v
  | number_HEX s v : s ≠ EmptyString →
      digits_value 16 0 s = Some v → v ≤ u64_max → number ("0X" +:+ s) v.

Inductive inet_aton : string → Z → Prop :=
  | aton1 s v : number s v → v < 2 ^ 32 → inet_aton s v
  | aton2 s t a b : number s a → number t b → a < 256 → b < 2 ^ 24 →
      inet_aton (join "." [s; t]) (a * 2 ^ 24 + b)
  | aton3 s t u a b c : number s a → number t b → number u c → a < 256 → b < 256 → c < 2 ^ 16 →
      inet_aton (join "." [s; t; u]) (a * 2 ^ 24 + b * 2 ^ 16 + c)
  | aton4 s t u w a b c d : number s a → number t b → number u c → number w d →
      a < 256 → b < 256 → c < 256 → d < 256 →
      inet_aton (join "." [s; t; u; w]) (a * 2 ^ 24 + b * 2 ^ 16 + c * 2 ^ 8 + d).

Lemma digits_value_head radix acc a s v :
  digits_value radix acc (String a s) = Some v → ∃ d, to_digit radix a = Some d.
Proof. simpl. destruct (to_digit radix a) as [d|]; [by exists d|done]. Qed.

Lemma digit_not_plus radix s v :
  digits_value radix 0 s = Some v → radix ≤ 16 → ∀ t, s ≠ String "+" t.
Proof.
  intros H Hr t ->. apply digits_value_head in H as [d Hd]. revert Hd.
  unfold to_digit. simpl. done.
Qed.

Lemma parse_uint_radix_digits max radix s v :
  0 ≤ radix ≤ 16 → s ≠ EmptyString → digits_value radix 0 s = Some v → v ≤ max →
  parse_uint_radix max radix s = Some v.
Proof.
  intros Hr Hne Hv Hmax. unfold parse_uint_radix.
  assert (match s with String "+" (String _ _ as s') => s' | _ => s end = s) as ->.
  { destruct s as [|a s]; [done|]. pose proof (digit_not_plus _ _ _ Hv ltac:(lia) s) as Hp.
    destruct a as [[] [] [] [] [] [] [] []]; try done. }
  destruct s; [done|]. rewrite Hv. apply Z.leb_le in Hmax. by rewrite Hmax.
Qed.

Lemma digits_value_forall radix acc s v (p : ascii → bool) :
  (∀ a d, to_digit radix a = Some d → p a = true) →
  digits_value radix acc s = Some v → str_forall p s = true.
Proof.
  intros Hp. revert acc. induction s as [|a s IH]; intros acc; simpl; [done|].
  destruct (to_digit radix a) eqn:Ha; [|done]. intros H. by rewrite (Hp a z Ha), (IH _ H).
Qed.

Lemma octal_digit_is_digit a d : to_digit 8 a = Some d → is_ascii_digit a = true.
Proof.
  unfold to_digit, is_ascii_digit. change (code "0") with 48. change (code "9") with 57.
  destruct ((48 <=? code a) && (code a <=? 57)); [done|].
  destruct ((97 <=? code a) && (code a <=? 102)) eqn:E1.
  - apply andb_true_iff in E1 as [H _]. apply Z.leb_le in H.
    destruct (Z.ltb_spec (code a - 87) 8); [lia|done].
  - destruct ((65 <=? code a) && (code a <=? 70)) eqn:E2; [|done].
    apply andb_true_iff in E2 as [H _]. apply Z.leb_le in H.
    destruct (Z.ltb_spec (code a - 55) 8); [lia|done].
Qed.

Lemma strip_prefix_2 a b c s : c ≠ b → strip_prefix (String a (String b "")) (String a (String c s)) = None.
Proof.
  intros Hc. destruct (strip_prefix _ _) as [t|] eqn:H; [|done].
  apply strip_prefix_Some in H. simpl in H. injection H. congruence.
Qed.

Lemma number_parses s v : number s v → parse_flexible_u64 s = Some v.
Proof.
  intros [|s' v' H0 Hne Hv Hmax|s' v' Hne Hv Hmax|s' v' Hne Hv Hmax|s' v' Hne Hv Hmax];
    [done| | | |]; unfold parse_flexible_u64.
  - assert (∀ t, s' ≠ String "0" t) as Hs.
    { intros t ->. change (String "0" t) with ("0" +:+ t) in H0. by rewrite starts_with_app in H0. }
    assert (∀ x, strip_prefix (String "0" x) s' = None) as Hstrip.
    { intros x. destruct (strip_prefix (String "0" x) s') as [t|] eqn:H; [|done].
      apply strip_prefix_Some in H. by destruct (Hs (x +:+ t)). }
    destruct (str_is_empty s') eqn:He; [by destruct s'|].
    rewrite !Hstrip, H0, andb_false_r. by apply parse_uint_radix_digits.
  - assert (Hd : str_forall is_ascii_digit s' = true)
      by (by eapply digits_value_forall; [apply octal_digit_is_digit|]).
    assert (∀ x, is_ascii_digit x = false → strip_prefix (String "0" (String x EmptyString))
              (String "0" s') = None) as Hstrip.
    { intros x Hx. destruct s' as [|c s']; [done|]. apply strip_prefix_2. intros ->.
      simpl in Hd. by rewrite Hx in Hd. }
    cbn [str_is_empty]. rewrite !Hstrip by done.
    assert (starts_with "0" (String "0" s') = true) as -> by apply (starts_with_app "0").
    destruct (Nat.ltb_spec 1 (String.length (String "0" s'))) as [|Hl];
      [|destruct s'; simpl in Hl; [done|lia]].
    simpl str_forall. rewrite Hd. simpl. by apply parse_uint_radix_digits.
  - simpl. by apply parse_uint_radix_digits.
  - simpl. by apply parse_uint_radix_digits.
Qed.

Lemma number_no c s v :
  (∀ r a d, r ≤ 16 → to_digit r a = Some d → Ascii.eqb c a = false) →
  Ascii.eqb c "x" = false → Ascii.eqb c "X" = false →
  number s v → str_contains c s = false.
Proof.
  intros Hc Hx HX Hn.
  assert (Hd : ∀ r s v, r ≤ 16 → digits_value r 0 s = Some v → str_contains c s = false).
  { intros r t w Hr Ht. eapply (str_forall_not_contains (λ a, negb (Ascii.eqb c a))).
    - by rewrite Ascii.eqb_refl.
    - eapply digits_value_forall; [|done]. intros a d Ha. by rewrite (Hc r a d). }
  assert (H0 : Ascii.eqb c "0" = false) by by apply (Hc 10 _ 0).
  destruct Hn; [unfold str_contains; simpl; by rewrite H0|by eapply (Hd 10)| | |];
    unfold str_contains; simpl; rewrite ?H0, ?Hx, ?HX; simpl.
  all: try (by eapply (Hd 8)); by eapply (Hd 16).
Qed.

Lemma number_nonneg s v : number s v → 0 ≤ v.
Proof.
  assert (∀ r t w, 0 < r → digits_value r 0 t = Some w → 0 ≤ w) as Hd.
  { intros r t w Hr H. by eapply digits_value_nonneg in H. }
  destruct 1; [done|by eapply (Hd 10)|by eapply (Hd 8)|by eapply (Hd 16)..].
Qed.

Lemma number_no_dot s v : number s v → str_contains "." s = false.
Proof. apply number_no; [|done..]. intros r a d _ Ha. apply Ascii.eqb_neq. by intros <-. Qed.

Lemma inet_aton_parses host a : inet_aton host a → parse_ipv4_literal host = Some a.
Proof.
  destruct 1 as [s v Hs Hv|s t a b Hs Ht Ha Hb|s t u a b c Hs Ht Hu Ha Hb Hc
                |s t u w a b c d Hs Ht Hu Hw Ha Hb Hc Hd]; unfold parse_ipv4_literal.
  all: repeat match goal with
         | H : number ?s ?v |- _ =>
             pose proof (number_nonneg s v H); pose proof (number_no_dot s v H);
             apply number_parses in H
         end.
  1: rewrite split_on_whole by done.
  2-4: rewrite split_join by (done || (repeat constructor; done)).
  all: cbn [length Nat.eqb Nat.ltb Nat.leb orb mapM].
  all: repeat match goal with H : parse_flexible_u64 _ = Some _ |- _ => rewrite H; clear H end.
  all: cbn [mbind option_bind mret option_ret mapM List.existsb].
  all: repeat match goal with
         | |- context [?x <? ?y] => destruct (Z.ltb_spec x y); [lia|]
         end; cbn [orb].
  all: rewrite ?(Z.shiftl_mul_pow2 b), ?(Z.shiftl_mul_pow2 c) by lia.
  all: rewrite ?lor_shiftl_add by lia.
  3: rewrite (lor_add (a * 2 ^ 8 + b) 16) by lia.
  4: rewrite (lor_add (a * 2 ^ 8 + b) 16 _ (c * 2 ^ 8)) by lia.
  4: rewrite (lor_add (a * 2 ^ 16 + b * 2 ^ 8 + c) 8) by lia.
  all: cbn [mbind option_bind]; unfold u32_max.
  all: match goal with |- context [?x <=? ?y] => destruct (Z.leb_spec x y) end; [done|lia].
Qed.

(** ** The standard parser agrees with the disguised spellings *)

Lemma read_digits_spec radix m acc n s v n' rest :
  read_digits radix m acc n s = Some (v, n', rest) →
  ∃ d, s = d +:+ rest ∧ digits_value radix acc d = Some v ∧ n' = (n + String.length d)%nat.
Proof.
  revert acc n. induction s as [|a s IH]; intros acc n; simpl.
  - intros [= <- <- <-]. exists EmptyString. simpl. split_and!; [done..|lia].
  - destruct (to_digit radix a) as [d|] eqn:Ha.
    + destruct (m <? S n)%nat; [done|]. intros H. apply IH in H as (t & -> & Hv & ->).
      exists (String a t). simpl. rewrite Ha. split_and!; [done..|lia].
    + intros [= <- <- <-]. exists EmptyString. simpl. split_and!; [done..|lia].
Qed.

Lemma read_number_spec max radix m z s v rest :
  read_number max radix m z s = Some (v, rest) →
  ∃ d, s = d +:+ rest ∧ digits_value radix 0 d = Some v ∧ d ≠ EmptyString ∧ v ≤ max
       ∧ (z = true ∨ starts_with "0" d = false ∨ String.length d = 1%nat).
Proof.
  unfold read_number. destruct (read_digits radix m 0 0 s) as [[[r n] t]|] eqn:Hd; [|done].
  apply read_digits_spec in Hd as (d & -> & Hv & ->). simpl.
  destruct (Nat.eqb_spec (String.length d) 0) as [|Hne]; [done|].
  destruct (negb z && starts_with "0" (d +:+ t) && (1 <? String.length d)%nat) eqn:Hz; [done|].
  destruct (Z.leb_spec r max); [|done]. intros [= <- <-]. exists d.
  split_and!; try done; [by intros ->|].
  destruct d as [|c d]; [done|]. destruct z; [by left|right].
  destruct (Ascii.eqb_spec c "0") as [->|Hc].
  - right. rewrite (starts_with_app "0" (d +:+ t) : starts_with "0" (String "0" d +:+ t) = true) in Hz.
    destruct (Nat.ltb_spec 1 (String.length (String "0" d))); [done|]. simpl in *. lia.
  - left. destruct (starts_with "0" (String c d)) eqn:Hs; [|done].
    apply starts_with_spec in Hs as [x Hx]. by injection Hx.
Qed.

Lemma read_u8_number s v rest :
  read_number u8_max 10 3 false s = Some (v, rest) →
  ∃ d, s = d +:+ rest ∧ number d v ∧ v < 256.
Proof.
  intros H. apply read_number_spec in H as (d & -> & Hv & Hne & Hmax & Hz).
  unfold u8_max in Hmax. exists d. split_and!; [done| |lia].
  destruct Hz as [|[Hz|Hlen]]; [done| |].
  - apply number_dec; try done. unfold u64_max. lia.
  - destruct (starts_with "0" d) eqn:Hs; [|apply number_dec; try done; unfold u64_max; lia].
    apply starts_with_spec in Hs as [[|? ?] ->]; [|done]. injection Hv as <-. constructor.
Qed.

Lemma read_given_char_spec c s r : read_given_char c s = Some r → s = String c r.2.
Proof.
  destruct s as [|a s]; simpl; [done|]. destruct (Ascii.eqb_spec a c); [|done].
  intros [= <-]. by subst.
Qed.

Lemma read_dotted_number i s v rest :
  i ≠ O → read_separator "." i (read_number u8_max 10 3 false) s = Some (v, rest) →
  ∃ d, s = String "." (d +:+ rest) ∧ number d v ∧ v < 256.
Proof.
  intros Hi. destruct i; [done|]. simpl. intros H. apply bind_Some in H as ([[] t] & Ht & H).
  apply read_given_char_spec in Ht as ->. apply read_u8_number in H as (d & -> & H).
  by exists d.
Qed.

Lemma read_ipv4_addr_aton s a :
  read_ipv4_addr s = Some (a, EmptyString) → inet_aton s a.
Proof.
  unfold read_ipv4_addr. intros H.
  apply bind_Some in H as ([a1 s1] & H1 & H). apply bind_Some in H as ([a2 s2] & H2 & H).
  apply bind_Some in H as ([a3 s3] & H3 & H). apply bind_Some in H as ([a4 s4] & H4 & H).
  injection H as <- ->. simpl in H1. apply read_u8_number in H1 as (d1 & -> & ? & ?).
  apply read_dotted_number in H2 as (d2 & -> & ? & ?); [|done].
  apply read_dotted_number in H3 as (d3 & -> & ? & ?); [|done].
  apply read_dotted_number in H4 as (d4 & -> & ? & ?); [|done].
  rewrite str_app_nil_r. by apply (aton4 d1 d2 d3 d4).
Qed.

Lemma str_contains_suffix c s t : str_contains c (s +:+ t) = false → str_contains c t = false.
Proof. rewrite str_contains_app. by intros [_ ?]%orb_false_iff. Qed.

Lemma read_given_char_none c s : str_contains c s = false → read_given_char c s = None.
Proof.
  destruct s as [|a s]; simpl; [done|]. unfold str_contains. simpl.
  rewrite Ascii.eqb_sym. by destruct (Ascii.eqb a c).
Qed.

Lemma read_groups_no_colon room i s :
  str_contains ":" s = false → i ≠ O → read_groups room i s = ([], false, s).
Proof.
  intros Hs Hi. destruct i as [|i]; [done|]. destruct room as [|room]; simpl; [done|].
  rewrite read_given_char_none by done. simpl. by destruct room.
Qed.

(** Without a colon there is no IPv6 address. *)
Lemma read_ipv6_addr_no_colon s : str_contains ":" s = false → read_ipv6_addr s = None.
Proof.
  intros Hs. unfold read_ipv6_addr.
  assert (Hh : ∃ h v4 s', read_groups 8 0 s = (h, v4, s') ∧ (length h < 8)%nat
            ∧ (v4 = true ∨ str_contains ":" s' = false)).
  { simpl. destruct (read_ipv4_addr s) as [[a rest]|]; [eexists _, _, _; simpl; split_and!; [done|simpl; lia|by left]|].
    destruct (read_number u16_max 16 4 true s) as [[g rest]|] eqn:Hg;
      [|eexists _, _, _; simpl; split_and!; [done|simpl; lia|by right]].
    apply read_number_spec in Hg as (d & -> & _). apply str_contains_suffix in Hs.
    rewrite read_given_char_none by done. simpl. eexists _, _, _; split_and!; [done|simpl; lia|by right]. }
  destruct Hh as (h & v4 & s' & -> & Hlen & Hv4).
  destruct (Nat.eqb_spec (length h) 8); [lia|]. destruct v4; [done|].
  destruct Hv4 as [|Hs']; [done|]. by rewrite read_given_char_none.
Qed.

Lemma number_no_colon s v : number s v → str_contains ":" s = false.
Proof. apply number_no; [|done..]. intros r a d _ Ha. apply Ascii.eqb_neq. by intros <-. Qed.

Lemma inet_aton_no_colon host a : inet_aton host a → str_contains ":" host = false.
Proof.
  destruct 1; simpl join; repeat (rewrite str_contains_app || rewrite str_contains_cons);
    repeat match goal with H : number _ _ |- _ => apply number_no_colon in H; rewrite ?H; clear H end;
    try done.
Qed.

Lemma inet_aton_functional host a b : inet_aton host a → inet_aton host b → a = b.
Proof. intros Ha Hb. apply inet_aton_parses in Ha, Hb. congruence. Qed.

Lemma parse_ip_literal_aton host a : inet_aton host a → parse_ip_literal host = Some (V4 a).
Proof.
  intros H. unfold parse_ip_literal, parse_ip_addr, read_ip_addr.
  rewrite read_ipv6_addr_no_colon by (by eapply inet_aton_no_colon).
  destruct (read_ipv4_addr host) as [[b [|]]|] eqn:Hb.
  - apply read_ipv4_addr_aton in Hb. by rewrite (inet_aton_functional host a b).
  - by rewrite (inet_aton_parses host a).
  - simpl. by rewrite (inet_aton_parses host a).
Qed.

(** ** What a validated address guarantees *)

Section GuardProperties.
Context (v4net_contains v6net_contains : Z * Z → Z → bool).
Context (lookup_host : string → Z → option (list SocketAddr)).

Abbreviation blocked := (is_blocked_ip_with_policy v4net_contains v6net_contains).
Abbreviation resolve :=
  (resolve_validated_addr v4net_contains v6net_contains lookup_host).

Lemma first_blocked_None addrs al all ap :
  first_blocked v4net_contains v6net_contains addrs al all ap = None ↔
  Forall (λ sa, blocked (sa_ip sa) al all ap = false) addrs.
Proof.
  unfold first_blocked. induction addrs as [|sa addrs IH]; simpl; [by split|].
  rewrite Forall_cons. destruct (blocked (sa_ip sa) al all ap); simpl.
  - split; [done|by intros [? _]].
  - rewrite IH. tauto.
Qed.

Lemma resolve_validated_unblocked host port al all ap sa :
  resolve host port al all ap = Ok sa → blocked (sa_ip sa) al all ap = false.
Proof.
  unfold resolve_validated_addr. destruct (parse_ip_literal host) as [ip|].
  { destruct (blocked ip al all ap) eqn:Hb; [done|by intros [= <-]]. }
  destruct (lookup_host host port) as [[|first rest]|]; [done| |done]. cbn [ok_or mbind result_bind].
  destruct (first_blocked _ _ _ _ _ _) eqn:Hf; [done|]. intros [= <-].
  apply first_blocked_None in Hf. by apply Forall_cons in Hf as [? _].
Qed.

(** The guard hands out an address exactly when the host is a literal the
    policy allows, or a name all of whose resolved addresses it allows; the
    address handed out is then the literal or the resolver's first. *)
Theorem resolve_validated_addr_exact host port al all ap sa :
  resolve host port al all ap = Ok sa ↔
  (∃ ip, parse_ip_literal host = Some ip ∧ sa = mk_SocketAddr ip port
         ∧ blocked ip al all ap = false)
  ∨ (parse_ip_literal host = None ∧
     ∃ rest, lookup_host host port = Some (sa :: rest)
       ∧ Forall (λ sa', blocked (sa_ip sa') al all ap = false) (sa :: rest)).
Proof.
  unfold resolve_validated_addr. destruct (parse_ip_literal host) as [ip|].
  - destruct (blocked ip al all ap) eqn:Hb.
    + split; [done|]. intros [(ip' & [= <-] & _ & H)|[? _]]; congruence.
    + split; [intros [= <-]; left; by exists ip|].
      intros [(ip' & [= <-] & -> & H)|[? _]]; done.
  - split.
    + intros H. right. split; [done|]. apply bind_Ok in H as (addrs & Hl & H).
      apply ok_or_Ok in Hl. destruct addrs as [|first rest]; [done|].
      destruct (first_blocked _ _ _ al all ap) eqn:Hf; [done|]. injection H as <-.
      exists rest. split; [done|]. by apply first_blocked_None.
    + intros [(ip' & ? & _)|(_ & rest & Hl & Hall)]; [done|]. rewrite Hl. simpl.
      by apply first_blocked_None in Hall as ->.
Qed.

(** C35. No spelling of a blocked IPv4 address - decimal, octal, hexadecimal or
    mixed, in one to four parts - reaches the network: every one is decoded
    to the address it denotes and rejected before any DNS query. *)
Theorem disguised_literal_rejected host a port al all ap :
  inet_aton host a → blocked (V4 a) al all ap = true →
  resolve host port al all ap = Err (Rejected (BlockedIpLiteral host (V4 a))).
Proof.
  intros Ha Hb. unfold resolve_validated_addr. by rewrite (parse_ip_literal_aton host a), Hb.
Qed.
End GuardProperties.

(** [0x7f.1] is loopback. *)
Lemma disguised_literal_rejected_witness :
  resolve_validated_addr (cidr_contains 32) (cidr_contains 128) (λ _ _, None)
    "0x7f.1" 80 false true true = Err (Rejected (BlockedIpLiteral "0x7f.1" (V4 2130706433))).
Proof.
  apply disguised_literal_rejected; [|reflexivity].
  apply (aton2 "0x7f" "1" 127 1); [by apply (number_hex "7f")|by apply number_dec|lia..].
Defined.

Section AllowProperties.
Context {Url : Type} (url_parse : string → option Url)
  (url_scheme : Url → string) (url_host_str : Url → option string)
  (url_port_or_known_default : Url → option Z) (url_path : Url → string).

(** An allowlist match ties scheme, host and port to one configured entry by
    equality of the parsed parts, whatever the URL's text looks like. *)
Theorem is_allowed_source_exact url allowed :
  is_allowed_source url_parse url_scheme url_host_str url_port_or_known_default url_path
    url allowed = true ↔
  ∃ prefix prefix_url host,
    prefix ∈ allowed ∧ url_parse prefix = Some prefix_url
    ∧ url_scheme url = url_scheme prefix_url
    ∧ url_host_str url = Some host ∧ url_host_str prefix_url = Some host
    ∧ url_port_or_known_default url = url_port_or_known_default prefix_url
    ∧ ∃ rest, url_path url = url_path prefix_url +:+ rest.
Proof.
  unfold is_allowed_source. rewrite List.existsb_exists. split.
  - intros (prefix & Hin & H). apply list_elem_of_In in Hin. exists prefix.
    unfold matches_allowed_prefix in H. destruct (url_parse prefix) as [pu|]; [|done].
    rewrite !andb_true_iff, String.eqb_eq, !bool_decide_eq_true, starts_with_spec in H.
    destruct H as ((((Hs & [host Hh]) & Heq) & Hport) & Hpath).
    exists pu, host. rewrite Hh in Heq. by split_and!.
  - intros (prefix & pu & host & Hin & Hp & Hs & Hh & Hph & Hport & Hpath).
    exists prefix. split; [by apply list_elem_of_In|]. unfold matches_allowed_prefix.
    rewrite Hp, !andb_true_iff, String.eqb_eq, !bool_decide_eq_true, starts_with_spec.
    rewrite Hh, Hph. by split_and!; eauto.
Qed.

(** The path comparison is textual: an entry ending inside a path segment
    also admits every longer spelling of that segment. *)
Theorem allowlist_not_segment_aware url prefix prefix_url host suffix :
  url_parse prefix = Some prefix_url →
  url_scheme url = url_scheme prefix_url →
  url_host_str url = Some host → url_host_str prefix_url = Some host →
  url_port_or_known_default url = url_port_or_known_default prefix_url →
  url_path url = url_path prefix_url +:+ suffix →
  is_allowed_source url_parse url_scheme url_host_str url_port_or_known_default url_path
    url [prefix] = true.
Proof.
  intros Hp Hs Hh Hph Hport Hpath. unfold is_allowed_source, matches_allowed_prefix. simpl.
  rewrite Hp, Hs, Hh, Hph, Hport, Hpath, String.eqb_refl, starts_with_app.
  by rewrite !bool_decide_eq_true_2 by done.
Qed.
End AllowProperties.

(** [/images-private/key] is admitted by the entry [http://h/images]. *)
Lemma allowlist_not_segment_aware_witness :
  is_allowed_source (λ s, Some (strip_prefix "http://h" s)) (λ _, "http") (λ _, Some "h")
    (λ _, Some 80) (default EmptyString) (Some "/images-private/key") ["http://h/images"] = true.
Proof.
  by apply (allowlist_not_segment_aware _ _ _ _ _ _ _ (Some "/images") "h" "-private/key").
Defined.
