(* ===== verification/AvifMeta.v ===== *)
(** * AVIF container metadata: [src/services/image/avif_meta.rs]

The ISOBMFF box reader that recovers EXIF and orientation from untrusted
bytes: checked cursor, budgeted box walks, the dihedral algebra of
[irot]/[imir] properties, and the [iinf]/[iloc] lookup of the EXIF item.
A byte slice is a [list byte]; positions and lengths are [usize] values. *)
From S2P Require Import Prelude.

Local Open Scope Z_scope.

Abbreviation slice := (list byte).

(** The variants of [image::metadata::Orientation]. *)
Inductive Orientation :=
  | NoTransforms | Rotate90 | Rotate180 | Rotate270
  | FlipHorizontal | FlipVertical | Rotate90FlipH | Rotate270FlipH.

#[export] Instance orientation_eq_dec : EqDecision Orientation.
Proof. solve_decision. Defined.

Record AvifMetadata := mk_AvifMetadata {
  am_orientation : Orientation;
  am_exif : option slice;
}.

Definition avif_metadata_default : AvifMetadata := mk_AvifMetadata NoTransforms None.

Definition MAX_NESTING_DEPTH : Z := 8.
Definition MAX_BOXES_VISITED : Z := 4096.
Definition MAX_EXIF_LEN : Z := 1024 * 1024.

(** ** Slices *)

Definition len (l : slice) : Z := Z.of_nat (length l).

(** [l.get(a..b)]. *)
Definition slice_get (l : slice) (a b : Z) : option slice :=
  if (a <=? b) && (b <=? len l)
  then Some (take (Z.to_nat (b - a)) (drop (Z.to_nat a) l)) else None.

(** [l.get(a..)]. *)
Definition slice_from (l : slice) (a : Z) : option slice :=
  if a <=? len l then Some (drop (Z.to_nat a) l) else None.

(** Big-endian value; [(acc << 8) | b] never mixes bits. *)
Definition from_be (bs : slice) : Z :=
  fold_left (λ acc b, Z.lor (Z.shiftl acc 8) (byte_val b)) bs 0.

(** ** The checked cursor *)

Record Cursor := mk_Cursor { cur_data : slice; cur_pos : Z }.

Definition cursor_new (data : slice) : Cursor := mk_Cursor data 0.

Definition remainder (c : Cursor) : slice := default [] (slice_from (cur_data c) (cur_pos c)).

(** A method taking [&mut self] and returning an [Option]. *)
Definition reader (A : Type) : Type := Cursor → option (A * Cursor).

#[export] Instance reader_ret : MRet reader := λ _ a c, Some (a, c).
#[export] Instance reader_bind : MBind reader := λ _ _ f m c,
  match m c with
  | Some (a, c') => f a c'
  | None => None
  end.

Definition fail {A} : reader A := λ _, None.

Definition read_remainder : reader slice := λ c, Some (remainder c, c).

Definition read_bytes (n : Z) : reader slice := λ c,
  match checked_add usize_max (cur_pos c) n with
  | None => None
  | Some end_ =>
      match slice_get (cur_data c) (cur_pos c) end_ with
      | None => None
      | Some s => Some (s, mk_Cursor (cur_data c) end_)
      end
  end.

Definition skip (n : Z) : reader unit := _ ← read_bytes n; mret ().
Definition read_u8 : reader Z := bs ← read_bytes 1; mret (from_be bs).
Definition read_u16 : reader Z := bs ← read_bytes 2; mret (from_be bs).
Definition read_u32 : reader Z := bs ← read_bytes 4; mret (from_be bs).
Definition read_u64 : reader Z := bs ← read_bytes 8; mret (from_be bs).

Definition read_uint (size : Z) : reader Z :=
  if size =? 0 then mret 0
  else if 8 <? size then fail
  else bs ← read_bytes size; mret (from_be bs).

(** [for _ in 0..n] with a body that may return early with [Some]. *)
Fixpoint for_each {A} (n : nat) (body : reader (option A)) : reader (option A) :=
  match n with
  | O => mret None
  | S n' =>
      found ← body;
      match found with
      | Some a => mret (Some a)
      | None => for_each n' body
      end
  end.

(** [for _ in 0..n] collecting what the body reads. *)
Fixpoint collect {A} (n : nat) (body : reader A) : reader (list A) :=
  match n with
  | O => mret []
  | S n' => x ← body; xs ← collect n' body; mret (x :: xs)
  end.

(** Running a reader from the start of a slice, dropping the cursor. *)
Definition run {A} (m : reader A) (data : slice) : option A := fst <$> m (cursor_new data).

(** ** Boxes *)

Abbreviation BoxType := (list byte).

Definition box_type (s : string) : BoxType := list_byte_of_string s.

Definition read_box_header (data : slice) : option (BoxType * Z * Z) :=
  '(ty, (header_len, total_size)) ← run (
    size32 ← read_u32;
    ty ← read_bytes 4;
    sizes ← (if size32 =? 1 then largesize ← read_u64; mret (16, largesize)
             else if size32 =? 0 then mret (8, len data)
             else mret (8, size32));
    mret (ty, sizes)) data;
  if (total_size <? header_len) || (len data <? total_size) then None
  else Some (ty, header_len, total_size).

(** The [while] loop of [walk_boxes], the closure's captured variables being
    a state [S].  Every iteration consumes a box header, so the length of the
    data is enough fuel ([walk_loop_step]). *)
Fixpoint walk_loop {S} (visit : BoxType → slice → S → S) (fuel : nat)
    (rest : slice) (budget : Z) (s : S) : S * Z :=
  match fuel with
  | O => (s, budget)
  | Datatypes.S fuel' =>
      if (length rest =? 0)%nat then (s, budget)
      else if budget =? 0 then (s, budget)
      else
        match read_box_header rest with
        | None => (s, budget)
        | Some (ty, header_len, total_size) =>
            let budget := budget - 1 in
            match slice_get rest header_len total_size with
            | None => (s, budget)
            | Some content =>
                let s := visit ty content s in
                match slice_from rest total_size with
                | None => (s, budget)
                | Some next => walk_loop visit fuel' next budget s
                end
            end
        end
  end.

Definition walk_boxes {S} (visit : BoxType → slice → S → S) (data : slice) (depth budget : Z)
    (s : S) : S * Z :=
  if MAX_NESTING_DEPTH <? depth then (s, budget)
  else walk_loop visit (length data) data budget s.

(** The guarded assignment [if found.is_none() && box_type == target]. *)
Definition keep_first (target : BoxType) (ty : BoxType) (content : slice) (found : option slice)
  : option slice :=
  match found with
  | Some _ => found
  | None => if decide (ty = target) then Some content else None
  end.

Definition find_first_box (data : slice) (depth budget : Z) (target : BoxType)
  : option slice * Z :=
  walk_boxes (keep_first target) data depth budget None.

(** ** Orientation *)

Inductive TransformProperty :=
  | PropRotate (angle : Z)
  | PropMirror (axis : Z).

Inductive Transform :=
  | Rotation (a : Z)
  | Reflection (c : Z).

Definition IDENTITY : Transform := Rotation 0.

(** [self.then(op)]; the exponents stay in [0..=3] ([then_wf]), so the [u8]
    arithmetic neither overflows nor underflows. *)
Definition then_ (self op : Transform) : Transform :=
  match self, op with
  | Rotation a, Rotation b => Rotation ((a + b) mod 4)
  | Rotation a, Reflection c => Reflection ((c + 4 - a mod 4) mod 4)
  | Reflection c, Rotation b => Reflection ((c + b) mod 4)
  | Reflection c1, Reflection c2 => Rotation ((c2 + 4 - c1 mod 4) mod 4)
  end.

Definition into_orientation (t : Transform) : Orientation :=
  match t with
  | Rotation 0 => NoTransforms
  | Rotation 1 => Rotate270
  | Rotation 2 => Rotate180
  | Rotation 3 => Rotate90
  | Reflection 0 => FlipVertical
  | Reflection 1 => Rotate270FlipH
  | Reflection 2 => FlipHorizontal
  | Reflection 3 => Rotate90FlipH
  | Rotation _ | Reflection _ => NoTransforms
  end.

Definition parse_primary_item_id (pitm_content : slice) : option Z :=
  run (version ← read_u8; _ ← skip 3;
       if version =? 0 then read_u16 else read_u32) pitm_content.

Definition property_of (ty : BoxType) (content : slice) : option TransformProperty :=
  if decide (ty = box_type "irot") then
    (λ angle, PropRotate (Z.land (byte_val angle) 3)) <$> head content
  else if decide (ty = box_type "imir") then
    (λ axis, PropMirror (Z.land (byte_val axis) 1)) <$> head content
  else None.

(** The [while] loop of [collect_properties]; [index] counts every box. *)
Fixpoint collect_loop (fuel : nat) (rest : slice) (index budget : Z)
  : list (Z * TransformProperty) * Z :=
  match fuel with
  | O => ([], budget)
  | S fuel' =>
      if (length rest =? 0)%nat then ([], budget)
      else if budget =? 0 then ([], budget)
      else
        match read_box_header rest with
        | None => ([], budget)
        | Some (ty, header_len, total_size) =>
            let budget := budget - 1 in
            match checked_add u32_max index 1 with
            | None => ([], budget)
            | Some index =>
                match slice_get rest header_len total_size with
                | None => ([], budget)
                | Some content =>
                    let here := match property_of ty content with
                                | Some p => [(index, p)]
                                | None => []
                                end in
                    match slice_from rest total_size with
                    | None => (here, budget)
                    | Some next =>
                        let '(more, budget) := collect_loop fuel' next index budget in
                        (here ++ more, budget)
                    end
                end
            end
        end
  end.

Definition collect_properties (ipco_content : slice) (depth budget : Z)
  : list (Z * TransformProperty) * Z :=
  if MAX_NESTING_DEPTH <? depth then ([], budget)
  else collect_loop (length ipco_content) ipco_content 0 budget.

Definition parse_primary_item_associations (ipma_content : slice) (target_item_id : Z)
  : option (list Z) :=
  mjoin (run (
    version ← read_u8;
    flags_bytes ← read_bytes 3;
    let flags := from_be flags_bytes in
    let wide_item_id := 1 <=? version in
    let large_index := negb (Z.land flags 1 =? 0) in
    entry_count ← read_u32;
    for_each (Z.to_nat entry_count) (
      item_id ← (if wide_item_id then read_u32 else read_u16);
      association_count ← read_u8;
      if item_id =? target_item_id then
        indices ← collect (Z.to_nat association_count)
          (if large_index then i ← read_u16; mret (Z.land i 32767)
           else i ← read_u8; mret (Z.land i 127));
        mret (Some indices)
      else
        _ ← collect (Z.to_nat association_count) (if large_index then read_u16 else read_u8);
        mret None)) ipma_content).

(** [properties.iter().find(|(i, _)| *i == index)]. *)
Definition find_property (properties : list (Z * TransformProperty)) (index : Z)
  : option TransformProperty :=
  snd <$> List.find (λ p, p.1 =? index) properties.

Definition property_transform (p : TransformProperty) : Transform :=
  match p with
  | PropRotate steps => Rotation steps
  | PropMirror axis => Reflection (if axis =? 0 then 2 else 0)
  end.

Definition compose_transforms (properties : list (Z * TransformProperty)) (indices : list Z)
  : Transform :=
  fold_left (λ transform index,
    match find_property properties index with
    | Some property => then_ transform (property_transform property)
    | None => transform
    end) indices IDENTITY.

Definition resolve_orientation (pitm_content iprp_content : option slice) (budget : Z)
  : option Orientation * Z :=
  match pitm_content ≫= parse_primary_item_id, iprp_content with
  | Some primary_item_id, Some iprp =>
      let '((ipco_content, ipma_content), budget) :=
        walk_boxes (λ ty content '(ipco, ipma),
          (keep_first (box_type "ipco") ty content ipco,
           keep_first (box_type "ipma") ty content ipma)) iprp 2 budget (None, None) in
      match ipco_content with
      | None => (None, budget)
      | Some ipco =>
          let '(properties, budget) := collect_properties ipco 3 budget in
          (indices ← ipma_content ≫= (λ ipma, parse_primary_item_associations ipma primary_item_id);
           Some (into_orientation (compose_transforms properties indices)), budget)
      end
  | _, _ => (None, budget)
  end.

(** ** EXIF *)

Definition parse_infe_exif_item_id (content : slice) : option Z :=
  mjoin (run (
    version ← read_u8; _ ← skip 3;
    item_id ← (if version =? 2 then read_u16 else if version =? 3 then read_u32 else fail);
    _ ← skip 2;
    item_type ← read_bytes 4;
    mret (if decide (item_type = box_type "Exif") then Some item_id else None)) content).

(** The [infe] visitor: the first [Exif] entry wins. *)
Definition visit_infe (ty : BoxType) (content : slice) (found : option Z) : option Z :=
  match found with
  | Some _ => found
  | None => if decide (ty = box_type "infe") then parse_infe_exif_item_id content else None
  end.

Definition find_exif_item_id (iinf_content : slice) (depth budget : Z) : option Z * Z :=
  match run (version ← read_u8; _ ← skip 3;
             _ ← (if version =? 0 then read_u16 else read_u32);
             read_remainder) iinf_content with
  | None => (None, budget)
  | Some children => walk_boxes visit_infe children depth budget None
  end.

Record IlocEntry := mk_IlocEntry {
  construction_method : Z;
  base_offset : Z;
  extents : list (Z * Z);
}.

Definition find_iloc_entry (iloc_content : slice) (target_item_id : Z) : option IlocEntry :=
  mjoin (run (
    version ← read_u8; _ ← skip 3;
    sizes ← read_u8;
    let offset_size := Z.shiftr sizes 4 in
    let length_size := Z.land sizes 15 in
    sizes2 ← read_u8;
    let base_offset_size := Z.shiftr sizes2 4 in
    let index_size := Z.land sizes2 15 in
    let indexed := (version =? 1) || (version =? 2) in
    item_count ← (if version <? 2 then read_u16 else read_u32);
    for_each (Z.to_nat item_count) (
      item_id ← (if version <? 2 then read_u16 else read_u32);
      construction_method ← (if indexed then raw ← read_u16; mret (Z.land raw 15) else mret 0);
      _ ← skip 2;
      base_offset ← read_uint base_offset_size;
      extent_count ← read_u16;
      extents ← collect (Z.to_nat extent_count) (
        _ ← (if indexed && (0 <? index_size) then read_uint index_size else mret 0);
        extent_offset ← read_uint offset_size;
        extent_length ← read_uint length_size;
        mret (extent_offset, extent_length));
      mret (if item_id =? target_item_id
            then Some (mk_IlocEntry construction_method base_offset extents) else None)))
    iloc_content).

(** The loop over the extents, appending each to the payload. *)
Fixpoint assemble (bytes : slice) (base : Z) (exts : list (Z * Z)) (payload : slice)
  : option slice :=
  match exts with
  | [] => Some payload
  | (extent_offset, extent_length) :: rest =>
      start ← checked_add u64_max base extent_offset;
      end_ ← checked_add usize_max start extent_length;
      extent ← slice_get bytes start end_;
      total ← checked_add usize_max (len payload) (len extent);
      if MAX_EXIF_LEN <? total then None
      else assemble bytes base rest (payload ++ extent)
  end.

Definition TIFF_II : slice := [x49; x49; x2a; x00].
Definition TIFF_MM : slice := [x4d; x4d; x00; x2a].

Definition slice_starts_with (prefix l : slice) : bool :=
  bool_decide (take (length prefix) l = prefix).

Definition extract_exif_tiff (bytes : slice) (entry : IlocEntry) : option slice :=
  if negb (construction_method entry =? 0) then None
  else
    payload ← assemble bytes (base_offset entry) (extents entry) [];
    if len payload <? 4 then None
    else
      let tiff_header_offset := from_be (take 4 payload) in
      tiff ← slice_from (drop 4 payload) tiff_header_offset;
      if slice_starts_with TIFF_II tiff || slice_starts_with TIFF_MM tiff then Some tiff
      else None.

Definition extract_exif_payload (bytes : slice) (iinf_content iloc_content : option slice)
    (budget : Z) : option slice * Z :=
  match iinf_content with
  | None => (None, budget)
  | Some iinf =>
      let '(id, budget) := find_exif_item_id iinf 2 budget in
      (exif_item_id ← id;
       iloc ← iloc_content;
       entry ← find_iloc_entry iloc exif_item_id;
       extract_exif_tiff bytes entry, budget)
  end.

(** ** The entry point *)

Record MetaBoxes := mk_MetaBoxes {
  iinf_content : option slice;
  iloc_content : option slice;
  iprp_content : option slice;
  pitm_content : option slice;
}.

Definition visit_meta (ty : BoxType) (content : slice) (m : MetaBoxes) : MetaBoxes := {|
  iinf_content := keep_first (box_type "iinf") ty content (iinf_content m);
  iloc_content := keep_first (box_type "iloc") ty content (iloc_content m);
  iprp_content := keep_first (box_type "iprp") ty content (iprp_content m);
  pitm_content := keep_first (box_type "pitm") ty content (pitm_content m);
|}.

(** [parse], with the budget left over (the source drops it). *)
Definition parse_budgeted (bytes : slice) : AvifMetadata * Z :=
  let '(meta, budget) := find_first_box bytes 0 MAX_BOXES_VISITED (box_type "meta") in
  match meta ≫= (λ meta_content, slice_from meta_content 4) with
  | None => (avif_metadata_default, budget)
  | Some meta_body =>
      let '(m, budget) :=
        walk_boxes visit_meta meta_body 1 budget (mk_MetaBoxes None None None None) in
      let '(orientation, budget) :=
        resolve_orientation (pitm_content m) (iprp_content m) budget in
      let '(exif, budget) :=
        extract_exif_payload bytes (iinf_content m) (iloc_content m) budget in
      (mk_AvifMetadata (default NoTransforms orientation) exif, budget)
  end.

Definition parse_avif_meta (bytes : slice) : AvifMetadata := fst (parse_budgeted bytes).

(** ** Reading back what an encoder writes *)

Lemma from_be_byte b : from_be [b] = byte_val b.
Proof. unfold from_be. simpl. by rewrite Z.shiftl_0_l, Z.lor_0_l. Qed.

Lemma from_be_snoc bs b : from_be (bs ++ [b]) = from_be bs * 256 + byte_val b.
Proof.
  unfold from_be. rewrite fold_left_app. simpl. change 256 with (2 ^ 8).
  apply lor_shiftl_add; [lia|apply byte_val_range].
Qed.

Lemma from_be_bound bs : 0 ≤ from_be bs < 256 ^ len bs.
Proof.
  induction bs as [|b bs IH] using rev_ind; [done|].
  rewrite from_be_snoc. unfold len in *. rewrite length_app, Nat2Z.inj_add. simpl.
  rewrite Z.pow_add_r, Z.pow_1_r by lia. pose proof (byte_val_range b). nia.
Qed.

(** Big-endian bytes of a value, for the encoder side. *)
Fixpoint to_be (n : nat) (v : Z) : slice :=
  match n with
  | O => []
  | S n' => to_be n' (v / 256) ++ [byte_of_val v]
  end.

Lemma to_be_length n v : length (to_be n v) = n.
Proof. revert v. induction n as [|n IH]; intros v; simpl; [done|]. rewrite length_app, IH. simpl. lia. Qed.

Lemma from_be_to_be n v : 0 ≤ v < 256 ^ Z.of_nat n → from_be (to_be n v) = v.
Proof.
  revert v. induction n as [|n IH]; intros v Hv; simpl.
  - change (256 ^ Z.of_nat 0) with 1 in Hv. change (from_be []) with 0. lia.
  - rewrite Nat2Z.inj_succ, Z.pow_succ_r in Hv by lia.
    rewrite from_be_snoc, IH.
    + assert (byte_val (byte_of_val v) = v mod 256) as ->.
      { assert (byte_of_val v = byte_of_val (v mod 256)) as ->
          by (unfold byte_of_val; by rewrite Z.mod_mod by lia).
        apply byte_val_of_val, Z.mod_pos_bound. lia. }
      pose proof (Z.div_mod v 256). lia.
    + split; [apply Z.div_pos; lia|apply Z.div_lt_upper_bound; lia].
Qed.

Lemma len_app l k : len (l ++ k) = len l + len k.
Proof. unfold len. rewrite length_app. lia. Qed.

Lemma len_nonneg l : 0 ≤ len l.
Proof. unfold len. lia. Qed.

(** [m] consumes exactly [bs], wherever it stands, and yields [a]. *)
Definition reads {A} (m : reader A) (bs : slice) (a : A) : Prop :=
  ∀ pre post, len (pre ++ bs ++ post) ≤ usize_max →
    m (mk_Cursor (pre ++ bs ++ post) (len pre)) =
    Some (a, mk_Cursor (pre ++ bs ++ post) (len pre + len bs)).

Lemma slice_get_middle (pre bs post : slice) :
  slice_get (pre ++ bs ++ post) (len pre) (len pre + len bs) = Some bs.
Proof.
  unfold slice_get. rewrite !len_app. pose proof (len_nonneg bs). pose proof (len_nonneg post).
  destruct (Z.leb_spec (len pre) (len pre + len bs)); [|lia].
  destruct (Z.leb_spec (len pre + len bs) (len pre + (len bs + len post))); [|lia]. simpl.
  replace (len pre + len bs - len pre) with (len bs) by lia.
  unfold len. rewrite !Nat2Z.id. by rewrite drop_app_length, take_app_length.
Qed.

Lemma reads_bytes n bs : n = len bs → reads (read_bytes n) bs bs.
Proof.
  intros -> pre post Hlen. unfold read_bytes. simpl.
  assert (checked_add usize_max (len pre) (len bs) = Some (len pre + len bs)) as ->.
  { apply checked_add_Some. split; [done|]. rewrite !len_app in Hlen.
    pose proof (len_nonneg post). lia. }
  by rewrite slice_get_middle.
Qed.

Lemma reads_ret {A} (a : A) : reads (mret a) [] a.
Proof. intros pre post _. unfold mret, reader_ret. by rewrite Z.add_0_r. Qed.

Lemma reads_bind {A B} (m : reader A) (f : A → reader B) bs1 bs2 a b :
  reads m bs1 a → reads (f a) bs2 b → reads (m ≫= f) (bs1 ++ bs2) b.
Proof.
  intros Hm Hf pre post Hlen. unfold mbind, reader_bind. specialize (Hm pre (bs2 ++ post)).
  rewrite <- (app_assoc bs1) in Hlen |- *. rewrite Hm by done.
  specialize (Hf (pre ++ bs1) post). rewrite <- (app_assoc pre) in Hf.
  rewrite (len_app pre bs1) in Hf. rewrite Hf by done. rewrite len_app. do 2 f_equal. f_equal. lia.
Qed.

Lemma reads_map {A B} (m : reader A) (g : A → B) bs a :
  reads m bs a → reads (m ≫= λ x, mret (g x)) bs (g a).
Proof.
  intros Hm. rewrite <- (app_nil_r bs). eapply reads_bind; [done|]. apply reads_ret.
Qed.

Lemma reads_uint n bs : n = len bs → reads (bs ← read_bytes n; mret (from_be bs)) bs (from_be bs).
Proof. intros Hn. apply (reads_map (read_bytes n) from_be). by apply reads_bytes. Qed.

Lemma reads_skip n bs : n = len bs → reads (skip n) bs ().
Proof. intros Hn. apply (reads_map (read_bytes n) (λ _, ()) bs bs). by apply reads_bytes. Qed.

(** Readers of a written number. *)
Lemma reads_to_be n v k :
  k = Z.of_nat n → 0 ≤ v < 256 ^ k →
  reads (bs ← read_bytes k; mret (from_be bs)) (to_be n v) v.
Proof.
  intros -> Hv. rewrite <- (from_be_to_be n v) at 2 by done.
  apply reads_uint. unfold len. by rewrite to_be_length.
Qed.

Lemma run_reads {A} (m : reader A) bs a post :
  reads m bs a → len (bs ++ post) ≤ usize_max → run m (bs ++ post) = Some a.
Proof.
  intros Hm Hlen. unfold run, cursor_new. specialize (Hm [] post Hlen).
  change (len []) with 0 in Hm. simpl in Hm |- *. by rewrite Hm.
Qed.

Lemma reads_collect {A B} (body : reader A) (enc : B → slice) (val : B → A) (l : list B) :
  (∀ b, b ∈ l → reads body (enc b) (val b)) →
  reads (collect (length l) body) (mjoin (enc <$> l)) (val <$> l).
Proof.
  induction l as [|b l IH]; intros H; simpl; [apply reads_ret|].
  eapply reads_bind; [apply H; set_solver|].
  apply (reads_map _ (λ xs, val b :: xs)), IH. intros b' Hb'. apply H. set_solver.
Qed.

(** Entries before the wanted one are read and passed over. *)
Lemma reads_for_each {A B} (body : reader (option A)) (enc : B → slice) (l : list B)
    bs (a : A) (n : nat) :
  (∀ b, b ∈ l → reads body (enc b) None) → reads body bs (Some a) →
  (length l < n)%nat → reads (for_each n body) (mjoin (enc <$> l) ++ bs) (Some a).
Proof.
  intros Hl Ha. revert n. induction l as [|b l IH]; intros n Hn.
  - destruct n as [|n]; [simpl in Hn; lia|]. simpl. rewrite <- (app_nil_r bs).
    eapply reads_bind; [apply Ha|apply reads_ret].
  - destruct n as [|n]; [simpl in Hn; lia|]. simpl. rewrite <- app_assoc.
    eapply reads_bind; [apply Hl; set_solver|]. apply IH; [|simpl in Hn; lia].
    intros b' Hb'. apply Hl. set_solver.
Qed.

(** ** Box headers *)

Lemma read_bytes_Some n c bs c' :
  read_bytes n c = Some (bs, c') →
  0 ≤ n → 0 ≤ cur_pos c →
  len bs = n ∧ cur_data c' = cur_data c ∧ cur_pos c' = cur_pos c + n
  ∧ cur_pos c' ≤ len (cur_data c).
Proof.
  unfold read_bytes. destruct (checked_add usize_max (cur_pos c) n) as [e|] eqn:He; [|done].
  apply checked_add_Some in He as [-> _]. unfold slice_get.
  destruct (Z.leb_spec (cur_pos c) (cur_pos c + n)); [|done].
  destruct (Z.leb_spec (cur_pos c + n) (len (cur_data c))) as [Hle|]; [|done]. simpl.
  intros [= <- <-] Hn Hp. simpl. split_and!; try done.
  unfold len in *. rewrite length_take, length_drop. lia.
Qed.

(** The guarantee callers slice by: no header is shorter than eight bytes and
    no box is longer than the data it was read from. *)
Lemma read_box_header_bounds data ty h t :
  read_box_header data = Some (ty, h, t) →
  len ty = 4 ∧ 8 ≤ h ≤ 16 ∧ h ≤ t ≤ len data.
Proof.
  unfold read_box_header, run. intros H. apply bind_Some in H as ([ty' [h' t']] & Hrun & H).
  destruct ((t' <? h') || (len data <? t')) eqn:Hcmp; [done|]. injection H as -> -> ->.
  apply orb_false_iff in Hcmp as [H1%Z.ltb_ge H2%Z.ltb_ge].
  apply fmap_Some in Hrun as ([x c] & Hrun & Heq). simpl in Heq. subst x.
  unfold mbind, reader_bind in Hrun. destruct (read_u32 _) as [[size c1]|] eqn:H32; [|done].
  assert (0 ≤ cur_pos c1).
  { revert H32. unfold read_u32, mbind, reader_bind.
    destruct (read_bytes 4 (cursor_new data)) as [[? ?]|] eqn:Hb; [|done].
    unfold mret, reader_ret. intros [= _ <-]. apply read_bytes_Some in Hb as (_ & _ & -> & _); simpl; lia. }
  destruct (read_bytes 4 c1) as [[ty'' c2]|] eqn:Hty; [|done].
  apply read_bytes_Some in Hty as (Hlen & _); [|lia..].
  destruct (size =? 1).
  - destruct (read_u64 c2) as [[largesize c3]|]; [|done].
    unfold mret, reader_ret in Hrun. injection Hrun as -> <- _ _. split_and!; lia.
  - destruct (size =? 0); unfold mret, reader_ret in Hrun; injection Hrun as -> <- _ _;
      split_and!; lia.
Qed.

Lemma slice_get_Some l a b s :
  slice_get l a b = Some s → 0 ≤ a → len s = b - a ∧ s = take (Z.to_nat (b - a)) (drop (Z.to_nat a) l).
Proof.
  unfold slice_get. destruct (Z.leb_spec a b); [|done]. destruct (Z.leb_spec b (len l)); [|done].
  intros [= <-] Ha. split; [|done]. unfold len in *. rewrite length_take, length_drop. lia.
Qed.

(** Both slicings after a successful header read are in bounds. *)
Lemma read_box_header_slices data ty h t :
  read_box_header data = Some (ty, h, t) →
  ∃ head content next, data = head ++ content ++ next
    ∧ len head = h ∧ len content = t - h
    ∧ slice_get data h t = Some content ∧ slice_from data t = Some next.
Proof.
  intros H. apply read_box_header_bounds in H as (_ & Hh & Ht).
  exists (take (Z.to_nat h) data), (take (Z.to_nat (t - h)) (drop (Z.to_nat h) data)),
    (drop (Z.to_nat t) data).
  assert (Hd : drop (Z.to_nat t) data = drop (Z.to_nat (t - h)) (drop (Z.to_nat h) data)).
  { rewrite drop_drop. f_equal. lia. }
  split_and!.
  - by rewrite Hd, take_drop, take_drop.
  - unfold len in *. rewrite length_take. lia.
  - unfold len in *. rewrite length_take, length_drop. lia.
  - unfold slice_get. destruct (Z.leb_spec h t); [|lia]. by destruct (Z.leb_spec t (len data)); [|lia].
  - unfold slice_from. by destruct (Z.leb_spec t (len data)); [|lia].
Qed.

(** ** Walking boxes *)

(** [Tiling data boxes tail]: [data] is those boxes, one after the other with
    their headers, and then [tail]. *)
Inductive Tiling : slice → list (BoxType * slice) → slice → Prop :=
  | tiling_nil tail : Tiling tail [] tail
  | tiling_cons header ty content next boxes tail :
      read_box_header (header ++ content ++ next) =
        Some (ty, len header, len header + len content) →
      Tiling next boxes tail →
      Tiling (header ++ content ++ next) ((ty, content) :: boxes) tail.

(** Why a walk stops. *)
Definition walk_stopped (tail : slice) (budget : Z) : Prop :=
  tail = [] ∨ budget = 0 ∨ read_box_header tail = None.

Definition visit_all {S} (visit : BoxType → slice → S → S) (boxes : list (BoxType * slice)) (s : S)
  : S := fold_left (λ s b, visit b.1 b.2 s) boxes s.

(** A walk of [data] under [budget] visits [boxes], a prefix of the boxes the
    data is made of, pays one unit for each, and stops only at the end of the
    data, at an unreadable header or when the budget is spent. *)
Definition visits (data : slice) (budget : Z) (boxes : list (BoxType * slice)) (left : Z) : Prop :=
  left = budget - Z.of_nat (length boxes) ∧ 0 ≤ left
  ∧ ∃ tail, Tiling data boxes tail ∧ walk_stopped tail left.

Lemma visits_stop data budget : 0 ≤ budget → walk_stopped data budget → visits data budget [] budget.
Proof. intros. split_and!; [simpl; lia|done|]. exists data. by split; [constructor|]. Qed.

Lemma visits_cons data budget ty h t content next boxes left :
  read_box_header data = Some (ty, h, t) →
  slice_get data h t = Some content → slice_from data t = Some next →
  visits next (budget - 1) boxes left → visits data budget ((ty, content) :: boxes) left.
Proof.
  intros Hh Hc Hn (-> & Hle & tail & Ht & Hst). pose proof (read_box_header_bounds _ _ _ _ Hh).
  destruct (read_box_header_slices _ _ _ _ Hh) as (header & c & n & -> & Hlh & Hlc & Hc' & Hn').
  rewrite Hc' in Hc. rewrite Hn' in Hn. injection Hc as ->. injection Hn as ->.
  split_and!; [simpl; lia|done|]. exists tail. split; [|done].
  constructor; [|done]. rewrite Hh. do 2 f_equal; [f_equal|]; lia.
Qed.

(** The rest of the data after a box is shorter than the data. *)
Lemma next_shorter data ty h t next :
  read_box_header data = Some (ty, h, t) → slice_from data t = Some next →
  (length next < length data)%nat.
Proof.
  intros Hh Hn. apply read_box_header_bounds in Hh as (_ & ? & ?). revert Hn.
  unfold slice_from. destruct (Z.leb_spec t (len data)); [|done]. intros [= <-].
  unfold len in *. rewrite length_drop. lia.
Qed.

Lemma box_in_bounds data ty h t :
  read_box_header data = Some (ty, h, t) →
  ∃ content next, slice_get data h t = Some content ∧ slice_from data t = Some next.
Proof.
  intros Hh. apply read_box_header_slices in Hh as (_ & content & next & _ & _ & _ & ? & ?).
  by exists content, next.
Qed.

Lemma walk_loop_step {S} (visit : BoxType → slice → S → S) fuel data budget s :
  (length data ≤ fuel)%nat → 0 ≤ budget →
  ∃ boxes left, visits data budget boxes left
    ∧ walk_loop visit fuel data budget s = (visit_all visit boxes s, left).
Proof.
  revert data budget s. induction fuel as [|fuel IH]; intros data budget s Hfuel Hb; simpl.
  { exists [], budget. split; [|done]. apply visits_stop; [done|]. left.
    destruct data; [done|]. simpl in Hfuel. lia. }
  destruct (Nat.eqb_spec (length data) 0) as [Hl|Hl].
  { exists [], budget. split; [|done]. apply visits_stop; [done|]. left. by destruct data. }
  destruct (Z.eqb_spec budget 0) as [->|Hb0].
  { exists [], 0. split; [|done]. apply visits_stop; [done|]. by right; left. }
  destruct (read_box_header data) as [[[ty h] t]|] eqn:Hh.
  2: { exists [], budget. split; [|done]. apply visits_stop; [done|]. by right; right. }
  destruct (box_in_bounds _ _ _ _ Hh) as (content & next & Hc & Hn). rewrite Hc, Hn.
  pose proof (next_shorter _ _ _ _ _ Hh Hn).
  destruct (IH next (budget - 1) (visit ty content s)) as (boxes & left & Hv & ->); [lia..|].
  exists ((ty, content) :: boxes), left. split; [|done]. by eapply visits_cons.
Qed.

Lemma walk_boxes_spec {S} (visit : BoxType → slice → S → S) data depth budget s :
  depth ≤ MAX_NESTING_DEPTH → 0 ≤ budget →
  ∃ boxes left, visits data budget boxes left
    ∧ walk_boxes visit data depth budget s = (visit_all visit boxes s, left).
Proof.
  intros Hd Hb. unfold walk_boxes. destruct (Z.ltb_spec MAX_NESTING_DEPTH depth); [lia|].
  by apply walk_loop_step.
Qed.

Lemma walk_boxes_budget {S} (visit : BoxType → slice → S → S) data depth budget s :
  0 ≤ budget → 0 ≤ (walk_boxes visit data depth budget s).2 ≤ budget.
Proof.
  intros Hb. destruct (Z.le_gt_cases depth MAX_NESTING_DEPTH) as [Hd|Hd].
  - destruct (walk_boxes_spec visit data depth budget s Hd Hb) as (? & ? & (? & ? & _) & ->).
    simpl. lia.
  - unfold walk_boxes. destruct (Z.ltb_spec MAX_NESTING_DEPTH depth); simpl; lia.
Qed.

(** What is read out of a tiling: eight bytes of header per box. *)
Lemma tiling_size data boxes tail :
  Tiling data boxes tail →
  8 * Z.of_nat (length boxes) + Z.of_nat (sum_list_with (λ b, length b.2) boxes) + len tail
    ≤ len data.
Proof.
  induction 1 as [|header ty content next boxes tail Hh Ht IH]; simpl; [lia|].
  apply read_box_header_bounds in Hh as (_ & ? & _). rewrite !len_app.
  unfold len in *. lia.
Qed.

(** The properties of the boxes, numbered from [index + 1]. *)
Fixpoint numbered (index : Z) (boxes : list (BoxType * slice)) : list (Z * TransformProperty) :=
  match boxes with
  | [] => []
  | (ty, content) :: rest =>
      match property_of ty content with
      | Some p => [(index + 1, p)]
      | None => []
      end ++ numbered (index + 1) rest
  end.

Lemma collect_loop_step fuel data index budget :
  (length data ≤ fuel)%nat → 0 ≤ budget → 0 ≤ index → index + budget ≤ u32_max →
  ∃ boxes left, visits data budget boxes left
    ∧ collect_loop fuel data index budget = (numbered index boxes, left).
Proof.
  revert data index budget.
  induction fuel as [|fuel IH]; intros data index budget Hfuel Hb Hi Hmax; simpl.
  { exists [], budget. split; [|done]. apply visits_stop; [done|]. left.
    destruct data; [done|]. simpl in Hfuel. lia. }
  destruct (Nat.eqb_spec (length data) 0) as [Hl|Hl].
  { exists [], budget. split; [|done]. apply visits_stop; [done|]. left. by destruct data. }
  destruct (Z.eqb_spec budget 0) as [->|Hb0].
  { exists [], 0. split; [|done]. apply visits_stop; [done|]. by right; left. }
  destruct (read_box_header data) as [[[ty h] t]|] eqn:Hh.
  2: { exists [], budget. split; [|done]. apply visits_stop; [done|]. by right; right. }
  rewrite (proj2 (checked_add_Some u32_max index 1 (index + 1))) by (split; [done|lia]).
  destruct (box_in_bounds _ _ _ _ Hh) as (content & next & Hc & Hn). rewrite Hc, Hn.
  pose proof (next_shorter _ _ _ _ _ Hh Hn).
  destruct (IH next (index + 1) (budget - 1)) as (boxes & left & Hv & ->); [lia..|].
  exists ((ty, content) :: boxes), left. split; [by eapply visits_cons|done].
Qed.

Lemma collect_properties_budget ipco depth budget :
  0 ≤ budget ≤ MAX_BOXES_VISITED → 0 ≤ (collect_properties ipco depth budget).2 ≤ budget.
Proof.
  unfold MAX_BOXES_VISITED. intros Hb. unfold collect_properties.
  destruct (Z.ltb_spec MAX_NESTING_DEPTH depth); simpl; [lia|].
  destruct (collect_loop_step (length ipco) ipco 0 budget) as (? & ? & (? & ? & _) & ->);
    unfold u32_max; simpl; lia.
Qed.

(** ** Bounds of a whole parse *)

Lemma assemble_sound bytes base exts payload q :
  assemble bytes base exts payload = Some q → len payload ≤ MAX_EXIF_LEN →
  len q ≤ MAX_EXIF_LEN ∧
  ∃ pieces, q = payload ++ mjoin pieces ∧ length pieces = length exts
    ∧ Forall (λ piece, ∃ pre post, bytes = pre ++ piece ++ post) pieces.
Proof.
  revert payload. induction exts as [|[off l] exts IH]; intros payload; simpl.
  - intros [= <-] Hp. split; [done|]. exists []. by rewrite app_nil_r.
  - intros H Hp. apply bind_Some in H as (start & Hstart & H).
    apply bind_Some in H as (end_ & Hend & H). apply bind_Some in H as (extent & Hext & H).
    apply bind_Some in H as (total & Htotal & H).
    destruct (Z.ltb_spec MAX_EXIF_LEN total) as [|Hle]; [done|].
    apply checked_add_Some in Htotal as [-> _].
    destruct (IH _ H) as (Hq & pieces & -> & Hlen & Hall); [by rewrite len_app|].
    split; [done|]. exists (extent :: pieces). simpl. rewrite <- app_assoc.
    split_and!; [done|by rewrite Hlen|]. constructor; [|done].
    revert Hext. unfold slice_get. destruct (_ && _); [|done]. intros [= <-].
    exists (take (Z.to_nat start) bytes), (drop (Z.to_nat (end_ - start)) (drop (Z.to_nat start) bytes)).
    by rewrite take_drop, take_drop.
Qed.

Lemma extract_exif_tiff_bounds bytes entry tiff :
  extract_exif_tiff bytes entry = Some tiff →
  len tiff ≤ MAX_EXIF_LEN - 4 ∧ (slice_starts_with TIFF_II tiff || slice_starts_with TIFF_MM tiff) = true.
Proof.
  unfold extract_exif_tiff. destruct (negb _); [done|]. intros H.
  apply bind_Some in H as (payload & Hp & H).
  destruct (Z.ltb_spec (len payload) 4); [done|]. cbv zeta in H.
  apply bind_Some in H as (t & Ht & H).
  destruct (slice_starts_with TIFF_II t || slice_starts_with TIFF_MM t) eqn:Hm; [|done].
  injection H as ->. split; [|done].
  apply assemble_sound in Hp as [Hp _]; [|by vm_compute].
  pose proof (from_be_bound (take 4 payload)) as [Hoff _].
  revert Ht. unfold slice_from. destruct (Z.leb_spec (from_be (take 4 payload)) (len (drop 4 payload)));
    [|done].
  intros [= <-]. unfold len in *. rewrite !length_drop in *. lia.
Qed.

Lemma find_exif_item_id_budget iinf depth budget :
  0 ≤ budget → 0 ≤ (find_exif_item_id iinf depth budget).2 ≤ budget.
Proof.
  intros Hb. unfold find_exif_item_id. destruct (run _ iinf); [by apply walk_boxes_budget|simpl; lia].
Qed.

Lemma extract_exif_payload_bounds bytes iinf iloc budget :
  0 ≤ budget →
  0 ≤ (extract_exif_payload bytes iinf iloc budget).2 ≤ budget ∧
  (∀ tiff, (extract_exif_payload bytes iinf iloc budget).1 = Some tiff →
   len tiff ≤ MAX_EXIF_LEN - 4
   ∧ (slice_starts_with TIFF_II tiff || slice_starts_with TIFF_MM tiff) = true).
Proof.
  intros Hb. unfold extract_exif_payload. destruct iinf as [iinf|]; simpl; [|split; [lia|done]].
  pose proof (find_exif_item_id_budget iinf 2 budget Hb) as H.
  destruct (find_exif_item_id iinf 2 budget) as [id b]. simpl in *. split; [done|].
  intros tiff Ht. apply bind_Some in Ht as (? & _ & Ht). apply bind_Some in Ht as (? & _ & Ht).
  apply bind_Some in Ht as (? & _ & Ht). by eapply extract_exif_tiff_bounds.
Qed.

Lemma resolve_orientation_budget pitm iprp budget :
  0 ≤ budget ≤ MAX_BOXES_VISITED → 0 ≤ (resolve_orientation pitm iprp budget).2 ≤ budget.
Proof.
  intros Hb. unfold resolve_orientation.
  destruct (pitm ≫= parse_primary_item_id); [|simpl; lia]. destruct iprp as [iprp|]; [|simpl; lia].
  match goal with |- context [walk_boxes ?v iprp 2 budget ?s] =>
    pose proof (walk_boxes_budget v iprp 2 budget s ltac:(lia)) as H;
    destruct (walk_boxes v iprp 2 budget s) as [[[ipco|] ipma] b] end; simpl in *; [|lia].
  pose proof (collect_properties_budget ipco 3 b ltac:(lia)) as Hc.
  destruct (collect_properties ipco 3 b). simpl in *. lia.
Qed.

(** Whatever the bytes are, one parse visits at most 4096 boxes in all, and a
    recovered EXIF block is shorter than 1 MiB and starts with a TIFF byte-order
    marker. *)
Theorem parse_bounded bytes :
  0 ≤ (parse_budgeted bytes).2 ≤ MAX_BOXES_VISITED ∧
  (∀ tiff, am_exif (parse_avif_meta bytes) = Some tiff →
   len tiff ≤ MAX_EXIF_LEN - 4
   ∧ (slice_starts_with TIFF_II tiff || slice_starts_with TIFF_MM tiff) = true).
Proof.
  unfold parse_avif_meta, parse_budgeted.
  pose proof (walk_boxes_budget (keep_first (box_type "meta")) bytes 0 MAX_BOXES_VISITED None)
    as H1. fold (find_first_box bytes 0 MAX_BOXES_VISITED (box_type "meta")) in H1.
  destruct (find_first_box _ _ _ _) as [meta b1]. simpl in H1.
  specialize (H1 ltac:(unfold MAX_BOXES_VISITED; lia)).
  destruct (meta ≫= _) as [body|]; [|simpl; split; [lia|done]].
  pose proof (walk_boxes_budget visit_meta body 1 b1 (mk_MetaBoxes None None None None)) as H2.
  destruct (walk_boxes _ body 1 b1 _) as [m b2]. simpl in H2. specialize (H2 ltac:(lia)).
  pose proof (resolve_orientation_budget (pitm_content m) (iprp_content m) b2 ltac:(lia)) as H3.
  destruct (resolve_orientation _ _ b2) as [o b3]. simpl in H3.
  pose proof (extract_exif_payload_bounds bytes (iinf_content m) (iloc_content m) b3 ltac:(lia))
    as [H4 H5].
  destruct (extract_exif_payload _ _ _ b3) as [exif b4]. simpl in *. split; [lia|done].
Qed.

(** ** The dihedral algebra

Points of the plane; [irot] turns counter-clockwise by 90 degrees a step,
[imir] mirrors in an axis through the origin. *)
Abbreviation point := (Z * Z)%type.

Definition quarter_turn (p : point) : point := (- p.2, p.1).
Definition mirror_vertical_axis (p : point) : point := (- p.1, p.2).
Definition mirror_horizontal_axis (p : point) : point := (p.1, - p.2).
Definition turn (n : nat) (p : point) : point := Nat.iter n quarter_turn p.

(** What each property does to a point (ISO/IEC 23008-12, 6.5.10 and 6.5.12). *)
Definition property_action (prop : TransformProperty) (p : point) : point :=
  match prop with
  | PropRotate a => turn (Z.to_nat a) p
  | PropMirror axis => if axis =? 0 then mirror_vertical_axis p else mirror_horizontal_axis p
  end.

(** What each [Orientation] does, by its name: clockwise rotations, then a
    horizontal flip (mirroring left and right) where the name says so. *)
Definition orientation_action (o : Orientation) (p : point) : point :=
  match o with
  | NoTransforms => p
  | Rotate90 => turn 3 p
  | Rotate180 => turn 2 p
  | Rotate270 => turn 1 p
  | FlipHorizontal => mirror_vertical_axis p
  | FlipVertical => mirror_horizontal_axis p
  | Rotate90FlipH => mirror_vertical_axis (turn 3 p)
  | Rotate270FlipH => mirror_vertical_axis (turn 1 p)
  end.

(** [z -> z * i^a] and [z -> conj(z) * i^c]. *)
Definition transform_action (t : Transform) (p : point) : point :=
  match t with
  | Rotation a => turn (Z.to_nat a) p
  | Reflection c => turn (Z.to_nat c) (mirror_horizontal_axis p)
  end.

Definition transform_wf (t : Transform) : Prop :=
  match t with Rotation a | Reflection a => a ∈ [0; 1; 2; 3] end.

Definition property_wf (prop : TransformProperty) : Prop :=
  match prop with PropRotate a => a ∈ [0; 1; 2; 3] | PropMirror axis => axis ∈ [0; 1] end.

Lemma mod4_wf x : x mod 4 ∈ [0; 1; 2; 3].
Proof.
  pose proof (Z.mod_pos_bound x 4 ltac:(lia)). rewrite !elem_of_cons, elem_of_nil. lia.
Qed.

Lemma then_wf t op : transform_wf (then_ t op).
Proof. destruct t, op; apply mod4_wf. Qed.

Ltac cases_of H :=
  rewrite ?elem_of_cons, ?elem_of_nil in H; destruct_or?; try done; subst.

(** [then_] is composition, [self] first. *)
Lemma then_action t op p :
  transform_wf t → transform_wf op →
  transform_action (then_ t op) p = transform_action op (transform_action t p).
Proof.
  intros Ht Hop. destruct p as [x y].
  destruct t as [a|a], op as [b|b]; simpl in Ht, Hop;
    rewrite !elem_of_cons, elem_of_nil in Ht, Hop; destruct_or? Ht; destruct_or? Hop;
    try done; subst; unfold transform_action, turn, quarter_turn, mirror_horizontal_axis; simpl;
    rewrite ?Z.opp_involutive; done.
Qed.

Lemma property_transform_action prop p :
  property_wf prop → transform_wf (property_transform prop)
  ∧ transform_action (property_transform prop) p = property_action prop p.
Proof.
  intros Hp. destruct p as [x y]. destruct prop as [a|a]; simpl in *; [done|].
  rewrite !elem_of_cons, elem_of_nil in Hp. destruct_or? Hp; try done; subst; simpl;
    (split; [rewrite !elem_of_cons; lia|]);
    unfold turn, quarter_turn, mirror_vertical_axis, mirror_horizontal_axis; simpl;
    by rewrite ?Z.opp_involutive.
Qed.

Lemma into_orientation_action t p :
  transform_wf t → orientation_action (into_orientation t) p = transform_action t p.
Proof.
  intros Ht. destruct p as [x y]. destruct t as [a|a]; simpl in Ht;
    rewrite !elem_of_cons, elem_of_nil in Ht; destruct_or? Ht; try done; subst; simpl;
    unfold turn, quarter_turn, mirror_vertical_axis, mirror_horizontal_axis; simpl;
    by rewrite ?Z.opp_involutive.
Qed.

(** The content of the first box of a type. *)
Definition first_box (target : BoxType) (boxes : list (BoxType * slice)) : option slice :=
  snd <$> List.find (λ b, bool_decide (b.1 = target)) boxes.

Lemma keep_first_find target boxes found :
  visit_all (keep_first target) boxes found =
  match found with Some _ => found | None => first_box target boxes end.
Proof.
  unfold visit_all, first_box. revert found.
  induction boxes as [|[ty c] boxes IH]; intros found; simpl; [by destruct found|].
  rewrite IH. destruct found as [f|]; simpl; [done|].
  destruct (decide (ty = target)); [by rewrite bool_decide_eq_true_2|by rewrite bool_decide_eq_false_2].
Qed.

Lemma visit_all_pair {S T} (f : BoxType → slice → S → S) (g : BoxType → slice → T → T) boxes s t :
  visit_all (λ ty c '(s, t), (f ty c s, g ty c t)) boxes (s, t) =
  (visit_all f boxes s, visit_all g boxes t).
Proof. unfold visit_all. revert s t. induction boxes as [|b boxes IH]; intros s t; simpl; auto. Qed.

Lemma land_3_wf x : Z.land x 3 ∈ [0; 1; 2; 3].
Proof. change 3 with (Z.ones 2). rewrite Z.land_ones by lia. apply (mod4_wf x). Qed.

Lemma land_1_wf x : Z.land x 1 ∈ [0; 1].
Proof.
  change 1 with (Z.ones 1) at 1. rewrite Z.land_ones by lia. pose proof (Z.mod_pos_bound x (2 ^ 1) ltac:(lia)).
  change (2 ^ 1) with 2 in *. rewrite !elem_of_cons, elem_of_nil. lia.
Qed.

Lemma property_of_wf ty content p : property_of ty content = Some p → property_wf p.
Proof.
  unfold property_of. case_decide; [|case_decide; [|done]];
    intros (x & _ & ->)%fmap_Some; [apply land_3_wf|apply land_1_wf].
Qed.

Lemma find_property_wf index boxes i p :
  find_property (numbered index boxes) i = Some p → property_wf p.
Proof.
  unfold find_property. intros ([j q] & Hf & ->)%fmap_Some.
  apply List.find_some in Hf as [Hin _]. revert index Hin.
  induction boxes as [|[ty c] boxes IH]; intros index Hin; simpl in Hin; [done|].
  destruct (property_of ty c) eqn:Hp; simpl in Hin; [|by eapply IH].
  destruct Hin as [[= _ <-]|Hin]; [by eapply property_of_wf|by eapply IH].
Qed.

(** Applying a list of property indices to a point, one after the other. *)
Definition apply_indices (properties : list (Z * TransformProperty)) (indices : list Z) (p : point)
  : point :=
  fold_left (λ q i, match find_property properties i with
                    | Some prop => property_action prop q
                    | None => q
                    end) indices p.

Lemma compose_transforms_action boxes indices p :
  transform_wf (compose_transforms (numbered 0 boxes) indices) ∧
  transform_action (compose_transforms (numbered 0 boxes) indices) p =
  apply_indices (numbered 0 boxes) indices p.
Proof.
  unfold compose_transforms, apply_indices.
  assert (∀ t q, transform_wf t → transform_action t p = q →
    transform_wf (fold_left (λ transform index,
      match find_property (numbered 0 boxes) index with
      | Some property => then_ transform (property_transform property)
      | None => transform end) indices t) ∧
    transform_action (fold_left (λ transform index,
      match find_property (numbered 0 boxes) index with
      | Some property => then_ transform (property_transform property)
      | None => transform end) indices t) p =
    fold_left (λ q i, match find_property (numbered 0 boxes) i with
                    | Some prop => property_action prop q
                    | None => q
                    end) indices q) as H.
  { induction indices as [|i indices IH]; intros t q Ht Hq; simpl; [done|].
    destruct (find_property (numbered 0 boxes) i) as [prop|] eqn:Hf; [|by apply IH].
    apply find_property_wf in Hf. apply IH; [apply then_wf|].
    destruct (property_transform_action prop q Hf) as [Hw Ha].
    by rewrite then_action, Hq, Ha. }
  apply H; [|done]. simpl. rewrite elem_of_cons. by left.
Qed.

(** The recovered orientation moves every point as the primary item's [irot]
    and [imir] properties do, applied one after the other in the order [ipma]
    lists them: the property with index [i] is the [i]-th box of [ipco]. *)
Theorem resolved_orientation_composes pitm iprp budget o :
  0 ≤ budget ≤ MAX_BOXES_VISITED →
  (resolve_orientation pitm iprp budget).1 = Some o →
  ∃ pitm_box iprp_box iprp_children ipco ipma props id indices b b',
    pitm = Some pitm_box ∧ parse_primary_item_id pitm_box = Some id
    ∧ iprp = Some iprp_box ∧ visits iprp_box budget iprp_children b
    ∧ first_box (box_type "ipco") iprp_children = Some ipco
    ∧ first_box (box_type "ipma") iprp_children = Some ipma
    ∧ visits ipco b props b'
    ∧ parse_primary_item_associations ipma id = Some indices
    ∧ ∀ p, orientation_action o p = apply_indices (numbered 0 props) indices p.
Proof.
  intros Hb. unfold resolve_orientation. destruct pitm as [pitm_box|]; [|done]. simpl.
  destruct (parse_primary_item_id pitm_box) as [id|] eqn:Hid; [|done].
  destruct iprp as [iprp_box|]; [|done].
  match goal with |- context [walk_boxes ?v iprp_box 2 budget ?s] =>
    destruct (walk_boxes_spec v iprp_box 2 budget s) as (children & b & Hv & Hw); [done|lia|] end.
  rewrite Hw, visit_all_pair, !keep_first_find. clear Hw.
  destruct (first_box (box_type "ipco") children) as [ipco|] eqn:Hipco; [|done].
  assert (0 ≤ b ≤ MAX_BOXES_VISITED) as Hb' by (destruct Hv as (-> & ? & _); lia).
  unfold collect_properties. change (MAX_NESTING_DEPTH <? 3) with false. cbv iota.
  destruct (collect_loop_step (length ipco) ipco 0 b) as (props & b' & Hp & ->);
    [lia..|unfold MAX_BOXES_VISITED, u32_max in *; lia|].
  simpl. intros H. apply bind_Some in H as (indices & Hi & [= <-]).
  apply bind_Some in Hi as (ipma & Hipma & Hi).
  exists pitm_box, iprp_box, children, ipco, ipma, props, id, indices, b, b'.
  split_and!; try done. intros p.
  destruct (compose_transforms_action props indices p) as [Hwf <-].
  by apply into_orientation_action.
Qed.

(** ** An encoder, and what the reader recovers from it *)

(** One box with a 32-bit size. *)
Definition enc_box (b : BoxType * slice) : slice := to_be 4 (8 + len b.2) ++ b.1 ++ b.2.
Definition enc_boxes (bs : list (BoxType * slice)) : slice := mjoin (enc_box <$> bs).

Definition box_ok (b : BoxType * slice) : Prop := len b.1 = 4 ∧ 8 + len b.2 ≤ u32_max.

Lemma len_to_be n v : len (to_be n v) = Z.of_nat n.
Proof. unfold len. by rewrite to_be_length. Qed.

Lemma len_enc_box b : len b.1 = 4 → len (enc_box b) = 8 + len b.2.
Proof. intros H. unfold enc_box. rewrite !len_app, len_to_be, H. lia. Qed.

Lemma read_box_header_enc b rest :
  box_ok b → len (enc_box b ++ rest) ≤ usize_max →
  read_box_header (enc_box b ++ rest) = Some (b.1, 8, 8 + len b.2).
Proof.
  intros [Hty Hlen] Hmax. unfold read_box_header. pose proof (len_nonneg b.2) as Hpos.
  assert (len (enc_box b ++ rest) = 8 + len b.2 + len rest) as Hall
    by (rewrite len_app, len_enc_box; done). pose proof (len_nonneg rest) as Hrest.
  assert (enc_box b ++ rest = (to_be 4 (8 + len b.2) ++ b.1 ++ []) ++ b.2 ++ rest) as Heq
    by (unfold enc_box; by rewrite app_nil_r, <- !app_assoc).
  set (data := enc_box b ++ rest) in *.
  match goal with |- context [run ?m data] =>
    assert (∀ d, d = data → run m d = Some (b.1, (8, 8 + len b.2))) as Hrun end.
  { intros d ->. rewrite Heq. apply run_reads; [|by rewrite <- Heq].
    eapply reads_bind.
    { apply (reads_to_be 4); [done|]. unfold u32_max in *. lia. }
    eapply reads_bind; [by apply reads_bytes|].
    destruct (Z.eqb_spec (8 + len b.2) 1); [lia|]. destruct (Z.eqb_spec (8 + len b.2) 0); [lia|].
    rewrite <- (app_nil_r []). eapply reads_bind; apply reads_ret. }
  rewrite (Hrun data eq_refl). simpl. rewrite Hall.
  destruct (Z.ltb_spec (8 + len b.2) 8); [lia|].
  by destruct (Z.ltb_spec (8 + len b.2 + len rest) (8 + len b.2)); [lia|].
Qed.

Lemma slices_enc b rest :
  len b.1 = 4 →
  slice_get (enc_box b ++ rest) 8 (8 + len b.2) = Some b.2 ∧
  slice_from (enc_box b ++ rest) (8 + len b.2) = Some rest.
Proof.
  intros Hty. assert (enc_box b ++ rest = (to_be 4 (8 + len b.2) ++ b.1) ++ b.2 ++ rest) as Heq
    by (unfold enc_box; by rewrite <- !app_assoc).
  assert (len (to_be 4 (8 + len b.2) ++ b.1) = 8) as H8 by (rewrite len_app, len_to_be, Hty; lia).
  split.
  - rewrite Heq. revert H8. generalize (to_be 4 (8 + len b.2) ++ b.1). intros h <-.
    apply slice_get_middle.
  - unfold slice_from. rewrite len_app, len_enc_box by done. pose proof (len_nonneg rest).
    destruct (Z.leb_spec (8 + len b.2) (8 + len b.2 + len rest)); [|lia].
    rewrite <- (len_enc_box b) by done. unfold len. by rewrite Nat2Z.id, drop_app_length.
Qed.

Lemma enc_boxes_cons b bs : enc_boxes (b :: bs) = enc_box b ++ enc_boxes bs.
Proof. done. Qed.

(** A walk over encoded boxes visits each of them. *)
Lemma walk_loop_enc {S} (visit : BoxType → slice → S → S) bs fuel budget s :
  Forall box_ok bs → len (enc_boxes bs) ≤ usize_max →
  (length (enc_boxes bs) ≤ fuel)%nat → Z.of_nat (length bs) ≤ budget →
  walk_loop visit fuel (enc_boxes bs) budget s
    = (visit_all visit bs s, budget - Z.of_nat (length bs)).
Proof.
  intros Hok. revert fuel budget s. induction Hok as [|b bs Hb Hok IH]; intros fuel budget s.
  - intros _ _ _. destruct fuel; simpl; f_equal; lia.
  - rewrite enc_boxes_cons. intros Hmax Hfuel Hbudget.
    pose proof (len_enc_box b (proj1 Hb)) as Hlb. pose proof (len_nonneg b.2).
    rewrite length_app in Hfuel. unfold len in Hlb.
    destruct fuel as [|fuel]; [lia|]. cbn [walk_loop].
    destruct (Nat.eqb_spec (length (enc_box b ++ enc_boxes bs)) 0) as [Hz|_];
      [rewrite length_app in Hz; unfold len in *; lia|].
    destruct (Z.eqb_spec budget 0) as [->|_]; [simpl in Hbudget; lia|].
    rewrite read_box_header_enc by done.
    destruct (slices_enc b (enc_boxes bs) (proj1 Hb)) as [-> ->].
    rewrite len_app in Hmax. pose proof (len_nonneg (enc_box b)). simpl length in Hbudget.
    rewrite IH by lia. destruct b as [ty c]. simpl. f_equal. lia.
Qed.

Lemma walk_boxes_enc {S} (visit : BoxType → slice → S → S) bs depth budget s :
  depth ≤ MAX_NESTING_DEPTH → Forall box_ok bs → len (enc_boxes bs) ≤ usize_max →
  Z.of_nat (length bs) ≤ budget →
  walk_boxes visit (enc_boxes bs) depth budget s
    = (visit_all visit bs s, budget - Z.of_nat (length bs)).
Proof.
  intros Hd Hok Hmax Hb. unfold walk_boxes. destruct (Z.ltb_spec MAX_NESTING_DEPTH depth); [lia|].
  by apply walk_loop_enc.
Qed.

(** *** Properties *)

Definition enc_property (p : TransformProperty) : BoxType * slice :=
  match p with
  | PropRotate a => (box_type "irot", to_be 1 a)
  | PropMirror axis => (box_type "imir", to_be 1 axis)
  end.

Fixpoint number_from (index : Z) (props : list TransformProperty) : list (Z * TransformProperty) :=
  match props with
  | [] => []
  | p :: rest => (index + 1, p) :: number_from (index + 1) rest
  end.

Lemma property_of_enc p :
  property_wf p → property_of (enc_property p).1 (enc_property p).2 = Some p.
Proof.
  intros Hp. destruct p as [a|a]; simpl in Hp; rewrite !elem_of_cons, elem_of_nil in Hp;
    destruct_or? Hp; try done; by subst.
Qed.

Lemma enc_property_ok p : box_ok (enc_property p).
Proof. by destruct p. Qed.

Lemma collect_loop_enc props fuel index budget :
  Forall property_wf props → len (enc_boxes (enc_property <$> props)) ≤ usize_max →
  (length (enc_boxes (enc_property <$> props)) ≤ fuel)%nat →
  Z.of_nat (length props) ≤ budget → 0 ≤ index → index + budget ≤ u32_max →
  collect_loop fuel (enc_boxes (enc_property <$> props)) index budget
    = (number_from index props, budget - Z.of_nat (length props)).
Proof.
  intros Hok. revert fuel index budget.
  induction Hok as [|p props Hp Hok IH]; intros fuel index budget.
  - intros _ _ _ _ _. destruct fuel; simpl; f_equal; lia.
  - rewrite fmap_cons, enc_boxes_cons. intros Hmax Hfuel Hbudget Hi Hib.
    pose proof (enc_property_ok p) as Hb. set (b := enc_property p) in *.
    pose proof (len_enc_box b (proj1 Hb)) as Hlb. pose proof (len_nonneg b.2).
    rewrite length_app in Hfuel. unfold len in Hlb.
    destruct fuel as [|fuel]; [lia|]. cbn [collect_loop].
    match goal with |- context [(?x =? 0)%nat] => destruct (Nat.eqb_spec x 0) as [Hz|_] end;
      [rewrite length_app in Hz; unfold len in *; lia|].
    destruct (Z.eqb_spec budget 0) as [->|_]; [simpl in Hbudget; lia|].
    simpl length in Hbudget.
    rewrite read_box_header_enc by done.
    destruct (slices_enc b (enc_boxes (enc_property <$> props)) (proj1 Hb)) as [-> ->].
    rewrite (proj2 (checked_add_Some u32_max index 1 (index + 1))) by (split; [done|lia]).
    rewrite len_app in Hmax. pose proof (len_nonneg (enc_box b)).
    rewrite IH by lia. subst b. rewrite property_of_enc by done. simpl. f_equal. lia.
Qed.

Lemma find_property_number_from index props (i : nat) p :
  props !! i = Some p → find_property (number_from index props) (index + 1 + Z.of_nat i) = Some p.
Proof.
  unfold find_property. revert index i. induction props as [|q props IH]; intros index i Hi; [done|].
  simpl. destruct i as [|i]; simpl in Hi.
  - injection Hi as ->. by rewrite Z.add_0_r, Z.eqb_refl.
  - destruct (Z.eqb_spec (index + 1) (index + 1 + Z.of_nat (S i))); [lia|].
    replace (index + 1 + Z.of_nat (S i)) with (index + 1 + 1 + Z.of_nat i) by lia.
    by apply IH.
Qed.

(** *** The boxes of the [meta] box *)

(** Version 0, no flags. *)
Definition full_box : slice := to_be 4 0.

Definition enc_pitm (id : Z) : slice := full_box ++ to_be 2 id.

Definition enc_infe (item : Z * BoxType) : BoxType * slice :=
  (box_type "infe", to_be 1 2 ++ to_be 3 0 ++ to_be 2 item.1 ++ to_be 2 0 ++ item.2).

Definition enc_iinf (items : list (Z * BoxType)) : slice :=
  full_box ++ to_be 2 (Z.of_nat (length items)) ++ enc_boxes (enc_infe <$> items).

(** One extent per item, 4-byte fields. *)
Definition enc_iloc_item (e : Z * (Z * Z)) : slice :=
  to_be 2 e.1 ++ to_be 2 0 ++ to_be 4 0 ++ to_be 2 1 ++ to_be 4 e.2.1 ++ to_be 4 e.2.2.

Definition enc_iloc (items : list (Z * (Z * Z))) : slice :=
  full_box ++ to_be 1 68 ++ to_be 1 64 ++ to_be 2 (Z.of_nat (length items))
  ++ mjoin (enc_iloc_item <$> items).

(** All properties, in order, associated with one item. *)
Definition enc_ipma (id : Z) (indices : list Z) : slice :=
  full_box ++ to_be 4 1 ++ to_be 2 id ++ to_be 1 (Z.of_nat (length indices))
  ++ mjoin (to_be 1 <$> indices).

Lemma reads_version v : 0 ≤ v < 256 → reads read_u8 (to_be 1 v) v.
Proof. intros. by apply (reads_to_be 1). Qed.

Lemma parse_enc_pitm id : 0 ≤ id < 2 ^ 16 → parse_primary_item_id (enc_pitm id) = Some id.
Proof.
  intros Hid. unfold parse_primary_item_id. rewrite <- (app_nil_r (enc_pitm id)).
  apply run_reads; [|by vm_compute].
  change (enc_pitm id) with (to_be 1 0 ++ to_be 3 0 ++ to_be 2 id).
  eapply reads_bind; [by apply reads_version|]. eapply reads_bind; [by apply reads_skip|].
  simpl. apply (reads_to_be 2); [done|lia].
Qed.

Lemma mjoin_cons {A} (x : list A) xs : mjoin (x :: xs) = x ++ mjoin xs.
Proof. done. Qed.

Lemma mjoin_app {A} (xs ys : list (list A)) : mjoin (xs ++ ys) = mjoin xs ++ mjoin ys.
Proof. induction xs as [|x xs IH]; [done|]. simpl app. by rewrite !mjoin_cons, IH, app_assoc. Qed.

(** Reading a run of numbers an encoder wrote. *)
Lemma reads_next {A} n v k (f : Z → reader A) rest a :
  k = Z.of_nat n → 0 ≤ v < 256 ^ k → reads (f v) rest a →
  reads ((bs ← read_bytes k; mret (from_be bs)) ≫= f) (to_be n v ++ rest) a.
Proof. intros Hk Hv Hf. eapply reads_bind; [by apply reads_to_be|done]. Qed.

Lemma reads_skip_next {A} n bs (m : reader A) rest a :
  n = len bs → reads m rest a → reads (_ ← skip n; m) (bs ++ rest) a.
Proof. intros Hn Hm. eapply reads_bind; [by apply reads_skip|done]. Qed.

Lemma full_box_app rest : full_box ++ rest = to_be 1 0 ++ to_be 3 0 ++ rest.
Proof. done. Qed.

Definition usize_fits (l : slice) : Prop := len l ≤ usize_max.

Lemma run_all {A} (m : reader A) bs a : reads m bs a → usize_fits bs → run m bs = Some a.
Proof.
  intros Hm Hf. rewrite <- (app_nil_r bs) at 1. apply run_reads; [done|].
  by rewrite app_nil_r.
Qed.

Lemma collect_indices indices :
  Forall (λ i, 0 ≤ i < 128) indices →
  reads (collect (length indices) (i ← read_u8; mret (Z.land i 127)))
    (mjoin (to_be 1 <$> indices)) indices.
Proof.
  intros Hi. rewrite <- (list_fmap_id indices) at 3.
  apply (reads_collect _ (to_be 1) id). intros i Hin.
  rewrite Forall_forall in Hi. specialize (Hi i Hin).
  assert (Z.land i 127 = i) as Hl.
  { change 127 with (Z.ones 7). rewrite Z.land_ones by lia. apply Z.mod_small.
    change (2 ^ 7) with 128. lia. }
  rewrite <- (app_nil_r (to_be 1 i)). eapply reads_bind; [by apply reads_version; lia|].
  rewrite Hl. apply reads_ret.
Qed.

Lemma parse_enc_ipma id indices :
  0 ≤ id < 2 ^ 16 → Forall (λ i, 0 ≤ i < 128) indices → (length indices < 256)%nat →
  parse_primary_item_associations (enc_ipma id indices) id = Some indices.
Proof.
  intros Hid Hi Hlen. unfold parse_primary_item_associations, enc_ipma.
  rewrite full_box_app. erewrite run_all; [done| |].
  - apply (reads_next 1); [done..|]. eapply reads_bind; [by apply (reads_bytes 3)|].
    cbv zeta. change (from_be (to_be 3 0)) with 0. change (1 <=? 0) with false.
    change (negb (Z.land 0 1 =? 0)) with false. cbv iota.
    apply (reads_next 4); [done..|]. change (Z.to_nat 1) with 1%nat.
    apply (reads_for_each _ (λ _ : unit, []) []); [set_solver| |simpl; lia].
    apply (reads_next 2); [done|simpl; lia|]. apply (reads_next 1); [done|simpl; lia|].
    rewrite Z.eqb_refl, Nat2Z.id. apply (reads_map _ Some). by apply collect_indices.
  - unfold usize_fits. rewrite !len_app, !len_to_be.
    assert (len (mjoin (to_be 1 <$> indices)) = Z.of_nat (length indices)) as ->.
    { clear. induction indices as [|i l IH]; [done|]. rewrite fmap_cons, mjoin_cons, len_app, len_to_be, IH. simpl length. lia. }
    unfold usize_max, u64_max. lia.
Qed.

Lemma parse_enc_infe item :
  0 ≤ item.1 < 2 ^ 16 → len item.2 = 4 →
  parse_infe_exif_item_id (enc_infe item).2 =
  if decide (item.2 = box_type "Exif") then Some item.1 else None.
Proof.
  intros Hid Hty. unfold parse_infe_exif_item_id, enc_infe. cbn [snd].
  erewrite run_all; [done| |].
  - apply (reads_next 1); [done..|]. apply reads_skip_next; [done|].
    change (2 =? 2) with true. cbv iota. apply (reads_next 2); [done|simpl; lia|].
    apply reads_skip_next; [done|].
    apply (reads_map _ (λ t, if decide (t = box_type "Exif") then Some item.1 else None)).
    by apply reads_bytes.
  - unfold usize_fits. rewrite !len_app, !len_to_be, Hty. by vm_compute.
Qed.

Lemma reads_collect_one {A} (body : reader A) bs a :
  reads body bs a → reads (collect 1 body) bs [a].
Proof.
  intros H. simpl. rewrite <- (app_nil_r bs). eapply reads_bind; [done|].
  apply (reads_map (mret []) (λ xs, a :: xs)), reads_ret.
Qed.

(** One [iloc] entry, under the field widths [enc_iloc] declares. *)
Lemma reads_iloc_item target e :
  0 ≤ e.1 < 2 ^ 16 → 0 ≤ e.2.1 < 2 ^ 32 → 0 ≤ e.2.2 < 2 ^ 32 →
  reads (item_id ← read_u16;
         construction_method ← mret 0;
         _ ← skip 2;
         base_offset ← read_uint 4;
         extent_count ← read_u16;
         extents ← collect (Z.to_nat extent_count) (
           _ ← mret 0;
           extent_offset ← read_uint 4;
           extent_length ← read_uint 4;
           mret (extent_offset, extent_length));
         mret (if item_id =? target
               then Some (mk_IlocEntry construction_method base_offset extents) else None))
    (enc_iloc_item e) (if e.1 =? target then Some (mk_IlocEntry 0 0 [e.2]) else None).
Proof.
  intros Hid Ho Hl. unfold enc_iloc_item. apply (reads_next 2); [done|simpl; lia|].
  rewrite <- (app_nil_l (to_be 2 0 ++ _)). eapply reads_bind; [apply reads_ret|].
  apply reads_skip_next; [done|]. apply (reads_next 4); [done..|]. apply (reads_next 2); [done..|].
  apply (reads_map _ (λ exts, if e.1 =? target then Some (mk_IlocEntry 0 0 exts) else None)).
  apply reads_collect_one. rewrite <- (app_nil_l (to_be 4 e.2.1 ++ _)).
  eapply reads_bind; [apply reads_ret|]. apply (reads_next 4); [done|simpl; lia|].
  rewrite <- (app_nil_r (to_be 4 e.2.2)). apply (reads_next 4); [done|simpl; lia|].
  destruct e as [? []]. apply reads_ret.
Qed.

Lemma len_iloc_items items : len (mjoin (enc_iloc_item <$> items)) = 18 * Z.of_nat (length items).
Proof.
  induction items as [|e items IH]; [done|]. rewrite fmap_cons, mjoin_cons.
  unfold enc_iloc_item at 1. rewrite !len_app, !len_to_be, IH. simpl length. lia.
Qed.

(** The entry of an item is found wherever it stands in the list. *)
Lemma find_enc_iloc items1 id off l items2 :
  Forall (λ e, 0 ≤ e.1 < 2 ^ 16 ∧ e.1 ≠ id ∧ 0 ≤ e.2.1 < 2 ^ 32 ∧ 0 ≤ e.2.2 < 2 ^ 32) items1 →
  0 ≤ id < 2 ^ 16 → 0 ≤ off < 2 ^ 32 → 0 ≤ l < 2 ^ 32 →
  Z.of_nat (length (items1 ++ (id, (off, l)) :: items2)) < 2 ^ 16 →
  find_iloc_entry (enc_iloc (items1 ++ (id, (off, l)) :: items2)) id
    = Some (mk_IlocEntry 0 0 [(off, l)]).
Proof.
  intros Hitems Hid Hoff Hl Hlen. set (items := items1 ++ _) in *.
  assert (enc_iloc items = (full_box ++ to_be 1 68 ++ to_be 1 64
      ++ to_be 2 (Z.of_nat (length items))
      ++ mjoin (enc_iloc_item <$> items1) ++ enc_iloc_item (id, (off, l)))
      ++ mjoin (enc_iloc_item <$> items2)) as Heq.
  { unfold enc_iloc. subst items. rewrite fmap_app, mjoin_app, fmap_cons, mjoin_cons.
    by rewrite <- !app_assoc. }
  assert (len (enc_iloc items) ≤ usize_max) as Hmax.
  { unfold enc_iloc. rewrite !len_app, len_iloc_items, !len_to_be.
    change (len full_box) with 4. unfold usize_max, u64_max. lia. }
  unfold find_iloc_entry. rewrite Heq in *. erewrite run_reads; [done| |done].
  rewrite full_box_app. apply (reads_next 1); [done..|]. apply reads_skip_next; [done|].
  apply (reads_next 1); [done..|]. apply (reads_next 1); [done..|]. cbv zeta.
  change ((0 =? 1) || (0 =? 2)) with false. change (0 <? 2) with true.
  change (Z.shiftr 68 4) with 4. change (Z.land 68 15) with 4. change (Z.shiftr 64 4) with 4.
  cbn [andb]. cbv iota. apply (reads_next 2); [done|simpl; lia|]. rewrite Nat2Z.id.
  apply (reads_for_each _ enc_iloc_item items1).
  - intros e He. rewrite Forall_forall in Hitems. destruct (Hitems e He) as (? & Hne & ? & ?).
    pose proof (reads_iloc_item id e) as Hr. apply Z.eqb_neq in Hne. rewrite Hne in Hr. by apply Hr.
  - pose proof (reads_iloc_item id (id, (off, l))) as Hr. simpl in Hr. rewrite Z.eqb_refl in Hr.
    by apply Hr.
  - subst items. rewrite length_app. simpl. lia.
Qed.

(** *** A whole file *)

Definition indices_of (props : list TransformProperty) : list Z := Z.of_nat <$> seq 1 (length props).

Definition iprp_boxes (props : list TransformProperty) : list (BoxType * slice) :=
  [(box_type "ipco", enc_boxes (enc_property <$> props));
   (box_type "ipma", enc_ipma 1 (indices_of props))].

Definition meta_boxes (props : list TransformProperty) (av1 exif : Z * Z)
  : list (BoxType * slice) :=
  [(box_type "pitm", enc_pitm 1);
   (box_type "iinf", enc_iinf [(1, box_type "av01"); (2, box_type "Exif")]);
   (box_type "iloc", enc_iloc [(1, av1); (2, exif)]);
   (box_type "iprp", enc_boxes (iprp_boxes props))].

Definition exif_item (tiff : slice) : slice := to_be 4 0 ++ tiff.

Definition meta_content (props : list TransformProperty) (av1 exif : Z * Z) : slice :=
  full_box ++ enc_boxes (meta_boxes props av1 exif).

(** Where the content of [mdat] starts: after [ftyp], [meta] and its own
    header. *)
Definition mdat_start (ftyp : slice) (props : list TransformProperty) : Z :=
  (8 + len ftyp) + (8 + len (meta_content props (0, 0) (0, 0))) + 8.

Definition avif_boxes (ftyp av1 tiff : slice) (props : list TransformProperty)
  : list (BoxType * slice) :=
  let start := mdat_start ftyp props in
  [(box_type "ftyp", ftyp);
   (box_type "meta", meta_content props (start, len av1)
                       (start + len av1, len (exif_item tiff)));
   (box_type "mdat", av1 ++ exif_item tiff)].

Definition encode_avif (ftyp av1 tiff : slice) (props : list TransformProperty) : slice :=
  enc_boxes (avif_boxes ftyp av1 tiff props).

Lemma len_enc_boxes bs :
  Forall (λ b, len b.1 = 4) bs →
  len (enc_boxes bs) = 8 * Z.of_nat (length bs) + Z.of_nat (sum_list_with (λ b, length b.2) bs).
Proof.
  induction 1 as [|b bs Hb _ IH]; [done|]. rewrite enc_boxes_cons, len_app, len_enc_box, IH by done.
  simpl. unfold len. lia.
Qed.

Lemma len_enc_boxes_cons b bs :
  len b.1 = 4 → len (enc_boxes (b :: bs)) = 8 + len b.2 + len (enc_boxes bs).
Proof. intros. by rewrite enc_boxes_cons, len_app, len_enc_box. Qed.

Lemma len_enc_properties props :
  len (enc_boxes (enc_property <$> props)) = 9 * Z.of_nat (length props).
Proof.
  induction props as [|p props IH]; [done|].
  rewrite fmap_cons, len_enc_boxes_cons, IH by (by destruct p).
  destruct p; simpl length; change (len (snd _)) with 1; lia.
Qed.

Lemma len_enc_ipma id indices : len (enc_ipma id indices) = 11 + Z.of_nat (length indices).
Proof.
  unfold enc_ipma. rewrite !len_app, !len_to_be. change (len full_box) with 4.
  assert (len (mjoin (to_be 1 <$> indices)) = Z.of_nat (length indices)) as ->; [|lia].
  induction indices as [|i l IH]; [done|]. rewrite fmap_cons, mjoin_cons, len_app, len_to_be, IH.
  simpl length. lia.
Qed.

Lemma length_indices_of props : length (indices_of props) = length props.
Proof. unfold indices_of. by rewrite length_fmap, length_seq. Qed.

Lemma len_iprp props : len (enc_boxes (iprp_boxes props)) = 27 + 10 * Z.of_nat (length props).
Proof.
  unfold iprp_boxes. rewrite !len_enc_boxes_cons by done. cbn [snd].
  rewrite len_enc_properties, len_enc_ipma, length_indices_of. change (len (enc_boxes [])) with 0. lia.
Qed.

(** The layout does not depend on the offsets written into it. *)
Lemma len_meta_content props av1 exif :
  len (meta_content props av1 exif) = 159 + 10 * Z.of_nat (length props).
Proof.
  unfold meta_content, meta_boxes. rewrite len_app, !len_enc_boxes_cons by done. cbn [snd].
  rewrite len_iprp. unfold enc_iloc. rewrite !len_app, len_iloc_items, !len_to_be.
  change (len (enc_pitm 1)) with 6. change (len (enc_boxes [])) with 0.
  change (len full_box) with 4. change (len (enc_iinf _)) with 46. simpl length. lia.
Qed.

Definition avif_fits (ftyp av1 tiff : slice) (props : list TransformProperty) : Prop :=
  len (encode_avif ftyp av1 tiff props) ≤ u32_max
  ∧ len tiff ≤ MAX_EXIF_LEN - 4 ∧ (length props ≤ 127)%nat.

Lemma len_encode_avif ftyp av1 tiff props :
  len (encode_avif ftyp av1 tiff props) =
  mdat_start ftyp props + len av1 + len (exif_item tiff).
Proof.
  unfold encode_avif, avif_boxes, mdat_start. rewrite !len_enc_boxes_cons by done. cbn [snd].
  rewrite !len_meta_content, len_app. change (len (enc_boxes [])) with 0. lia.
Qed.

Lemma number_from_numbered index props :
  Forall property_wf props → numbered index (enc_property <$> props) = number_from index props.
Proof.
  intros H. revert index. induction H as [|p props Hp _ IH]; intros index; [done|].
  rewrite fmap_cons. pose proof (property_of_enc p Hp) as Hof. destruct (enc_property p) as [ty c].
  simpl in *. by rewrite Hof, IH.
Qed.

(** Associating every property in order applies every property in order. *)
Lemma apply_indices_all props p :
  apply_indices (number_from 0 props) (indices_of props) p =
  fold_left (λ q pr, property_action pr q) props p.
Proof.
  unfold indices_of, apply_indices.
  assert (∀ post pre q, props = pre ++ post →
    fold_left (λ q i, match find_property (number_from 0 props) i with
                      | Some prop => property_action prop q | None => q end)
      (Z.of_nat <$> seq (S (length pre)) (length post)) q =
    fold_left (λ q pr, property_action pr q) post q) as H.
  { induction post as [|x post IH]; intros pre q Heq; [done|]. cbn [length seq fmap list_fmap fold_left].
    assert (find_property (number_from 0 props) (Z.of_nat (S (length pre))) = Some x) as ->.
    { replace (Z.of_nat (S (length pre))) with (0 + 1 + Z.of_nat (length pre)) by lia.
      apply find_property_number_from. rewrite Heq.
      by apply list_lookup_middle. }
    replace (S (S (length pre))) with (S (length (pre ++ [x]))) by (rewrite length_app; simpl; lia).
    apply IH. by rewrite Heq, <- app_assoc. }
  by apply (H props []).
Qed.

Lemma slice_from_app a b : slice_from (a ++ b) (len a) = Some b.
Proof.
  unfold slice_from. rewrite len_app. pose proof (len_nonneg b).
  destruct (Z.leb_spec (len a) (len a + len b)); [|lia].
  unfold len. by rewrite Nat2Z.id, drop_app_length.
Qed.

(** An EXIF item at a file offset is cut out and stripped of its header. *)
Lemma extract_exif_tiff_at before tiff after :
  len before + 4 + len tiff ≤ u32_max → len tiff ≤ MAX_EXIF_LEN - 4 →
  (slice_starts_with TIFF_II tiff || slice_starts_with TIFF_MM tiff) = true →
  extract_exif_tiff (before ++ exif_item tiff ++ after)
    (mk_IlocEntry 0 0 [(len before, len (exif_item tiff))]) = Some tiff.
Proof.
  intros Hb Ht Hmark. pose proof (len_nonneg before). pose proof (len_nonneg tiff).
  assert (len (exif_item tiff) = 4 + len tiff) as He
    by (unfold exif_item; rewrite len_app, len_to_be; lia).
  assert (He4 : drop 4 (exif_item tiff) = tiff) by done.
  assert (He0 : take 4 (exif_item tiff) = to_be 4 0) by done.
  revert He He4 He0. generalize (exif_item tiff). intros item He He4 He0.
  unfold extract_exif_tiff. cbn [construction_method base_offset extents assemble].
  change (negb (0 =? 0)) with false. cbv iota.
  rewrite (proj2 (checked_add_Some u64_max 0 (len before) (len before)))
    by (unfold u64_max, u32_max in *; split; lia). cbn [mbind option_bind].
  rewrite (proj2 (checked_add_Some usize_max (len before) (len item) (len before + len item)))
    by (unfold usize_max, u64_max, u32_max in *; split; lia). cbn [mbind option_bind].
  rewrite slice_get_middle. cbn [mbind option_bind app]. change (len []) with 0.
  rewrite (proj2 (checked_add_Some usize_max 0 (len item) (len item)))
    by (unfold usize_max, u64_max, u32_max in *; split; lia). cbn [mbind option_bind].
  destruct (Z.ltb_spec MAX_EXIF_LEN (len item)); [lia|]. cbn [mbind option_bind].
  destruct (Z.ltb_spec (len item) 4); [lia|]. cbv zeta. rewrite He4, He0.
  assert (slice_from tiff (from_be (to_be 4 0)) = Some tiff) as ->
    by exact (slice_from_app [] tiff).
  cbn [mbind option_bind]. by rewrite Hmark.
Qed.

Lemma visit_meta_find boxes :
  visit_all visit_meta boxes (mk_MetaBoxes None None None None) =
  mk_MetaBoxes (first_box (box_type "iinf") boxes) (first_box (box_type "iloc") boxes)
    (first_box (box_type "iprp") boxes) (first_box (box_type "pitm") boxes).
Proof.
  assert (∀ a b c d, visit_all visit_meta boxes (mk_MetaBoxes a b c d) =
    mk_MetaBoxes (visit_all (keep_first (box_type "iinf")) boxes a)
      (visit_all (keep_first (box_type "iloc")) boxes b)
      (visit_all (keep_first (box_type "iprp")) boxes c)
      (visit_all (keep_first (box_type "pitm")) boxes d)) as H.
  { unfold visit_all. induction boxes as [|x boxes IH]; intros a b c d; [done|].
    exact (IH _ _ _ _). }
  by rewrite H, !keep_first_find.
Qed.

Section RoundTrip.
Context (ftyp av1 tiff : slice) (props : list TransformProperty).
Hypothesis Hfits : avif_fits ftyp av1 tiff props.
Hypothesis Hprops : Forall property_wf props.
Hypothesis Htiff : (slice_starts_with TIFF_II tiff || slice_starts_with TIFF_MM tiff) = true.

Let file := encode_avif ftyp av1 tiff props.
Let start := mdat_start ftyp props.

Lemma file_len : len file = start + len av1 + 4 + len tiff.
Proof. unfold file, start. rewrite len_encode_avif. unfold exif_item. rewrite len_app, len_to_be. lia. Qed.

Lemma start_bounds : 167 + 10 * Z.of_nat (length props) ≤ start.
Proof.
  unfold start, mdat_start. rewrite len_meta_content. pose proof (len_nonneg ftyp). lia.
Qed.

Lemma file_small : start + len av1 + 4 + len tiff ≤ u32_max.
Proof. rewrite <- file_len. apply Hfits. Qed.

Lemma iprp_resolves budget :
  129 ≤ budget ≤ MAX_BOXES_VISITED →
  ∃ o budget', resolve_orientation (Some (enc_pitm 1)) (Some (enc_boxes (iprp_boxes props))) budget
    = (Some o, budget') ∧ budget - 129 ≤ budget'
    ∧ ∀ p, orientation_action o p = fold_left (λ q pr, property_action pr q) props p.
Proof.
  intros Hb. destruct Hfits as (_ & _ & Hn). unfold MAX_BOXES_VISITED in Hb.
  unfold resolve_orientation. cbn [mbind option_bind]. rewrite parse_enc_pitm by lia.
  pose proof (len_iprp props) as Hlen.
  rewrite walk_boxes_enc;
    [|done| |unfold usize_max, u64_max; lia|simpl; lia].
  2: { unfold iprp_boxes. repeat constructor; cbn [snd]; unfold u32_max.
       - rewrite len_enc_properties. lia.
       - rewrite len_enc_ipma, length_indices_of. lia. }
  rewrite visit_all_pair, !keep_first_find.
  change (first_box (box_type "ipco") (iprp_boxes props))
    with (Some (enc_boxes (enc_property <$> props))).
  change (first_box (box_type "ipma") (iprp_boxes props))
    with (Some (enc_ipma 1 (indices_of props))).
  unfold collect_properties. change (MAX_NESTING_DEPTH <? 3) with false. cbv iota.
  rewrite collect_loop_enc; [|done| |done|simpl; lia|lia|unfold u32_max; simpl; lia].
  2: { rewrite len_enc_properties. unfold usize_max, u64_max. lia. }
  cbn [mbind option_bind]. rewrite parse_enc_ipma; [|lia| |rewrite length_indices_of; lia].
  2: { unfold indices_of. apply Forall_fmap, Forall_forall. intros i Hi%elem_of_seq.
       unfold compose. lia. }
  eexists _, _. split; [done|]. split; [simpl; lia|]. intros p.
  rewrite <- number_from_numbered by done.
  destruct (compose_transforms_action (enc_property <$> props) (indices_of props) p) as [Hwf Ha].
  rewrite into_orientation_action, Ha, number_from_numbered by done.
  apply apply_indices_all.
Qed.

Lemma iinf_finds budget :
  2 ≤ budget →
  find_exif_item_id (enc_iinf [(1, box_type "av01"); (2, box_type "Exif")]) 2 budget
    = (Some 2, budget - 2).
Proof.
  intros Hb. unfold find_exif_item_id.
  assert (run (version ← read_u8; _ ← skip 3;
           _ ← (if version =? 0 then read_u16 else read_u32);
           read_remainder) (enc_iinf [(1, box_type "av01"); (2, box_type "Exif")])
    = Some (enc_boxes (enc_infe <$> [(1, box_type "av01"); (2, box_type "Exif")]))) as -> by done.
  rewrite walk_boxes_enc; [|done|by repeat constructor|by vm_compute|simpl; lia].
  by vm_compute (visit_all _ _ _).
Qed.

Lemma file_layout :
  ∃ before, file = before ++ exif_item tiff ++ [] ∧ len before = start + len av1.
Proof.
  assert (∀ a b h t x : slice, a ++ b ++ (h ++ t ++ av1 ++ x) ++ [] =
            (a ++ b ++ (h ++ t) ++ av1) ++ x ++ []) as Hassoc
    by (intros; by rewrite <- !app_assoc).
  eexists. split; [apply Hassoc|].
  rewrite !len_app, !len_enc_box, len_to_be by done. cbn [fst snd].
  change (len (box_type "mdat")) with 4. unfold start, mdat_start.
  rewrite !len_meta_content. lia.
Qed.

Let meta_box : slice :=
  meta_content props (start, len av1) (start + len av1, len (exif_item tiff)).

Lemma len_exif_item : len (exif_item tiff) = 4 + len tiff.
Proof. unfold exif_item. rewrite len_app, len_to_be. lia. Qed.

Lemma file_boxes_ok : Forall box_ok (avif_boxes ftyp av1 tiff props).
Proof.
  pose proof start_bounds as Hs. pose proof file_small as Hf. pose proof len_exif_item as He.
  pose proof (len_nonneg av1). pose proof (len_nonneg tiff). pose proof (len_nonneg ftyp).
  unfold start in Hf. unfold mdat_start in Hf. rewrite len_meta_content in Hf.
  unfold u32_max in *.
  unfold avif_boxes. repeat apply Forall_cons_2; [split; [done|]; cbn [snd]..|constructor];
    rewrite ?len_meta_content, ?len_app, ?He; unfold u32_max; lia.
Qed.

Lemma meta_found :
  find_first_box file 0 MAX_BOXES_VISITED (box_type "meta") = (Some meta_box, 4093).
Proof.
  unfold find_first_box. pose proof file_small as Hf. pose proof file_len as Hl.
  unfold file, encode_avif in *. rewrite walk_boxes_enc.
  - rewrite keep_first_find. f_equal.
  - done.
  - apply file_boxes_ok.
  - unfold usize_max, u64_max, u32_max in *. lia.
  - done.
Qed.

Lemma meta_boxes_ok av1' exif' : Forall box_ok (meta_boxes props av1' exif').
Proof.
  destruct Hfits as (_ & _ & Hn). unfold meta_boxes.
  repeat apply Forall_cons_2; [split; [done|]; cbn [snd]..|constructor].
  1, 2, 3: by vm_compute.
  rewrite len_iprp. unfold u32_max. lia.
Qed.

Lemma meta_walked :
  walk_boxes visit_meta (enc_boxes (meta_boxes props (start, len av1)
      (start + len av1, len (exif_item tiff)))) 1 4093 (mk_MetaBoxes None None None None)
  = (mk_MetaBoxes (Some (enc_iinf [(1, box_type "av01"); (2, box_type "Exif")]))
      (Some (enc_iloc [(1, (start, len av1)); (2, (start + len av1, len (exif_item tiff)))]))
      (Some (enc_boxes (iprp_boxes props))) (Some (enc_pitm 1)), 4089).
Proof.
  destruct Hfits as (_ & _ & Hn).
  rewrite walk_boxes_enc.
  - rewrite visit_meta_find. f_equal.
  - done.
  - apply meta_boxes_ok.
  - pose proof (len_meta_content props (start, len av1) (start + len av1, len (exif_item tiff))) as Hm.
    unfold meta_content in Hm. rewrite len_app in Hm. change (len full_box) with 4 in Hm.
    unfold usize_max, u64_max. lia.
  - done.
Qed.

(** C29. The reader recovers from an encoded file exactly the EXIF block that was
    put in, and the orientation its properties describe. *)
Theorem parse_encoded :
  am_exif (parse_avif_meta file) = Some tiff ∧
  ∀ p, orientation_action (am_orientation (parse_avif_meta file)) p =
       fold_left (λ q pr, property_action pr q) props p.
Proof.
  pose proof file_small as Hf. pose proof start_bounds as Hs. pose proof len_exif_item as He.
  pose proof (len_nonneg av1). pose proof (len_nonneg tiff). destruct Hfits as (_ & Ht & _).
  unfold parse_avif_meta, parse_budgeted. rewrite meta_found. cbn [mbind option_bind].
  unfold meta_box, meta_content.
  assert (∀ l, slice_from (full_box ++ l) 4 = Some l) as -> by exact (slice_from_app full_box).
  rewrite meta_walked. cbn [pitm_content iprp_content iinf_content iloc_content].
  destruct (iprp_resolves 4089) as (o & b & -> & Hb & Ho); [unfold MAX_BOXES_VISITED; lia|].
  unfold extract_exif_payload. rewrite iinf_finds by lia. cbn [mbind option_bind fst].
  pose proof (find_enc_iloc [(1, (start, len av1))] 2 (start + len av1) (len (exif_item tiff)) [])
    as Hiloc. cbn [app] in Hiloc. rewrite Hiloc.
  - cbn [mbind option_bind]. destruct file_layout as (before & -> & Hbefore). rewrite <- Hbefore.
    rewrite extract_exif_tiff_at; [by split|rewrite Hbefore; lia|done|done].
  - constructor; [|constructor]. cbn [fst snd]. unfold u32_max in *. lia.
  - lia.
  - unfold u32_max in *. lia.
  - unfold u32_max in *. lia.
  - done.
Qed.
End RoundTrip.

(** A TIFF header rotated once and mirrored. *)
Lemma parse_encoded_witness :
  am_exif (parse_avif_meta (encode_avif [] [] TIFF_MM [PropRotate 1; PropMirror 0])) = Some TIFF_MM
  ∧ orientation_action
      (am_orientation (parse_avif_meta (encode_avif [] [] TIFF_MM [PropRotate 1; PropMirror 0])))
      (3, 5) = (5, 3).
Proof.
  destruct (parse_encoded [] [] TIFF_MM [PropRotate 1; PropMirror 0]) as [H1 H2].
  - unfold avif_fits. split_and!; [by vm_compute|by vm_compute|simpl; lia].
  - repeat constructor.
  - reflexivity.
  - split; [exact H1|]. rewrite H2. reflexivity.
Defined.

Lemma reads_collect_empty {A} (body : reader A) n a :
  reads body [] a → reads (collect n body) [] (replicate n a).
Proof.
  intros H. induction n as [|n IH]; simpl; [apply reads_ret|].
  rewrite <- (app_nil_r []). eapply reads_bind; [done|].
  apply (reads_map (collect n body) (λ xs, a :: xs)), IH.
Qed.

(** None of the three caps bounds the work on [iloc]: with all field widths
    zero an extent occupies no bytes, and fourteen bytes of input make the
    reader collect as many extents as its 16-bit count says. *)
Theorem iloc_extents_unbounded_by_input n :
  0 ≤ n < 2 ^ 16 →
  let iloc := full_box ++ to_be 2 0 ++ to_be 2 1 ++ to_be 2 1 ++ to_be 2 0 ++ to_be 2 n in
  length iloc = 14%nat ∧
  find_iloc_entry iloc 1 = Some (mk_IlocEntry 0 0 (replicate (Z.to_nat n) (0, 0))).
Proof.
  intros Hn iloc. split; [done|]. unfold find_iloc_entry, iloc.
  rewrite full_box_app. change (to_be 2 0) with (to_be 1 0 ++ to_be 1 0) at 1.
  rewrite <- (app_assoc (to_be 1 0)). erewrite run_all; [done| |by vm_compute].
  apply (reads_next 1); [done..|]. apply reads_skip_next; [done|].
  apply (reads_next 1); [done..|]. apply (reads_next 1); [done..|]. cbv zeta.
  apply (reads_next 2); [done..|]. change (Z.to_nat 1) with 1%nat.
  apply (reads_for_each _ (λ _ : unit, []) []); [set_solver| |simpl; lia].
  apply (reads_next 2); [done..|]. rewrite <- (app_nil_l (to_be 2 0 ++ _)).
  eapply reads_bind; [apply reads_ret|]. apply reads_skip_next; [done|].
  rewrite <- (app_nil_l (to_be 2 n)). eapply reads_bind; [apply reads_ret|].
  rewrite <- (app_nil_r (to_be 2 n)). apply (reads_next 2); [done|simpl; lia|].
  apply (reads_map _ (λ exts, Some (mk_IlocEntry 0 0 exts)) [] (replicate (Z.to_nat n) (0, 0))).
  apply reads_collect_empty. rewrite <- (app_nil_r []). eapply reads_bind; [apply reads_ret|].
  rewrite <- (app_nil_r []). eapply reads_bind; [apply reads_ret|].
  rewrite <- (app_nil_r []). eapply reads_bind; apply reads_ret.
Qed.

Lemma iloc_extents_unbounded_by_input_witness :
  ∃ iloc entry, length iloc = 14%nat ∧ find_iloc_entry iloc 1 = Some entry
    ∧ Z.of_nat (length (extents entry)) = 65535.
Proof.
  destruct (iloc_extents_unbounded_by_input 65535) as [H1 H2]; [lia|].
  eexists _, _. split; [exact H1|]. split; [exact H2|].
  cbn [extents]. rewrite length_replicate. apply Z2Nat.id. lia.
Defined.

Lemma resolved_orientation_composes_witness :
  let iprp := enc_boxes (iprp_boxes [PropRotate 1; PropMirror 0]) in
  ∃ o, (resolve_orientation (Some (enc_pitm 1)) (Some iprp) 100).1 = Some o
    ∧ ∃ props indices, ∀ p, orientation_action o p = apply_indices (numbered 0 props) indices p.
Proof.
  intros iprp. eexists. split; [by vm_compute|].
  edestruct (resolved_orientation_composes (Some (enc_pitm 1)) (Some iprp) 100)
    as (pb & ib & ch & ipco & ipma & props & id & indices & b & b' & H);
    [unfold MAX_BOXES_VISITED; lia|by vm_compute|].
  exists props, indices. apply H.
Defined.
