(* ===== verification/Negotiation.v ===== *)
(** * Content negotiation: [src/modules/negotiation.rs]

[resolve] picks the concrete format of an [auto] request from the [Accept]
header. *)
From S2P Require Import Prelude RustStr RustFloat Params.

Local Open Scope Z_scope.

Record AcceptEntry := mk_AcceptEntry {
  media_type : string;
  entry_q : spec_float;
}.

(** One parameter's quality: [q=] followed by a parsable number. *)
Definition param_q (param : string) : option spec_float :=
  v ← strip_prefix "q=" (trim param); parse_f32 (trim v).

(** [filter_map(param_q).next()]. *)
Fixpoint first_q (params : list string) : option spec_float :=
  match params with
  | [] => None
  | param :: rest => match param_q param with Some q => Some q | None => first_q rest end
  end.

Definition parse_entry (entry : string) : option AcceptEntry :=
  match split_on ";" entry with
  | [] => None
  | first :: params =>
      let media_type := to_ascii_lowercase (trim first) in
      if str_is_empty media_type then None
      else Some (mk_AcceptEntry media_type (default f32_one (first_q params)))
  end.

Definition parse_accept (accept : string) : list AcceptEntry :=
  omap parse_entry (split_on "," accept).

Definition accepts (media : string) (entry : AcceptEntry) : bool :=
  String.eqb (media_type entry) media || String.eqb (media_type entry) "image/*"
  || String.eqb (media_type entry) "*/*".

Definition best_q (entries : list AcceptEntry) (media : string) : option spec_float :=
  fold_left (λ acc q, Some (match acc with Some a => f_max a q | None => q end))
    (entry_q <$> filter (λ e, accepts media e = true) entries) None.

(** The choice among AVIF, WebP and JPEG, given the two best qualities. *)
Definition prefer (avif_q webp_q : spec_float) : ImageFormat :=
  if f_gt avif_q f32_zero && f_ge avif_q webp_q then ImageFormat.Avif
  else if f_gt webp_q f32_zero then ImageFormat.Webp
  else ImageFormat.Jpg.

Definition resolve (format : ImageFormat) (accept : option string) : ImageFormat * bool :=
  if negb (bool_decide (format = ImageFormat.Auto)) then (format, false)
  else
    let entries := default [] (parse_accept <$> accept) in
    let avif_q := default f32_zero (best_q entries "image/avif") in
    let webp_q := default f32_zero (best_q entries "image/webp") in
    (prefer avif_q webp_q, true).

(** ** Properties *)

(** The qualities of the entries that accept a media type. *)
Definition offers (entries : list AcceptEntry) (media : string) : list spec_float :=
  entry_q <$> filter (λ e, accepts media e = true) entries.

Lemma best_q_fold qs acc :
  Forall (λ q, is_nan q = false) (acc :: qs) →
  ∃ best, fold_left (λ acc q, Some (match acc with Some a => f_max a q | None => q end)) qs (Some acc)
          = Some best
    ∧ best ∈ acc :: qs ∧ is_nan best = false
    ∧ ∀ q, f_le q best = true ↔ Exists (λ q', f_le q q' = true) (acc :: qs).
Proof.
  revert acc. induction qs as [|q qs IH]; intros acc Hn; simpl.
  - apply Forall_cons in Hn as [Hn _]. exists acc. split_and!; [done|by left|done|].
    intros q. rewrite Exists_cons, Exists_nil. tauto.
  - apply Forall_cons in Hn as [Ha Hn]. apply Forall_cons in Hn as [Hq Hn].
    assert (f_max acc q ∈ [acc; q] ∧ is_nan (f_max acc q) = false) as [Hin Hm].
    { unfold f_max. rewrite Ha, Hq. destruct (f_lt acc q); split; try done; set_solver. }
    destruct (IH (f_max acc q)) as (best & -> & Hb & Hbn & Hle); [by constructor|].
    assert (best ∈ acc :: q :: qs) as Hbin.
    { rewrite elem_of_cons in Hb. rewrite !elem_of_cons.
      destruct Hb as [->|Hb]; [|by right; right].
      rewrite !elem_of_cons, elem_of_nil in Hin. tauto. }
    exists best. split_and!; [done..|].
    intros x. rewrite Hle, !Exists_cons, f_max_le by done. tauto.
Qed.

Lemma best_q_None entries media : best_q entries media = None ↔ offers entries media = [].
Proof.
  unfold best_q, offers. set (qs := entry_q <$> _). clearbody qs. split; [|by intros ->].
  destruct qs as [|q qs]; [done|]. simpl.
  assert (∀ l a, ∃ b, fold_left (λ acc q, Some (match acc with Some a => f_max a q | None => q end)) l (Some a)
                 = Some b) as H.
  { induction l as [|x l IHl]; intros a; simpl; [by exists a|apply IHl]. }
  destruct (H qs q) as [b ->]. done.
Qed.

(** With no NaN quality, [best_q] is the greatest one offered. *)
Lemma best_q_spec entries media :
  Forall (λ e, is_nan (entry_q e) = false) entries →
  match best_q entries media with
  | None => offers entries media = []
  | Some best => best ∈ offers entries media ∧ is_nan best = false
                 ∧ ∀ q, q ∈ offers entries media → f_le q best = true
  end.
Proof.
  intros Hn. destruct (best_q entries media) as [best|] eqn:Hb; [|by apply best_q_None].
  assert (Forall (λ q, is_nan q = false) (offers entries media)) as Hq.
  { unfold offers. apply Forall_fmap, Forall_forall. intros e [_ He]%list_elem_of_filter.
    by eapply Forall_forall in Hn. }
  unfold best_q in Hb. fold (offers entries media) in Hb.
  destruct (offers entries media) as [|q qs]; [done|]. simpl in Hb.
  destruct (best_q_fold qs q Hq) as (b & Heq & Hin & Hbn & Hle).
  rewrite Heq in Hb. injection Hb as ->. split_and!; [done|done|].
  intros x Hx. apply Hle. apply Exists_exists. exists x. split; [done|].
  apply f_le_refl. by eapply Forall_forall in Hq.
Qed.

Definition offered (entries : list AcceptEntry) (media : string) : Prop :=
  ∃ q, q ∈ offers entries media ∧ f_lt f32_zero q = true.

(** Some offer of [media] is at least as good as every offer of [other]. *)
Definition at_least_as_good (entries : list AcceptEntry) (media other : string) : Prop :=
  ∃ q, q ∈ offers entries media ∧ f_lt f32_zero q = true
       ∧ ∀ q', q' ∈ offers entries other → f_le q' q = true.

Section Choice.
Context (entries : list AcceptEntry).
Hypothesis Hn : Forall (λ e, is_nan (entry_q e) = false) entries.

Let best media := default f32_zero (best_q entries media).

Lemma best_not_nan media : is_nan (best media) = false.
Proof.
  pose proof (best_q_spec entries media Hn) as H. unfold best.
  by destruct (best_q entries media); [apply H|].
Qed.

Lemma best_positive media : f_lt f32_zero (best media) = true ↔ offered entries media.
Proof.
  pose proof (best_q_spec entries media Hn) as H. unfold best, offered.
  destruct (best_q entries media) as [b|]; simpl.
  - destruct H as (Hb & _ & Hmax). split; [by exists b|]. intros (q & Hq & Hpos).
    eapply f_lt_le_trans; [done|by apply Hmax].
  - rewrite H. split; [done|]. by intros (q & ?%elem_of_nil & _).
Qed.

Lemma best_bound media q :
  f_lt f32_zero q = true →
  f_le (best media) q = true ↔ ∀ q', q' ∈ offers entries media → f_le q' q = true.
Proof.
  intros Hpos. pose proof (best_q_spec entries media Hn) as H. unfold best.
  destruct (best_q entries media) as [b|]; simpl.
  - destruct H as (Hb & _ & Hmax). split; [|by intros Hall; apply Hall].
    intros Hle q' Hq'. eapply f_le_trans; [by apply Hmax|done].
  - rewrite H. split; [by intros _ q' ?%elem_of_nil|]. intros _.
    apply f_lt_key in Hpos as (? & ? & Hk). apply f_le_key. unfold key_lt in *.
    split_and!; [done..|lia].
Qed.

Lemma best_attained media :
  f_lt f32_zero (best media) = true → best media ∈ offers entries media.
Proof.
  pose proof (best_q_spec entries media Hn) as H. unfold best.
  by destruct (best_q entries media); [intros _; apply H|].
Qed.

Lemma best_wins media other :
  f_lt f32_zero (best media) = true ∧ f_le (best other) (best media) = true ↔
  at_least_as_good entries media other.
Proof.
  unfold at_least_as_good. split.
  - intros [Hpos Hle]. exists (best media). split_and!; [by apply best_attained|done|].
    by apply best_bound.
  - intros (q & Hq & Hpos & Hmax). assert (f_lt f32_zero (best media) = true) as Hb
      by (apply best_positive; by exists q).
    split; [done|]. apply (f_le_trans _ q); [by apply best_bound|].
    apply (best_bound media (best media) Hb); [apply f_le_refl, best_not_nan|done].
Qed.

Lemma prefer_spec :
  let f := prefer (best "image/avif") (best "image/webp") in
  (f = ImageFormat.Avif ↔ at_least_as_good entries "image/avif" "image/webp")
  ∧ (f = ImageFormat.Webp ↔ ¬ at_least_as_good entries "image/avif" "image/webp"
                            ∧ offered entries "image/webp")
  ∧ (f = ImageFormat.Jpg ↔ ¬ offered entries "image/avif" ∧ ¬ offered entries "image/webp").
Proof.
  cbv zeta. rewrite <- best_wins, <- !best_positive. unfold prefer.
  rewrite !f_gt_lt, f_ge_le.
  destruct (f_lt f32_zero (best "image/avif")) eqn:Ha,
    (f_le (best "image/webp") (best "image/avif")) eqn:Hle,
    (f_lt f32_zero (best "image/webp")) eqn:Hw; cbn [andb]; try (intuition congruence).
  (* AVIF is offered, WebP is not, yet WebP's best exceeds AVIF's. *)
  exfalso. rewrite f_lt_not_le, negb_false_iff in Hw by (done || apply best_not_nan).
  apply f_lt_key in Ha as (_ & Hna & Hka). apply f_le_key in Hw as (Hnw & _ & Hkw).
  apply not_true_iff_false in Hle. apply Hle, f_le_key. unfold key_lt in *.
  split_and!; [done..|lia].
Qed.
End Choice.

(** AVIF is produced exactly when the client offers it with a positive quality
    no WebP offer beats; WebP exactly when AVIF is not and the client offers
    it with a positive quality; JPEG otherwise.  Only [auto] depends on the
    header, and its result is always a concrete format. *)
Theorem resolve_spec format accept :
  let entries := default [] (parse_accept <$> accept) in
  Forall (λ e, is_nan (entry_q e) = false) entries →
  if decide (format = ImageFormat.Auto) then
    (resolve format accept).2 = true
    ∧ ((resolve format accept).1 = ImageFormat.Avif ↔
         at_least_as_good entries "image/avif" "image/webp")
    ∧ ((resolve format accept).1 = ImageFormat.Webp ↔
         ¬ at_least_as_good entries "image/avif" "image/webp" ∧ offered entries "image/webp")
    ∧ ((resolve format accept).1 = ImageFormat.Jpg ↔
         ¬ offered entries "image/avif" ∧ ¬ offered entries "image/webp")
  else resolve format accept = (format, false).
Proof.
  intros entries Hn. unfold resolve. fold entries.
  destruct (decide (format = ImageFormat.Auto)) as [->|Hf].
  - rewrite bool_decide_eq_true_2 by done. split; [done|]. exact (prefer_spec entries Hn).
  - by rewrite bool_decide_eq_false_2.
Qed.

(** A client that ranks WebP above AVIF gets WebP. *)
Lemma resolve_spec_witness :
  let entries := parse_accept "image/avif;q=0.3, image/webp;q=0.8" in
  ¬ at_least_as_good entries "image/avif" "image/webp" ∧ offered entries "image/webp".
Proof.
  destruct (resolve_spec ImageFormat.Auto (Some "image/avif;q=0.3, image/webp;q=0.8"))
    as (_ & _ & H & _).
  - vm_compute. repeat constructor.
  - apply H. vm_compute. reflexivity.
Defined.

(** Wildcards are not overridden by a more specific refusal: a client that
    sends [q=0] for AVIF next to a wildcard still gets AVIF. *)
Theorem refused_avif_still_produced :
  resolve ImageFormat.Auto (Some "image/avif;q=0, image/*") = (ImageFormat.Avif, true).
Proof. vm_compute. reflexivity. Qed.
