(* ===== verification/Access.v ===== *)
(** * Request and scrape authentication

[src/modules/signing/{config,verify}.rs], [verify_or_reject] of
[src/modules/api/resize.rs], and [src/modules/metrics_auth/*.rs].
[hmac_sha256], [ct_eq] and the base64 engine stand for the [hmac]/[sha2],
[subtle] and [base64] crates. *)
From S2P Require Import Prelude RustStr RustFloat Params UrlOptions Presets UrlSource UrlGrammar CacheKey.

Local Open Scope Z_scope.

(** ** Hex configuration values *)

Inductive ConfigError :=
  | OddHexLength (name : string) (chars : Z)
  | NonHexCharacter (name : string) (c : ascii)
  | SigningNotConfigured
  | MetricsNotConfigured.

Definition hex_nibble (b : ascii) : option Z :=
  let c := code b in
  if (48 <=? c) && (c <=? 57) then Some (c - 48)
  else if (97 <=? c) && (c <=? 102) then Some (c - 97 + 10)
  else if (65 <=? c) && (c <=? 70) then Some (c - 65 + 10)
  else None.

(** The loop over [chunks_exact(2)]; the length is even. *)
Fixpoint decode_hex_chunks (name : string) (raw : string) : result ConfigError (list byte) :=
  match raw with
  | String a (String b rest) =>
      hi ← ok_or (hex_nibble a) (NonHexCharacter name a);
      lo ← ok_or (hex_nibble b) (NonHexCharacter name b);
      more ← decode_hex_chunks name rest;
      Ok (byte_of_val (Z.lor (Z.shiftl hi 4) lo) :: more)
  | _ => Ok []
  end.

Definition decode_hex_env (name : string) (raw : option string) : result ConfigError (list byte) :=
  match raw with
  | None | Some EmptyString => Ok []
  | Some raw =>
      if negb (Nat.even (String.length raw))
      then Err (OddHexLength name (Z.of_nat (String.length raw)))
      else decode_hex_chunks name raw
  end.

(** ** Signing configuration *)

Record SigningConfig := mk_SigningConfig {
  key : list byte;
  salt : list byte;
  allow_unsigned : bool;
}.

Definition signing_enabled (s : SigningConfig) : bool :=
  negb (length (key s) =? 0)%nat && negb (length (salt s) =? 0)%nat.

(** The signing fields of [EnvConfig]. *)
Definition signing_from_env (signing_key signing_salt : option string)
    (allow_unsigned_requests : option bool) : result ConfigError SigningConfig :=
  key ← decode_hex_env "SIGNING_KEY" signing_key;
  salt ← decode_hex_env "SIGNING_SALT" signing_salt;
  let signing := mk_SigningConfig key salt (default false allow_unsigned_requests) in
  if negb (signing_enabled signing) && negb (allow_unsigned signing)
  then Err SigningNotConfigured else Ok signing.

(** ** Signatures *)

Inductive ForbiddenReason := UnsignedRefused | NoSigningKey | InvalidSignature.

Section Signing.
Context (hmac_sha256 : list byte → list byte → list byte).
Context (ct_eq : list byte → list byte → bool).
Context (b64_decode : string → option string) (b64_encode : list byte → string).

Definition compute_signature (key salt : list byte) (signed_path : string) : list byte :=
  hmac_sha256 key (salt ++ list_byte_of_string signed_path).

Definition verify_signature (key salt : list byte) (signed_path provided_signature : string)
  : bool :=
  match b64_decode provided_signature with
  | None => false
  | Some provided =>
      let provided := list_byte_of_string provided in
      let expected := compute_signature key salt signed_path in
      if negb (length provided =? length expected)%nat then false
      else ct_eq provided expected
  end.

Definition sign (key salt : list byte) (signed_path : string) : string :=
  b64_encode (compute_signature key salt signed_path).

Definition verify_or_reject (signing : SigningConfig) (signed : SignedRequest)
  : result ForbiddenReason unit :=
  if String.eqb (signature_segment signed) "unsigned" then
    if allow_unsigned signing then Ok () else Err UnsignedRefused
  else if negb (signing_enabled signing) then Err NoSigningKey
  else if verify_signature (key signing) (salt signing) (signed_path signed)
            (signature_segment signed) then Ok ()
  else Err InvalidSignature.
End Signing.

(** ** Metrics authentication *)

Record MetricsAuthConfig := mk_MetricsAuthConfig {
  token : list byte;
  allow_unauthenticated : bool;
}.

Definition metrics_enabled (m : MetricsAuthConfig) : bool := negb (length (token m) =? 0)%nat.

Definition metrics_from_env (metrics_auth_token : option string)
    (allow_unauthenticated_metrics : option bool) : result ConfigError MetricsAuthConfig :=
  let token := match trim <$> metrics_auth_token with
               | Some t => if str_is_empty t then [] else list_byte_of_string t
               | None => []
               end in
  let m := mk_MetricsAuthConfig token (default false allow_unauthenticated_metrics) in
  if negb (metrics_enabled m) && negb (allow_unauthenticated m)
  then Err MetricsNotConfigured else Ok m.

Section Metrics.
Context (ct_eq : list byte → list byte → bool).

Definition verify_token (m : MetricsAuthConfig) (provided : string) : bool :=
  if negb (metrics_enabled m) then false
  else
    let provided := list_byte_of_string provided in
    if negb (length provided =? length (token m))%nat then false
    else ct_eq provided (token m).

Definition BEARER_PREFIX : string := "Bearer ".

(** [require_metrics_auth]: whether the request goes on to the endpoint,
    given the [Authorization] header when it is present and readable. *)
Definition require_metrics_auth (m : MetricsAuthConfig) (authorization : option string) : bool :=
  if allow_unauthenticated m then true
  else
    match authorization ≫= strip_prefix BEARER_PREFIX with
    | Some token => verify_token m token
    | None => false
    end.
End Metrics.

(** ** Properties *)

Lemma hex_nibble_range b d : hex_nibble b = Some d → 0 ≤ d < 16.
Proof.
  unfold hex_nibble. pose proof (code_range b).
  destruct ((48 <=? code b) && (code b <=? 57)) eqn:E1;
    [|destruct ((97 <=? code b) && (code b <=? 102)) eqn:E2;
      [|destruct ((65 <=? code b) && (code b <=? 70)) eqn:E3; [|done]]];
    intros [= <-]; rewrite ?andb_true_iff, ?Z.leb_le in *; lia.
Qed.

Lemma hex_nibble_char d : 0 ≤ d < 16 → hex_nibble (hex_char d) = Some d.
Proof.
  intros Hd. unfold hex_nibble, hex_char. destruct (Z.ltb_spec d 10); rewrite code_chr by lia.
  - destruct (Z.leb_spec 48 (48 + d)); [|lia]. destruct (Z.leb_spec (48 + d) 57); [|lia].
    cbn [andb]. f_equal. lia.
  - destruct (Z.leb_spec (87 + d) 57); [lia|]. rewrite andb_false_r.
    destruct (Z.leb_spec 97 (87 + d)); [|lia]. destruct (Z.leb_spec (87 + d) 102); [|lia].
    cbn [andb]. f_equal. lia.
Qed.

Lemma decode_lower_hex name bs : decode_hex_chunks name (lower_hex bs) = Ok bs.
Proof.
  induction bs as [|b bs IH]; [done|]. cbn [lower_hex decode_hex_chunks].
  pose proof (byte_val_range b).
  rewrite !hex_nibble_char
    by (apply Z.mod_pos_bound || (split; [apply Z.div_pos|apply Z.div_lt_upper_bound]); lia).
  cbn [ok_or mbind result_bind]. rewrite IH. cbn [mbind result_bind].
  rewrite lor_shiftl_add by (lia || (apply Z.mod_pos_bound; lia)).
  do 2 f_equal. change (2 ^ 4) with 16.
  replace (byte_val b / 16 * 16 + byte_val b mod 16) with (byte_val b)
    by (rewrite (Z.div_mod (byte_val b) 16) at 1 by lia; lia).
  apply byte_of_byte_val.
Qed.

Lemma decode_hex_length n name raw bs :
  (String.length raw ≤ n)%nat → Nat.even (String.length raw) = true →
  decode_hex_chunks name raw = Ok bs → String.length raw = (2 * length bs)%nat.
Proof.
  revert raw bs. induction n as [|n IH]; intros raw bs Hn Heven H.
  - destruct raw; [|simpl in Hn; lia]. by injection H as <-.
  - destruct raw as [|a [|b raw]]; [by injection H as <-|done|].
    cbn [decode_hex_chunks] in H. invert_ok. subst. simpl in *.
    rewrite (IH raw x1) by (done || lia). lia.
Qed.

(** Every byte string survives being written in hex, as [xxd -p] writes it,
    and read back as a key or salt; no other text of that length does. *)
Theorem decode_hex_env_roundtrip name bs raw :
  decode_hex_env name (Some raw) = Ok bs →
  decode_hex_env name (Some (lower_hex bs)) = Ok bs
  ∧ String.length raw = (2 * length bs)%nat
  ∧ String.length (lower_hex bs) = String.length raw.
Proof.
  intros H. assert (String.length raw = (2 * length bs)%nat) as Hraw.
  { unfold decode_hex_env in H. destruct raw as [|a raw]; [by injection H as <-|].
    destruct (Nat.even (String.length (String a raw))) eqn:Heven; [|done].
    by apply (decode_hex_length (String.length (String a raw)) name). }
  split_and!; [|done|by rewrite lower_hex_length].
  unfold decode_hex_env. destruct (lower_hex bs) as [|a s] eqn:Hhex.
  - destruct bs; [done|]. simpl in Hhex. done.
  - rewrite <- Hhex, lower_hex_length.
    assert (Nat.even (2 * length bs) = true) as -> by (rewrite Nat.even_mul; done).
    apply decode_lower_hex.
Qed.

(** Startup fails closed: an accepted configuration can verify signatures or
    was explicitly told not to need them. *)
Theorem signing_fails_closed k s allow cfg :
  signing_from_env k s allow = Ok cfg →
  (signing_enabled cfg = true ∨ allow = Some true)
  ∧ (allow_unsigned cfg = true ↔ allow = Some true).
Proof.
  unfold signing_from_env. intros H. invert_ok. cbv zeta in *.
  destruct (negb _ && negb _) eqn:Hc; [done|]. injection H1 as <-. simpl in *.
  apply andb_false_iff in Hc as [Hc|Hc]; apply negb_false_iff in Hc;
    destruct allow as [[]|]; simpl in *; split; try done; auto.
Qed.

Section SigningProperties.
Context (hmac_sha256 : list byte → list byte → list byte).
Context (ct_eq : list byte → list byte → bool).
Context (b64_decode : string → option string) (b64_encode : list byte → string).
(** Constant-time equality decides equality of equally long buffers. *)
Hypothesis ct_eq_spec : ∀ a b, length a = length b → ct_eq a b = true ↔ a = b.

Lemma verify_signature_spec key salt path sig :
  verify_signature hmac_sha256 ct_eq b64_decode key salt path sig = true ↔
  ∃ raw, b64_decode sig = Some raw
         ∧ list_byte_of_string raw = compute_signature hmac_sha256 key salt path.
Proof.
  unfold verify_signature. destruct (b64_decode sig) as [raw|].
  - destruct (Nat.eqb_spec (length (list_byte_of_string raw))
      (length (compute_signature hmac_sha256 key salt path))) as [Hl|Hl]; cbn [negb].
    + rewrite ct_eq_spec by done. split; [by exists raw|by intros (? & [= ->] & ?)].
    + split; [done|]. intros (? & [= ->] & H). by rewrite H in Hl.
  - split; [done|]. by intros (? & ? & _).
Qed.

(** C18. A request passes exactly when it takes the [unsigned] escape and the
    operator opened it, or when a key is configured and the first segment
    decodes to the HMAC of salt and path under it. *)
Theorem verify_or_reject_spec signing signed :
  verify_or_reject hmac_sha256 ct_eq b64_decode signing signed = Ok () ↔
  (signature_segment signed = "unsigned" ∧ allow_unsigned signing = true)
  ∨ (signature_segment signed ≠ "unsigned" ∧ signing_enabled signing = true
     ∧ ∃ raw, b64_decode (signature_segment signed) = Some raw
         ∧ list_byte_of_string raw =
           hmac_sha256 (key signing) (salt signing ++ list_byte_of_string (signed_path signed))).
Proof.
  unfold verify_or_reject. destruct (String.eqb_spec (signature_segment signed) "unsigned") as [Hu|Hu].
  - destruct (allow_unsigned signing); split; try done; [by left|].
    intros [[_ ?]|(? & _)]; done.
  - destruct (signing_enabled signing); cbn [negb].
    + destruct (verify_signature _ _ _ _ _ _ _) eqn:Hv.
      * apply verify_signature_spec in Hv. split; [|done]. intros _. right. by split_and!.
      * split; [done|]. intros [[? _]|(_ & _ & H)]; [done|].
        change (verify_signature hmac_sha256 ct_eq b64_decode (key signing) (salt signing)
          (signed_path signed) (signature_segment signed) = false) in Hv.
        apply not_true_iff_false in Hv. by destruct Hv; apply verify_signature_spec.
    + split; [done|]. intros [[? _]|(_ & ? & _)]; done.
Qed.

(** What [sign] produces is accepted. *)
Theorem sign_verifies key salt path :
  (∀ bs, b64_decode (b64_encode bs) = Some (string_of_list_byte bs)) →
  verify_signature hmac_sha256 ct_eq b64_decode key salt path
    (sign hmac_sha256 b64_encode key salt path) = true.
Proof.
  intros Hb64. apply verify_signature_spec. unfold sign. rewrite Hb64. eexists. split; [done|].
  apply list_byte_of_string_of_list_byte.
Qed.

Lemma verify_token_spec m t :
  verify_token ct_eq m t = true ↔ token m ≠ [] ∧ list_byte_of_string t = token m.
Proof.
  unfold verify_token, metrics_enabled. destruct (token m) as [|x xs].
  - split; [done|by intros [? _]].
  - change (negb (negb (length (x :: xs) =? 0)%nat)) with false. cbv iota.
    destruct (Nat.eqb_spec (length (list_byte_of_string t)) (length (x :: xs))) as [Hl|Hl].
    + change (ct_eq (list_byte_of_string t) (x :: xs) = true ↔
        x :: xs ≠ [] ∧ list_byte_of_string t = x :: xs).
      rewrite ct_eq_spec by done. split; [by split|by intros [_ ?]].
    + split; [done|]. intros [_ Ht]. by rewrite Ht in Hl.
Qed.

(** Metrics are served only to a holder of the exact token, unless the
    operator opted out. *)
Theorem require_metrics_auth_spec m authorization :
  require_metrics_auth ct_eq m authorization = true ↔
  allow_unauthenticated m = true ∨
  (token m ≠ [] ∧ ∃ t, authorization = Some (BEARER_PREFIX +:+ t) ∧ list_byte_of_string t = token m).
Proof.
  unfold require_metrics_auth. generalize BEARER_PREFIX. intros prefix.
  destruct (allow_unauthenticated m); [by split; [left|]|].
  destruct authorization as [a|]; cbn [mbind option_bind];
    [|split; [done|by intros [?|(_ & ? & ? & _)]]].
  destruct (strip_prefix prefix a) as [t|] eqn:Ht.
  - apply strip_prefix_Some in Ht as ->. rewrite verify_token_spec. split.
    + intros [? ?]. right. split; [done|by exists t].
    + intros [?|(? & t' & Heq & Ht)]; [done|]. injection Heq as Heq.
      apply str_app_inv_l in Heq. by subst.
  - split; [done|]. intros [?|(_ & t & [= ->] & _)]; [done|].
    by rewrite strip_prefix_app in Ht.
Qed.
End SigningProperties.

(** With no token configured and no opt-out, the service does not start. *)
Theorem metrics_fails_closed t allow m :
  metrics_from_env t allow = Ok m →
  metrics_enabled m = true ∨ (allow = Some true ∧ allow_unauthenticated m = true).
Proof.
  unfold metrics_from_env. cbv zeta. destruct (negb _ && negb _) eqn:Hc; [done|].
  intros [= <-]. simpl in *. apply andb_false_iff in Hc as [Hc|Hc]; apply negb_false_iff in Hc.
  - by left.
  - right. destruct allow as [[]|]; done.
Qed.

(** ** Instances *)

(** Equality of buffers, the function constant-time comparison computes. *)
Definition plain_eq (a b : list byte) : bool := bool_decide (a = b).

Lemma plain_eq_spec a b : length a = length b → plain_eq a b = true ↔ a = b.
Proof. intros _. apply bool_decide_eq_true. Qed.

Definition example_signing : SigningConfig := mk_SigningConfig [Byte.x01] [Byte.x02] false.

Lemma decode_hex_env_roundtrip_witness :
  decode_hex_env "SIGNING_KEY" (Some "0fa5") = Ok [Byte.x0f; Byte.xa5].
Proof.
  by apply (decode_hex_env_roundtrip "SIGNING_KEY" [Byte.x0f; Byte.xa5] "0FA5").
Defined.

Lemma signing_fails_closed_witness :
  signing_enabled (mk_SigningConfig [Byte.x01] [Byte.x02] false) = true.
Proof.
  by destruct (signing_fails_closed (Some "01") (Some "02") None example_signing) as [[H|H] _].
Defined.

Lemma verify_or_reject_spec_witness :
  verify_or_reject (λ key data, key ++ data) plain_eq Some example_signing
    (mk_SignedRequest (string_of_list_byte ([Byte.x01; Byte.x02] ++ list_byte_of_string "/a")) "/a" ["a"])
  = Ok ().
Proof.
  apply (verify_or_reject_spec _ _ _ plain_eq_spec). right. by repeat eexists.
Defined.

Lemma sign_verifies_witness :
  verify_signature (λ key data, key ++ data) plain_eq Some [Byte.x01] [Byte.x02] "/a"
    (sign (λ key data, key ++ data) string_of_list_byte [Byte.x01] [Byte.x02] "/a") = true.
Proof. by apply (sign_verifies _ _ _ _ plain_eq_spec). Defined.

Lemma require_metrics_auth_spec_witness :
  require_metrics_auth plain_eq (mk_MetricsAuthConfig (list_byte_of_string "s3cret") false)
    (Some "Bearer s3cret") = true.
Proof.
  apply (require_metrics_auth_spec _ plain_eq_spec). right. split; [done|]. by exists "s3cret".
Defined.

Lemma metrics_fails_closed_witness :
  ∃ m, metrics_from_env (Some "s3cret") None = Ok m ∧ metrics_enabled m = true.
Proof.
  eexists. split; [reflexivity|].
  by destruct (metrics_fails_closed (Some "s3cret") None
    (mk_MetricsAuthConfig (list_byte_of_string "s3cret") false)) as [H|[H _]].
Defined.
