(* ===== verification/Errors.v ===== *)
(** * Errors and their HTTP status: [src/modules/utils/err.rs]

An [anyhow::Error] is one of the two typed errors the classifiers downcast
to, or an opaque message.  [Display] of the errors is what the classifiers
and the single-flight hand-off look at. *)
From S2P Require Import Prelude RustStr SourceGuard RustFloat Params CacheKey KeyValidation.

Local Open Scope Z_scope.

(** ** [Display] of addresses *)

Definition ipv4_to_string (a : Z) : string :=
  join "." (uint_to_string <$> [octet 0 a; octet 1 a; octet 2 a; octet 3 a]).

(** [{:x}] of a segment. *)
Fixpoint hex_digits (fuel : nat) (n : Z) (acc : string) : string :=
  match fuel with
  | O => acc
  | S fuel' =>
      let acc := String (hex_char (n mod 16)) acc in
      if n / 16 =? 0 then acc else hex_digits fuel' (n / 16) acc
  end.

Definition segments (a : Z) : list Z :=
  (λ i, a / 2 ^ (16 * (7 - Z.of_nat i)) mod 2 ^ 16) <$> seq 0 8.

(** The first longest run of zero segments: where it starts, how long it is. *)
Fixpoint longest_zeroes (i : nat) (segs : list Z) (longest current : nat * nat) : nat * nat :=
  match segs with
  | [] => longest
  | s :: rest =>
      if s =? 0 then
        let current := (if (current.2 =? 0)%nat then i else current.1, S current.2) in
        longest_zeroes (S i) rest
          (if (longest.2 <? current.2)%nat then current else longest) current
      else longest_zeroes (S i) rest longest (O, O)
  end.

Definition segments_text (segs : list Z) : string :=
  join ":" ((λ s, hex_digits 4 s EmptyString) <$> segs).

Definition ipv6_to_string (a : Z) : string :=
  match to_ipv4_mapped a with
  | Some v4 => "::ffff:" +:+ ipv4_to_string v4
  | None =>
      let segs := segments a in
      let '(start, len) := longest_zeroes 0 segs (O, O) (O, O) in
      if (1 <? len)%nat then
        segments_text (take start segs) +:+ "::" +:+ segments_text (drop (start + len) segs)
      else segments_text segs
  end.

Definition ip_to_string (ip : IpAddr) : string :=
  match ip with V4 a => ipv4_to_string a | V6 a => ipv6_to_string a end.

Example display_v6 :
  ip_to_string <$> [V6 1; V6 0; V6 (65152 * 2 ^ 112 + 65538); V6 (65535 * 2 ^ 32 + 2852039166)]
  = ["::1"; "::"; "fe80::1:2"; "::ffff:169.254.169.254"].
Proof. vm_compute. reflexivity. Qed.

(** ** [Display] of the typed errors *)

Definition source_rejected_to_string (r : SourceRejected) : string :=
  match r with
  | UnsupportedScheme scheme =>
      "Unsupported source URL scheme '" +:+ scheme +:+ "' (only http/https are allowed)"
  | NotAllowlisted url =>
      "Source URL '" +:+ url +:+ "' is not in the configured ALLOWED_SOURCES allowlist"
  | BlockedIpLiteral host addr =>
      "Source host '" +:+ host +:+ "' is a blocked IP literal (" +:+ ip_to_string addr +:+ ")"
  | BlockedResolvedAddress host addr =>
      "Source host '" +:+ host +:+ "' resolves to a blocked address (" +:+ ip_to_string addr +:+ ")"
  | NoAddressesResolved host => "DNS resolution for host '" +:+ host +:+ "' returned no addresses"
  end.

(** [EContext] is [.context(msg)]: its [Display] is the context alone, while
    [downcast_ref] still finds the error under it. *)
Inductive AnyhowError :=
  | ESource (r : SourceRejected)
  | EKey (e : InvalidKeyError)
  | EMessage (msg : string)
  | EContext (msg : string) (e : AnyhowError).

Definition error_to_string (e : AnyhowError) : string :=
  match e with
  | ESource r => source_rejected_to_string r
  | EKey k => invalid_key_message k
  | EMessage msg => msg
  | EContext msg _ => msg
  end.

(** [downcast_ref::<SourceRejected>] and [downcast_ref::<InvalidKeyError>]. *)
Fixpoint source_rejection (e : AnyhowError) : option SourceRejected :=
  match e with ESource r => Some r | EContext _ e => source_rejection e | _ => None end.
Fixpoint key_rejection (e : AnyhowError) : option InvalidKeyError :=
  match e with EKey k => Some k | EContext _ e => key_rejection e | _ => None end.

(** ** [AppError] *)

Inductive AppError :=
  | NotFound (msg : string)
  | BadRequest (msg : string)
  | Forbidden (msg : string)
  | BadGateway (msg : string)
  | ServiceUnavailable (msg : string)
  | IoError (msg : string)
  | AnyError (e : AnyhowError).

Definition status_code (e : AppError) : Z :=
  match e with
  | NotFound _ => 404
  | BadRequest _ => 400
  | Forbidden _ => 403
  | BadGateway _ => 502
  | ServiceUnavailable _ => 503
  | IoError _ => 500
  | AnyError _ => 500
  end.

Definition app_error_to_string (e : AppError) : string :=
  match e with
  | NotFound m => "not found: " +:+ m
  | BadRequest m => "bad request: " +:+ m
  | Forbidden m => "forbidden: " +:+ m
  | BadGateway m => "bad gateway: " +:+ m
  | ServiceUnavailable m => "service unavailable: " +:+ m
  | IoError m => "I/O error: " +:+ m
  | AnyError e => "internal error: " +:+ error_to_string e
  end.

(** [str::contains(&str)]. *)
Fixpoint contains_str (pat s : string) : bool :=
  starts_with pat s ||
  match s with
  | EmptyString => false
  | String _ rest => contains_str pat rest
  end.

(** [msg.to_lowercase().contains(pat)] for the ASCII patterns of this module:
    no non-ASCII character lowercases to one of their letters alone. *)
Definition mentions (pat msg : string) : bool := contains_str pat (to_ascii_lowercase msg).

Definition classify_download_error (err : AnyhowError) : AppError :=
  match key_rejection err with
  | Some _ => NotFound (error_to_string err)
  | None =>
      let msg := error_to_string err in
      if mentions "not found" msg then NotFound msg else BadGateway msg
  end.

Definition classify_resize_error (err : AnyhowError) : AppError :=
  match source_rejection err with
  | Some _ => BadRequest (error_to_string err)
  | None =>
      let msg := error_to_string err in
      if mentions "too large" msg || mentions "decode" msg then BadRequest msg
      else if mentions "permit" msg || mentions "cancelled" msg then ServiceUnavailable msg
      else if mentions "encode" msg then AnyError err
      else BadGateway msg
  end.

(** ** Responses *)

Record Response := mk_Response {
  resp_status : Z;
  resp_headers : list (string * string);
  resp_body : string;
}.

Definition header (name : string) (r : Response) : option string :=
  snd <$> List.find (λ h, String.eqb h.1 name) (resp_headers r).

Definition error_response (e : AppError) : Response :=
  mk_Response (status_code e) [("cache-control", "no-store")] (app_error_to_string e).

(** ** Properties *)

(** *** What a message mentions *)

Lemma to_ascii_lowercase_app s t : to_ascii_lowercase (s +:+ t) = to_ascii_lowercase s +:+ to_ascii_lowercase t.
Proof. induction s as [|a s IH]; [done|]. unfold to_ascii_lowercase in *. cbn. by f_equal. Qed.

Lemma starts_with_longer pat s t : starts_with pat s = true → starts_with pat (s +:+ t) = true.
Proof. intros [u ->]%starts_with_spec. apply starts_with_spec. exists (u +:+ t). by rewrite str_app_assoc. Qed.

Lemma contains_str_longer pat s t : contains_str pat s = true → contains_str pat (s +:+ t) = true.
Proof.
  induction s as [|a s IH]; cbn [contains_str String.append].
  - rewrite orb_false_r. destruct pat; [|done]. intros _. by destruct t.
  - rewrite !orb_true_iff. intros [H|H]; [left|right; by apply IH]. by apply (starts_with_longer pat (String a s)).
Qed.

(** A message begun with the words mentions them, whatever follows. *)
Lemma mentions_longer pat s t : mentions pat s = true → mentions pat (s +:+ t) = true.
Proof. unfold mentions. rewrite to_ascii_lowercase_app. apply contains_str_longer. Qed.

Lemma starts_with_cut c pat s t :
  str_contains c pat = false → starts_with pat (s +:+ String c t) = starts_with pat s.
Proof.
  unfold starts_with. revert s. induction pat as [|p pat IH]; intros s; [by destruct s|].
  unfold str_contains. cbn [str_exists]. rewrite orb_false_iff. intros [Hp Hpat]. destruct s as [|a s]; cbn.
  - rewrite Ascii.eqb_sym, Hp. done.
  - destruct (Ascii.eqb p a); [by apply IH|done].
Qed.

(** A character that is not in the pattern parts what can match it. *)
Lemma contains_str_cut c pat s t :
  pat ≠ EmptyString → str_contains c pat = false →
  contains_str pat (s +:+ String c t) = contains_str pat s || contains_str pat t.
Proof.
  intros Hne Hc. induction s as [|a s IH].
  - cbn [String.append contains_str]. rewrite orb_false_r. f_equal. exact (starts_with_cut c pat EmptyString t Hc).
  - cbn [String.append contains_str]. rewrite IH, orb_assoc. f_equal. f_equal.
    exact (starts_with_cut c pat (String a s) t Hc).
Qed.

(** Neither does a number in the message, between two texts that do not
    mention the pattern. *)
Lemma mentions_around pat s n t :
  pat ≠ EmptyString → str_forall (λ a, negb (is_ascii_digit a)) pat = true → 0 ≤ n →
  mentions pat (s +:+ uint_to_string n +:+ t) = mentions pat s || mentions pat t.
Proof.
  intros Hne Hpat Hn. unfold mentions. rewrite !to_ascii_lowercase_app.
  destruct (uint_to_string_head n Hn) as (d & rest & Hd & E). pose proof (uint_to_string_digits n Hn) as Hdig.
  rewrite E in Hdig |- *. clear E. set (x := to_ascii_lowercase s). set (y := to_ascii_lowercase t).
  assert (∀ a, is_ascii_digit a = true → ascii_to_lower a = a ∧ str_contains a pat = false) as Hdigit.
  { intros a Ha. split.
    - pose proof (ascii_digit_code a Ha). unfold ascii_to_lower.
      destruct ((65 <=? code a) && (code a <=? 90)) eqn:Hup; [|done].
      rewrite andb_true_iff, !Z.leb_le in Hup. lia.
    - eapply (str_forall_not_contains (λ a, negb (is_ascii_digit a))); [|exact Hpat]. cbv beta. by rewrite Ha. }
  assert (∀ ds, str_forall is_ascii_digit ds = true →
            contains_str pat (to_ascii_lowercase ds +:+ y) = contains_str pat y) as Hskip.
  { induction ds as [|a ds IH]; [done|]. cbn [str_forall]. rewrite andb_true_iff. intros [Ha Hds].
    destruct (Hdigit a Ha) as [Hlow Hno]. unfold to_ascii_lowercase in *. cbn [str_map String.append]. rewrite Hlow.
    etrans; [exact (contains_str_cut a pat EmptyString _ Hne Hno)|]. rewrite (IH Hds). by destruct pat. }
  cbn [str_forall] in Hdig. apply andb_true_iff in Hdig as [Ha Hrest]. destruct (Hdigit _ Ha) as [Hlow Hno].
  unfold to_ascii_lowercase at 1. cbn [str_map String.append]. rewrite Hlow.
  rewrite contains_str_cut by done. f_equal. exact (Hskip rest Hrest).
Qed.

(** A failure never answers with a success or a redirect, and is never
    cacheable. *)
Theorem errors_are_uncacheable e :
  400 ≤ resp_status (error_response e) ∧ header "cache-control" (error_response e) = Some "no-store".
Proof. split; [destruct e; simpl; lia|done]. Qed.

(** A rejected source is the client's fault whatever its message says, and an
    invalid key is indistinguishable in status from an absent one. *)
Theorem typed_errors_classified :
  (∀ r, status_code (classify_resize_error (ESource r)) = 400)
  ∧ (∀ k, status_code (classify_download_error (EKey k)) = 404)
  ∧ (∀ k, status_code (classify_download_error (EMessage (invalid_key_message k))) = 404).
Proof.
  by split_and!.
Qed.
