(* ===== verification/Storage.v ===== *)
(** * Storage: [src/services/storage/{core,handler,in_memory_handler}.rs]

The [StorageBackend] trait is a class of operations, its documented promises
are a class of laws, and [StorageService], which checks every key before it
lets a backend see it, is proved against the laws.  The in-memory backend
discharges them here, the others in [LocalFs.v] and [S3Storage.v].

Time is in nanoseconds since the Unix epoch, as are durations.  What an
operation meets outside - the clock, failing calls - is an environment [E].
Backends are called one operation at a time here; what interleaving adds is
in [LocalFs.v]. *)
From S2P Require Import Prelude RustStr SourceGuard RustFloat Params CacheKey KeyValidation Errors.

Local Open Scope Z_scope.

Definition second : Z := 1000000000.

(** The end of [SystemTime] and [Instant]: 63 bits of seconds. *)
Definition time_end : Z := 2 ^ 63 * second.

Definition checked_add_time (now ttl : Z) : option Z :=
  if now + ttl <? time_end then Some (now + ttl) else None.

(** [duration_since(UNIX_EPOCH).map(|d| d.as_secs()).unwrap_or(0)] *)
Definition unix_secs (t : Z) : Z := if t <? 0 then 0 else t / second.

Lemma unix_secs_spec t : 0 ≤ t → unix_secs t * second ≤ t < unix_secs t * second + second.
Proof.
  intros Ht. unfold unix_secs. rewrite (proj2 (Z.ltb_ge t 0)) by done.
  pose proof (Z.div_mod t second ltac:(done)). pose proof (Z.mod_pos_bound t second ltac:(done)).
  unfold second in *. lia.
Qed.

(** ** The trait *)

Class StorageBackend (E St : Type) := {
  backend_now : E → Z;
  upload_image_with_ttl :
    E → string → string → list byte → option Z → St → result AnyhowError unit * St;
  check_cache : E → string → St → result AnyhowError bool * St;
  get_image : E → string → St → result AnyhowError (list byte) * St;
  delete_image : E → string → St → result AnyhowError unit * St;
}.

(** The provided method of the trait. *)
Definition upload_image `{StorageBackend E St} (e : E) (key content_type : string)
    (data : list byte) : St → result AnyhowError unit * St :=
  upload_image_with_ttl e key content_type data None.

(** A read at [t] of something stored at [now] with [ttl]: certainly in time,
    to the resolution of the backends' clocks, and certainly too late. *)
Definition kept_for (now : Z) (ttl : option Z) (t : Z) : Prop :=
  match ttl with Some d => t + second ≤ now + d | None => True end.
Definition lapsed_by (now : Z) (ttl : option Z) (t : Z) : Prop :=
  match ttl with Some d => now + d ≤ t | None => False end.

Definition missing {A} (r : result AnyhowError A) : Prop :=
  ∃ err, r = Err err ∧ status_code (classify_download_error err) = 404.

(** What the trait's documentation promises.  [live s t k] is what a read of
    [k] at [t] is to see; [calm] says no call of the environment fails, and
    [honest] that those the backend does not report - the keeping of expiries -
    do not. *)
Class StorageContract (E St : Type) {B : StorageBackend E St} := {
  usable : string → Prop;
  sound : St → Prop;
  calm : E → Prop;
  honest : E → Prop;
  horizon : Z;
  live : St → Z → string → option (list byte);
  calm_honest e : calm e → honest e;
  upload_frame e key ct data ttl s :
    sound s → usable key →
    sound (upload_image_with_ttl e key ct data ttl s).2
    ∧ ∀ k t, usable k → k ≠ key →
        live (upload_image_with_ttl e key ct data ttl s).2 t k = live s t k;
  upload_succeeds e key ct data ttl s :
    calm e → sound s → usable key → (upload_image_with_ttl e key ct data ttl s).1 = Ok ();
  upload_stores e key ct data ttl s :
    honest e → sound s → usable key → 0 ≤ backend_now e →
    (∀ d, ttl = Some d → 0 ≤ d ∧ backend_now e + d < horizon) →
    (upload_image_with_ttl e key ct data ttl s).1 = Ok () →
    ∀ t, 0 ≤ t →
      (kept_for (backend_now e) ttl t →
       live (upload_image_with_ttl e key ct data ttl s).2 t key = Some data)
      ∧ (lapsed_by (backend_now e) ttl t →
         live (upload_image_with_ttl e key ct data ttl s).2 t key = None);
  check_frame e key s :
    sound s → usable key →
    sound (check_cache e key s).2
    ∧ ∀ k t, usable k → backend_now e ≤ t → live (check_cache e key s).2 t k = live s t k;
  check_answer e key s :
    calm e → sound s → usable key →
    (check_cache e key s).1 = Ok (bool_decide (is_Some (live s (backend_now e) key)));
  check_told e key s b :
    honest e → sound s → usable key → (check_cache e key s).1 = Ok b →
    b = bool_decide (is_Some (live s (backend_now e) key));
  get_frame e key s :
    sound s → usable key →
    sound (get_image e key s).2
    ∧ ∀ k t, usable k → backend_now e ≤ t → live (get_image e key s).2 t k = live s t k;
  get_answer e key s :
    calm e → sound s → usable key →
    match live s (backend_now e) key with
    | Some data => (get_image e key s).1 = Ok data
    | None => missing (get_image e key s).1
    end;
  get_told e key s data :
    honest e → sound s → usable key → (get_image e key s).1 = Ok data →
    live s (backend_now e) key = Some data;
  delete_frame e key s :
    sound s → usable key →
    sound (delete_image e key s).2
    ∧ ∀ k t, usable k → k ≠ key → live (delete_image e key s).2 t k = live s t k;
  delete_purges e key s :
    calm e → sound s → usable key →
    (delete_image e key s).1 = Ok () ∧ ∀ t, live (delete_image e key s).2 t key = None;
}.

(** ** [StorageService] *)

Record StorageService := mk_StorageService {
  cdn_base_url : string;
  key_prefix : string;
}.

(** [trim_end_matches(c)] *)
Fixpoint trim_end_matches (c : ascii) (s : string) : string :=
  match s with
  | EmptyString => EmptyString
  | String a rest =>
      match trim_end_matches c rest with
      | EmptyString => if Ascii.eqb a c then EmptyString else String a EmptyString
      | rest' => String a rest'
      end
  end.

Definition get_cdn_url (svc : StorageService) (key : string) : string :=
  trim_end_matches "/" (cdn_base_url svc) +:+ "/" +:+ key.

Section Service.
Context `{StorageBackend E St} (svc : StorageService).

(** [validate_cache_key(key, &self.key_prefix)?] in front of an operation. *)
Definition validated {A} (key : string) (op : St → result AnyhowError A * St) (s : St)
  : result AnyhowError A * St :=
  match validate_cache_key key (key_prefix svc) with
  | Err err => (Err (EKey err), s)
  | Ok _ => op s
  end.

Definition service_upload_image (e : E) (key content_type : string) (data : list byte)
  : St → result AnyhowError unit * St :=
  validated key (upload_image e key content_type data).

Definition service_upload_image_with_ttl (e : E) (key content_type : string) (data : list byte)
    (ttl : option Z) : St → result AnyhowError unit * St :=
  validated key (upload_image_with_ttl e key content_type data ttl).

Definition service_delete (e : E) (key : string) : St → result AnyhowError unit * St :=
  validated key (delete_image e key).

Definition service_check_cache (e : E) (key : string) : St → result AnyhowError bool * St :=
  validated key (check_cache e key).

Definition service_get_image (e : E) (key : string) : St → result AnyhowError (list byte) * St :=
  validated key (get_image e key).
End Service.

(** A call of the service, as a request of the program makes it. *)
Inductive StorageCall :=
  | CallUpload (key content_type : string) (data : list byte) (ttl : option Z)
  | CallCheck (key : string)
  | CallGet (key : string)
  | CallDelete (key : string).

(** What a caller learns from a call that succeeds. *)
Inductive Answer :=
  | Done
  | Hit (b : bool)
  | Data (data : list byte).

Definition call_service `{StorageBackend E St} (svc : StorageService) (e : E) (call : StorageCall)
    (s : St) : result AnyhowError Answer * St :=
  match call with
  | CallUpload key ct data ttl =>
      let (r, s') := service_upload_image_with_ttl svc e key ct data ttl s in ((λ _, Done) <$> r, s')
  | CallCheck key => let (r, s') := service_check_cache svc e key s in (Hit <$> r, s')
  | CallGet key => let (r, s') := service_get_image svc e key s in (Data <$> r, s')
  | CallDelete key => let (r, s') := service_delete svc e key s in ((λ _, Done) <$> r, s')
  end.

(** A sequence of calls, each in its own environment; the answers in order. *)
Fixpoint run_calls `{StorageBackend E St} (svc : StorageService) (calls : list (E * StorageCall))
    (s : St) : list (result AnyhowError Answer) * St :=
  match calls with
  | [] => ([], s)
  | (e, call) :: rest =>
      let (r, s1) := call_service svc e call s in
      let (rs, s2) := run_calls svc rest s1 in (r :: rs, s2)
  end.

(** ** The in-memory backend *)

Module InMemory.
(** Content type, bytes, and the expiry. *)
Definition Entry : Type := string * list byte * option Z.
Abbreviation InMemoryStorage := (gmap string Entry).

Definition expired (now : Z) (entry : Entry) : bool :=
  match entry.2 with Some expires_at => expires_at <=? now | None => false end.

Definition mem_upload (now : Z) (key content_type : string) (data : list byte) (ttl : option Z)
    (storage : InMemoryStorage) : result AnyhowError unit * InMemoryStorage :=
  let expires_at := ttl ≫= checked_add_time now in
  (Ok (), <[key := (content_type, data, expires_at)]> storage).

Definition mem_check (now : Z) (key : string) (storage : InMemoryStorage)
  : result AnyhowError bool * InMemoryStorage :=
  (match storage !! key with
   | Some entry => Ok (negb (expired now entry))
   | None => Ok false
   end, storage).

Definition mem_get (now : Z) (key : string) (storage : InMemoryStorage)
  : result AnyhowError (list byte) * InMemoryStorage :=
  (match storage !! key with
   | Some entry =>
       if expired now entry
       then Err (EMessage ("Image not found in memory storage: " +:+ key +:+ " (expired)"))
       else Ok entry.1.2
   | None => Err (EMessage ("Image not found in memory storage: " +:+ key))
   end, storage).

Definition mem_delete (now : Z) (key : string) (storage : InMemoryStorage)
  : result AnyhowError unit * InMemoryStorage :=
  (Ok (), delete key storage).

#[export] Instance backend : StorageBackend Z InMemoryStorage := {
  backend_now := λ now, now;
  upload_image_with_ttl := mem_upload;
  check_cache := mem_check;
  get_image := mem_get;
  delete_image := mem_delete;
}.
End InMemory.

(** ** The promises as the client uses them *)

(** A message with [not found] in it is answered with 404. *)
Lemma missing_message {A} (msg : string) :
  mentions "not found" msg = true → missing (A := A) (Err (EMessage msg)).
Proof.
  intros H. eexists. split; [done|]. unfold classify_download_error.
  cbn [key_rejection error_to_string]. by rewrite H.
Qed.

Lemma missing_key {A} k : missing (A := A) (Err (EKey k)).
Proof. eexists. by split. Qed.

Section InMemoryContract.
Import InMemory.

Definition mem_live (storage : InMemoryStorage) (t : Z) (key : string) : option (list byte) :=
  entry ← storage !! key; if expired t entry then None else Some entry.1.2.

Lemma mem_get_answer now key storage :
  match mem_live storage now key with
  | Some data => (mem_get now key storage).1 = Ok data
  | None => missing (mem_get now key storage).1
  end.
Proof.
  unfold mem_live, mem_get. destruct (storage !! key) as [entry|]; simpl;
    [destruct (expired now entry); [|done]|]; by apply missing_message.
Qed.

Lemma mem_check_answer now key storage :
  (mem_check now key storage).1 = Ok (bool_decide (is_Some (mem_live storage now key))).
Proof.
  unfold mem_check, mem_live. destruct (storage !! key) as [entry|]; simpl; [|done].
  by destruct (expired now entry).
Qed.

#[export] Instance mem_contract : StorageContract Z InMemoryStorage.
Proof.
  refine {| usable := λ _, True; sound := λ _, True; calm := λ _, True; honest := λ _, True;
            horizon := time_end; live := mem_live |}; simpl.
  - done.
  - intros now key ct data ttl storage _ _. split; [done|]. intros k t _ Hk.
    unfold mem_live, mem_upload. simpl. by rewrite lookup_insert_ne.
  - done.
  - intros now key ct data ttl storage _ _ _ Hnow Httl _ t Ht.
    unfold mem_live, mem_upload. simpl. rewrite lookup_insert. case_decide; [|done]. cbn [mbind option_bind].
    unfold expired. simpl. destruct ttl as [d|]; simpl; [|done].
    destruct (Httl d eq_refl) as [Hd Hend]. unfold checked_add_time.
    rewrite (proj2 (Z.ltb_lt _ _)) by done. unfold second in *.
    destruct (Z.leb_spec (now + d) t); (split; intros; [try done; lia|done || lia]).
  - done.
  - intros now key storage _ _ _. apply mem_check_answer.
  - intros now key storage b _ _ _ Hb. pose proof (mem_check_answer now key storage) as Ha.
    unfold mem_check in Ha. simpl in *. congruence.
  - done.
  - intros now key storage _ _ _. apply mem_get_answer.
  - intros now key storage data _ _ _ Hget. pose proof (mem_get_answer now key storage) as Ha.
    unfold mem_get in Ha. simpl in *. destruct (mem_live storage now key) as [data'|]; [congruence|].
    destruct Ha as (? & ? & _). congruence.
  - intros now key storage _ _. split; [done|]. intros k t _ Hk. unfold mem_live, mem_delete.
    simpl. by rewrite lookup_delete_ne.
  - intros now key storage _ _ _. split; [done|]. intros t. unfold mem_live, mem_delete.
    simpl. rewrite lookup_delete. by case_decide.
Defined.
End InMemoryContract.

(** ** [StorageService] over any backend that keeps the promises *)

Section Client.
Context `{StorageContract E St} (svc : StorageService).
Hypothesis usable_keys : ∀ key, validate_cache_key key (key_prefix svc) = Ok () → usable key.

(** An invalid key never reaches a backend: nothing changes, and the answer is
    that of a missing image, for every operation. *)
Theorem invalid_key_is_inert e call s :
  let key := match call with
             | CallUpload k _ _ _ | CallCheck k | CallGet k | CallDelete k => k end in
  validate_cache_key key (key_prefix svc) ≠ Ok () →
  call_service svc e call s = (Err (EKey (mk_InvalidKeyError key)), s).
Proof.
  intros key Hkey. assert (validate_cache_key key (key_prefix svc) = Err (mk_InvalidKeyError key)) as Herr.
  { destruct (validate_cache_key key (key_prefix svc)) as [[]|err] eqn:He; [done|].
    by rewrite (validate_cache_key_err _ _ _ He). }
  destruct call; unfold call_service, service_upload_image_with_ttl, service_check_cache,
    service_get_image, service_delete, validated; subst key; cbn in Herr; by rewrite Herr.
Qed.

(** The state after a call. *)
Abbreviation after e call s := (call_service svc e call s).2.

Lemma validated_usable {A} key (op : St → result AnyhowError A * St) s :
  (validate_cache_key key (key_prefix svc) = Ok () ∧ usable key ∧ validated svc key op s = op s)
  ∨ ((validated svc key op s).2 = s).
Proof.
  unfold validated. destruct (validate_cache_key key (key_prefix svc)) as [[]|err] eqn:Hv;
    [left|by right]. split_and!; [done|by apply usable_keys|done].
Qed.

(** What a call other than an upload or a deletion of [k] leaves of [k]. *)
Definition spares (k : string) (call : StorageCall) : Prop :=
  match call with CallUpload k' _ _ _ | CallDelete k' => k' ≠ k | _ => True end.

Lemma call_frame e call s k t :
  sound s → usable k → spares k call → backend_now e ≤ t →
  sound (after e call s) ∧ live (after e call s) t k = live s t k.
Proof.
  intros Hs Hk Hspare Ht.
  assert (Hgen : ∀ X Y (f : X → Y) key (op : St → result AnyhowError X * St),
    (usable key → sound (op s).2 ∧ live (op s).2 t k = live s t k) →
    let out := (let (r, s') := validated svc key op s in (f <$> r, s')).2 in
    sound out ∧ live out t k = live s t k).
  { intros X Y f key op Hop.
    destruct (validated_usable key op s) as [(_ & Hu & ->)|Hid].
    - destruct (op s) as [r s'] eqn:Hop'. exact (Hop Hu).
    - destruct (validated svc key op s) as [r s']. simpl in Hid. by subst. }
  destruct call as [key ct data ttl|key|key|key]; simpl in Hspare; apply Hgen; intros Hu.
  - destruct (upload_frame e key ct data ttl s Hs Hu) as [? Hf]. split; [done|]. by apply Hf.
  - destruct (check_frame e key s Hs Hu) as [? Hf]. split; [done|]. by apply Hf.
  - destruct (get_frame e key s Hs Hu) as [? Hf]. split; [done|]. by apply Hf.
  - destruct (delete_frame e key s Hs Hu) as [? Hf]. split; [done|]. by apply Hf.
Qed.

Lemma run_calls_frame calls s k t :
  sound s → usable k →
  Forall (λ c, spares k c.2 ∧ backend_now c.1 ≤ t) calls →
  sound (run_calls svc calls s).2 ∧ live (run_calls svc calls s).2 t k = live s t k.
Proof.
  intros Hs Hk Hcalls. revert s Hs. induction Hcalls as [|[e call] calls [Hspare Ht] _ IH];
    intros s Hs; [done|]. simpl in *.
  destruct (call_frame e call s k t Hs Hk Hspare Ht) as [Hs1 Hl].
  destruct (call_service svc e call s) as [r s1]. simpl in *.
  destruct (IH s1 Hs1) as [Hs2 Hl2]. destruct (run_calls svc calls s1) as [rs s2]. simpl in *.
  split; [done|congruence].
Qed.

(** What reads of a usable key say of what is live. *)
Lemma reads_of_live e key s :
  honest e → sound s → usable key →
  match live s (backend_now e) key with
  | Some data =>
      (calm e → (get_image e key s).1 = Ok data ∧ (check_cache e key s).1 = Ok true)
      ∧ (∀ d, (get_image e key s).1 = Ok d → d = data) ∧ (check_cache e key s).1 ≠ Ok false
  | None =>
      (calm e → missing (get_image e key s).1 ∧ (check_cache e key s).1 = Ok false)
      ∧ (∀ d, (get_image e key s).1 ≠ Ok d) ∧ (check_cache e key s).1 ≠ Ok true
  end.
Proof.
  intros He Hs Hu. pose proof (λ d, get_told e key s d He Hs Hu) as Hg.
  pose proof (λ b, check_told e key s b He Hs Hu) as Hc.
  assert (calm e → match live s (backend_now e) key with
    | Some data => (get_image e key s).1 = Ok data | None => missing (get_image e key s).1 end
    ∧ (check_cache e key s).1 = Ok (bool_decide (is_Some (live s (backend_now e) key)))) as Hcalm
    by (intros; split; [by apply get_answer|by apply check_answer]).
  destruct (live s (backend_now e) key) as [data|].
  - rewrite bool_decide_true in * by done. split_and!; [done| |].
    + intros d Hd. by injection (Hg d Hd).
    + intros Hf. by specialize (Hc _ Hf).
  - rewrite bool_decide_false in * by by intros []. split_and!; [done| |].
    + intros d Hd. by specialize (Hg d Hd).
    + intros Hf. by specialize (Hc _ Hf).
Qed.


(** A deleted image is missing at once, and deleting it again succeeds. *)
Theorem deleted_image_is_missing e key e' e'' s :
  sound s → calm e → calm e' → calm e'' → validate_cache_key key (key_prefix svc) = Ok () →
  let deleted := service_delete svc e key s in
  deleted.1 = Ok () ∧ missing (service_get_image svc e' key deleted.2).1
  ∧ (service_delete svc e'' key deleted.2).1 = Ok ().
Proof.
  intros Hs He He' He'' Hv deleted. pose proof (usable_keys key Hv) as Hu.
  unfold deleted, service_delete, service_get_image, validated. rewrite !Hv.
  destruct (delete_purges e key s He Hs Hu) as [Hok Hgone].
  destruct (delete_frame e key s Hs Hu) as [Hs1 _]. split; [done|].
  pose proof (get_answer e' key _ He' Hs1 Hu) as Hg. rewrite Hgone in Hg. split; [done|].
  by destruct (delete_purges e'' key _ He'' Hs1 Hu).
Qed.
End Client.

(** ** Backends are interchangeable *)

Definition same_answer (r1 r2 : result AnyhowError Answer) : Prop :=
  match r1, r2 with
  | Ok a1, Ok a2 => a1 = a2
  | Err _, Err _ => missing r1 ∧ missing r2
  | _, _ => False
  end.

Definition whole (t : Z) : Prop := t mod second = 0.

Lemma whole_kept_or_lapsed now ttl t :
  whole now → (∀ d, ttl = Some d → whole d) → whole t → kept_for now ttl t ∨ lapsed_by now ttl t.
Proof.
  unfold whole, kept_for, lapsed_by. intros Hn Hd Ht. destruct ttl as [d|]; [|by left].
  specialize (Hd d eq_refl). apply Z.mod_divide in Hn as [a Ha]; [|done].
  apply Z.mod_divide in Hd as [b Hb]; [|done]. apply Z.mod_divide in Ht as [c Hc]; [|done].
  unfold second in *. lia.
Qed.

Section Agreement.
Context `{C1 : StorageContract E1 S1} `{C2 : StorageContract E2 S2} (svc : StorageService).

Abbreviation valid key := (validate_cache_key key (key_prefix svc) = Ok ()).
Hypothesis usable1 : ∀ key, valid key → usable (StorageContract := C1) key.
Hypothesis usable2 : ∀ key, valid key → usable (StorageContract := C2) key.

(** Both stores show the same images at every whole second from [t] on. *)
Definition agree (t : Z) (s1 : S1) (s2 : S2) : Prop :=
  sound s1 ∧ sound s2
  ∧ ∀ k t', valid k → t ≤ t' → whole t' → live s1 t' k = live s2 t' k.

(** One call made of both: at the same whole second, where nothing fails. *)
Record same_call (t : Z) (e1 : E1) (e2 : E2) (call : StorageCall) : Prop := {
  sc_now1 : backend_now e1 = t;
  sc_now2 : backend_now e2 = t;
  sc_whole : whole t;
  sc_pos : 0 ≤ t;
  sc_calm1 : calm e1;
  sc_calm2 : calm e2;
  sc_ttl key ct data d : call = CallUpload key ct data (Some d) →
    whole d ∧ 0 ≤ d ∧ t + d < horizon (StorageContract := C1) ∧ t + d < horizon (StorageContract := C2);
}.

Lemma agree_later t t' s1 s2 : t ≤ t' → agree t s1 s2 → agree t' s1 s2.
Proof. intros Ht (H1 & H2 & Hl). split_and!; [done..|]. intros. apply Hl; [done|lia|done]. Qed.

(** A key that is not the one called keeps its image on both sides. *)
Lemma agree_frame t s1 s2 s1' s2' key :
  agree t s1 s2 → sound s1' → sound s2' →
  (∀ k t', usable (StorageContract := C1) k → k ≠ key → t ≤ t' → live s1' t' k = live s1 t' k) →
  (∀ k t', usable (StorageContract := C2) k → k ≠ key → t ≤ t' → live s2' t' k = live s2 t' k) →
  (∀ t', t ≤ t' → whole t' → live s1' t' key = live s2' t' key) →
  agree t s1' s2'.
Proof.
  intros (_ & _ & Hl) Hs1 Hs2 H1 H2 Hkey. split_and!; [done..|]. intros k t' Hk Ht Hw.
  destruct (decide (k = key)) as [->|Hne]; [by apply Hkey|].
  rewrite H1, H2 by auto. by apply Hl.
Qed.

Lemma upload_agrees t e1 e2 key ct data ttl s1 s2 :
  same_call t e1 e2 (CallUpload key ct data ttl) → agree t s1 s2 → valid key →
  (upload_image_with_ttl e1 key ct data ttl s1).1 = Ok ()
  ∧ (upload_image_with_ttl e2 key ct data ttl s2).1 = Ok ()
  ∧ agree t (upload_image_with_ttl e1 key ct data ttl s1).2 (upload_image_with_ttl e2 key ct data ttl s2).2.
Proof.
  intros [Hn1 Hn2 Hw Hpos Hc1 Hc2 Httl] Hag Hv. pose proof Hag as (Hs1 & Hs2 & Hl).
  pose proof (usable1 key Hv) as Hu1. pose proof (usable2 key Hv) as Hu2.
  destruct (upload_frame e1 key ct data ttl s1 Hs1 Hu1) as [Hs1' Hf1].
  destruct (upload_frame e2 key ct data ttl s2 Hs2 Hu2) as [Hs2' Hf2].
  pose proof (upload_succeeds e1 key ct data ttl s1 Hc1 Hs1 Hu1) as Hr1.
  pose proof (upload_succeeds e2 key ct data ttl s2 Hc2 Hs2 Hu2) as Hr2.
  opose proof (upload_stores e1 key ct data ttl s1 (calm_honest e1 Hc1) Hs1 Hu1 _ _ Hr1) as Hl1; [lia| |].
  { intros d ->. destruct (Httl _ _ _ _ eq_refl). rewrite Hn1. lia. }
  opose proof (upload_stores e2 key ct data ttl s2 (calm_honest e2 Hc2) Hs2 Hu2 _ _ Hr2) as Hl2; [lia| |].
  { intros d ->. destruct (Httl _ _ _ _ eq_refl). rewrite Hn2. lia. }
  rewrite Hn1 in Hl1. rewrite Hn2 in Hl2. split; [done|]. split; [done|].
  apply (agree_frame t s1 s2 _ _ key); auto. intros t' Ht' Hw'.
  destruct (whole_kept_or_lapsed t ttl t') as [Hk|Hk]; [done| |done| |].
  { intros d ->. by destruct (Httl _ _ _ _ eq_refl). }
  - by rewrite (proj1 (Hl1 t' ltac:(lia)) Hk), (proj1 (Hl2 t' ltac:(lia)) Hk).
  - by rewrite (proj2 (Hl1 t' ltac:(lia)) Hk), (proj2 (Hl2 t' ltac:(lia)) Hk).
Qed.

Lemma call_agrees t e1 e2 call s1 s2 :
  same_call t e1 e2 call → agree t s1 s2 →
  same_answer (call_service svc e1 call s1).1 (call_service svc e2 call s2).1
  ∧ agree t (call_service svc e1 call s1).2 (call_service svc e2 call s2).2.
Proof.
  intros Hsame Hag. pose proof Hsame as [Hn1 Hn2 Hw Hpos Hc1 Hc2 Httl].
  pose proof Hag as (Hs1 & Hs2 & Hl).
  destruct call as [key ct data ttl|key|key|key]; unfold call_service,
    service_upload_image_with_ttl, service_check_cache, service_get_image, service_delete, validated;
    (destruct (validate_cache_key key (key_prefix svc)) as [[]|err] eqn:Hv;
      [|split; [split; apply missing_key|done]]);
    pose proof (usable1 key Hv) as Hu1; pose proof (usable2 key Hv) as Hu2.
  - destruct (upload_agrees t e1 e2 key ct data ttl s1 s2 Hsame Hag Hv) as (Hr1 & Hr2 & Hag').
    destruct (upload_image_with_ttl e1 key ct data ttl s1) as [r1 s1'],
      (upload_image_with_ttl e2 key ct data ttl s2) as [r2 s2']. simpl in *. by subst r1 r2.
  - pose proof (check_answer e1 key s1 Hc1 Hs1 Hu1) as Ha1.
    pose proof (check_answer e2 key s2 Hc2 Hs2 Hu2) as Ha2.
    destruct (check_frame e1 key s1 Hs1 Hu1) as [Hs1' Hf1].
    destruct (check_frame e2 key s2 Hs2 Hu2) as [Hs2' Hf2].
    rewrite Hn1 in *. rewrite Hn2 in *. rewrite (Hl key t Hv ltac:(lia) Hw) in Ha1.
    destruct (check_cache e1 key s1) as [r1 s1'], (check_cache e2 key s2) as [r2 s2'].
    simpl in *. subst r1 r2. split; [done|]. split_and!; [done..|]. intros k t' Hk Ht Hw'.
    rewrite Hf1, Hf2 by auto. by apply Hl.
  - pose proof (get_answer e1 key s1 Hc1 Hs1 Hu1) as Ha1.
    pose proof (get_answer e2 key s2 Hc2 Hs2 Hu2) as Ha2.
    destruct (get_frame e1 key s1 Hs1 Hu1) as [Hs1' Hf1].
    destruct (get_frame e2 key s2 Hs2 Hu2) as [Hs2' Hf2].
    rewrite Hn1 in *. rewrite Hn2 in *. rewrite (Hl key t Hv ltac:(lia) Hw) in Ha1.
    destruct (get_image e1 key s1) as [r1 s1'], (get_image e2 key s2) as [r2 s2'].
    simpl in *. split.
    + destruct (live s2 t key) as [data|]; [by subst|].
      destruct Ha1 as (x1 & -> & ?), Ha2 as (x2 & -> & ?). simpl. split; by eexists.
    + split_and!; [done..|]. intros k t' Hk Ht Hw'. rewrite Hf1, Hf2 by auto. by apply Hl.
  - destruct (delete_frame e1 key s1 Hs1 Hu1) as [Hs1' Hf1].
    destruct (delete_frame e2 key s2 Hs2 Hu2) as [Hs2' Hf2].
    destruct (delete_purges e1 key s1 Hc1 Hs1 Hu1) as [Hr1 Hl1].
    destruct (delete_purges e2 key s2 Hc2 Hs2 Hu2) as [Hr2 Hl2].
    destruct (delete_image e1 key s1) as [r1 s1'], (delete_image e2 key s2) as [r2 s2'].
    simpl in *. subst r1 r2. split; [done|].
    apply (agree_frame t s1 s2 _ _ key); auto. intros. by rewrite Hl1, Hl2.
Qed.

(** The times of a sequence of calls never go back. *)
Fixpoint same_calls (t : Z) (calls : list (E1 * E2 * StorageCall)) : Prop :=
  match calls with
  | [] => True
  | (e1, e2, call) :: rest =>
      t ≤ backend_now e1 ∧ same_call (backend_now e1) e1 e2 call
      ∧ same_calls (backend_now e1) rest
  end.

(** Two backends that keep the trait's promises give the same answers to every
    sequence of calls: what the tests see of the in-memory backend is what the
    service sees of the others. *)
Theorem backends_agree t calls s1 s2 :
  agree t s1 s2 → same_calls t calls →
  Forall2 same_answer
    (run_calls svc ((λ c, (c.1.1, c.2)) <$> calls) s1).1
    (run_calls svc ((λ c, (c.1.2, c.2)) <$> calls) s2).1.
Proof.
  revert t s1 s2. induction calls as [|[[e1 e2] call] calls IH]; intros t s1 s2 Hag Hsame;
    [constructor|]. destruct Hsame as (Ht & Hcall & Hrest). simpl.
  destruct (call_agrees _ e1 e2 call s1 s2 Hcall (agree_later _ _ _ _ Ht Hag)) as [Hans Hag'].
  destruct (call_service svc e1 call s1) as [r1 s1'], (call_service svc e2 call s2) as [r2 s2'].
  specialize (IH _ _ _ Hag' Hrest). simpl in *.
  destruct (run_calls svc _ s1') as [rs1 ?], (run_calls svc _ s2') as [rs2 ?].
  by constructor.
Qed.
End Agreement.

(** ** Concrete inputs *)

Definition stored_key : string := example_hash +:+ ".webp".
Definition open_service : StorageService := mk_StorageService "http://cdn//" EmptyString.

Lemma invalid_key_is_inert_witness :
  call_service (H := InMemory.backend) open_service 5 (CallGet "../secret") ∅
  = (Err (EKey (mk_InvalidKeyError "../secret")), ∅).
Proof.
  apply (invalid_key_is_inert (B := InMemory.backend) open_service 5 (CallGet "../secret") ∅).
  by vm_compute.
Defined.

