(* ===== verification/LocalFs.v ===== *)
(** * The local file system backend: [src/services/storage/local_fs_handler.rs]

Files are keyed by their path, a list of components; a directory is in
[dirs].  A symbolic link shows only in what [canonicalize] answers.  The
backend is the [StorageBackend] instance of this file, its system calls one
by one, each of which can fail; [upload] is cut where a reader can come in
between, after the data file has been renamed into place. *)
From S2P Require Import Prelude RustStr SourceGuard RustFloat Params CacheKey KeyValidation Errors Storage.

Local Open Scope Z_scope.

Abbreviation Path := (list string).

Record Fs := mk_Fs {
  files : gmap Path (list byte);
  dirs : gset Path;
}.

#[export] Instance fs_eta : Eta Fs := λ fs, mk_Fs (files fs) (dirs fs).

(** The system calls of one operation that may fail; creating, writing and
    syncing a staged file are one of them. *)
Inductive FsCall :=
  | CreateDirAll
  | WriteTemp
  | RenameTemp
  | WriteSidecar
  | RenameSidecar
  | RemoveSidecar
  | RemoveFile
  | StatFile
  | ReadSidecar
  | ReadFile.

Record FsEnv := mk_FsEnv {
  fs_now : Z;
  process_id : Z;
  tmp_file_counter : Z;
  fails : FsCall → bool;
}.

(** ** Paths *)

Definition SHARD_PREFIX_LEN : nat := 2.

(** [segment] is kept unless it is empty, [.] or [..]. *)
Definition plain_segment (segment : string) : bool :=
  negb (String.eqb segment EmptyString || String.eqb segment "." || String.eqb segment "..").

Definition sanitize_relative (input : string) : Path :=
  List.filter plain_segment (split_on "/" input).

(** [PathBuf::push] of a relative path. *)
Definition push (path : Path) (s : string) : Path :=
  path ++ List.filter (λ seg, negb (str_is_empty seg)) (split_on "/" s).

Definition relative_path (key : string) : Path :=
  match split_key key with
  | Some (prefix, hash, ext) =>
      if negb (str_is_empty hash) && str_forall is_ascii_hexdigit hash then
        let shard_len := Nat.min (String.length hash) SHARD_PREFIX_LEN in
        push (push (sanitize_relative prefix) (str_take shard_len hash)) (hash +:+ "." +:+ ext)
      else sanitize_relative key
  | None => sanitize_relative key
  end.

Fixpoint map_last (f : string → string) (path : Path) : Path :=
  match path with
  | [] => []
  | [name] => [f name]
  | d :: rest => d :: map_last f rest
  end.

Definition parent (path : Path) : option Path :=
  match path with [] => None | _ => Some (removelast path) end.

Definition file_name (path : Path) : option string := last path.

Definition expires_sidecar_path (file_path : Path) : Path :=
  map_last (λ name, name +:+ ".expires") file_path.

Definition temp_file_name (e : FsEnv) (final_name : string) : string :=
  "." +:+ final_name +:+ "." +:+ uint_to_string (process_id e) +:+ "."
    +:+ uint_to_string (Z.max 0 (fs_now e)) +:+ "." +:+ uint_to_string (tmp_file_counter e)
    +:+ ".tmp".

(** [Path::starts_with], component-wise. *)
Fixpoint path_starts_with (path base : Path) : bool :=
  match base, path with
  | [], _ => true
  | b :: base', p :: path' => String.eqb p b && path_starts_with path' base'
  | _ :: _, [] => false
  end.

Definition path_display (path : Path) : string := join "/" path.

(** ** Operations *)

Section Operations.
Context (canonicalize : Fs → Path → option Path) (base_path : Path).

Definition resolve (key : string) : Path := base_path ++ relative_path key.

(** The ancestors of a path, itself included. *)
Definition ancestors (path : Path) : list Path := (λ n, take n path) <$> seq 0 (S (length path)).

(** [create_dir_all]: fails where a file is in the way. *)
Definition create_dir_all (e : FsEnv) (path : Path) (fs : Fs) : option Fs :=
  if fails e CreateDirAll
     || List.existsb (λ a, bool_decide (is_Some (files fs !! a))) (ancestors path)
  then None
  else Some (fs <| dirs := list_to_set (ancestors path) ∪ dirs fs |>).

(** [rename] of a staged file: not over a directory. *)
Definition rename (failing : bool) (from to : Path) (fs : Fs) : option Fs :=
  data ← files fs !! from;
  if failing || bool_decide (to ∈ dirs fs) then None
  else Some (fs <| files := <[to := data]> (delete from (files fs)) |>).

(** [remove_file]; [Some] is success or [NotFound]. *)
Definition remove_file (failing : bool) (path : Path) (fs : Fs) : option Fs :=
  if failing || bool_decide (path ∈ dirs fs) then None
  else Some (fs <| files := delete path (files fs) |>).

Definition is_expired (e : FsEnv) (sidecar_path : Path) (fs : Fs) : bool :=
  match (if fails e ReadSidecar then None else files fs !! sidecar_path) with
  | None => false
  | Some bytes =>
      match from_utf8 (string_of_list_byte bytes) ≫= λ contents, parse_u64 (trim contents) with
      | None => false
      | Some expires_at_secs => expires_at_secs <=? unix_secs (fs_now e)
      end
  end.

Definition assert_within_base (path : Path) (fs : Fs) : result AnyhowError Path :=
  canonical_base ← ok_or (canonicalize fs base_path)
    (EMessage "Failed to canonicalise local storage base path");
  canonical ← ok_or (canonicalize fs path)
    (EMessage ("Failed to canonicalise local storage path: " +:+ path_display path));
  if negb (path_starts_with canonical canonical_base)
  then Err (EMessage ("Resolved storage path escapes the storage base path: " +:+ path_display path))
  else Ok canonical.

(** [upload_image_with_ttl] up to and including the rename of the data file. *)
Definition upload_publish (e : FsEnv) (key : string) (data : list byte) (fs : Fs)
  : result AnyhowError unit * Fs :=
  let file_path := resolve key in
  match parent file_path with
  | None => (Err (EMessage ("Invalid storage path for key: " +:+ key)), fs)
  | Some dir =>
      match create_dir_all e dir fs with
      | None => (Err (EMessage "Failed to create a local storage directory"), fs)
      | Some fs1 =>
          match canonicalize fs1 base_path with
          | None => (Err (EMessage "Failed to canonicalise local storage base path"), fs1)
          | Some canonical_base =>
              match canonicalize fs1 dir with
              | None => (Err (EMessage "Failed to canonicalise local storage target directory"), fs1)
              | Some canonical_parent =>
                  if negb (path_starts_with canonical_parent canonical_base)
                  then (Err (EMessage ("Resolved storage directory escapes the storage base path for key: "
                                         +:+ key)), fs1)
                  else
                    match file_name file_path with
                    | None => (Err (EMessage ("Invalid storage path for key: " +:+ key)), fs1)
                    | Some name =>
                        let tmp_path := dir ++ [temp_file_name e name] in
                        if fails e WriteTemp
                        then (Err (EMessage "Failed to create temp file for atomic write"),
                              fs1 <| files := delete tmp_path (files fs1) |>)
                        else
                          let fs2 := fs1 <| files := <[tmp_path := data]> (files fs1) |> in
                          match rename (fails e RenameTemp) tmp_path file_path fs2 with
                          | None =>
                              (Err (EMessage "Failed to atomically rename temp file into place"), fs2)
                          | Some fs3 => (Ok (), fs3)
                          end
                    end
              end
          end
      end
  end.

(** The rest of it: the expiry sidecar is written or cleared, at best effort. *)
Definition upload_expiry (e : FsEnv) (key : string) (ttl : option Z) (fs : Fs) : Fs :=
  let file_path := resolve key in
  let sidecar_path := expires_sidecar_path file_path in
  match ttl with
  | Some ttl =>
      let expires_at_secs :=
        match checked_add_time (fs_now e) ttl with
        | Some t => if t <? 0 then u64_max else t / second
        | None => u64_max
        end in
      match file_name sidecar_path, parent file_path with
      | Some sidecar_name, Some dir =>
          let tmp_sidecar := dir ++ [temp_file_name (mk_FsEnv (fs_now e) (process_id e)
                                       (tmp_file_counter e + 1) (fails e)) sidecar_name] in
          if fails e WriteSidecar then fs <| files := delete tmp_sidecar (files fs) |>
          else
            let fs1 := fs <| files :=
              <[tmp_sidecar := list_byte_of_string (uint_to_string expires_at_secs)]> (files fs) |> in
            default fs1 (rename (fails e RenameSidecar) tmp_sidecar sidecar_path fs1)
      | _, _ => fs
      end
  | None => default fs (remove_file (fails e RemoveSidecar) sidecar_path fs)
  end.

Definition fs_upload (e : FsEnv) (key content_type : string) (data : list byte) (ttl : option Z)
    (fs : Fs) : result AnyhowError unit * Fs :=
  match upload_publish e key data fs with
  | (Ok _, fs') => (Ok (), upload_expiry e key ttl fs')
  | (Err err, fs') => (Err err, fs')
  end.

Definition fs_delete (e : FsEnv) (key : string) (fs : Fs) : result AnyhowError unit * Fs :=
  let file_path := resolve key in
  match remove_file (fails e RemoveFile) file_path fs with
  | None =>
      (Err (EMessage ("Failed to delete local storage object for key: " +:+ key)), fs)
  | Some fs1 =>
      (Ok (), default fs1 (remove_file (fails e RemoveSidecar) (expires_sidecar_path file_path) fs1))
  end.

(** [metadata]: [Ok true] for a regular file, [Ok false] for a directory. *)
Definition stat (e : FsEnv) (path : Path) (fs : Fs) : result bool bool :=
  if fails e StatFile then Err false
  else if bool_decide (is_Some (files fs !! path)) then Ok true
  else if bool_decide (path ∈ dirs fs) then Ok false
  else Err true.  (* [NotFound] *)

Definition fs_check (e : FsEnv) (key : string) (fs : Fs) : result AnyhowError bool * Fs :=
  let file_path := resolve key in
  match stat e file_path fs with
  | Ok is_file =>
      if negb is_file then (Ok false, fs)
      else if is_expired e (expires_sidecar_path file_path) fs
      then (Ok false, (fs_delete e key fs).2)
      else (Ok true, fs)
  | Err true => (Ok false, fs)
  | Err false =>
      (Err (EMessage ("Failed to stat local storage path for key: " +:+ key)), fs)
  end.

Definition fs_get (e : FsEnv) (key : string) (fs : Fs) : result AnyhowError (list byte) * Fs :=
  let file_path := resolve key in
  match stat e file_path fs with
  | Err _ => (Err (EMessage ("Image not found in local file system: " +:+ path_display file_path)), fs)
  | Ok false => (Err (EMessage ("Cache path is not a regular file: " +:+ path_display file_path)), fs)
  | Ok true =>
      if is_expired e (expires_sidecar_path file_path) fs
      then (Err (EMessage ("Image not found in local file system: " +:+ path_display file_path
                             +:+ " (expired)")), (fs_delete e key fs).2)
      else
        match assert_within_base file_path fs with
        | Err err => (Err err, fs)
        | Ok canonical =>
            (ok_or (if fails e ReadFile then None else files fs !! canonical)
               (EMessage ("Failed to read image from local file system: "
                            +:+ path_display file_path)), fs)
        end
  end.

#[export] Instance fs_backend : StorageBackend FsEnv Fs := {
  backend_now := fs_now;
  upload_image_with_ttl := fs_upload;
  check_cache := fs_check;
  get_image := fs_get;
  delete_image := fs_delete;
}.
End Operations.

(** ** Where validated keys live *)

Lemma lower_hex_hexdigit a : is_lower_hex a = true → is_ascii_hexdigit a = true.
Proof. by destruct a as [[] [] [] [] [] [] [] []]. Qed.

Lemma str_take_forall p n s : str_forall p s = true → str_forall p (str_take n s) = true.
Proof.
  revert n. induction s as [|a s IH]; intros [|n]; simpl; [done..|].
  rewrite !andb_true_iff. intros [Ha Hs]. auto.
Qed.

Lemma push_component path s :
  str_contains "/" s = false → str_is_empty s = false → push path s = path ++ [s].
Proof. intros Hs He. unfold push. rewrite split_on_whole by done. simpl. by rewrite He. Qed.

Lemma ext_no_slash ext : ext ∈ ALLOWED_EXTENSIONS → str_contains "/" ext = false.
Proof. unfold ALLOWED_EXTENSIONS. rewrite !elem_of_cons, elem_of_nil. intuition by subst. Qed.

(** The parts of a validated key. *)
Record key_parts (prefix key hash ext : string) : Prop := {
  kp_key : key = prefix +:+ hash +:+ String "." ext;
  kp_length : String.length hash = HASH_LEN;
  kp_hex : str_forall is_lower_hex hash = true;
  kp_ext : ext ∈ ALLOWED_EXTENSIONS;
}.

Lemma validated_parts prefix key :
  validate_cache_key key prefix = Ok () → ∃ hash ext, key_parts prefix key hash ext.
Proof.
  intros H. apply validate_cache_key_Ok in H as [(hash & ext & -> & ? & ? & ?) _].
  by exists hash, ext.
Qed.

Definition data_name (hash ext : string) : string := hash +:+ "." +:+ ext.

(** [<prefix>/<2 hex digits>/<hash>.<ext>], as the documentation has it. *)
Lemma relative_path_parts prefix key hash ext :
  key_parts prefix key hash ext →
  relative_path key = sanitize_relative prefix ++ [str_take 2 hash; data_name hash ext].
Proof.
  intros [-> Hlen Hhex Hext]. unfold relative_path.
  rewrite split_key_spec by (done || by apply ext_no_dot).
  rewrite (str_forall_impl _ _ _ lower_hex_hexdigit Hhex). rewrite Hlen.
  assert (Hne : str_is_empty hash = false) by (by destruct hash).
  rewrite Hne. cbn [negb andb Nat.min HASH_LEN SHARD_PREFIX_LEN].
  assert (Hslash : str_contains "/" hash = false)
    by (apply (str_forall_not_contains is_lower_hex); done).
  assert (Hname : str_contains "/" (data_name hash ext) = false).
  { unfold data_name. cbn [String.append]. rewrite str_contains_app, str_contains_cons, Hslash.
    by rewrite (ext_no_slash _ Hext). }
  assert (Hshard : str_contains "/" (str_take 2 hash) = false)
    by (apply (str_forall_not_contains is_lower_hex); [done|by apply str_take_forall]).
  change (hash +:+ "." +:+ ext) with (data_name hash ext).
  rewrite (push_component _ (str_take 2 hash)) by (done || by destruct hash).
  rewrite push_component, <- app_assoc by (done || by destruct hash). done.
Qed.

Definition sidecar_name (hash ext : string) : string := data_name hash ext +:+ ".expires".

Lemma hex_head hash a s :
  String.length hash = HASH_LEN → str_forall is_lower_hex hash = true → hash = String a s →
  is_lower_hex a = true.
Proof. intros _ Hhex ->. simpl in Hhex. by apply andb_true_iff in Hhex as [? _]. Qed.

(** Data files, sidecars and staged files never get in each other's way. *)
Section Names.
Context (prefix key hash ext : string) (Hk : key_parts prefix key hash ext).
Context (key' hash' ext' : string) (Hk' : key_parts prefix key' hash' ext').

Lemma data_name_inj : data_name hash ext = data_name hash' ext' → key = key'.
Proof.
  destruct Hk as [-> _ Hhex _], Hk' as [-> _ Hhex' _]. unfold data_name. cbn [String.append].
  intros H. apply sep_inj in H as [-> ->]; [done|by apply hash_no_dot..].
Qed.

Lemma sidecar_not_data : sidecar_name hash ext ≠ data_name hash' ext'.
Proof.
  destruct Hk as [_ _ Hhex _], Hk' as [_ _ Hhex' Hext'].
  unfold sidecar_name, data_name. cbn [String.append]. rewrite str_app_assoc.
  cbn [String.append]. intros H. apply sep_inj in H as [_ H]; [|by apply hash_no_dot..].
  apply ext_no_dot in Hext'. rewrite <- H, str_contains_app in Hext'.
  by apply orb_false_iff in Hext' as [_ ?].
Qed.

Lemma sidecar_name_inj : sidecar_name hash ext = sidecar_name hash' ext' → key = key'.
Proof.
  destruct Hk as [-> _ Hhex Hext], Hk' as [-> _ Hhex' Hext']. unfold sidecar_name, data_name.
  cbn [String.append]. rewrite !str_app_assoc. cbn [String.append]. intros H.
  apply sep_inj in H as [-> H]; [|by apply hash_no_dot..].
  apply sep_inj in H as [-> _]; [done|by apply ext_no_dot..].
Qed.

Lemma temp_not_data e name : temp_file_name e name ≠ data_name hash' ext'.
Proof.
  destruct Hk' as [_ Hlen Hhex _]. unfold temp_file_name, data_name.
  destruct hash' as [|a s]; [done|]. simpl. intros [= Ha _]. subst a. done.
Qed.

Lemma temp_not_sidecar e name : temp_file_name e name ≠ sidecar_name hash' ext'.
Proof.
  destruct Hk' as [_ Hlen Hhex _]. unfold temp_file_name, sidecar_name, data_name.
  destruct hash' as [|a s]; [done|]. simpl. intros [= Ha _]. subst a. done.
Qed.
End Names.

Lemma map_last_snoc f path name : map_last f (path ++ [name]) = path ++ [f name].
Proof.
  induction path as [|d path IH]; [done|]. simpl. rewrite IH. by destruct path.
Qed.

Lemma parent_snoc path name : parent (path ++ [name]) = Some path.
Proof. unfold parent. rewrite removelast_last. by destruct path. Qed.

Lemma file_name_snoc path name : file_name (path ++ [name]) = Some name.
Proof. apply last_snoc. Qed.

Lemma path_starts_with_app path rest : path_starts_with (path ++ rest) path = true.
Proof.
  induction path as [|d path IH]; [by destruct rest|]. simpl. by rewrite String.eqb_refl.
Qed.

(** ** No key escapes the base directory *)

Definition confined (seg : string) : Prop :=
  seg ≠ EmptyString ∧ seg ≠ "." ∧ seg ≠ ".." ∧ str_contains "/" seg = false.

Lemma split_on_prefix c x y :
  str_contains c x = false →
  ∃ z rest, split_on c y = z :: rest ∧ split_on c (x +:+ y) = (x +:+ z) :: rest.
Proof.
  induction x as [|a x IH]; intros Hx.
  - destruct (split_on c y) as [|z rest] eqn:Hy; [by destruct (split_on_not_nil c y)|].
    by exists z, rest.
  - rewrite str_contains_cons, orb_false_iff in Hx. destruct Hx as [Ha Hx].
    destruct (IH Hx) as (z & rest & Hy & Hxy). exists z, rest. split; [done|].
    simpl. rewrite Hxy. destruct (Ascii.eqb_spec a c) as [->|]; [|done].
    by rewrite Ascii.eqb_refl in Ha.
Qed.

Lemma split_on_contains c d s :
  str_contains d s = false → Forall (λ x, str_contains d x = false) (split_on c s).
Proof.
  induction s as [|a s IH]; intros Hd; simpl; [by constructor|].
  rewrite str_contains_cons, orb_false_iff in Hd. destruct Hd as [Ha Hd].
  destruct (Ascii.eqb a c); [constructor; [done|by apply IH]|].
  specialize (IH Hd). destruct (split_on c s) as [|x xs].
  - done.
  - apply Forall_cons in IH as [Hx Hxs]. constructor; [|done].
    by rewrite str_contains_cons, Ha.
Qed.

Lemma sanitize_confined input : Forall confined (sanitize_relative input).
Proof.
  apply Forall_forall. intros seg Hseg. unfold sanitize_relative in Hseg.
  apply list_elem_of_In, List.filter_In in Hseg as [Hin Hplain].
  apply list_elem_of_In in Hin. unfold plain_segment in Hplain.
  rewrite negb_true_iff, !orb_false_iff, !String.eqb_neq in Hplain.
  destruct Hplain as [[? ?] ?]. split_and!; [done..|].
  pose proof (split_on_no_sep "/" input) as Hall. rewrite Forall_forall in Hall. by apply Hall.
Qed.

Lemma no_dot_confined seg :
  seg ≠ EmptyString → str_contains "." seg = false → str_contains "/" seg = false → confined seg.
Proof. intros He Hd Hs. split_and!; [done| | |done]; intros ->; done. Qed.

Lemma push_confined path s :
  Forall confined path →
  Forall (λ seg, seg ≠ EmptyString → confined seg) (split_on "/" s) →
  Forall confined (push path s).
Proof.
  intros Hp Hs. unfold push. apply Forall_app. split; [done|].
  apply Forall_forall. intros seg Hseg.
  apply list_elem_of_In, List.filter_In in Hseg as [Hin Hne]. apply list_elem_of_In in Hin.
  rewrite Forall_forall in Hs. apply Hs; [done|]. by destruct seg.
Qed.

(** Whatever the key - validated or not - the path joined onto the base has no
    component that climbs, restarts or hides another: it stays below the base. *)
Theorem relative_path_confined key : Forall confined (relative_path key).
Proof.
  unfold relative_path. destruct (split_key key) as [[[prefix hash] ext]|] eqn:Hsplit;
    [|apply sanitize_confined].
  destruct (negb (str_is_empty hash) && str_forall is_ascii_hexdigit hash) eqn:Hhash;
    [|apply sanitize_confined].
  rewrite andb_true_iff, negb_true_iff in Hhash. destruct Hhash as [Hne Hhex].
  assert (Hext : str_contains "." ext = false).
  { unfold split_key in Hsplit. destruct (rsplit_once "." key) as [[before ext']|] eqn:Hr; [|done].
    apply rsplit_once_Some in Hr as [_ Hdot]. cbv zeta in Hsplit.
    destruct (_ <? _)%nat; [done|]. by injection Hsplit as _ _ <-. }
  assert (Hslash : str_contains "/" hash = false)
    by (apply (str_forall_not_contains is_ascii_hexdigit); done).
  cbv zeta. apply push_confined; [apply push_confined; [apply sanitize_confined|]|].
  - set (n := Nat.min _ _). pose proof (str_take_forall is_ascii_hexdigit n hash Hhex) as Ht.
    rewrite split_on_whole by (apply (str_forall_not_contains is_ascii_hexdigit); done).
    constructor; [|done]. intros Hnil.
    apply no_dot_confined; [done|..]; by apply (str_forall_not_contains is_ascii_hexdigit).
  - destruct (split_on_prefix "/" (hash +:+ ".") ext) as (z & rest & He & Hs).
    { by rewrite str_contains_app, Hslash. }
    rewrite <- str_app_assoc, Hs.
    pose proof (split_on_contains "/" "." ext Hext) as Hdots. rewrite He in Hdots.
    pose proof (split_on_no_sep "/" ext) as Hslashes. rewrite He in Hslashes.
    apply Forall_cons in Hdots as [_ Hdots]. apply Forall_cons in Hslashes as [Hz Hslashes].
    constructor.
    + intros _. destruct hash as [|a hash]; [done|]. simpl in Hhex.
      apply andb_true_iff in Hhex as [Ha _].
      assert (a ≠ "."%char) by (intros ->; done). cbn [String.append].
      split_and!; [done|intros [= ? _]; done..|].
      change (str_contains "/" ((String a hash +:+ ".") +:+ z) = false).
      by rewrite !str_contains_app, Hslash, Hz.
    + apply Forall_forall. intros seg Hseg Hnil. rewrite Forall_forall in Hdots, Hslashes.
      apply no_dot_confined; auto.
Qed.

(** ** The backend keeps the trait's promises *)

Lemma sidecar_text n :
  in_uint u64_max n →
  (from_utf8 (string_of_list_byte (list_byte_of_string (uint_to_string n)))
     ≫= λ contents, parse_u64 (trim contents)) = Some n.
Proof.
  intros Hn. rewrite string_of_list_byte_of_string. unfold from_utf8.
  pose proof (uint_to_string_digits n (proj1 Hn)) as Hd.
  rewrite utf8_valid_digits by done. simpl. rewrite trim_digits by done.
  by apply parse_uint_to_string.
Qed.

Section Contract.
Context (canonicalize : Fs → Path → option Path) (base_path : Path) (prefix : string).
(** No symbolic link below the base. *)
Hypothesis no_symlinks : ∀ fs p,
  p ∈ dirs fs ∨ is_Some (files fs !! p) → canonicalize fs p = Some p.

Abbreviation resolve := (resolve base_path).
Abbreviation sidecar key := (expires_sidecar_path (resolve key)).

Definition key_valid (key : string) : Prop := validate_cache_key key prefix = Ok ().

(** Every cached file is this deep. *)
Definition depth : nat := (length base_path + (length (sanitize_relative prefix) + 2))%nat.

Record fs_sound (fs : Fs) : Prop := {
  fs_dirs p : p ∈ dirs fs → (length p < depth)%nat;
  fs_files p : is_Some (files fs !! p) → length p = depth ∧ base_path ∈ dirs fs;
}.

Definition quiet (t : Z) : FsEnv := mk_FsEnv t 0 0 (λ _, false).

Definition fs_live (fs : Fs) (t : Z) (key : string) : option (list byte) :=
  data ← files fs !! resolve key;
  if is_expired (quiet t) (sidecar key) fs then None else Some data.

Definition shard_dir (hash : string) : Path :=
  base_path ++ sanitize_relative prefix ++ [str_take 2 hash].

Lemma resolve_parts key hash ext :
  key_parts prefix key hash ext → resolve key = shard_dir hash ++ [data_name hash ext].
Proof.
  intros Hk. unfold LocalFs.resolve, shard_dir. rewrite (relative_path_parts _ _ _ _ Hk).
  by rewrite <- !app_assoc.
Qed.

Lemma sidecar_parts key hash ext :
  key_parts prefix key hash ext → sidecar key = shard_dir hash ++ [sidecar_name hash ext].
Proof.
  intros Hk. unfold expires_sidecar_path. by rewrite (resolve_parts _ _ _ Hk), map_last_snoc.
Qed.

Lemma shard_file_depth hash name : length (shard_dir hash ++ [name]) = depth.
Proof. unfold shard_dir, depth. rewrite !length_app. simpl. lia. Qed.

Lemma shard_dir_depth hash : (length (shard_dir hash) < depth)%nat.
Proof. unfold shard_dir, depth. rewrite !length_app. simpl. lia. Qed.

(** The files of a key: nobody else's, and no directory. *)
Definition own_path (key : string) (p : Path) : Prop := p = resolve key ∨ p = sidecar key.

Lemma live_frame fs fs' t key :
  (∀ p, own_path key p → files fs' !! p = files fs !! p) → fs_live fs' t key = fs_live fs t key.
Proof.
  intros H. unfold fs_live. rewrite (H (resolve key)) by (by left). unfold is_expired.
  simpl. by rewrite (H (sidecar key)) by (by right).
Qed.

Lemma own_path_other key key' p :
  key_valid key → key_valid key' → key' ≠ key → own_path key p → ¬ own_path key' p.
Proof.
  intros (h & x & Hk)%validated_parts (h' & x' & Hk')%validated_parts Hne.
  unfold own_path. rewrite (sidecar_parts _ _ _ Hk), (resolve_parts _ _ _ Hk),
    (sidecar_parts _ _ _ Hk'), (resolve_parts _ _ _ Hk').
  intros [->| ->] [[_ Heq]%app_inj_tail|[_ Heq]%app_inj_tail].
  - by apply Hne, (data_name_inj prefix key' h' x' Hk' key h x Hk).
  - by apply (sidecar_not_data prefix key' h' x' Hk' key h x Hk).
  - by apply (sidecar_not_data prefix key h x Hk key' h' x' Hk').
  - by apply Hne, (sidecar_name_inj prefix key' h' x' Hk' key h x Hk).
Qed.

Lemma temp_not_own key dir e name p :
  key_valid key → own_path key p → p ≠ dir ++ [temp_file_name e name].
Proof.
  intros (hash & ext & Hk)%validated_parts [->| ->];
    rewrite ?(sidecar_parts _ _ _ Hk), ?(resolve_parts _ _ _ Hk);
    intros [_ Heq]%app_inj_tail; symmetry in Heq.
  - by apply (temp_not_data prefix key hash ext Hk) in Heq.
  - by apply (temp_not_sidecar prefix key hash ext Hk) in Heq.
Qed.

(** ** Single steps *)

Lemma elem_of_ancestors p a : a ∈ ancestors p ↔ ∃ n, (n ≤ length p)%nat ∧ a = take n p.
Proof.
  unfold ancestors. rewrite list_elem_of_fmap. setoid_rewrite elem_of_seq. split.
  - intros (n & -> & Hn). exists n. split; [lia|done].
  - intros (n & Hn & ->). exists n. split; [done|lia].
Qed.

Lemma ancestor_length p a : a ∈ ancestors p → (length a ≤ length p)%nat.
Proof. intros (n & Hn & ->)%elem_of_ancestors. rewrite length_take. lia. Qed.

Lemma base_ancestor hash : base_path ∈ ancestors (shard_dir hash).
Proof.
  apply elem_of_ancestors. exists (length base_path). unfold shard_dir.
  rewrite take_app_length. split; [rewrite length_app; lia|done].
Qed.

Lemma self_ancestor p : p ∈ ancestors p.
Proof. apply elem_of_ancestors. exists (length p). by rewrite firstn_all. Qed.

(** Adding a file of the cache's depth, under a base that exists. *)
Lemma sound_insert fs p data :
  fs_sound fs → length p = depth → base_path ∈ dirs fs →
  fs_sound (fs <| files := <[p := data]> (files fs) |>).
Proof.
  intros [Hd Hf] Hp Hb. split; [done|]. simpl. intros p' Hp'.
  destruct (decide (p' = p)) as [->|Hne]; [done|]. rewrite lookup_insert_ne in Hp' by done. auto.
Qed.

Lemma sound_delete fs p : fs_sound fs → fs_sound (fs <| files := delete p (files fs) |>).
Proof.
  intros [Hd Hf]. split; [done|]. simpl. intros p' Hp'. apply Hf.
  by apply lookup_delete_is_Some in Hp' as [_ ?].
Qed.

Lemma sound_no_dir fs p : fs_sound fs → length p = depth → bool_decide (p ∈ dirs fs) = false.
Proof. intros [Hd _] Hp. apply bool_decide_eq_false_2. intros Hin%Hd. lia. Qed.

Lemma rename_spec failing from to fs fs' :
  fs_sound fs → length to = depth → rename failing from to fs = Some fs' →
  fs_sound fs' ∧ dirs fs' = dirs fs
  ∧ (∀ p, p ≠ from → p ≠ to → files fs' !! p = files fs !! p)
  ∧ files fs' !! to = files fs !! from.
Proof.
  intros Hs Hto. unfold rename. destruct (files fs !! from) as [data|] eqn:Hfrom; [|done]. simpl.
  destruct (_ || _); [done|]. intros [= <-].
  assert (Hb : base_path ∈ dirs fs) by (apply (fs_files fs Hs from); by eexists).
  split_and!; [|done| |].
  - exact (sound_insert _ to data (sound_delete fs from Hs) Hto Hb).
  - intros p Hp Hp'. simpl. by rewrite lookup_insert_ne, lookup_delete_ne.
  - simpl. rewrite lookup_insert. by case_decide.
Qed.

Lemma rename_calm from to fs :
  fs_sound fs → length to = depth → is_Some (files fs !! from) →
  is_Some (rename false from to fs).
Proof.
  intros Hs Hto [data Hfrom]. unfold rename. rewrite Hfrom. simpl.
  rewrite sound_no_dir by done. by eexists.
Qed.

Lemma remove_file_spec failing p fs fs' :
  fs_sound fs → remove_file failing p fs = Some fs' →
  fs_sound fs' ∧ (∀ p', p' ≠ p → files fs' !! p' = files fs !! p') ∧ files fs' !! p = None.
Proof.
  intros Hs. unfold remove_file. destruct (_ || _); [done|]. intros [= <-].
  split_and!; [by apply sound_delete| |]; simpl.
  - intros p' Hp'. by rewrite lookup_delete_ne.
  - rewrite lookup_delete. by case_decide.
Qed.

Lemma remove_file_calm p fs : fs_sound fs → length p = depth → is_Some (remove_file false p fs).
Proof. intros Hs Hp. unfold remove_file. rewrite sound_no_dir by done. by eexists. Qed.

Lemma create_dir_all_spec e hash fs fs' :
  fs_sound fs → create_dir_all e (shard_dir hash) fs = Some fs' →
  fs_sound fs' ∧ files fs' = files fs ∧ base_path ∈ dirs fs' ∧ shard_dir hash ∈ dirs fs'.
Proof.
  intros Hs. unfold create_dir_all. remember (ancestors (shard_dir hash)) as anc eqn:Hanc.
  destruct (_ || _); [done|]. intros [= <-].
  assert (Hin : ∀ a, a ∈ anc → a ∈ list_to_set anc ∪ dirs fs)
    by (intros a Ha; by apply elem_of_union_l, elem_of_list_to_set).
  split_and!; [|done|simpl; apply Hin; rewrite Hanc; apply base_ancestor
              |simpl; apply Hin; rewrite Hanc; apply self_ancestor].
  split; simpl.
  - intros p [Hp%elem_of_list_to_set|Hp]%elem_of_union; [|by apply (fs_dirs fs Hs)].
    rewrite Hanc in Hp. apply ancestor_length in Hp. pose proof (shard_dir_depth hash). lia.
  - intros p Hp. destruct (fs_files fs Hs p Hp). split; [done|]. by apply elem_of_union_r.
Qed.

Definition fs_calm (e : FsEnv) : Prop := ∀ c, fails e c = false.

(** Failures with the sidecar are logged, not reported: an environment without
    them. *)
Definition of_sidecar (c : FsCall) : bool :=
  match c with WriteSidecar | RenameSidecar | RemoveSidecar | ReadSidecar => true | _ => false end.
Definition fs_honest (e : FsEnv) : Prop := ∀ c, of_sidecar c = true → fails e c = false.

Lemma create_dir_all_calm e hash fs :
  fs_sound fs → fs_calm e → is_Some (create_dir_all e (shard_dir hash) fs).
Proof.
  intros Hs He. unfold create_dir_all. rewrite He. cbn [orb].
  destruct (List.existsb _ _) eqn:Hx; [|by eexists].
  apply List.existsb_exists in Hx as (a & Ha & Hfile). apply bool_decide_eq_true_1 in Hfile.
  apply list_elem_of_In, ancestor_length in Ha. apply (fs_files fs Hs) in Hfile as [? _].
  pose proof (shard_dir_depth hash). lia.
Qed.
(** The paths an upload of [key] may touch. *)
Definition upload_path (key : string) (p : Path) : Prop :=
  own_path key p ∨ ∃ dir e name, p = dir ++ [temp_file_name e name].

Lemma upload_path_other key key' p :
  key_valid key → key_valid key' → key' ≠ key → own_path key' p → ¬ upload_path key p.
Proof.
  intros Hk Hk' Hne Hp [Hown|(dir & e & name & Ht)].
  - by apply (own_path_other key key' p).
  - by apply (temp_not_own key' dir e name p).
Qed.

Lemma publish_spec e key data fs r fs' :
  fs_sound fs → key_valid key →
  upload_publish canonicalize base_path e key data fs = (r, fs') →
  fs_sound fs'
  ∧ (∀ p, p ≠ resolve key → (∀ dir e name, p ≠ dir ++ [temp_file_name e name]) →
       files fs' !! p = files fs !! p)
  ∧ (r = Ok () → files fs' !! resolve key = Some data ∧ base_path ∈ dirs fs')
  ∧ (fs_calm e → r = Ok ()).
Proof.
  intros Hs Hvalid. destruct (validated_parts _ _ Hvalid) as (hash & ext & Hk).
  pose proof (resolve_parts _ _ _ Hk) as Hres. unfold upload_publish.
  rewrite Hres, parent_snoc, file_name_snoc.
  set (dir := shard_dir hash) in *. set (tmp := dir ++ [temp_file_name e (data_name hash ext)]).
  destruct (create_dir_all e dir fs) as [fs1|] eqn:Hmk.
  2: { intros [= <- <-]. split_and!; [done..|]. intros He.
       by destruct (create_dir_all_calm e hash fs Hs He) as [? Hmk']; fold dir in Hmk'; simplify_eq. }
  apply create_dir_all_spec in Hmk as (Hs1 & Hfiles1 & Hb1 & Hd1); [|done].
  rewrite !no_symlinks by (by left).
  assert (Hin : path_starts_with dir base_path = true) by apply path_starts_with_app.
  rewrite Hin. cbn [negb].
  assert (Hs2 : fs_sound (fs1 <| files := <[tmp := data]> (files fs1) |>))
    by (apply sound_insert; [done|apply shard_file_depth|done]).
  destruct (fails e WriteTemp) eqn:Hw.
  { intros [= <- <-]. split_and!; [by apply sound_delete| |done|].
    - intros p _ Htmp. simpl. rewrite lookup_delete_ne by (symmetry; apply Htmp). by rewrite Hfiles1.
    - intros He. by rewrite He in Hw. }
  destruct (rename _ tmp _ _) as [fs3|] eqn:Hrn; intros [= <- <-].
  - apply rename_spec in Hrn as (Hs3 & Hd3 & Hrest & Hto); [|done|apply shard_file_depth].
    split_and!; [done| | |done].
    + intros p Hp Htmp. rewrite Hrest by (done || apply Htmp). simpl.
      rewrite lookup_insert_ne by (symmetry; apply Htmp). by rewrite Hfiles1.
    + intros _. rewrite Hto, Hd3. simpl. rewrite lookup_insert. by case_decide.
  - split_and!; [done| |done|].
    + intros p Hp Htmp. simpl. rewrite lookup_insert_ne by (symmetry; apply Htmp). by rewrite Hfiles1.
    + intros He. rewrite He in Hrn.
      destruct (rename_calm tmp (dir ++ [data_name hash ext]) _ Hs2) as [? Hrn'];
        [apply shard_file_depth|simpl; rewrite lookup_insert; case_decide; [by eexists|done]|].
      by rewrite Hrn' in Hrn.
Qed.

(** What the sidecar then says. *)
Definition sidecar_content (now : Z) (ttl : option Z) : option (list byte) :=
  (λ d, list_byte_of_string (uint_to_string
     match checked_add_time now d with
     | Some t => if t <? 0 then u64_max else t / second
     | None => u64_max
     end)) <$> ttl.

Lemma expiry_spec e key ttl fs :
  fs_sound fs → base_path ∈ dirs fs → key_valid key →
  let fs' := upload_expiry base_path e key ttl fs in
  fs_sound fs'
  ∧ (∀ p, ¬ upload_path key p ∨ p = resolve key → files fs' !! p = files fs !! p)
  ∧ (fs_honest e → files fs' !! sidecar key = sidecar_content (fs_now e) ttl).
Proof.
  intros Hs Hb Hvalid. destruct (validated_parts _ _ Hvalid) as (hash & ext & Hk).
  unfold upload_expiry. rewrite (sidecar_parts _ _ _ Hk), file_name_snoc.
  assert (Hside : resolve key ≠ sidecar key).
  { rewrite (sidecar_parts _ _ _ Hk), (resolve_parts _ _ _ Hk). intros [_ Heq]%app_inj_tail.
    symmetry in Heq. by apply (sidecar_not_data prefix key hash ext Hk key hash ext Hk) in Heq. }
  pose proof (sidecar_parts _ _ _ Hk) as Hsp. rewrite Hsp in Hside.
  rewrite (resolve_parts _ _ _ Hk), parent_snoc. rewrite (resolve_parts _ _ _ Hk) in Hside.
  set (dir := shard_dir hash) in *. set (tmp := dir ++ [temp_file_name _ _]).
  assert (Htmp : ∀ p, ¬ upload_path key p ∨ p = dir ++ [data_name hash ext] → p ≠ tmp).
  { intros p [Hp| ->] Heq; [subst p; apply Hp; right; by eexists _, _, _|].
    apply app_inj_tail in Heq as [_ Heq]. symmetry in Heq.
    by apply (temp_not_data prefix key hash ext Hk) in Heq. }
  assert (Hnside : ∀ p, ¬ upload_path key p ∨ p = dir ++ [data_name hash ext] →
                   p ≠ dir ++ [sidecar_name hash ext]).
  { intros p [Hp| ->]; [|done]. intros ->. apply Hp. left. right. done. }
  destruct ttl as [d|]; cbv zeta.
  - set (text := list_byte_of_string _). destruct (fails e WriteSidecar) eqn:Hw.
    { split_and!; [by apply sound_delete| |].
      - intros p Hp. simpl. rewrite lookup_delete_ne; [done|]. symmetry. by apply Htmp.
      - intros He. by rewrite He in Hw. }
    assert (Hs1 : fs_sound (fs <| files := <[tmp := text]> (files fs) |>))
      by (apply sound_insert; [done|apply shard_file_depth|done]).
    destruct (rename _ tmp _ _) as [fs1|] eqn:Hrn; simpl.
    + apply rename_spec in Hrn as (Hs2 & _ & Hrest & Hto); [|done|apply shard_file_depth].
      split_and!; [done| |].
      * intros p Hp. rewrite Hrest by auto. simpl. by rewrite lookup_insert_ne by (symmetry; auto).
      * intros _. rewrite Hto. simpl. rewrite lookup_insert. by case_decide.
    + split_and!; [done|intros p Hp; by rewrite lookup_insert_ne by (symmetry; auto)|].
      intros He. rewrite He in Hrn by done.
      destruct (rename_calm tmp (dir ++ [sidecar_name hash ext]) _ Hs1) as [? Hrn'];
        [apply shard_file_depth|simpl; rewrite lookup_insert; case_decide; [by eexists|done]|].
      by rewrite Hrn' in Hrn.
  - destruct (remove_file _ _ fs) as [fs1|] eqn:Hrm; simpl.
    + apply remove_file_spec in Hrm as (Hs1 & Hrest & Hgone); [|done].
      split_and!; [done|intros p Hp; apply Hrest; auto|done].
    + split_and!; [done..|]. intros He. rewrite He in Hrm by done.
      destruct (remove_file_calm (dir ++ [sidecar_name hash ext]) fs Hs (shard_file_depth _ _)) as [? Hrm'].
      by rewrite Hrm' in Hrm.
Qed.
Lemma delete_spec e key fs :
  fs_sound fs → key_valid key →
  let out := fs_delete base_path e key fs in
  fs_sound out.2
  ∧ (∀ p, ¬ own_path key p → files out.2 !! p = files fs !! p)
  ∧ (out.2 = fs ∨ files out.2 !! resolve key = None)
  ∧ (fs_calm e → out.1 = Ok () ∧ files out.2 !! resolve key = None).
Proof.
  intros Hs (hash & ext & Hk)%validated_parts. unfold fs_delete.
  destruct (remove_file (fails e RemoveFile) (resolve key) fs) as [fs1|] eqn:Hrm; simpl.
  2: { split_and!; [done|done|by left|]. intros He. rewrite He in Hrm.
       destruct (remove_file_calm (resolve key) fs Hs) as [? Hrm'];
         [rewrite (resolve_parts _ _ _ Hk); apply shard_file_depth|].
       by rewrite Hrm' in Hrm. }
  apply remove_file_spec in Hrm as (Hs1 & Hrest & Hgone); [|done].
  assert (Hne : resolve key ≠ sidecar key).
  { rewrite (sidecar_parts _ _ _ Hk), (resolve_parts _ _ _ Hk). intros [_ Heq]%app_inj_tail.
    symmetry in Heq. by apply (sidecar_not_data prefix key hash ext Hk key hash ext Hk) in Heq. }
  destruct (remove_file _ (sidecar key) fs1) as [fs2|] eqn:Hrm2; simpl.
  - apply remove_file_spec in Hrm2 as (Hs2 & Hrest2 & _); [|done].
    assert (Hgone2 : files fs2 !! resolve key = None) by (by rewrite Hrest2).
    split_and!; [done| |by right|done]. intros p Hp.
    rewrite Hrest2, Hrest; [done|..]; intros ->; apply Hp; [by left|by right].
  - split_and!; [done| |by right|done]. intros p Hp. apply Hrest. intros ->. apply Hp. by left.
Qed.

Lemma unix_secs_mono t t' : t ≤ t' → unix_secs t ≤ unix_secs t'.
Proof.
  intros Ht. unfold unix_secs. destruct (Z.ltb_spec t 0), (Z.ltb_spec t' 0); try lia.
  - apply Z.div_pos; [lia|done].
  - by apply Z.div_le_mono.
Qed.

Lemma is_expired_later e t path fs :
  is_expired e path fs = true → fs_now e ≤ t → is_expired (quiet t) path fs = true.
Proof.
  unfold is_expired. simpl. destruct (fails e ReadSidecar); [done|].
  destruct (files fs !! path) as [bytes|]; [|done].
  destruct (from_utf8 _ ≫= _) as [secs|]; [|done]. rewrite !Z.leb_le.
  intros H Ht. pose proof (unix_secs_mono _ _ Ht). lia.
Qed.

Lemma is_expired_honest e path fs :
  fs_honest e → is_expired e path fs = is_expired (quiet (fs_now e)) path fs.
Proof. intros He. unfold is_expired. by rewrite He. Qed.

(** Evicting an expired entry shows to nobody. *)
Lemma evict_frame e key fs k t :
  fs_sound fs → key_valid key → key_valid k → is_expired e (sidecar key) fs = true →
  fs_now e ≤ t → fs_live (fs_delete base_path e key fs).2 t k = fs_live fs t k.
Proof.
  intros Hs Hkey Hk Hexp Ht. destruct (delete_spec e key fs Hs Hkey) as (_ & Hrest & Hgone & _).
  destruct (decide (k = key)) as [->|Hne].
  - destruct Hgone as [->|Hgone]; [done|]. unfold fs_live. rewrite Hgone.
    rewrite (is_expired_later e t _ _ Hexp Ht). by destruct (files fs !! resolve key).
  - apply live_frame. intros p Hp. apply Hrest. by eapply own_path_other.
Qed.

(** What a read sees of a key whose data and sidecar are known. *)
Lemma stored_live now ttl fs key data t :
  0 ≤ now → 0 ≤ t → (∀ d, ttl = Some d → 0 ≤ d ∧ now + d < time_end) →
  files fs !! resolve key = Some data → files fs !! sidecar key = sidecar_content now ttl →
  (kept_for now ttl t → fs_live fs t key = Some data)
  ∧ (lapsed_by now ttl t → fs_live fs t key = None).
Proof.
  intros Hnow Ht Httl Hdata Hside. unfold fs_live, is_expired. rewrite Hdata. simpl.
  rewrite Hside. destruct ttl as [d|]; [|done]. simpl.
  destruct (Httl d eq_refl) as [Hd Hend]. unfold checked_add_time.
  rewrite (proj2 (Z.ltb_lt _ _)) by done. rewrite (proj2 (Z.ltb_ge (now + d) 0)) by lia.
  pose proof (unix_secs_spec (now + d) ltac:(lia)) as Hn. pose proof (unix_secs_spec t Ht) as Hts.
  assert (Hdiv : (now + d) / second = unix_secs (now + d))
    by (unfold unix_secs; by rewrite (proj2 (Z.ltb_ge (now + d) 0)) by lia).
  rewrite Hdiv, sidecar_text.
  2: { unfold in_uint, u64_max, time_end, second in *. lia. }
  unfold second in *.
  destruct (Z.leb_spec (unix_secs (now + d)) (unix_secs t)); (split; intros; [try done; lia|done || lia]).
Qed.
Lemma fs_upload_frame e key ct data ttl fs :
  fs_sound fs → key_valid key →
  let fs' := (fs_upload canonicalize base_path e key ct data ttl fs).2 in
  fs_sound fs' ∧ ∀ k t, key_valid k → k ≠ key → fs_live fs' t k = fs_live fs t k.
Proof.
  intros Hs Hkey. unfold fs_upload. destruct (upload_publish _ _ e key data fs) as [r fs1] eqn:Hpub.
  apply publish_spec in Hpub as (Hs1 & Hrest & Hok & _); [|done..].
  assert (Hframe1 : ∀ k t, key_valid k → k ≠ key → fs_live fs1 t k = fs_live fs t k).
  { intros k t Hk Hne. apply live_frame. intros p Hp.
    pose proof (upload_path_other key k p Hkey Hk Hne Hp) as Hup.
    apply Hrest; [intros ->; apply Hup; by left; left|].
    intros dir e' name ->. apply Hup. right. by eexists _, _, _. }
  destruct r as [[]|err]; [|by split]. destruct (Hok eq_refl) as [_ Hb].
  destruct (expiry_spec e key ttl fs1 Hs1 Hb Hkey) as (Hs2 & Hrest2 & _). split; [done|].
  intros k t Hk Hne. simpl. rewrite <- Hframe1 by done. apply live_frame. intros p Hp.
  apply Hrest2. left. by eapply upload_path_other.
Qed.

Lemma fs_upload_succeeds e key ct data ttl fs :
  fs_calm e → fs_sound fs → key_valid key →
  (fs_upload canonicalize base_path e key ct data ttl fs).1 = Ok ().
Proof.
  intros He Hs Hkey. unfold fs_upload. destruct (upload_publish _ _ e key data fs) as [r fs1] eqn:Hpub.
  apply publish_spec in Hpub as (_ & _ & _ & Hcalm); [|done..]. by rewrite (Hcalm He).
Qed.

Lemma fs_upload_stores e key ct data ttl fs :
  fs_honest e → fs_sound fs → key_valid key → 0 ≤ fs_now e →
  (∀ d, ttl = Some d → 0 ≤ d ∧ fs_now e + d < time_end) →
  let out := fs_upload canonicalize base_path e key ct data ttl fs in
  out.1 = Ok () →
  ∀ t, 0 ≤ t → (kept_for (fs_now e) ttl t → fs_live out.2 t key = Some data)
               ∧ (lapsed_by (fs_now e) ttl t → fs_live out.2 t key = None).
Proof.
  intros He Hs Hkey Hnow Httl. unfold fs_upload.
  destruct (upload_publish _ _ e key data fs) as [[[]|err] fs1] eqn:Hpub; [|done].
  apply publish_spec in Hpub as (Hs1 & _ & Hok & _); [|done..].
  destruct (Hok eq_refl) as [Hdata Hb]. intros _.
  destruct (expiry_spec e key ttl fs1 Hs1 Hb Hkey) as (_ & Hrest & Hside).
  intros t Ht. apply stored_live; [done..| |by apply Hside]. simpl.
  rewrite Hrest; [done|by right].
Qed.

Lemma key_no_dir fs key : fs_sound fs → key_valid key → bool_decide (resolve key ∈ dirs fs) = false.
Proof.
  intros Hs (hash & ext & Hk)%validated_parts. apply sound_no_dir; [done|].
  rewrite (resolve_parts _ _ _ Hk). apply shard_file_depth.
Qed.

Lemma calm_is_honest e : fs_calm e → fs_honest e.
Proof. intros He c _. apply He. Qed.

Lemma stat_calm e key fs :
  fs_calm e → fs_sound fs → key_valid key →
  stat e (resolve key) fs = if bool_decide (is_Some (files fs !! resolve key)) then Ok true else Err true.
Proof.
  intros He Hs Hkey. unfold stat. by rewrite He, (key_no_dir fs key).
Qed.

Lemma fs_get_answer e key fs :
  fs_calm e → fs_sound fs → key_valid key →
  match fs_live fs (fs_now e) key with
  | Some data => (fs_get canonicalize base_path e key fs).1 = Ok data
  | None => missing (fs_get canonicalize base_path e key fs).1
  end.
Proof.
  intros He Hs Hkey. unfold fs_get, fs_live.
  rewrite stat_calm, (is_expired_honest e) by auto using calm_is_honest.
  destruct (files fs !! resolve key) as [data|] eqn:Hfile; simpl; [|by apply missing_message].
  destruct (is_expired _ _ fs); [by apply missing_message|].
  unfold assert_within_base.
  rewrite (no_symlinks fs base_path)
    by (left; apply (fs_files fs Hs (resolve key)); by rewrite Hfile).
  rewrite (no_symlinks fs (resolve key)) by (right; by rewrite Hfile).
  simpl. unfold LocalFs.resolve at 1. rewrite path_starts_with_app. simpl. by rewrite He, Hfile.
Qed.

Lemma fs_check_answer e key fs :
  fs_calm e → fs_sound fs → key_valid key →
  (fs_check base_path e key fs).1 = Ok (bool_decide (is_Some (fs_live fs (fs_now e) key))).
Proof.
  intros He Hs Hkey. unfold fs_check, fs_live.
  rewrite stat_calm, (is_expired_honest e) by auto using calm_is_honest.
  destruct (files fs !! resolve key) as [data|] eqn:Hfile; simpl; [|done].
  by destruct (is_expired _ _ fs).
Qed.

(** A read that reports no failure tells what is there. *)
Lemma fs_check_told e key fs b :
  fs_honest e → fs_sound fs → key_valid key → (fs_check base_path e key fs).1 = Ok b →
  b = bool_decide (is_Some (fs_live fs (fs_now e) key)).
Proof.
  intros He Hs Hkey. unfold fs_check, fs_live, stat. rewrite (is_expired_honest e) by done.
  destruct (fails e StatFile); [done|]. rewrite (key_no_dir fs key) by done.
  destruct (files fs !! resolve key) as [data|]; simpl; [|congruence].
  destruct (is_expired _ _ fs); simpl; congruence.
Qed.

Lemma fs_get_told e key fs data :
  fs_honest e → fs_sound fs → key_valid key → (fs_get canonicalize base_path e key fs).1 = Ok data →
  fs_live fs (fs_now e) key = Some data.
Proof.
  intros He Hs Hkey. unfold fs_get, fs_live, stat. rewrite (is_expired_honest e) by done.
  destruct (fails e StatFile); [done|]. rewrite (key_no_dir fs key) by done.
  destruct (files fs !! resolve key) as [data'|] eqn:Hfile; simpl; [|done].
  destruct (is_expired _ _ fs); [done|]. unfold assert_within_base.
  rewrite (no_symlinks fs base_path)
    by (left; apply (fs_files fs Hs (resolve key)); by rewrite Hfile).
  rewrite (no_symlinks fs (resolve key)) by (right; by rewrite Hfile).
  simpl. unfold LocalFs.resolve at 1. rewrite path_starts_with_app. simpl. rewrite Hfile.
  destruct (fails e ReadFile); simpl; congruence.
Qed.

Lemma fs_reads_frame e key fs :
  fs_sound fs → key_valid key →
  let checked := (fs_check base_path e key fs).2 in
  let got := (fs_get canonicalize base_path e key fs).2 in
  (fs_sound checked ∧ ∀ k t, key_valid k → fs_now e ≤ t → fs_live checked t k = fs_live fs t k)
  ∧ (fs_sound got ∧ ∀ k t, key_valid k → fs_now e ≤ t → fs_live got t k = fs_live fs t k).
Proof.
  intros Hs Hkey. unfold fs_check, fs_get. destruct (stat e (resolve key) fs) as [[]|[]]; try done.
  cbn [negb]. destruct (is_expired e (sidecar key) fs) eqn:Hexp.
  - assert (fs_sound (fs_delete base_path e key fs).2 ∧ ∀ k t, key_valid k → fs_now e ≤ t →
              fs_live (fs_delete base_path e key fs).2 t k = fs_live fs t k) as Hev.
    { split; [by apply delete_spec|]. intros. by apply evict_frame. }
    split; exact Hev.
  - destruct (assert_within_base _ _ _ fs); done.
Qed.

Lemma fs_delete_purges e key fs :
  fs_sound fs → key_valid key →
  let out := fs_delete base_path e key fs in
  (fs_sound out.2 ∧ ∀ k t, key_valid k → k ≠ key → fs_live out.2 t k = fs_live fs t k)
  ∧ (fs_calm e → out.1 = Ok () ∧ ∀ t, fs_live out.2 t key = None).
Proof.
  intros Hs Hkey. destruct (delete_spec e key fs Hs Hkey) as (Hs' & Hrest & _ & Hcalm). split.
  - split; [done|]. intros k t Hk Hne. apply live_frame. intros p Hp. apply Hrest.
    by eapply own_path_other.
  - intros He. destruct (Hcalm He) as [Hok Hgone]. split; [done|]. intros t. unfold fs_live.
    by rewrite Hgone.
Qed.

#[export] Instance fs_contract :
  StorageContract (B := fs_backend canonicalize base_path) FsEnv Fs.
Proof.
  refine {| usable := key_valid; sound := fs_sound; calm := fs_calm; honest := fs_honest; horizon := time_end;
            live := fs_live |}; simpl.
  - apply calm_is_honest.
  - intros. by apply fs_upload_frame.
  - intros. by apply fs_upload_succeeds.
  - intros. by apply fs_upload_stores.
  - intros. by apply fs_reads_frame.
  - intros. by apply fs_check_answer.
  - intros. by eapply fs_check_told.
  - intros. by apply fs_reads_frame.
  - intros. by apply fs_get_answer.
  - intros. by eapply fs_get_told.
  - intros. by apply fs_delete_purges.
  - intros. by apply fs_delete_purges.
Defined.
(** ** Interleaving *)

(** Nothing holds a key between the rename of its data file and the update of
    its sidecar.  When the entry that is replaced had expired, its sidecar
    condemns the new data: an upload that stops there - a crash, say - leaves
    an image nobody can read, and a reader that comes in there deletes it, so
    that the upload reports success and the image is missing whatever lifetime
    it was given.  Without the reader it would be there. *)
Theorem reupload_race e key ct data ttl fs :
  fs_calm e → fs_sound fs → key_valid key → 0 ≤ fs_now e →
  (∀ d, ttl = Some d → second ≤ d ∧ fs_now e + d < time_end) →
  is_expired e (sidecar key) fs = true →
  let published := upload_publish canonicalize base_path e key data fs in
  let checked := fs_check base_path e key published.2 in
  published.1 = Ok ()
  ∧ (∀ t, fs_now e ≤ t → fs_live published.2 t key = None)
  ∧ checked.1 = Ok false
  ∧ (∀ t, fs_live (upload_expiry base_path e key ttl checked.2) t key = None)
  ∧ (fs_upload canonicalize base_path e key ct data ttl fs).1 = Ok ()
  ∧ fs_live (fs_upload canonicalize base_path e key ct data ttl fs).2 (fs_now e) key = Some data.
Proof.
  intros He Hs Hkey Hnow Httl Hexp published checked.
  destruct published as [r fs1] eqn:Hpub.
  destruct (publish_spec e key data fs r fs1 Hs Hkey Hpub) as (Hs1 & Hrest & Hok & Hcalm).
  specialize (Hcalm He). subst r. destruct (Hok eq_refl) as [Hdata Hb].
  assert (Hexp1 : is_expired e (sidecar key) fs1 = true).
  { rewrite <- Hexp. unfold is_expired. rewrite Hrest; [done| |].
    - destruct (validated_parts _ _ Hkey) as (hash & ext & Hk).
      rewrite (sidecar_parts _ _ _ Hk), (resolve_parts _ _ _ Hk). intros [_ Heq]%app_inj_tail.
      by apply (sidecar_not_data prefix key hash ext Hk key hash ext Hk) in Heq.
    - intros dir e' name. apply (temp_not_own key); [done|by right]. }
  assert (Hchk : checked = (Ok false, (fs_delete base_path e key fs1).2)).
  { unfold checked, fs_check. cbn [snd]. rewrite stat_calm by done. by rewrite Hdata, Hexp1. }
  rewrite Hchk. destruct (delete_spec e key fs1 Hs1 Hkey) as (Hs2 & Hrest2 & _ & Hgone).
  destruct (Hgone He) as [_ Hgone']. split_and!; [done| |done| | |].
  - intros t Ht. unfold fs_live. cbn [snd]. by rewrite Hdata, (is_expired_later e t _ _ Hexp1 Ht).
  - intros t. unfold fs_live. cbn [snd].
    assert (Hnone : files (upload_expiry base_path e key ttl (fs_delete base_path e key fs1).2)
                      !! resolve key = None); [|by rewrite Hnone].
    rewrite <- Hgone'. apply expiry_spec; [done| |done|by right].
    unfold fs_delete. unfold remove_file at 1. rewrite He, (sound_no_dir fs1); [|done|].
    2: { destruct (validated_parts _ _ Hkey) as (hash & ext & Hk).
         rewrite (resolve_parts _ _ _ Hk). apply shard_file_depth. }
    cbn [orb snd]. unfold remove_file. by destruct (_ || _).
  - by apply fs_upload_succeeds.
  - apply fs_upload_stores; try done.
    + by apply calm_is_honest.
    + intros d ->. destruct (Httl d eq_refl). unfold second in *. split; [lia|done].
    + by apply fs_upload_succeeds.
    + unfold kept_for. destruct ttl as [d|]; [|done]. destruct (Httl d eq_refl). lia.
Qed.
End Contract.

(** ** The local file system behaves as the map in memory *)

Definition empty_fs : Fs := mk_Fs ∅ ∅.

Section Refinement.
Context (canonicalize : Fs → Path → option Path) (base_path : Path) (svc : StorageService).
Hypothesis no_symlinks : ∀ fs p,
  p ∈ dirs fs ∨ is_Some (files fs !! p) → canonicalize fs p = Some p.

#[local] Existing Instance InMemory.backend.
#[local] Existing Instance mem_contract.
#[local] Instance fs_backend_here : StorageBackend FsEnv Fs := fs_backend canonicalize base_path.
#[local] Instance fs_contract_here : StorageContract FsEnv Fs :=
  fs_contract canonicalize base_path (key_prefix svc) no_symlinks.

(** C12. Every sequence of service calls on an empty cache directory, at whole
    seconds and with no system call failing, is answered as the in-memory
    backend answers it: files, shards, sidecars and evictions implement a map
    from keys to images with lifetimes. *)
Theorem local_fs_refines (calls : list (Z * FsEnv * StorageCall)) :
  same_calls (C1 := mem_contract) (C2 := fs_contract_here) 0 calls →
  Forall2 same_answer
    (run_calls svc ((λ c, (c.1.1, c.2)) <$> calls) (∅ : gmap string InMemory.Entry)).1
    (run_calls svc ((λ c, (c.1.2, c.2)) <$> calls) empty_fs).1.
Proof.
  intros Hcalls.
  apply (backends_agree (C1 := mem_contract) (C2 := fs_contract_here) svc
           ltac:(done) ltac:(done) 0 calls); [|done].
  split_and!; [done| |].
  - split; simpl; [by intros p ?%not_elem_of_empty|]. intros p [? [=]].
  - intros k t _ _ _. done.
Qed.
End Refinement.

(** ** Concrete inputs *)

Definition plain_paths (fs : Fs) (p : Path) : option Path := Some p.
Definition cache_base : Path := [EmptyString; "data"; "images"].
Definition example_key : string := example_hash +:+ ".png".
Definition example_service : StorageService := mk_StorageService "https://cdn.example/" EmptyString.
Definition env_at (secs counter : Z) : FsEnv := mk_FsEnv (secs * second) 77 counter (λ _, false).
Definition example_calls : list (Z * FsEnv * StorageCall) :=
  [(10 * second, env_at 10 0, CallUpload example_key "image/png" [x89; x50] (Some (5 * second)));
   (12 * second, env_at 12 2, CallGet example_key);
   (15 * second, env_at 15 2, CallCheck example_key);
   (16 * second, env_at 16 2, CallDelete "../../etc/passwd")].

Example example_answers :
  (run_calls (H := fs_backend plain_paths cache_base) example_service
     ((λ c, (c.1.2, c.2)) <$> example_calls) empty_fs).1
  = [Ok Done; Ok (Data [x89; x50]); Ok (Hit false);
     Err (EKey (mk_InvalidKeyError "../../etc/passwd"))].
Proof. vm_compute. reflexivity. Qed.

(** A call at a whole second where nothing fails. *)
Ltac quiet_call :=
  constructor; simpl; try done;
  intros ? ? ? ? ?; simplify_eq; split_and!; vm_compute; done.

Lemma local_fs_refines_witness :
  Forall2 same_answer
    [Ok Done; Ok (Data [x89; x50]); Ok (Hit false);
     Err (EKey (mk_InvalidKeyError "../../etc/passwd"))]
    [Ok Done; Ok (Data [x89; x50]); Ok (Hit false);
     Err (EKey (mk_InvalidKeyError "../../etc/passwd"))].
Proof.
  apply (local_fs_refines plain_paths cache_base example_service (λ _ _ _, eq_refl) example_calls).
  unfold example_calls. cbn [same_calls].
  split_and!; [done|quiet_call|done|quiet_call|done|quiet_call|done|quiet_call|done].
Defined.

(** An upload that had a lifetime of five seconds, found lapsed by the next. *)
Definition lapsed_fs : Fs :=
  (fs_upload plain_paths cache_base (env_at 10 0) example_key "image/png" [x89] (Some (5 * second))
     empty_fs).2.

Lemma lapsed_fs_sound : fs_sound cache_base EmptyString lapsed_fs.
Proof.
  apply (fs_upload_frame plain_paths cache_base EmptyString (λ _ _ _, eq_refl));
    [|vm_compute; reflexivity].
  split; simpl; [by intros p ?%not_elem_of_empty|]. intros p [? [=]].
Qed.

Lemma reupload_race_witness :
  let e := env_at 20 2 in
  let published := upload_publish plain_paths cache_base e example_key [x50] lapsed_fs in
  let checked := fs_check cache_base e example_key published.2 in
  published.1 = Ok () ∧ checked.1 = Ok false
  ∧ fs_live cache_base (upload_expiry cache_base e example_key None checked.2) (21 * second) example_key
    = None.
Proof.
  destruct (reupload_race plain_paths cache_base EmptyString (λ _ _ _, eq_refl) (env_at 20 2)
    example_key "image/png" [x50] None lapsed_fs) as (H1 & _ & H3 & H4 & _).
  - done.
  - apply lapsed_fs_sound.
  - vm_compute. reflexivity.
  - done.
  - intros ? [=].
  - vm_compute. reflexivity.
  - split_and!; [exact H1|exact H3|apply H4].
Defined.
