(* ===== verification/S3Storage.v ===== *)
(** * The S3 backend: [src/services/storage/s3_handler.rs]

The bucket is a map from keys to objects; what the SDK and the server answer
when a call fails is part of the environment.  The text of the [Expires]
header is written and read back by the SDK ([http_date],
[parse_http_date]). *)
From S2P Require Import Prelude RustStr SourceGuard RustFloat Params CacheKey KeyValidation Errors Storage.

Local Open Scope Z_scope.

Record S3Object := mk_S3Object {
  s3_body : list byte;
  s3_content_type : string;
  s3_cache_control : string;
  s3_expires : option string;
}.

Abbreviation Bucket := (gmap string S3Object).

Inductive S3Call :=
  | PutObject
  | HeadObject
  | GetObject
  | ReadBody
  | DeleteObject.

(** [s3_failure c] is the message of the error call [c] ends in, if it does;
    an absent object is not one of these. *)
Record S3Env := mk_S3Env {
  s3_now : Z;
  s3_failure : S3Call → option string;
}.

Section Operations.
Context (http_date : Z → string) (parse_http_date : string → option Z).

Definition s3_is_expired (now : Z) (expires : option string) : bool :=
  match expires ≫= parse_http_date with
  | None => false
  | Some secs => secs <=? unix_secs now
  end.

Definition s3_upload (e : S3Env) (key content_type : string) (data : list byte) (ttl : option Z)
    (bucket : Bucket) : result AnyhowError unit * Bucket :=
  let expires := http_date <$> (ttl ≫= checked_add_time (s3_now e)) in
  match s3_failure e PutObject with
  | Some _ => (Err (EMessage "Failed to upload image to MinIO"), bucket)
  | None =>
      (Ok (), <[key := mk_S3Object data content_type "public, max-age=31536000, immutable" expires]>
                bucket)
  end.

Definition s3_delete (e : S3Env) (key : string) (bucket : Bucket) : result AnyhowError unit * Bucket :=
  match s3_failure e DeleteObject with
  | Some _ => (Err (EMessage ("Failed to delete image from S3: " +:+ key)), bucket)
  | None => (Ok (), delete key bucket)
  end.

Definition s3_check (e : S3Env) (key : string) (bucket : Bucket) : result AnyhowError bool * Bucket :=
  match s3_failure e HeadObject with
  | Some err => (Err (EMessage ("S3 error: " +:+ err)), bucket)
  | None =>
      match bucket !! key with
      | None => (Ok false, bucket)
      | Some object =>
          if s3_is_expired (s3_now e) (s3_expires object)
          then (Ok false, (s3_delete e key bucket).2)
          else (Ok true, bucket)
      end
  end.

Definition s3_get (e : S3Env) (key : string) (bucket : Bucket) : result AnyhowError (list byte) * Bucket :=
  match s3_failure e GetObject with
  | Some _ => (Err (EMessage ("Failed to get image from S3: " +:+ key)), bucket)
  | None =>
      match bucket !! key with
      | None => (Err (EMessage ("Image not found in S3: " +:+ key)), bucket)
      | Some object =>
          if s3_is_expired (s3_now e) (s3_expires object)
          then (Err (EMessage ("Image not found in S3: " +:+ key +:+ " (expired)")),
                (s3_delete e key bucket).2)
          else
            match s3_failure e ReadBody with
            | Some err => (Err (EMessage ("Failed to read S3 response body: " +:+ err)), bucket)
            | None => (Ok (s3_body object), bucket)
            end
      end
  end.

#[export] Instance s3_backend : StorageBackend S3Env Bucket := {
  backend_now := s3_now;
  upload_image_with_ttl := s3_upload;
  check_cache := s3_check;
  get_image := s3_get;
  delete_image := s3_delete;
}.
End Operations.

(** ** The backend keeps the trait's promises *)

(** The year 10000: the last instant an HTTP date can name. *)
Definition http_date_end : Z := 253402300800 * second.

Section Contract.
Context (http_date : Z → string) (parse_http_date : string → option Z).
(** An HTTP date reads back to the second. *)
Hypothesis http_date_roundtrip : ∀ t, 0 ≤ t < http_date_end →
  parse_http_date (http_date t) = Some (unix_secs t).

Definition s3_live (bucket : Bucket) (t : Z) (key : string) : option (list byte) :=
  object ← bucket !! key;
  if s3_is_expired parse_http_date t (s3_expires object) then None else Some (s3_body object).

Lemma s3_expired_later now t expires :
  now ≤ t → s3_is_expired parse_http_date now expires = true →
  s3_is_expired parse_http_date t expires = true.
Proof.
  unfold s3_is_expired. destruct (expires ≫= parse_http_date); [|done]. rewrite !Z.leb_le.
  intros Ht Hn. enough (unix_secs now ≤ unix_secs t) by lia. clear Hn. unfold unix_secs.
  destruct (Z.ltb_spec now 0), (Z.ltb_spec t 0); try lia; [apply Z.div_pos; [lia|done]|].
  by apply Z.div_le_mono.
Qed.

(** Evicting an expired object shows to nobody. *)
Lemma s3_evict_frame e key bucket object k t :
  bucket !! key = Some object → s3_is_expired parse_http_date (s3_now e) (s3_expires object) = true →
  s3_now e ≤ t → s3_live (s3_delete e key bucket).2 t k = s3_live bucket t k.
Proof.
  intros Hobj Hexp Ht. unfold s3_delete. destruct (s3_failure e DeleteObject); [done|]. simpl.
  unfold s3_live. destruct (decide (k = key)) as [->|Hne].
  - rewrite lookup_delete, Hobj. simpl. rewrite (s3_expired_later _ _ _ Ht Hexp). by case_decide.
  - by rewrite lookup_delete_ne.
Qed.

Lemma s3_reads_frame e key bucket k t :
  s3_now e ≤ t →
  s3_live (s3_check parse_http_date e key bucket).2 t k = s3_live bucket t k
  ∧ s3_live (s3_get parse_http_date e key bucket).2 t k = s3_live bucket t k.
Proof.
  intros Ht. unfold s3_check, s3_get. destruct (bucket !! key) as [object|] eqn:Hobj.
  2: { by destruct (s3_failure e HeadObject), (s3_failure e GetObject). }
  destruct (s3_is_expired parse_http_date (s3_now e) (s3_expires object)) eqn:Hexp.
  - pose proof (s3_evict_frame e key bucket object k t Hobj Hexp Ht).
    by destruct (s3_failure e HeadObject), (s3_failure e GetObject).
  - destruct (s3_failure e HeadObject), (s3_failure e GetObject), (s3_failure e ReadBody); done.
Qed.

#[export] Instance s3_contract :
  StorageContract (B := s3_backend http_date parse_http_date) S3Env Bucket.
Proof.
  refine {| usable := λ _, True; sound := λ _, True;
            calm := λ e, ∀ c, s3_failure e c = None; honest := λ _, True; horizon := http_date_end;
            live := s3_live |}; simpl.
  - done.
  - intros e key ct data ttl bucket _ _. split; [done|]. intros k t _ Hk. unfold s3_upload.
    destruct (s3_failure e PutObject); [done|]. unfold s3_live. simpl. by rewrite lookup_insert_ne.
  - intros e key ct data ttl bucket He _ _. unfold s3_upload. by rewrite He.
  - intros e key ct data ttl bucket _ _ _ Hnow Httl. unfold s3_upload.
    destruct (s3_failure e PutObject); [done|]. simpl. intros _ t Ht. unfold s3_live. rewrite lookup_insert. case_decide; [|done].
    cbn [mbind option_bind s3_expires s3_body]. unfold s3_is_expired. destruct ttl as [d|]; simpl; [|done].
    destruct (Httl d eq_refl) as [Hd Hend]. unfold checked_add_time.
    rewrite (proj2 (Z.ltb_lt _ _)) by (unfold http_date_end, time_end, second in *; lia).
    simpl. rewrite http_date_roundtrip by lia.
    pose proof (unix_secs_spec (s3_now e + d) ltac:(lia)). pose proof (unix_secs_spec t Ht).
    unfold second in *.
    destruct (Z.leb_spec (unix_secs (s3_now e + d)) (unix_secs t));
      (split; intros; [try done; lia|done || lia]).
  - intros e key bucket _ _. split; [done|]. intros k t _ Ht. by apply s3_reads_frame.
  - intros e key bucket He _ _. unfold s3_check, s3_live. rewrite He.
    destruct (bucket !! key) as [object|]; simpl; [|done]. by destruct (s3_is_expired _ _ _).
  - intros e key bucket b _ _ _. unfold s3_check, s3_live. destruct (s3_failure e HeadObject); [done|].
    destruct (bucket !! key) as [object|]; simpl; [|congruence]. destruct (s3_is_expired _ _ _); simpl; congruence.
  - intros e key bucket _ _. split; [done|]. intros k t _ Ht. by apply s3_reads_frame.
  - intros e key bucket He _ _. unfold s3_get, s3_live. rewrite !He.
    destruct (bucket !! key) as [object|]; simpl; [|by apply missing_message].
    destruct (s3_is_expired _ _ _); [by apply missing_message|done].
  - intros e key bucket data _ _ _. unfold s3_get, s3_live. destruct (s3_failure e GetObject); [done|].
    destruct (bucket !! key) as [object|]; simpl; [|done]. destruct (s3_is_expired _ _ _); [done|].
    destruct (s3_failure e ReadBody); simpl; [done|congruence].
  - intros e key bucket _ _. split; [done|]. intros k t _ Hk. unfold s3_delete, s3_live.
    destruct (s3_failure e DeleteObject); [done|]. simpl. by rewrite lookup_delete_ne.
  - intros e key bucket He _ _. unfold s3_delete, s3_live. rewrite He. simpl. split; [done|].
    intros t. rewrite lookup_delete. by case_decide.
Defined.
End Contract.
