(* ===== verification/StorageSelect.v ===== *)
(** * Choosing a backend: [src/services/storage/handler.rs]

[StorageType::from_str], [determine_storage_type] and [StorageService::new]
over the Cargo features a build was made with.  A backend is its type and the
part of the configuration it was built from. *)
From S2P Require Import Prelude RustStr SourceGuard RustFloat Params CacheKey KeyValidation Errors Storage.

Local Open Scope Z_scope.

Module StorageType.
Inductive StorageType := S3 | LocalFs | InMemory.
End StorageType.
Abbreviation StorageType := StorageType.StorageType.

#[export] Instance storage_type_eq_dec : EqDecision StorageType.
Proof. solve_decision. Defined.

(** [to_uppercase], for comparison with the texts of [from_str]: besides the
    ASCII letters, the dotless i and the long s are the only characters whose
    uppercase is made of letters of theirs. *)
Fixpoint to_uppercase (s : string) : string :=
  match s with
  | EmptyString => EmptyString
  | String a rest =>
      match rest with
      | String b rest' =>
          if (code a =? 196) && (code b =? 177) then String "I" (to_uppercase rest')
          else if (code a =? 197) && (code b =? 191) then String "S" (to_uppercase rest')
          else String (if (97 <=? code a) && (code a <=? 122) then chr (code a - 32) else a)
                 (to_uppercase rest)
      | EmptyString =>
          String (if (97 <=? code a) && (code a <=? 122) then chr (code a - 32) else a) EmptyString
      end
  end.

Definition one_of (s : string) (names : list string) : bool := List.existsb (String.eqb s) names.

Definition storage_type_from_str (s : string) : result string StorageType :=
  let upper := to_uppercase s in
  if one_of upper ["S3"; "MINIO"] then Ok StorageType.S3
  else if one_of upper ["LOCAL_FS"; "LOCALFS"; "LOCAL"] then Ok StorageType.LocalFs
  else if one_of upper ["IN_MEMORY"; "INMEMORY"; "MEMORY"] then Ok StorageType.InMemory
  else Err ("Invalid storage type: " +:+ s).

(** The features of a build, and whether it is this crate's own test build. *)
Record Build := mk_Build {
  feature_s3 : bool;
  feature_local_fs : bool;
  feature_in_memory : bool;
  cfg_test : bool;
}.

Definition enabled_features (b : Build) : Z :=
  Z.b2z (feature_s3 b) + Z.b2z (feature_local_fs b) + Z.b2z (feature_in_memory b).

(** The first [return] that the features leave in the function. *)
Definition first_feature (b : Build) : result string StorageType :=
  if feature_s3 b then Ok StorageType.S3
  else if feature_local_fs b then Ok StorageType.LocalFs
  else if feature_in_memory b then Ok StorageType.InMemory
  else Err "No storage features are enabled".

(** [env_var] is [STORAGE_TYPE] in the process environment. *)
Definition determine_storage_type (b : Build) (storage_type_str env_var : option string)
  : result string StorageType :=
  if enabled_features b =? 0 then Err "No storage features are enabled"
  else if enabled_features b =? 1 then first_feature b
  else
    match storage_type_str with
    | Some storage_type => storage_type_from_str storage_type
    | None =>
        match env_var with
        | Some storage_type => storage_type_from_str storage_type
        | None => first_feature b
        end
    end.

Record S3Config := mk_S3Config {
  endpoint_url : string;
  access_key : string;
  secret_key : string;
  bucket : string;
  region : string;
}.

Record StorageConfig := mk_StorageConfig {
  storage_type : option string;
  config_cdn_base_url : string;
  s3_config : option S3Config;
  local_fs_config : option string;
  config_key_prefix : string;
}.

#[export] Instance storage_config_eta : Eta StorageConfig := λ c,
  mk_StorageConfig (storage_type c) (config_cdn_base_url c) (s3_config c) (local_fs_config c)
    (config_key_prefix c).

Definition storage_config_new (cdn_base_url : string) : StorageConfig :=
  mk_StorageConfig None cdn_base_url None None EmptyString.
Definition with_storage_type (t : string) (c : StorageConfig) : StorageConfig :=
  c <| storage_type := Some t |>.
Definition with_key_prefix (p : string) (c : StorageConfig) : StorageConfig :=
  c <| config_key_prefix := p |>.
Definition with_s3_config (s3 : S3Config) (c : StorageConfig) : StorageConfig :=
  c <| s3_config := Some s3 |>.
Definition with_local_fs_config (base_path : string) (c : StorageConfig) : StorageConfig :=
  c <| local_fs_config := Some base_path |>.

Inductive Backend :=
  | MinIOStorage (config : S3Config)
  | LocalFSStorage (base_path : string)
  | InMemoryStorage.

Definition storage_service_new (b : Build) (env_var : option string) (config : StorageConfig)
  : result string (Backend * StorageService) :=
  storage_type ← determine_storage_type b (storage_type config) env_var;
  let service := mk_StorageService (config_cdn_base_url config) (config_key_prefix config) in
  let none := Err "No storage backend available for the selected type" in
  match storage_type with
  | StorageType.S3 =>
      if feature_s3 b then
        s3 ← ok_or (s3_config config) "S3 configuration is required"; Ok (MinIOStorage s3, service)
      else none
  | StorageType.LocalFs =>
      if feature_local_fs b then
        path ← ok_or (local_fs_config config) "Local FS configuration is required";
        Ok (LocalFSStorage path, service)
      else none
  | StorageType.InMemory =>
      if cfg_test b && feature_in_memory b then Ok (InMemoryStorage, service) else none
  end.

Definition backend_type (backend : Backend) : StorageType :=
  match backend with
  | MinIOStorage _ => StorageType.S3
  | LocalFSStorage _ => StorageType.LocalFs
  | InMemoryStorage => StorageType.InMemory
  end.

(** A service runs only on a backend that was compiled in, never on the
    in-memory one outside the tests, and on the one that was asked for when
    more than one could be; its prefix and URL are the configured ones. *)
Theorem storage_service_new_spec b env_var config backend service :
  storage_service_new b env_var config = Ok (backend, service) →
  service = mk_StorageService (config_cdn_base_url config) (config_key_prefix config)
  ∧ match backend with
    | MinIOStorage s3 => feature_s3 b = true ∧ s3_config config = Some s3
    | LocalFSStorage path => feature_local_fs b = true ∧ local_fs_config config = Some path
    | InMemoryStorage => feature_in_memory b = true ∧ cfg_test b = true
    end
  ∧ (1 < enabled_features b → ∀ t,
       storage_type config = Some t ∨ (storage_type config = None ∧ env_var = Some t) →
       storage_type_from_str t = Ok (backend_type backend)).
Proof.
  unfold storage_service_new. intros H. apply bind_Ok in H as (ty & Hty & H).
  assert (Hback : ty = backend_type backend
    ∧ service = mk_StorageService (config_cdn_base_url config) (config_key_prefix config)
    ∧ match backend with
      | MinIOStorage s3 => feature_s3 b = true ∧ s3_config config = Some s3
      | LocalFSStorage path => feature_local_fs b = true ∧ local_fs_config config = Some path
      | InMemoryStorage => feature_in_memory b = true ∧ cfg_test b = true
      end).
  { destruct ty.
    - destruct (feature_s3 b) eqn:Hf; [|done]. invert_ok. by simplify_eq.
    - destruct (feature_local_fs b) eqn:Hf; [|done]. invert_ok. by simplify_eq.
    - destruct (cfg_test b) eqn:Ht, (feature_in_memory b) eqn:Hf; try done. by simplify_eq/=. }
  destruct Hback as (-> & -> & Hb). split_and!; [done|done|]. intros Hmany t Hasked.
  unfold determine_storage_type in Hty.
  rewrite (proj2 (Z.eqb_neq (enabled_features b) 0)), (proj2 (Z.eqb_neq (enabled_features b) 1)) in Hty by lia.
  by destruct Hasked as [Ht|[Ht Hv]]; rewrite ?Ht, ?Hv in Hty.
Qed.

Lemma storage_service_new_spec_witness :
  storage_service_new (mk_Build true true false false) (Some "minio")
    (with_local_fs_config "data" (with_key_prefix "c/" (with_storage_type "Local_Fs"
       (storage_config_new "http://cdn"))))
  = Ok (LocalFSStorage "data", mk_StorageService "http://cdn" "c/")
  ∧ storage_type_from_str "Local_Fs" = Ok StorageType.LocalFs.
Proof.
  split; [reflexivity|].
  apply (storage_service_new_spec (mk_Build true true false false) (Some "minio")
    (with_local_fs_config "data" (with_key_prefix "c/" (with_storage_type "Local_Fs"
       (storage_config_new "http://cdn"))))
    (LocalFSStorage "data") (mk_StorageService "http://cdn" "c/"));
    [reflexivity|reflexivity|by left].
Defined.
