(* ===== verification/HttpCache.v ===== *)
(** * Downloads and revalidation:
[src/modules/api/download.rs], [src/modules/router/middlewares.rs],
[src/modules/utils/{etag,date}.rs]

The download handler over any storage backend, the conditional-request
middleware in front of it, the concurrency and time limit, and the HTTP date
they print. *)
From S2P Require Import Prelude RustStr SourceGuard RustFloat Params CacheKey KeyValidation Errors Storage.

Local Open Scope Z_scope.

(** ** Dates *)

Definition WEEKDAYS : list string := ["Thu"; "Fri"; "Sat"; "Sun"; "Mon"; "Tue"; "Wed"].
Definition MONTHS : list string :=
  ["Jan"; "Feb"; "Mar"; "Apr"; "May"; "Jun"; "Jul"; "Aug"; "Sep"; "Oct"; "Nov"; "Dec"].

(** [/] truncates towards zero on [i64]; the rest is on [u64]. *)
Definition civil_from_days (z : Z) : Z * Z * Z :=
  let z := z + 719468 in
  let era := Z.quot (if 0 <=? z then z else z - 146096) 146097 in
  let doe := z - era * 146097 in
  let yoe := (doe - doe / 1460 + doe / 36524 - doe / 146096) / 365 in
  let y := yoe + era * 400 in
  let doy := doe - (365 * yoe + yoe / 4 - yoe / 100) in
  let mp := (5 * doy + 2) / 153 in
  let d := doy - (153 * mp + 2) / 5 + 1 in
  let m := if mp <? 10 then mp + 3 else mp - 9 in
  let y := if m <=? 2 then y + 1 else y in
  (y, m, d).

(** [{:0w}] of a nonnegative number. *)
Fixpoint zeroes (n : nat) : string :=
  match n with O => EmptyString | S n => String "0" (zeroes n) end.
Definition padded (width : nat) (n : Z) : string :=
  let s := uint_to_string n in zeroes (width - String.length s) +:+ s.

(** [secs] is [duration_since(UNIX_EPOCH)], in whole seconds. *)
Definition format_http_date (time : Z) : string :=
  let secs := unix_secs time in
  let days := secs / 86400 in
  let time_of_day := secs mod 86400 in
  let '(year, month, day) := civil_from_days days in
  default EmptyString (WEEKDAYS !! Z.to_nat (days mod 7)) +:+ ", " +:+ padded 2 day +:+ " "
    +:+ default EmptyString (MONTHS !! Z.to_nat (month - 1)) +:+ " " +:+ padded 4 year +:+ " "
    +:+ padded 2 (time_of_day / 3600) +:+ ":" +:+ padded 2 (time_of_day mod 3600 / 60) +:+ ":"
    +:+ padded 2 (time_of_day mod 60) +:+ " GMT".

Definition immutable_resource_last_modified : string := format_http_date 0.

Example rfc_7231_date : format_http_date (784111777 * second) = "Sun, 06 Nov 1994 08:49:37 GMT".
Proof. vm_compute. reflexivity. Qed.
Example leap_date : format_http_date (11016 * 86400 * second) = "Tue, 29 Feb 2000 00:00:00 GMT".
Proof. vm_compute. reflexivity. Qed.

(** ** Entity tags *)

Definition strip_weak_prefix (value : string) : string := default value (strip_prefix "W/" value).

Definition if_none_match_satisfied (if_none_match etag : string) : bool :=
  List.existsb (λ candidate, String.eqb candidate "*" || String.eqb (strip_weak_prefix candidate) etag)
    (trim <$> split_on "," if_none_match).

(** ** Requests and responses *)

Record HttpRequest := mk_HttpRequest {
  path : string;
  request_headers : list (string * string);
}.

(** [headers.get(name)], and [to_str] on it: visible ASCII and tabs. *)
Definition visible (a : ascii) : bool := ((32 <=? code a) && (code a <? 127)) || (code a =? 9).
Definition header_text (name : string) (request : HttpRequest) : option string :=
  h ← List.find (λ h, String.eqb h.1 name) (request_headers request);
  if str_forall visible h.2 then Some h.2 else None.

(** [HeaderValue::from_str] *)
Definition header_value_ok (s : string) : bool :=
  str_forall (λ a, ((32 <=? code a) && negb (code a =? 127)) || (code a =? 9)) s.

(** [headers.insert]: the value replaces those of the same name. *)
Definition insert_header (name value : string) (r : Response) : Response :=
  mk_Response (resp_status r)
    (List.filter (λ h, negb (String.eqb h.1 name)) (resp_headers r) ++ [(name, value)]) (resp_body r).

Definition immutable : string := "public, max-age=31536000, immutable".

(** ** The download handler *)

(** [rsplit('.').next()], parsed as a format. *)
Definition content_type_for_key (key : string) : string :=
  let ext := match rsplit_once "." key with Some (_, ext) => ext | None => key end in
  match image_format_from_str ext with
  | Ok ImageFormat.Jpg => "image/jpeg"
  | Ok ImageFormat.Png => "image/png"
  | Ok ImageFormat.Webp => "image/webp"
  | Ok ImageFormat.Avif => "image/avif"
  | Ok ImageFormat.Gif => "image/gif"
  | Ok ImageFormat.Auto => "application/octet-stream"
  | Err _ => "application/octet-stream"
  end.

Definition download_success (key : string) (data : list byte) : Response :=
  insert_header "content-type" (content_type_for_key key)
    (insert_header "cache-control" immutable
       (mk_Response 200 [("content-type", "application/octet-stream")] (string_of_list_byte data))).

Definition download_handler `{StorageBackend E St} (svc : StorageService) (e : E) (key : string)
    (s : St) : Response * St :=
  match service_get_image svc e key s with
  | (Ok data, s') => (download_success key data, s')
  | (Err err, s') => (error_response (classify_download_error err), s')
  end.

(** ** Conditional requests *)

Definition DOWNLOAD_PATH_PREFIX : string := "/api/images/files/".

Definition quoted (key : string) : string :=
  String quote_char (key +:+ String quote_char EmptyString).

Definition etag_for_request (request : HttpRequest) : option string :=
  key ← strip_prefix DOWNLOAD_PATH_PREFIX (path request);
  if str_is_empty key then None else Some (quoted key).

Definition apply_conditional_headers (etag : string) (r : Response) : Response :=
  let r := if header_value_ok etag then insert_header "etag" etag r else r in
  insert_header "vary" "Accept"
    (insert_header "last-modified" immutable_resource_last_modified r).

Definition not_modified_response (etag : string) : Response :=
  insert_header "cache-control" immutable
    (apply_conditional_headers etag (mk_Response 304 [] EmptyString)).

(** [next] is the rest of the stack, with the state it works on. *)
Definition conditional_download_middleware {St} (request : HttpRequest)
    (next : HttpRequest → St → Response * St) (s : St) : Response * St :=
  match etag_for_request request with
  | None => next request s
  | Some etag =>
      match header_text "if-none-match" request with
      | Some if_none_match =>
          if if_none_match_satisfied if_none_match etag then (not_modified_response etag, s)
          else
            let (r, s') := next request s in
            (if resp_status r =? 200 then apply_conditional_headers etag r else r, s')
      | None =>
          let (r, s') := next request s in
          (if resp_status r =? 200 then apply_conditional_headers etag r else r, s')
      end
  end.

(** ** The concurrency and time limit *)

Definition env_positive (max : Z) (var : option string) : option Z :=
  v ← var; n ← parse_uint max v; if n =? 0 then None else Some n.

Record MiddlewareConfig := mk_MiddlewareConfig {
  request_timeout : Z;
  max_concurrent_requests : Z;
  rate_limit_burst : Z;
  rate_limit_period : Z;
}.

Definition middleware_config_default : MiddlewareConfig :=
  mk_MiddlewareConfig (30 * second) 512 20 (100 * 1000000).

Definition middleware_config_from_env (timeout_secs requests burst period_ms : option string)
  : MiddlewareConfig :=
  let d := middleware_config_default in
  mk_MiddlewareConfig
    (default (request_timeout d) ((λ n, n * second) <$> env_positive u64_max timeout_secs))
    (default (max_concurrent_requests d) (env_positive usize_max requests))
    (default (rate_limit_burst d) (env_positive u32_max burst))
    (default (rate_limit_period d) ((λ n, n * 1000000) <$> env_positive u64_max period_ms)).

Definition service_unavailable (msg : string) : Response :=
  mk_Response 503 [("content-type", "text/plain; charset=utf-8"); ("cache-control", "no-store")] msg.

(** The semaphore of [saturation_and_timeout_middleware] and how many requests
    are past it. *)
Record Guard := mk_Guard {
  permits : Z;
  running : Z;
}.

Inductive GuardEvent :=
  | Enter                                (* a request reaches the layer *)
  | Finish (answer : option Response)    (* one is answered, or out of time *)
  | Drop.                                (* the connection of one is gone *)

(** What the client of the event sees, and the guard after it. *)
Definition guard_step (g : Guard) (ev : GuardEvent) : option (option Response * Guard) :=
  match ev with
  | Enter =>
      if 0 <? permits g then Some (None, mk_Guard (permits g - 1) (running g + 1))
      else Some (Some (service_unavailable "service is at capacity, try again shortly"), g)
  | Finish answer =>
      if 0 <? running g then
        Some (Some (default (service_unavailable "request exceeded the configured timeout") answer),
              mk_Guard (permits g + 1) (running g - 1))
      else None
  | Drop =>
      if 0 <? running g then Some (None, mk_Guard (permits g + 1) (running g - 1)) else None
  end.

Inductive guard_reachable (max : Z) : Guard → Prop :=
  | guard_start : guard_reachable max (mk_Guard max 0)
  | guard_next g ev seen g' :
      guard_reachable max g → guard_step g ev = Some (seen, g') → guard_reachable max g'.

(** ** Properties: dates *)

Definition leap_year (y : Z) : bool :=
  (y mod 4 =? 0) && (negb (y mod 100 =? 0) || (y mod 400 =? 0)).

Definition days_in_month (y m : Z) : Z :=
  if m =? 2 then if leap_year y then 29 else 28
  else if (m =? 4) || (m =? 6) || (m =? 9) || (m =? 11) then 30 else 31.

(** The days of [y] before the month [m]. *)
Fixpoint days_before_month (y : Z) (m : nat) : Z :=
  match m with
  | O | S O => 0
  | S m' => days_before_month y m' + days_in_month y (Z.of_nat m')
  end.

(** The days of the years from 1 to [y - 1]. *)
Definition days_before_year (y : Z) : Z :=
  365 * (y - 1) + (y - 1) / 4 - (y - 1) / 100 + (y - 1) / 400.

(** The number of a date of the Gregorian calendar, 1970-01-01 being 0. *)
Definition day_number (y m d : Z) : Z :=
  days_before_year y + days_before_month y (Z.to_nat m) + d - 1 - 719162.

Lemma days_before_year_step y :
  days_before_year (y + 1) = days_before_year y + (if leap_year y then 366 else 365).
Proof.
  unfold days_before_year, leap_year.
  destruct (Z.eqb_spec (y mod 4) 0), (Z.eqb_spec (y mod 100) 0), (Z.eqb_spec (y mod 400) 0);
    simpl; Z.to_euclidean_division_equations; lia.
Qed.

(** The year of an era in which a day of it falls, years starting in March. *)
Lemma year_of_era doe :
  0 ≤ doe < 146097 →
  let yoe := (doe - doe / 1460 + doe / 36524 - doe / 146096) / 365 in
  0 ≤ yoe ≤ 399 ∧ 365 * yoe + yoe / 4 - yoe / 100 ≤ doe
  ∧ doe < 365 * (yoe + 1) + (yoe + 1) / 4 - (yoe + 1) / 100 + (yoe + 1) / 400.
Proof.
  intros H yoe. unfold yoe. destruct (Z.eq_dec doe 146096) as [->|Hne]; [by vm_compute|].
  rewrite (Z.div_small doe 146096) by lia.
  assert (doe / 36524 = 0 ∨ doe / 36524 = 1 ∨ doe / 36524 = 2 ∨ doe / 36524 = 3) as Hc
    by (Z.to_euclidean_division_equations; lia).
  destruct Hc as [Hc|[Hc|[Hc|Hc]]]; rewrite Hc; Z.to_euclidean_division_equations; lia.
Qed.

(** The month and day of a day of a year that starts in March. *)
Lemma month_of_day doy :
  0 ≤ doy < 366 →
  let mp := (5 * doy + 2) / 153 in
  0 ≤ mp ≤ 11 ∧ (153 * mp + 2) / 5 ≤ doy
  ∧ doy < (153 * (mp + 1) + 2) / 5 ∧ (mp = 11 → doy < (153 * mp + 2) / 5 + 29).
Proof. intros H mp. unfold mp. split_and!; Z.to_euclidean_division_equations; lia. Qed.

Lemma leap_year_era y era : leap_year (y + era * 400) = leap_year y.
Proof.
  unfold leap_year.
  replace ((y + era * 400) mod 400) with (y mod 400) by (by rewrite Z_mod_plus_full).
  replace (y + era * 400) with (y + era * 4 * 100) at 2 by lia. rewrite Z_mod_plus_full.
  replace (y + era * 400) with (y + era * 100 * 4) by lia. by rewrite Z_mod_plus_full.
Qed.

Lemma days_before_year_era y era : days_before_year (y + era * 400) = days_before_year y + era * 146097.
Proof.
  unfold days_before_year. replace (y + era * 400 - 1) with (y - 1 + era * 400) by lia.
  rewrite Z.div_add by done.
  replace (y - 1 + era * 400) with (y - 1 + era * 4 * 100) at 3 by lia. rewrite Z.div_add by done.
  replace (y - 1 + era * 400) with (y - 1 + era * 100 * 4) at 2 by lia. rewrite Z.div_add by done. lia.
Qed.

(** Closed subterms of a goal about a given month. *)
Ltac eval_month :=
  repeat match goal with
  | |- context [(153 * ?a + 2) / 5] =>
      let v := eval vm_compute in ((153 * a + 2) / 5) in change ((153 * a + 2) / 5) with v
  | H : context [(153 * ?a + 2) / 5] |- _ =>
      let v := eval vm_compute in ((153 * a + 2) / 5) in change ((153 * a + 2) / 5) with v in H
  | |- context [?a <? 10] =>
      let v := eval vm_compute in (a <? 10) in change (a <? 10) with v; cbv beta iota
  | |- context [?a <=? 2] =>
      let v := eval vm_compute in (a <=? 2) in change (a <=? 2) with v; cbv beta iota
  | |- context [Z.to_nat ?a] =>
      let v := eval vm_compute in (Z.to_nat a) in change (Z.to_nat a) with v
  | |- context [?a + 3] => let v := eval vm_compute in (a + 3) in change (a + 3) with v
  | |- context [?a - 9] => let v := eval vm_compute in (a - 9) in change (a - 9) with v
  end; cbn [days_before_month]; unfold days_in_month;
  repeat match goal with
  | |- context [Z.of_nat ?a =? ?b] =>
      let v := eval vm_compute in (Z.of_nat a =? b) in change (Z.of_nat a =? b) with v
  | |- context [Zpos ?a =? ?b] =>
      let v := eval vm_compute in (Zpos a =? b) in change (Zpos a =? b) with v
  end; cbn [orb].

(** A day of a year that starts in March, as a date. *)
Lemma march_year_date y doy :
  0 ≤ doy < (if leap_year (y + 1) then 366 else 365) →
  let mp := (5 * doy + 2) / 153 in
  let d := doy - (153 * mp + 2) / 5 + 1 in
  let m := if mp <? 10 then mp + 3 else mp - 9 in
  let y' := if m <=? 2 then y + 1 else y in
  1 ≤ m ≤ 12 ∧ 1 ≤ d ≤ days_in_month y' m
  ∧ day_number y' m d = days_before_year (y + 1) + doy - 719468.
Proof.
  intros Hdoy mp. assert (Hlt : 0 ≤ doy < 366) by (destruct (leap_year (y + 1)); lia).
  destruct (month_of_day doy Hlt) as (Hmp & Hlo & Hhi & _). fold mp in Hmp, Hlo, Hhi.
  pose proof (days_before_year_step y) as Hstep. unfold day_number. clearbody mp.
  assert (mp = 0 ∨ mp = 1 ∨ mp = 2 ∨ mp = 3 ∨ mp = 4 ∨ mp = 5 ∨ mp = 6 ∨ mp = 7 ∨ mp = 8
          ∨ mp = 9 ∨ mp = 10 ∨ mp = 11) as Hcases by lia.
  destruct_or! Hcases; subst mp; cbv zeta; eval_month.
  all: destruct (leap_year y), (leap_year (y + 1)); lia.
Qed.

(** The printed date is the day's own: the result of [civil_from_days] is a
    date of the Gregorian calendar - month and day in range, leap years and all
    - and it is the one with that day's number. *)
Theorem civil_from_days_spec z y m d :
  0 ≤ z ≤ u64_max / 86400 → civil_from_days z = (y, m, d) →
  1 ≤ m ≤ 12 ∧ 1 ≤ d ≤ days_in_month y m ∧ day_number y m d = z.
Proof.
  intros Hz. unfold civil_from_days. rewrite (proj2 (Z.leb_le 0 (z + 719468))) by lia.
  rewrite Z.quot_div_nonneg by lia. set (era := (z + 719468) / 146097).
  pose proof (Z.div_mod (z + 719468) 146097 ltac:(done)) as Hdm.
  pose proof (Z.mod_pos_bound (z + 719468) 146097 ltac:(done)) as Hm. fold era in Hdm.
  set (doe := z + 719468 - era * 146097). assert (Hdoe : 0 ≤ doe < 146097) by lia.
  destruct (year_of_era doe Hdoe) as (Hyoe & Hlo & Hhi).
  set (yoe := (doe - doe / 1460 + doe / 36524 - doe / 146096) / 365) in *.
  set (doy := doe - (365 * yoe + yoe / 4 - yoe / 100)) in *.
  pose proof (days_before_year_step (yoe + 1)) as Hstep.
  assert (Hstart : days_before_year (yoe + 1) = 365 * yoe + yoe / 4 - yoe / 100).
  { unfold days_before_year. replace (yoe + 1 - 1) with yoe by lia.
    rewrite (Z.div_small yoe 400) by lia. lia. }
  assert (Hnext : days_before_year (yoe + 1 + 1)
                  = 365 * (yoe + 1) + (yoe + 1) / 4 - (yoe + 1) / 100 + (yoe + 1) / 400)
    by (unfold days_before_year; replace (yoe + 1 + 1 - 1) with (yoe + 1) by lia; lia).
  replace (yoe + era * 400) with (yoe + era * 400) by done.
  pose proof (march_year_date (yoe + era * 400) doy) as Hdate.
  replace (yoe + era * 400 + 1) with (yoe + 1 + era * 400) in Hdate by lia.
  rewrite leap_year_era, days_before_year_era in Hdate.
  destruct Hdate as (H1 & H2 & H3).
  { unfold doy. destruct (leap_year (yoe + 1)); lia. }
  replace (yoe + 1 + era * 400) with (yoe + era * 400 + 1) in H2, H3 by lia.
  intros [= <- <- <-]. split_and!; [apply H1..|apply H2|apply H2|]. etransitivity; [exact H3|].
  unfold doy. lia.
Qed.

Lemma civil_from_days_spec_witness :
  civil_from_days 19782 = (2024, 2, 29) ∧ 1 ≤ 29 ≤ days_in_month 2024 2 ∧ day_number 2024 2 29 = 19782.
Proof.
  split; [reflexivity|].
  destruct (civil_from_days_spec 19782 2024 2 29) as (_ & Hd & Hn);
    [by vm_compute|reflexivity|done].
Defined.

(** ** Properties: revalidation *)

Definition revalidation (key : string) (hs : list (string * string)) : HttpRequest :=
  mk_HttpRequest (DOWNLOAD_PATH_PREFIX +:+ key) hs.

Lemma etag_for_revalidation key hs :
  key ≠ EmptyString → etag_for_request (revalidation key hs) = Some (quoted key).
Proof.
  intros Hkey. unfold etag_for_request, revalidation. cbn [path]. rewrite strip_prefix_app.
  by destruct key.
Qed.

Lemma trim_quoted key :
  trim (quoted key) = quoted key ∧ trim (String " " (quoted key)) = quoted key
  ∧ trim ("W/" +:+ quoted key) = "W/" +:+ quoted key
  ∧ trim (String " " ("W/" +:+ quoted key)) = "W/" +:+ quoted key.
Proof.
  destruct (trim_graphic quote_char (key +:+ String quote_char EmptyString) quote_char
              (String quote_char key)) as [H1 H2]; [done..|].
  destruct (trim_graphic "W" (String "/" (quoted key)) quote_char
              ("W/" +:+ String quote_char key)) as [H3 H4]; [done..|].
  by split_and!.
Qed.

(** The forms in which a client sends a tag back, alone or in a list. *)
Definition sends_back (key candidate : string) : Prop :=
  candidate = quoted key ∨ candidate = String " " (quoted key)
  ∨ candidate = "W/" +:+ quoted key ∨ candidate = String " " ("W/" +:+ quoted key).

Lemma if_none_match_sent_back value key candidate :
  candidate ∈ split_on "," value → sends_back key candidate →
  if_none_match_satisfied value (quoted key) = true.
Proof.
  intros Hin Hform. unfold if_none_match_satisfied. apply List.existsb_exists.
  exists (trim candidate). split; [apply list_elem_of_In, list_elem_of_fmap; by exists candidate|].
  apply orb_true_iff. right. apply String.eqb_eq.
  destruct (trim_quoted key) as (H1 & H2 & H3 & H4).
  destruct Hform as [->|[->|[->| ->]]]; rewrite ?H1, ?H2, ?H3, ?H4; done.
Qed.

Lemma header_insert name n v r :
  header name (insert_header n v r) = if String.eqb n name then Some v else header name r.
Proof.
  unfold header, insert_header. cbn [resp_headers].
  induction (resp_headers r) as [|[n' v'] hs IH]; simpl.
  - by destruct (String.eqb n name).
  - destruct (String.eqb_spec n' n) as [->|Hne]; simpl.
    + rewrite IH. by destruct (String.eqb n name).
    + destruct (String.eqb_spec n' name) as [->|]; [|done].
      destruct (String.eqb_spec n name); [congruence|done].
Qed.

(** C28. A client that was served an image and sends its tag back - alone, in a
    list, weakened - is answered 304 without the image being fetched, with the
    headers the image came with. *)
Theorem revalidation_is_not_modified {St} (next : HttpRequest → St → Response * St)
    key value candidate s s' :
  key ≠ EmptyString → header_value_ok (quoted key) = true →
  resp_status (next (revalidation key []) s).1 = 200 →
  header "cache-control" (next (revalidation key []) s).1 = Some immutable →
  str_forall visible value = true → candidate ∈ split_on "," value → sends_back key candidate →
  let served := (conditional_download_middleware (revalidation key []) next s).1 in
  let again := conditional_download_middleware (revalidation key [("if-none-match", value)]) next s' in
  resp_status again.1 = 304 ∧ resp_body again.1 = EmptyString ∧ again.2 = s'
  ∧ header "etag" served = Some (quoted key)
  ∧ Forall (λ name, header name again.1 = header name served)
      ["etag"; "vary"; "last-modified"; "cache-control"].
Proof.
  intros Hkey Hval Hstatus Hcache Hvis Hin Hform served again.
  assert (Hagain : again = (not_modified_response (quoted key), s')).
  { unfold again, conditional_download_middleware. rewrite etag_for_revalidation by done.
    unfold header_text, revalidation. cbn [request_headers List.find fst snd mbind option_bind].
    change (String.eqb "if-none-match" "if-none-match") with true. cbn [mbind option_bind snd].
    by rewrite Hvis, (if_none_match_sent_back value key candidate Hin Hform). }
  assert (Hserved : served = apply_conditional_headers (quoted key) (next (revalidation key []) s).1).
  { unfold served, conditional_download_middleware. rewrite etag_for_revalidation by done.
    cbn [header_text revalidation request_headers List.find mbind option_bind].
    fold (revalidation key []). destruct (next (revalidation key []) s) as [r ?]. simpl in *.
    by rewrite Hstatus. }
  rewrite Hagain, Hserved. destruct (next (revalidation key []) s) as [r ?].
  unfold apply_conditional_headers, not_modified_response. simpl in Hcache.
  unfold apply_conditional_headers. rewrite Hval. split_and!; [done..|by rewrite !header_insert|].
  repeat constructor; by rewrite !header_insert.
Qed.

Lemma revalidation_is_not_modified_witness :
  let next (r : HttpRequest) (s : nat) := (download_success "k.png" [x01], s) in
  resp_status (conditional_download_middleware
    (revalidation "k.png" [("if-none-match", String quote_char ("x" +:+ String quote_char (", " +:+ quoted "k.png")))])
    next 7%nat).1 = 304.
Proof.
  intros next.
  apply (revalidation_is_not_modified next "k.png" _ (String " " (quoted "k.png")) 3%nat 7%nat).
  - done.
  - reflexivity.
  - reflexivity.
  - reflexivity.
  - reflexivity.
  - right. left.
  - right. by left.
Defined.

(** The tag is the key's, not the image's: [If-None-Match: *] is answered 304
    for a key that holds nothing, and so is the tag of an image that has since
    been deleted. *)
Theorem revalidation_without_image :
  let svc := open_service in
  let handler (r : HttpRequest) :=
    download_handler (H := InMemory.backend) svc 0 (default EmptyString (strip_prefix DOWNLOAD_PATH_PREFIX (path r))) in
  let ask hs := (conditional_download_middleware (revalidation stored_key hs) handler ∅).1 in
  resp_status (ask []) = 404
  ∧ resp_status (ask [("if-none-match", "*")]) = 304
  ∧ resp_status (ask [("if-none-match", quoted stored_key)]) = 304.
Proof. split_and!; vm_compute; reflexivity. Qed.

(** ** Properties: downloads *)

Section Downloads.
Context `{StorageContract E St} (svc : StorageService).
Hypothesis usable_keys : ∀ key, validate_cache_key key (key_prefix svc) = Ok () → usable key.

Lemma download_answer e key s :
  sound s → calm e →
  let out := download_handler svc e key s in
  match validate_cache_key key (key_prefix svc) with
  | Ok _ =>
      match live s (backend_now e) key with
      | Some data =>
          resp_status out.1 = 200 ∧ resp_body out.1 = string_of_list_byte data
          ∧ header "content-type" out.1 = Some (content_type_for_key key)
          ∧ header "cache-control" out.1 = Some immutable
      | None => resp_status out.1 = 404 ∧ header "cache-control" out.1 = Some "no-store"
      end
  | Err _ =>
      resp_status out.1 = 404 ∧ header "cache-control" out.1 = Some "no-store" ∧ out.2 = s
  end.
Proof.
  intros Hs He. unfold download_handler, service_get_image, validated.
  destruct (validate_cache_key key (key_prefix svc)) as [[]|err] eqn:Hv; [|done].
  pose proof (get_answer e key s He Hs (usable_keys key Hv)) as Hans.
  destruct (live s (backend_now e) key) as [data|].
  - destruct (get_image e key s) as [r s']. simpl in Hans. subst r.
    unfold download_success. cbn [fst]. by rewrite !header_insert.
  - destruct (get_image e key s) as [r s']. destruct Hans as (err & Heq & Hcode). simpl in Heq.
    subst r. by split.
Qed.

(** A download is the stored image, named by the type its key says and
    cacheable for good, or an uncacheable 404 - for an expired image, a missing
    one and a key that is none alike; the last without asking the backend. *)
Theorem download_handler_spec e key s :
  sound s → calm e →
  let out := download_handler svc e key s in
  match validate_cache_key key (key_prefix svc) with
  | Ok _ =>
      match live s (backend_now e) key with
      | Some data =>
          resp_status out.1 = 200 ∧ resp_body out.1 = string_of_list_byte data
          ∧ header "content-type" out.1 = Some (content_type_for_key key)
          ∧ header "cache-control" out.1 = Some immutable
      | None => resp_status out.1 = 404 ∧ header "cache-control" out.1 = Some "no-store"
      end
  | Err _ =>
      resp_status out.1 = 404 ∧ header "cache-control" out.1 = Some "no-store" ∧ out.2 = s
  end.
Proof. apply download_answer. Qed.
End Downloads.

Lemma download_handler_spec_witness :
  (download_handler (H := InMemory.backend) open_service 0 "nothing" ∅).1.(resp_status) = 404.
Proof.
  by apply (download_handler_spec (H := mem_contract) open_service (λ _ _, I) 0 "nothing" ∅).
Defined.

(** ** Properties: the concurrency limit *)

(** However requests come, finish and are dropped, no more than the limit are
    past the guard, every permit is accounted for, and a request is turned away
    exactly when the limit is reached - with an uncacheable 503, at once. *)
Theorem guard_bounds_concurrency max g :
  0 ≤ max → guard_reachable max g →
  permits g + running g = max ∧ 0 ≤ running g ≤ max
  ∧ ∀ seen g', guard_step g Enter = Some (seen, g') →
      (running g < max ∧ seen = None ∧ running g' = running g + 1)
      ∨ (running g = max ∧ g' = g ∧ ∃ r, seen = Some r ∧ resp_status r = 503
           ∧ header "cache-control" r = Some "no-store").
Proof.
  intros Hmax Hreach.
  assert (Hinv : permits g + running g = max ∧ 0 ≤ running g ∧ 0 ≤ permits g).
  { induction Hreach as [|g ev seen g' _ (IH1 & IH2 & IH3) Hstep]; [simpl; lia|].
    destruct ev; simpl in Hstep;
      [destruct (Z.ltb_spec 0 (permits g))|destruct (Z.ltb_spec 0 (running g))
      |destruct (Z.ltb_spec 0 (running g))]; simplify_eq; simpl; lia. }
  split_and!; [lia|lia|lia|]. intros seen g'. simpl.
  destruct (Z.ltb_spec 0 (permits g)); intros [= <- <-]; [left|right].
  - split_and!; [lia|done|done].
  - split_and!; [lia|done|]. by eexists.
Qed.

Lemma guard_bounds_concurrency_witness :
  0 ≤ running (mk_Guard 0 1) ≤ 1.
Proof.
  apply (guard_bounds_concurrency 1 (mk_Guard 0 1)); [lia|].
  apply (guard_next 1 (mk_Guard 1 0) Enter None); [constructor|reflexivity].
Defined.

(** A zero, like anything that is not a number, leaves the default: no variable
    can switch the limits off. *)
Theorem middleware_config_positive t r b p :
  let c := middleware_config_from_env t r b p in
  0 < request_timeout c ∧ 0 < max_concurrent_requests c ∧ 0 < rate_limit_burst c
  ∧ 0 < rate_limit_period c.
Proof.
  assert (Hpos : ∀ max v n, env_positive max v = Some n → 0 < n).
  { intros max v n. unfold env_positive. destruct v as [v|]; [|done]. simpl.
    destruct (parse_uint max v) as [k|] eqn:Hk; [|done]. apply parse_uint_range in Hk as [? _].
    simpl. destruct (Z.eqb_spec k 0); [done|]. intros [= <-]. lia. }
  unfold middleware_config_from_env. cbn [request_timeout max_concurrent_requests rate_limit_burst
    rate_limit_period middleware_config_default].
  unfold second. split_and!; destruct (env_positive _ _) as [n|] eqn:Hn; simpl;
    try (apply Hpos in Hn; lia); lia.
Qed.
