(* ===== verification/Fetch.v ===== *)
(** * Fetching sources: [fetch_validated], [download_image], [process_image] and
    [download_watermark_if_needed] of [src/services/image/handler.rs]

The network is an environment: what name resolution, the connection and the
[reqwest] client answer, request by request, so that two lookups of one name
may differ.  Next to its result every function gives the connections it made,
in order.  A permit of the download semaphore is waited for and always comes;
the functions start where it has been granted. *)
From S2P Require Import Prelude RustStr SourceGuard RustFloat Params CacheKey KeyValidation Errors Performance.

Local Open Scope Z_scope.

(** The client [build_pinned_client] makes: it follows no redirect and
    connects to one address only. *)
Record PinnedClient := mk_PinnedClient {
  client_timeout : Z;
  client_tcp_keepalive : Z;
  client_host : string;
  client_addr : SocketAddr;
}.

(** The head of a response and its body, chunk by chunk; a chunk is [None]
    where the stream breaks.  [source_reason] is what the [http] crate prints
    after the code of its status. *)
Record SourceResponse := mk_SourceResponse {
  source_status : Z;
  source_reason : string;
  source_location : option string;
  source_content_length : option Z;
  source_body : list (option (list byte));
}.

Definition is_redirection (status : Z) : bool := (300 <=? status) && (status <? 400).
Definition is_success (status : Z) : bool := (200 <=? status) && (status <? 300).

(** [HeaderValue::to_str]: visible ASCII and tabs. *)
Definition header_to_str (value : string) : option string :=
  if str_forall (λ a, ((32 <=? code a) && (code a <? 127)) || (code a =? 9)) value
  then Some value else None.

(** An operation of the guard, as an [anyhow::Error]. *)
Definition source_error (e : SourceError) : AnyhowError :=
  match e with
  | Rejected r => ESource r
  | DnsResolutionFailed host => EMessage ("DNS resolution failed for host '" +:+ host +:+ "'")
  end.

(** [.context(msg)] on a result. *)
Definition context {A} (msg : string) : result AnyhowError A → result AnyhowError A :=
  map_err (EContext msg).

(** What [process_image] fails with on its own account. *)
Definition no_permit (config : PerformanceConfig) : AnyhowError :=
  EMessage ("No processing permit available: " +:+ uint_to_string (max_concurrent_processing config)
              +:+ " concurrent image processing jobs already running").

Definition cancelled : AnyhowError := EMessage "Image processing task was cancelled".

Section Fetch.
Context (v4net_contains v6net_contains : Z * Z → Z → bool).
Context {Url : Type} (url_parse : string → option Url) (url_join : Url → string → option Url)
  (url_scheme : Url → string) (url_host_str : Url → option string)
  (url_port_or_known_default : Url → option Z) (url_path : Url → string)
  (url_to_string : Url → string).

(** What the world answers to the [n]-th request of one fetch. *)
Record Network := mk_Network {
  lookup_host : nat → string → Z → option (list SocketAddr);
  client_builds : nat → string → SocketAddr → bool;
  send : nat → PinnedClient → Url → option SourceResponse;
}.

Definition Connection : Type := PinnedClient * Url.

Section Service.
Context (config : PerformanceConfig) (net : Network).

Definition build_pinned_client (n : nat) (host : string) (addr : SocketAddr)
  : result AnyhowError PinnedClient :=
  if client_builds net n host addr
  then Ok (mk_PinnedClient (http_timeout config) (keep_alive_timeout config) host addr)
  else Err (EMessage "Failed to build validated HTTP client").

(** [source_matches_allowlist], or the refusal. *)
Definition source_matches_allowlist (current : Url) : result AnyhowError bool :=
  match allowed_sources config with
  | Some ((_ :: _) as allowed) =>
      if negb (is_allowed_source url_parse url_scheme url_host_str url_port_or_known_default
                 url_path current allowed)
      then Err (ESource (NotAllowlisted (url_to_string current)))
      else Ok true
  | _ => Ok false
  end.

(** The checks of one iteration, up to the client its request goes through. *)
Definition validated_client (n : nat) (current : Url) : result AnyhowError PinnedClient :=
  _ ← map_err ESource (validate_scheme url_scheme current);
  matches ← source_matches_allowlist current;
  host ← ok_or (url_host_str current)
    (EMessage ("Source URL '" +:+ url_to_string current +:+ "' has no host"));
  port ← ok_or (url_port_or_known_default current)
    (EMessage ("Unable to determine port for source URL '" +:+ url_to_string current +:+ "'"));
  addr ← map_err source_error
    (resolve_validated_addr v4net_contains v6net_contains (lookup_host net n) host port
       (allow_loopback_source_addresses config) (allow_link_local_source_addresses config) matches);
  build_pinned_client n host addr.

(** Where a redirect leads. *)
Definition redirect_target (current : Url) (response : SourceResponse) : result AnyhowError Url :=
  value ← ok_or (source_location response)
    (EMessage ("Redirect response from '" +:+ url_to_string current +:+ "' has no Location header"));
  location ← ok_or (header_to_str value) (EMessage "Redirect Location header is not valid UTF-8");
  ok_or (url_join current location)
    (EMessage ("Failed to resolve redirect location '" +:+ location +:+ "'")).

(** The [for] loop, the [n]-th request next. *)
Fixpoint fetch_loop (budget n : nat) (current : Url)
  : result AnyhowError SourceResponse * list Connection :=
  match budget with
  | O =>
      (Err (EMessage ("Too many redirects while fetching source image (max "
                        +:+ uint_to_string (max_redirects config) +:+ ")")), [])
  | S budget' =>
      match validated_client n current with
      | Err e => (Err e, [])
      | Ok client =>
          match send net n client current with
          | None =>
              (Err (EMessage ("Request to source URL '" +:+ url_to_string current +:+ "' failed")),
               [(client, current)])
          | Some response =>
              if is_redirection (source_status response) then
                match redirect_target current response with
                | Err e => (Err e, [(client, current)])
                | Ok next =>
                    let (r, more) := fetch_loop budget' (S n) next in (r, (client, current) :: more)
                end
              else (Ok response, [(client, current)])
          end
      end
  end.

Definition fetch_validated (url : string) : result AnyhowError SourceResponse * list Connection :=
  match url_parse url with
  | None => (Err (EMessage "Invalid source URL"), [])
  | Some current => fetch_loop (S (Z.to_nat (max_redirects config))) 0 current
  end.

(** The [while let] loop over the body; [total_len] is a [u64]. *)
Fixpoint stream_body (url : string) (total_len : Z) (buffer : list byte)
    (chunks : list (option (list byte))) : result AnyhowError (list byte) :=
  match chunks with
  | [] => Ok buffer
  | None :: _ => Err (EMessage "Error while streaming image body")
  | Some chunk :: rest =>
      let total_len := (total_len + Z.of_nat (length chunk)) mod 2 ^ 64 in
      if max_image_size config <? total_len
      then Err (EMessage ("Image too large: exceeded " +:+ uint_to_string (max_image_size config)
                            +:+ " bytes while streaming from " +:+ url))
      else stream_body url total_len (buffer ++ chunk) rest
  end.

(** What [download_image] makes of the response. *)
Definition receive_image (url : string) (response : SourceResponse)
  : result AnyhowError (list byte) :=
  if negb (is_success (source_status response)) then
    Err (EMessage ("Failed to download image from " +:+ url +:+ ": status "
                     +:+ uint_to_string (source_status response) +:+ " " +:+ source_reason response))
  else
    match source_content_length response with
    | Some content_length =>
        if max_image_size config <? content_length
        then Err (EMessage ("Image too large: " +:+ uint_to_string content_length +:+ " bytes (max: "
                              +:+ uint_to_string (max_image_size config) +:+ " bytes)"))
        else stream_body url 0 [] (source_body response)
    | None => stream_body url 0 [] (source_body response)
    end.

Definition download_image (url : string) : result AnyhowError (list byte) * list Connection :=
  let (r, connections) := fetch_validated url in
  (r ≫= receive_image url, connections).

Definition download_watermark_if_needed (params : ResizeQuery)
  : result AnyhowError (option (list byte)) * list Connection :=
  match rq_watermark params with
  | None => (Ok None, [])
  | Some watermark =>
      match (match wm_url watermark with Some url => Some url | None => watermark_url config end) with
      | None =>
          (Err (EMessage
                  "watermark requested (wm:) but no watermark image is available - set WATERMARK_URL or pass wmu:{base64url} in the request"),
           [])
      | Some url =>
          let (r, connections) := download_image url in
          (Some <$> context "Failed to download watermark image" r, connections)
      end
  end.

(** [process_image_blocking_with_limits_and_watermark], or [None] where it
    panics and takes its end of the channel with it. *)
Context (process_blocking :
  list byte → ResizeQuery → option (list byte) → option (result AnyhowError (list byte * string))).

(** [permits] are left in the processing semaphore; the caller does not
    disconnect. *)
Definition process_image (permits : Z) (image_bytes : list byte) (params : ResizeQuery)
  : result AnyhowError (list byte * string) * list Connection :=
  match download_watermark_if_needed params with
  | (Err e, connections) => (Err e, connections)
  | (Ok watermark_bytes, connections) =>
      if permits <=? 0 then (Err (no_permit config), connections)
      else
        (match process_blocking image_bytes params watermark_bytes with
         | Some r => r
         | None => Err cancelled
         end, connections)
  end.
End Service.
End Fetch.

(** ** Properties *)

Section Properties.
Context (v4net_contains v6net_contains : Z * Z → Z → bool).
Context {Url : Type} (url_parse : string → option Url) (url_join : Url → string → option Url)
  (url_scheme : Url → string) (url_host_str : Url → option string)
  (url_port_or_known_default : Url → option Z) (url_path : Url → string)
  (url_to_string : Url → string).
Context (config : PerformanceConfig) (net : Network (Url := Url)).
Hypothesis v4net_contains_spec : ∀ net len ip,
  in_uint u32_max ip → v4net_contains (net, len) ip = (ip / 2 ^ (32 - len) =? net / 2 ^ (32 - len)).
Hypothesis v6net_contains_spec : ∀ net len ip,
  in_uint u128_max ip →
  v6net_contains (net, len) ip = (ip / 2 ^ (128 - len) =? net / 2 ^ (128 - len)).

Abbreviation listed :=
  (is_allowed_source url_parse url_scheme url_host_str url_port_or_known_default url_path).
Abbreviation validated_at :=
  (validated_client v4net_contains v6net_contains url_parse url_scheme url_host_str
     url_port_or_known_default url_path url_to_string config net).
Abbreviation fetch :=
  (fetch_loop v4net_contains v6net_contains url_parse url_join url_scheme url_host_str
     url_port_or_known_default url_path url_to_string config net).
Abbreviation download :=
  (download_image v4net_contains v6net_contains url_parse url_join url_scheme url_host_str
     url_port_or_known_default url_path url_to_string config net).
Abbreviation process :=
  (process_image v4net_contains v6net_contains url_parse url_join url_scheme url_host_str
     url_port_or_known_default url_path url_to_string config net).

(** The operator's list, when there is one. *)
Definition allowlist : list string := default [] (allowed_sources config).

(** A connection the policy stands for: made for this very URL, to an address
    of a class that is open to it. *)
Record guarded (c : Connection (Url := Url)) : Prop := {
  guarded_scheme : url_scheme c.2 = "http" ∨ url_scheme c.2 = "https";
  guarded_host : url_host_str c.2 = Some (client_host c.1);
  guarded_source : allowlist ≠ [] → listed c.2 allowlist = true;
  guarded_addr : ip_valid (sa_ip (client_addr c.1)) →
    class_blocked (ip_class (sa_ip (client_addr c.1))) (allow_loopback_source_addresses config)
      (allow_link_local_source_addresses config) (negb (bool_decide (allowlist = []))) = false;
}.

Lemma validated_guarded n current client :
  validated_at n current = Ok client → guarded (client, current).
Proof.
  unfold validated_client. intros H. invert_ok.
  unfold validate_scheme in H.
  destruct (String.eqb _ _ || String.eqb _ _) eqn:Hs in H; [clear H|done].
  apply orb_true_iff in Hs. rewrite !String.eqb_eq in Hs.
  unfold build_pinned_client in H4. destruct (client_builds _ _ _ _); [|done].
  injection H4 as <-. apply resolve_validated_unblocked in H3.
  assert (Hallowed : x0 = negb (bool_decide (allowlist = []))
                     ∧ (allowlist ≠ [] → listed current allowlist = true)).
  { unfold source_matches_allowlist in H0. unfold allowlist.
    destruct (allowed_sources config) as [[|a l]|]; unfold default, id;
      [by injection H0 as <-; rewrite bool_decide_true| |by injection H0 as <-; rewrite bool_decide_true].
    destruct (listed current (a :: l)) eqn:Ha; [|done].
    injection H0 as <-. by rewrite bool_decide_false. }
  destruct Hallowed as [-> Hsource]. constructor; [done|done|done|].
  cbn [fst client_addr]. intros Hip. rewrite <- H3. symmetry.
  destruct (sa_ip x3); [by apply is_blocked_ipv4_class|by apply is_blocked_ipv6_class].
Qed.

Lemma fetch_guarded budget n current :
  Forall guarded (fetch budget n current).2 ∧ (length (fetch budget n current).2 ≤ budget)%nat.
Proof.
  revert n current. induction budget as [|budget IH]; intros n current; [by split|].
  cbn [fetch_loop]. destruct (validated_at n current) as [client|e] eqn:Hc;
    [apply validated_guarded in Hc|split; [constructor|cbn; lia]].
  assert (Hone : Forall guarded [(client, current)]
                 ∧ (length [(client, current)] ≤ S budget)%nat) by (split; [by apply Forall_singleton|cbn; lia]).
  destruct (send net n client current) as [response|]; [|done].
  destruct (is_redirection _); [|done]. destruct (redirect_target _ _ _ _) as [next|e]; [|done].
  specialize (IH (S n) next). destruct (fetch budget (S n) next) as [r more].
  destruct IH as [IHg IHl]. split; [by constructor|cbn in *; lia].
Qed.

Lemma download_guarded url :
  Forall guarded (download url).2 ∧ (length (download url).2 ≤ S (Z.to_nat (max_redirects config)))%nat.
Proof.
  unfold download_image, fetch_validated. destruct (url_parse url) as [current|];
    [|split; [constructor|cbn; lia]].
  pose proof (fetch_guarded (S (Z.to_nat (max_redirects config))) 0 current) as H.
  by destruct (fetch_loop _ _ _ _ _ _ _ _ _ _ _ (S _) 0 current).
Qed.

(** C13. Every connection made for an image or for its watermark, on every redirect
    hop, goes over HTTP or HTTPS to the host the URL of that hop names, to an
    address no class rule blocks - private ones are open only to a URL that is
    itself on the allowlist - and no fetch makes more than one connection more
    than the redirects it may follow. *)
Theorem connections_guarded url process_blocking permits bytes params :
  let watermarked := process process_blocking permits bytes params in
  Forall guarded ((download url).2 ++ watermarked.2)
  ∧ (length (download url).2 ≤ S (Z.to_nat (max_redirects config)))%nat
  ∧ (length watermarked.2 ≤ S (Z.to_nat (max_redirects config)))%nat.
Proof.
  destruct (download_guarded url) as [Hg Hl]. cbv zeta. rewrite Forall_app.
  enough (Forall guarded (process process_blocking permits bytes params).2
          ∧ (length (process process_blocking permits bytes params).2
             ≤ S (Z.to_nat (max_redirects config)))%nat) by tauto.
  unfold process_image, download_watermark_if_needed.
  assert (Hnil : Forall guarded [] ∧ (length (A := Connection (Url := Url)) []
                   ≤ S (Z.to_nat (max_redirects config)))%nat) by (split; [constructor|cbn; lia]).
  destruct (rq_watermark params) as [watermark|]; [|by case_match].
  destruct (match wm_url watermark with Some _ => _ | None => _ end) as [wurl|]; [|done].
  pose proof (download_guarded wurl) as H. destruct (download wurl) as [[]]; cbn; [|done].
  by case_match.
Qed.

(** ** The size cap *)

Hypothesis cap_small : 0 ≤ max_image_size config < 2 ^ 63.

Definition too_large (url : string) : AnyhowError :=
  EMessage ("Image too large: exceeded " +:+ uint_to_string (max_image_size config)
              +:+ " bytes while streaming from " +:+ url).

(** A chunk fits in memory. *)
Definition in_memory (piece : list byte) : Prop := Z.of_nat (length piece) < 2 ^ 63.

Lemma stream_body_within url buffer pieces rest :
  Forall in_memory pieces → Z.of_nat (length (buffer ++ concat pieces)) ≤ max_image_size config →
  stream_body config url (Z.of_nat (length buffer)) buffer ((Some <$> pieces) ++ rest) =
  stream_body config url (Z.of_nat (length (buffer ++ concat pieces))) (buffer ++ concat pieces) rest.
Proof.
  intros Hp. revert buffer. induction Hp as [|piece pieces Hpiece Hp IH]; intros buffer Hlen; simpl concat;
    [by rewrite app_nil_r|].
  cbn [fmap list_fmap app stream_body concat]. cbn [concat] in Hlen. unfold in_memory in Hpiece.
  rewrite !length_app, !Nat2Z.inj_add in Hlen.
  rewrite Z.mod_small by lia. rewrite (proj2 (Z.ltb_ge _ _)) by lia.
  rewrite <- Nat2Z.inj_add, <- length_app, IH by (rewrite !length_app; lia). by rewrite <- !app_assoc.
Qed.

Lemma stream_body_chunk url buffer piece rest :
  in_memory piece → Z.of_nat (length buffer) ≤ max_image_size config →
  max_image_size config < Z.of_nat (length (buffer ++ piece)) →
  stream_body config url (Z.of_nat (length buffer)) buffer (Some piece :: rest) = Err (too_large url).
Proof.
  unfold in_memory. rewrite length_app, Nat2Z.inj_add. intros Hpiece Hbuf Hover.
  cbn [stream_body]. rewrite Z.mod_small by lia. by rewrite (proj2 (Z.ltb_lt _ _)) by lia.
Qed.

Lemma stream_body_over url buffer pieces rest :
  Forall in_memory pieces → Z.of_nat (length buffer) ≤ max_image_size config →
  max_image_size config < Z.of_nat (length (buffer ++ concat pieces)) →
  stream_body config url (Z.of_nat (length buffer)) buffer ((Some <$> pieces) ++ rest)
  = Err (too_large url).
Proof.
  intros Hp. revert buffer. induction Hp as [|piece pieces Hpiece Hp IH]; intros buffer Hbuf;
    cbn [concat]; [rewrite app_nil_r; lia|]. rewrite app_assoc. intros Hover.
  cbn [fmap list_fmap app].
  destruct (Z.le_gt_cases (Z.of_nat (length (buffer ++ piece))) (max_image_size config)) as [Hle|Hgt];
    [|by apply stream_body_chunk].
  change (Some piece :: (Some <$> pieces) ++ rest) with ((Some <$> [piece]) ++ (Some <$> pieces) ++ rest).
  rewrite stream_body_within; cbn [concat]; rewrite ?app_nil_r;
    [by apply IH|by apply Forall_singleton|done].
Qed.

(** The head of a response settles whether its body is read at all. *)
Lemma receive_head url status reason location announced :
  let response body := mk_SourceResponse status reason location announced body in
  let accepted := is_success status = true ∧ (∀ n, announced = Some n → n ≤ max_image_size config) in
  (accepted ∧ ∀ body, receive_image config url (response body) = stream_body config url 0 [] body)
  ∨ (¬ accepted ∧ ∃ e, ∀ body, receive_image config url (response body) = Err e).
Proof.
  intros response accepted. unfold response, receive_image. cbn [source_status source_reason source_content_length source_body].
  destruct (is_success status) eqn:Hs; cbn [negb].
  2: { right. split; [intros [? _]; congruence|by eexists]. }
  destruct announced as [n|]; [|by left].
  destruct (Z.ltb_spec (max_image_size config) n).
  - right. split; [|by eexists]. intros [_ Hn]. specialize (Hn n eq_refl). lia.
  - left. split; [|done]. split; [done|]. by intros ? [= <-].
Qed.

(** C33. The cap holds on what was received, not on what was announced: a body is
    accepted exactly when the response is a success whose announced length, if
    any, and whose actual length are within it; once a body has exceeded it the
    answer is fixed, and whatever more the origin would send is not read. *)
Theorem download_size_capped url status reason location announced pieces :
  Forall in_memory pieces →
  let response body := mk_SourceResponse status reason location announced body in
  (∀ bytes, receive_image config url (response (Some <$> pieces)) = Ok bytes ↔
     is_success status = true ∧ (∀ n, announced = Some n → n ≤ max_image_size config)
     ∧ Z.of_nat (length (concat pieces)) ≤ max_image_size config ∧ bytes = concat pieces)
  ∧ (max_image_size config < Z.of_nat (length (concat pieces)) →
     ∃ e, ∀ rest, receive_image config url (response ((Some <$> pieces) ++ rest)) = Err e)
  ∧ (∀ rest bytes,
       receive_image config url (response ((Some <$> pieces) ++ None :: rest)) ≠ Ok bytes).
Proof.
  intros Hp response.
  assert (Hbody : ∀ rest,
    stream_body config url 0 [] ((Some <$> pieces) ++ rest) =
    if max_image_size config <? Z.of_nat (length (concat pieces)) then Err (too_large url)
    else stream_body config url (Z.of_nat (length (concat pieces))) (concat pieces) rest).
  { intros rest. destruct (Z.ltb_spec (max_image_size config) (Z.of_nat (length (concat pieces)))).
    - apply (stream_body_over url [] pieces rest); [done|cbn; lia|done].
    - by apply (stream_body_within url [] pieces rest). }
  destruct (receive_head url status reason location announced) as [[[Hs Ha] Hhead]|[Hno [e Hhead]]];
    fold response in Hhead.
  - split_and!.
    + intros bytes. rewrite Hhead, <- (app_nil_r (Some <$> pieces)), Hbody.
      destruct (Z.ltb_spec (max_image_size config) (Z.of_nat (length (concat pieces)))) as [Hl|Hl];
        cbn [stream_body]; [by split; [|intros (_ & _ & ? & _); lia]|].
      split; [by intros [= <-]|by intros (_ & _ & _ & ->)].
    + intros Hl. exists (too_large url). intros rest. rewrite Hhead, Hbody.
      by rewrite (proj2 (Z.ltb_lt _ _) Hl).
    + intros rest bytes. rewrite Hhead, Hbody. by case_match.
  - split_and!; [|intros _; by exists e|by intros rest bytes; rewrite Hhead].
    intros bytes. rewrite Hhead. split; [done|]. intros (? & ? & _). by destruct Hno.
Qed.

Lemma stream_body_capped url buffer chunks bytes :
  (∀ piece, Some piece ∈ chunks → in_memory piece) →
  Z.of_nat (length buffer) ≤ max_image_size config →
  stream_body config url (Z.of_nat (length buffer)) buffer chunks = Ok bytes →
  Z.of_nat (length bytes) ≤ max_image_size config.
Proof.
  revert buffer. induction chunks as [|[piece|] chunks IH]; intros buffer Hc Hbuf; cbn [stream_body];
    [by intros [= <-]| |done].
  pose proof (Hc piece ltac:(left)) as Hp. unfold in_memory in Hp. rewrite Z.mod_small by lia.
  destruct (Z.ltb_spec (max_image_size config) (Z.of_nat (length buffer) + Z.of_nat (length piece))); [done|].
  rewrite <- Nat2Z.inj_add, <- length_app. apply IH; [|rewrite length_app; lia].
  intros p Hin. apply Hc. by right.
Qed.

(** No downloaded image exceeds the cap, whatever the network does. *)
Lemma download_image_capped url bytes :
  (∀ n client current response piece, send net n client current = Some response →
     Some piece ∈ source_body response → in_memory piece) →
  (download url).1 = Ok bytes → Z.of_nat (length bytes) ≤ max_image_size config.
Proof.
  intros Hmem. unfold download_image.
  assert (Hsent : ∀ budget n current response, (fetch budget n current).1 = Ok response →
            ∀ piece, Some piece ∈ source_body response → in_memory piece).
  { induction budget as [|budget IH]; intros n current response; cbn [fetch_loop]; [done|].
    destruct (validated_at n current) as [client|]; [|done].
    destruct (send net n client current) as [answer|] eqn:Hsend; [|done].
    destruct (is_redirection _); [|intros [= <-] piece; by eapply Hmem].
    destruct (redirect_target _ _ _ _) as [next|]; [|done].
    specialize (IH (S n) next response). by destruct (fetch budget (S n) next). }
  unfold fetch_validated. destruct (url_parse url) as [current|]; [|done].
  pose proof (Hsent (S (Z.to_nat (max_redirects config))) 0%nat current) as Hs.
  destruct (fetch _ 0%nat current) as [[[status reason location announced body]|] connections]; [|done].
  cbn [fst mbind result_bind]. specialize (Hs _ eq_refl). cbn [source_body] in Hs.
  destruct (receive_head url status reason location announced) as [[_ Hhead]|[_ [e Hhead]]]; rewrite Hhead; [|done].
  apply (stream_body_capped url []); [done|cbn; lia].
Qed.
End Properties.

(** The status of a failed fetch depends on the text of the URL it names: an
    origin that fails is an upstream failure, the caller's mistake or overload
    as the file name goes.  And it depends on the reason of the status: an
    origin that refuses the request for its own sake with 413 is taken for an
    image that exceeds the cap. *)
Theorem url_text_decides_status config :
  let failing := mk_SourceResponse 500 "Internal Server Error" None None [] in
  let refusing := mk_SourceResponse 413 "Payload Too Large" None None [] in
  let status response url :=
    match receive_image config url response with
    | Ok _ => 200
    | Err e => status_code (classify_resize_error e)
    end in
  status failing "http://origin/photo.png" = 502
  ∧ status failing "http://origin/decoder.png" = 400
  ∧ status failing "http://origin/permit.png" = 503
  ∧ status refusing "http://origin/photo.png" = 400.
Proof. by split_and!. Qed.

(** An oversized source is the caller's mistake, an oversized watermark is
    blamed on an upstream: the context hides what the classifier looks for. *)
Theorem watermark_context_hides_cause url n :
  let oversized := Err (A := list byte) (EMessage ("Image too large: exceeded " +:+ n +:+ url)) in
  let status (r : result AnyhowError (list byte)) :=
    match r with Ok _ => 200 | Err e => status_code (classify_resize_error e) end in
  status oversized = 400 ∧ status (context "Failed to download watermark image" oversized) = 502.
Proof. by split. Qed.

(** ** Instances: an origin that redirects to the metadata service *)

Definition metadata_redirect : Network (Url := string) :=
  mk_Network (λ _ _ _, None) (λ _ _ _, true)
    (λ _ _ _, Some (mk_SourceResponse 302 "Found" (Some "169.254.169.254") None [])).

(** URLs that are their own host. *)
Definition example_download : string → result AnyhowError (list byte) * list (Connection (Url := string)) :=
  download_image (cidr_contains 32) (cidr_contains 128) Some (λ _, Some) (λ _, "http") Some
    (λ _, Some 80) (λ _, "/") (λ u, u) (performance_default 4) metadata_redirect.

Lemma connections_guarded_witness :
  let fetched := example_download "93.184.216.34" in
  fetched.1 = Err (ESource (BlockedIpLiteral "169.254.169.254" (V4 2852039166)))
  ∧ length fetched.2 = 1%nat
  ∧ Forall (guarded Some (λ _, "http") Some (λ _, Some 80) (λ _, "/") (performance_default 4)) fetched.2.
Proof.
  split; [reflexivity|]. split; [reflexivity|].
  pose proof (connections_guarded (cidr_contains 32) (cidr_contains 128) Some (λ _, Some) (λ _, "http")
    Some (λ _, Some 80) (λ _, "/") (λ u, u) (performance_default 4) metadata_redirect
    (λ _ _ _ _, eq_refl) (λ _ _ _ _, eq_refl) "93.184.216.34" (λ _ _ _, None) 0 [] resize_query_default) as H.
  cbv zeta in H. destruct H as [H _]. apply Forall_app in H. exact (proj1 H).
Defined.

Lemma download_size_capped_witness :
  receive_image (performance_default 4) "u" (mk_SourceResponse 200 "OK" None None [Some [x01]; Some [x02]])
  = Ok [x01; x02].
Proof.
  assert (Hcap : 0 ≤ max_image_size (performance_default 4) < 2 ^ 63)
    by (split; [vm_compute; discriminate|reflexivity]).
  destruct (download_size_capped (performance_default 4) Hcap "u" 200 "OK" None None [[x01]; [x02]])
    as [H _]; [by repeat constructor|].
  apply H. split_and!; [reflexivity|by intros ? [=]|vm_compute; discriminate|reflexivity].
Defined.
