(* ===== verification/Encoding.v ===== *)
(** * Encoding: byte-level routines of [src/services/image/handler.rs]

The search for a JPEG quality that meets a byte budget
([encode_with_max_bytes]) and the patch that makes a kept EXIF block say
"upright" ([neutralize_exif_orientation]).  An encoder is a parameter: a
function from a quality to bytes or an error. *)
From S2P Require Import Prelude RustStr SourceGuard RustFloat Params CacheKey KeyValidation Errors.

Local Open Scope Z_scope.

Definition len (bs : list byte) : Z := Z.of_nat (length bs).

(** ** [encode_with_max_bytes]

Next to the result, the qualities that were encoded, in order. *)
Section MaxBytes.
Context {E : Type} (max_bytes : Z) (encode_at : Z → result E (list byte)).

Definition MAX_BYTES_SEARCH_ATTEMPTS : nat := 6.

(** The [for] loop, its [break]s included. *)
Fixpoint quality_search (attempts : nat) (low high : Z) (best : list byte)
  : result E (list byte) * list Z :=
  match attempts with
  | O => (Ok best, [])
  | S attempts' =>
      if high <? low then (Ok best, [])
      else
        let mid := low + (high - low) / 2 in
        match encode_at mid with
        | Err e => (Err e, [mid])
        | Ok candidate =>
            if len candidate <=? max_bytes then
              if mid =? u8_max then (Ok candidate, [mid])
              else let (r, tried) := quality_search attempts' (mid + 1) high candidate in (r, mid :: tried)
            else
              let best :=
                if (max_bytes <? len best) && (len candidate <? len best) then candidate else best in
              if mid =? 0 then (Ok best, [mid])
              else let (r, tried) := quality_search attempts' low (mid - 1) best in (r, mid :: tried)
        end
  end.

Definition encode_with_max_bytes (initial_quality : Z) : result E (list byte) * list Z :=
  match encode_at initial_quality with
  | Err e => (Err e, [initial_quality])
  | Ok first =>
      if (len first <=? max_bytes) || (initial_quality <=? 1) then (Ok first, [initial_quality])
      else
        let (r, tried) := quality_search MAX_BYTES_SEARCH_ATTEMPTS 1 (initial_quality - 1) first in
        (r, initial_quality :: tried)
  end.
End MaxBytes.

(** *** Properties *)

Section MaxBytesProperties.
Context {E : Type} (max_bytes : Z) (encode_at : Z → result E (list byte)) (enc : Z → list byte).
Abbreviation fits k := (len (enc k) ≤ max_bytes).
Abbreviation search := (quality_search max_bytes encode_at).

Lemma search_tried attempts low high best :
  (length (search attempts low high best).2 ≤ attempts)%nat.
Proof.
  revert low high best. induction attempts as [|n IH]; intros low high best; cbn [quality_search]; [done|].
  destruct (high <? low); [cbn; lia|]. destruct (encode_at _) as [candidate|]; [|cbn; lia].
  destruct (len candidate <=? max_bytes); destruct (_ =? _); try (cbn; lia);
    match goal with |- context [quality_search _ _ n ?l ?h ?b] =>
      specialize (IH l h b); destruct (quality_search max_bytes encode_at n l h b); cbn in *; lia end.
Qed.

Context (q : Z).
Hypothesis encodes : ∀ k, 1 ≤ k ≤ q → encode_at k = Ok (enc k).
Hypothesis grows : ∀ j k, 1 ≤ j → j ≤ k → k ≤ q → len (enc j) ≤ len (enc k).

(** Something has fit: below [low] everything does, above [high] nothing. *)
Lemma search_fitting attempts low high :
  1 < low → low - 1 ≤ high → high ≤ q → high ≤ u8_max → high - low + 1 < 2 ^ (Z.of_nat attempts + 1) →
  fits (low - 1) → (∀ k, high < k ≤ q → ¬ fits k) →
  ∃ b, (search attempts low high (enc (low - 1))).1 = Ok (enc b)
       ∧ 1 ≤ b ≤ q ∧ fits b ∧ ∀ k, b + 1 < k ≤ q → ¬ fits k.
Proof.
  revert low high. induction attempts as [|n IH]; intros low high Hlow Hhigh Hq Hu8 Hsize Hfit Habove.
  { change (2 ^ (Z.of_nat 0 + 1)) with 2 in Hsize. exists (low - 1). split_and!; [done|lia|lia|done|].
    intros k Hk. apply Habove. lia. }
  cbn [quality_search]. destruct (Z.ltb_spec high low) as [Hdone|Hgo].
  { exists (low - 1). split_and!; [done|lia|lia|done|]. intros k Hk. apply Habove. lia. }
  replace (2 ^ (Z.of_nat (S n) + 1)) with (2 * 2 ^ (Z.of_nat n + 1)) in Hsize
    by (rewrite Nat2Z.inj_succ, <- Z.pow_succ_r by lia; f_equal; lia).
  set (mid := low + (high - low) / 2).
  pose proof (Z.div_mod (high - low) 2 ltac:(lia)). pose proof (Z.mod_pos_bound (high - low) 2 ltac:(lia)).
  rewrite encodes by lia. destruct (Z.leb_spec (len (enc mid)) max_bytes) as [Hm|Hm].
  - destruct (Z.eqb_spec mid u8_max) as [He|He].
    + exists mid. split_and!; [done|lia|lia|done|]. intros k Hk. apply Habove. lia.
    + destruct (IH (mid + 1) high) as (b & Hb & Hrest); try lia; try done.
      { by replace (mid + 1 - 1) with mid by lia. }
      exists b. replace (mid + 1 - 1) with mid in Hb by lia.
      destruct (search n (mid + 1) high (enc mid)). by split.
  - rewrite (proj2 (Z.ltb_ge _ _) Hfit), (proj2 (Z.eqb_neq _ _)) by lia. cbn [andb].
    destruct (IH low (mid - 1)) as (b & Hb & Hrest); try lia; try done.
    { intros k Hk. specialize (grows mid k). lia. }
    exists b. destruct (search n low (mid - 1) (enc (low - 1))). by split.
Qed.

(** Nothing has: the best so far is as small as the last encoding tried. *)
Lemma search_failing attempts high best :
  0 ≤ high < q → high ≤ u8_max → high ≤ 2 ^ (Z.of_nat attempts + 1) - 2 →
  (∃ b, high < b ≤ q ∧ best = enc b ∧ ∀ k, high < k ≤ q → len (enc b) ≤ len (enc k)) →
  (∀ k, high < k ≤ q → ¬ fits k) →
  ∃ b, (search attempts 1 high best).1 = Ok (enc b) ∧ 1 ≤ b ≤ q
       ∧ ((fits b ∧ ∀ k, b + 1 < k ≤ q → ¬ fits k)
          ∨ ∀ k, 1 ≤ k ≤ q → ¬ fits k ∧ len (enc b) ≤ len (enc k)).
Proof.
  revert high best. induction attempts as [|n IH]; intros high best Hhigh Hu8 Hsize (b0 & Hb0 & -> & Hsmall) Habove.
  { change (2 ^ (Z.of_nat 0 + 1) - 2) with 0 in Hsize. exists b0. split_and!; [done|lia|lia|].
    right. intros k Hk. split; [apply Habove|apply Hsmall]; lia. }
  cbn [quality_search]. destruct (Z.ltb_spec high 1) as [Hdone|Hgo].
  { exists b0. split_and!; [done|lia|lia|]. right. intros k Hk. split; [apply Habove|apply Hsmall]; lia. }
  replace (2 ^ (Z.of_nat (S n) + 1)) with (2 * 2 ^ (Z.of_nat n + 1)) in Hsize
    by (rewrite Nat2Z.inj_succ, <- Z.pow_succ_r by lia; f_equal; lia).
  set (mid := 1 + (high - 1) / 2).
  pose proof (Z.div_mod (high - 1) 2 ltac:(lia)). pose proof (Z.mod_pos_bound (high - 1) 2 ltac:(lia)).
  rewrite encodes by lia. destruct (Z.leb_spec (len (enc mid)) max_bytes) as [Hm|Hm].
  - destruct (Z.eqb_spec mid u8_max) as [He|He].
    + exists mid. split_and!; [done|lia|lia|]. left. split; [done|]. intros k Hk. apply Habove. lia.
    + destruct (search_fitting n (mid + 1) high) as (b & Hb & Hrange & Hfit & Hrest); try lia; try done.
      { by replace (mid + 1 - 1) with mid by lia. }
      exists b. replace (mid + 1 - 1) with mid in Hb by lia.
      destruct (search n (mid + 1) high (enc mid)). split_and!; [done|lia|lia|]. by left.
  - rewrite (proj2 (Z.eqb_neq _ _)) by lia.
    rewrite (proj2 (Z.ltb_lt _ _)) by (specialize (Habove b0); lia). cbn [andb].
    assert (Hbest : ∃ b, mid - 1 < b ≤ q
      ∧ (if len (enc mid) <? len (enc b0) then enc mid else enc b0) = enc b
      ∧ ∀ k, mid - 1 < k ≤ q → len (enc b) ≤ len (enc k)).
    { destruct (Z.ltb_spec (len (enc mid)) (len (enc b0))) as [Hl|Hl].
      - exists mid. split_and!; [lia|lia|done|]. intros k Hk. apply grows; lia.
      - exists b0. split_and!; [lia|lia|done|]. intros k Hk.
        specialize (grows mid k ltac:(lia) ltac:(lia) ltac:(lia)). lia. }
    destruct (IH (mid - 1) _ ltac:(lia) ltac:(lia) ltac:(lia) Hbest) as (b & Hb & Hrest).
    { intros k Hk. specialize (grows mid k). lia. }
    exists b. destruct (search n 1 (mid - 1) _). by split.
Qed.

(** C32. A byte budget costs at most six encodings more.  With an encoder whose
    output grows with the quality, a request whose quality is at most 127 is
    answered with an encoding that fits whenever any quality up to the one it
    asked for does, and at most one step short of the best such quality; and
    otherwise with the smallest one. *)
Theorem max_bytes_nearly_best :
  1 ≤ q ≤ 127 →
  let out := encode_with_max_bytes max_bytes encode_at q in
  (length out.2 ≤ 7)%nat
  ∧ ∃ b, out.1 = Ok (enc b) ∧ 1 ≤ b ≤ q
         ∧ ((fits b ∧ ∀ k, b + 1 < k ≤ q → ¬ fits k)
            ∨ ∀ k, 1 ≤ k ≤ q → ¬ fits k ∧ len (enc b) ≤ len (enc k)).
Proof.
  intros Hq. unfold encode_with_max_bytes. rewrite encodes by lia. cbv zeta.
  destruct (Z.leb_spec (len (enc q)) max_bytes) as [Hm|Hm]; cbn [orb].
  { split; [cbn; lia|]. exists q. split_and!; [done|lia|lia|]. left. split; [done|]. intros k Hk. lia. }
  destruct (Z.leb_spec q 1) as [H1|H1].
  { split; [cbn; lia|]. exists q. split_and!; [done|lia|lia|]. right. intros k Hk.
    assert (k = q) as -> by lia. lia. }
  pose proof (search_tried MAX_BYTES_SEARCH_ATTEMPTS 1 (q - 1) (enc q)) as Htried.
  destruct (search_failing MAX_BYTES_SEARCH_ATTEMPTS (q - 1) (enc q)) as (b & Hb & Hrest).
  - lia.
  - unfold u8_max. lia.
  - change (2 ^ (Z.of_nat MAX_BYTES_SEARCH_ATTEMPTS + 1)) with 128. lia.
  - exists q. split_and!; [lia|lia|done|]. intros k Hk. assert (k = q) as -> by lia. done.
  - intros k Hk. assert (k = q) as -> by lia. lia.
  - destruct (search MAX_BYTES_SEARCH_ATTEMPTS 1 (q - 1) (enc q)) as [r tried].
    split; [unfold MAX_BYTES_SEARCH_ATTEMPTS in *; cbn in *; lia|]. exists b. by split.
Qed.
End MaxBytesProperties.

(** An encoder that spends ten bytes per quality step, and a budget of 205. *)
Lemma max_bytes_nearly_best_witness :
  let out := encode_with_max_bytes (E := AnyhowError) 205 (λ k, Ok (replicate (Z.to_nat (10 * k)) x00)) 80 in
  (length out.2 ≤ 7)%nat ∧ out.2 = [80; 40; 20; 30; 25; 22; 21]
  ∧ ∃ b, out.1 = Ok (replicate (Z.to_nat (10 * b)) x00) ∧ 1 ≤ b ≤ 80
         ∧ ((len (replicate (Z.to_nat (10 * b)) x00) ≤ 205
             ∧ ∀ k, b + 1 < k ≤ 80 → ¬ len (replicate (Z.to_nat (10 * k)) x00) ≤ 205)
            ∨ ∀ k, 1 ≤ k ≤ 80 → ¬ len (replicate (Z.to_nat (10 * k)) x00) ≤ 205
                   ∧ len (replicate (Z.to_nat (10 * b)) x00) ≤ len (replicate (Z.to_nat (10 * k)) x00)).
Proof.
  destruct (max_bytes_nearly_best (E := AnyhowError) 205 (λ k, Ok (replicate (Z.to_nat (10 * k)) x00))
    (λ k, replicate (Z.to_nat (10 * k)) x00) 80) as [Hlen Hbest].
  - done.
  - intros j k Hj Hjk Hk. unfold len. rewrite !length_replicate. lia.
  - lia.
  - split; [exact Hlen|]. split; [vm_compute; reflexivity|exact Hbest].
Defined.

(** ** [neutralize_exif_orientation] *)

(** [bs.get(a..b)] *)
Definition get_range (bs : list byte) (a b : Z) : option (list byte) :=
  if (a <=? b) && (b <=? len bs) then Some (take (Z.to_nat (b - a)) (drop (Z.to_nat a) bs)) else None.

(** [from_le_bytes] and [from_be_bytes]. *)
Fixpoint from_le (bs : list byte) : Z :=
  match bs with [] => 0 | b :: rest => byte_val b + 256 * from_le rest end.
Definition from_be (bs : list byte) : Z := from_le (rev bs).

Definition ORIENTATION_TAG : Z := 274.
Definition TYPE_SHORT : Z := 3.
Definition TIFF_MAGIC : Z := 42.
Definition IFD_ENTRY_LEN : Z := 12.

(** [read_u16] and [read_u32], after the [get] that delimits their bytes. *)
Definition read_at (little_endian : bool) (exif : list byte) (a b : Z) : option Z :=
  bs ← get_range exif a b; Some (if little_endian then from_le bs else from_be bs).

(** [patched[start..start + n].copy_from_slice(bs)] *)
Definition copy_from_slice (start : Z) (bs patched : list byte) : list byte :=
  take (Z.to_nat start) patched ++ bs ++ drop (Z.to_nat start + length bs) patched.

(** The loop over the [entries] entries from [entry_start] on. *)
Fixpoint neutralize_entries (little_endian : bool) (exif : list byte) (entries : nat) (entry_start : Z)
  : option (list byte) :=
  match entries with
  | O => None
  | S entries' =>
      tag ← read_at little_endian exif entry_start (entry_start + 2);
      if negb (tag =? ORIENTATION_TAG)
      then neutralize_entries little_endian exif entries' (entry_start + IFD_ENTRY_LEN)
      else
        field_type ← read_at little_endian exif (entry_start + 2) (entry_start + 4);
        count ← read_at little_endian exif (entry_start + 4) (entry_start + 8);
        if negb (field_type =? TYPE_SHORT) || negb (count =? 1) then None
        else
          let normal_bytes := if little_endian then [x01; x00] else [x00; x01] in
          Some (copy_from_slice (entry_start + 8) normal_bytes exif)
  end.

(** [b"II"] or [b"MM"] *)
Definition byte_order (order : list byte) : option bool :=
  if decide (order = [x49; x49]) then Some true
  else if decide (order = [x4d; x4d]) then Some false else None.

Definition neutralize_exif_orientation (exif : list byte) : option (list byte) :=
  order ← get_range exif 0 2;
  little_endian ← byte_order order;
  magic ← read_at little_endian exif 2 4;
  if negb (magic =? TIFF_MAGIC) then None
  else
    ifd0_offset ← read_at little_endian exif 4 8;
    entries_start ← checked_add usize_max ifd0_offset 2;
    entry_count ← read_at little_endian exif ifd0_offset entries_start;
    entries_end ← checked_add usize_max entries_start (entry_count * IFD_ENTRY_LEN);
    if len exif <? entries_end then None
    else neutralize_entries little_endian exif (Z.to_nat entry_count) entries_start.

(** *** Properties *)

(** The [i]-th entry from [start] is the first orientation entry, and is a
    single short. *)
Record decides (little : bool) (exif : list byte) (start i : Z) : Prop := {
  decides_first j : 0 ≤ j < i →
    read_at little exif (start + j * 12) (start + j * 12 + 2) ≠ Some ORIENTATION_TAG;
  decides_tag : read_at little exif (start + i * 12) (start + i * 12 + 2) = Some ORIENTATION_TAG;
  decides_type : read_at little exif (start + i * 12 + 2) (start + i * 12 + 4) = Some TYPE_SHORT;
  decides_one : read_at little exif (start + i * 12 + 4) (start + i * 12 + 8) = Some 1;
}.

(** The block is a TIFF file whose first directory has [count] entries and is
    at [ifd]. *)
Record tiff (exif : list byte) (little : bool) (ifd count : Z) : Prop := {
  tiff_order : get_range exif 0 2 = Some (if little then [x49; x49] else [x4d; x4d]);
  tiff_magic : read_at little exif 2 4 = Some TIFF_MAGIC;
  tiff_ifd : read_at little exif 4 8 = Some ifd;
  tiff_count : read_at little exif ifd (ifd + 2) = Some count;
  tiff_fits : ifd + 2 + count * 12 ≤ len exif;
}.

(** What a TIFF reader takes from the block: the orientation is [v], and its
    two bytes are at [pos]. *)
Definition exif_orientation (exif : list byte) (pos v : Z) : Prop :=
  ∃ little ifd count i,
    tiff exif little ifd count ∧ 0 ≤ i < count ∧ decides little exif (ifd + 2) i
    ∧ pos = ifd + 2 + i * 12 + 8 ∧ read_at little exif pos (pos + 2) = Some v.

Lemma get_range_Some bs a b : 0 ≤ a ≤ b → b ≤ len bs → is_Some (get_range bs a b).
Proof.
  intros Hab Hb. unfold get_range. rewrite (proj2 (Z.leb_le a b)), (proj2 (Z.leb_le b (len bs))) by lia.
  by eexists.
Qed.

Lemma get_range_bound bs a b xs : get_range bs a b = Some xs → a ≤ b ≤ len bs.
Proof.
  unfold get_range. destruct (Z.leb_spec a b), (Z.leb_spec b (len bs)); cbn [andb]; try done; lia.
Qed.

Lemma from_le_nonneg bs : 0 ≤ from_le bs.
Proof. induction bs as [|b bs IH]; cbn [from_le]; [done|]. pose proof (byte_val_range b). lia. Qed.

Lemma read_at_Some little exif a b : 0 ≤ a ≤ b → b ≤ len exif → ∃ v, read_at little exif a b = Some v ∧ 0 ≤ v.
Proof.
  intros Hab Hb. destruct (get_range_Some exif a b Hab Hb) as [bs Hbs]. unfold read_at. rewrite Hbs.
  cbn. eexists. split; [done|]. destruct little; apply from_le_nonneg.
Qed.

(** A patch of two bytes is seen where it is and nowhere else. *)
Section Patch.
Context (exif normal : list byte) (pos : Z).
Hypothesis in_block : 0 ≤ pos ∧ pos + len normal ≤ len exif.
Abbreviation patched := (copy_from_slice pos normal exif).

Lemma patched_len : length patched = length exif.
Proof.
  unfold copy_from_slice, len in *. rewrite !length_app, length_take, length_drop. lia.
Qed.

Lemma patched_elsewhere i :
  (i < Z.to_nat pos ∨ Z.to_nat pos + length normal ≤ i)%nat → patched !! i = exif !! i.
Proof.
  unfold copy_from_slice, len in *. intros [Hi|Hi].
  - rewrite lookup_app_l by (rewrite length_take; lia). by rewrite lookup_take_lt.
  - rewrite app_assoc, lookup_app_r by (rewrite length_app, length_take; lia).
    rewrite lookup_drop. f_equal. rewrite length_app, length_take. lia.
Qed.

Lemma get_range_patched : get_range patched pos (pos + len normal) = Some normal.
Proof.
  unfold get_range. rewrite (proj2 (Z.leb_le _ _)) by (unfold len; lia).
  assert (len patched = len exif) as -> by (unfold len; by rewrite patched_len).
  rewrite (proj2 (Z.leb_le _ _)) by lia. cbn [andb]. f_equal.
  unfold copy_from_slice, len in *. rewrite drop_app_ge by (rewrite length_take; lia).
  rewrite length_take, Nat.min_l by lia.
  replace (Z.to_nat pos - Z.to_nat pos)%nat with 0%nat by lia. rewrite drop_0.
  rewrite take_app_le by lia. apply take_ge. lia.
Qed.

Lemma get_range_elsewhere a b :
  0 ≤ a → b ≤ pos → get_range patched a b = get_range exif a b.
Proof.
  intros Ha Hb. unfold get_range.
  assert (len patched = len exif) as -> by (unfold len; by rewrite patched_len).
  destruct (Z.leb_spec a b), (Z.leb_spec b (len exif)); cbn [andb]; try done. f_equal.
  apply list_eq. intros i. destruct (decide (i < Z.to_nat (b - a))%nat).
  - rewrite !lookup_take_lt, !lookup_drop by done. apply patched_elsewhere. lia.
  - by rewrite !lookup_take_ge by lia.
Qed.
End Patch.

Definition normal_bytes (little : bool) : list byte := if little then [x01; x00] else [x00; x01].

Lemma decides_next little exif start i :
  0 ≤ i → read_at little exif start (start + 2) ≠ Some ORIENTATION_TAG →
  decides little exif (start + 12) i ↔ decides little exif start (i + 1).
Proof.
  intros Hi Hhead.
  assert (Heq : ∀ j k, start + 12 + j * 12 + k = start + (j + 1) * 12 + k) by lia.
  assert (Heq0 : ∀ j, start + 12 + j * 12 = start + (j + 1) * 12) by lia.
  split; intros [Hf Ht Hty Ho]; constructor; rewrite ?Heq, ?Heq0 in *; try done.
  - intros j Hj. destruct (decide (j = 0)) as [->|]; [by rewrite Z.mul_0_l, Z.add_0_r|].
    specialize (Hf (j - 1) ltac:(lia)). rewrite Heq, Heq0 in Hf. by replace (j - 1 + 1) with j in Hf by lia.
  - intros j Hj. rewrite Heq, Heq0. apply Hf. lia.
Qed.

Lemma neutralize_entries_spec little exif n start :
  0 ≤ start → start + Z.of_nat n * 12 ≤ len exif →
  match neutralize_entries little exif n start with
  | Some patched => ∃ i, 0 ≤ i < Z.of_nat n ∧ decides little exif start i
                         ∧ patched = copy_from_slice (start + i * 12 + 8) (normal_bytes little) exif
  | None => ∀ i, 0 ≤ i < Z.of_nat n → ¬ decides little exif start i
  end.
Proof.
  revert start. induction n as [|n IH]; intros start Hstart Hlen; cbn [neutralize_entries]; [lia|].
  destruct (read_at_Some little exif start (start + 2)) as (tag & Htag & _); [lia|lia|].
  rewrite Htag. cbn [mbind option_bind]. destruct (Z.eqb_spec tag ORIENTATION_TAG) as [->|Hne]; cbn [negb].
  - destruct (read_at_Some little exif (start + 2) (start + 4)) as (ty & Hty & _); [lia|lia|].
    destruct (read_at_Some little exif (start + 4) (start + 8)) as (c & Hc & _); [lia|lia|].
    rewrite Hty, Hc. cbn [mbind option_bind].
    assert (Hone : ∀ i, 0 ≤ i → decides little exif start i → i = 0 ∧ ty = TYPE_SHORT ∧ c = 1).
    { intros i Hi [Hf Ht Hty' Ho]. assert (i = 0) as ->.
      { destruct (decide (i = 0)); [done|]. specialize (Hf 0 ltac:(lia)).
        by rewrite Z.mul_0_l, Z.add_0_r in Hf. }
      rewrite Z.mul_0_l, Z.add_0_r in *. split_and!; congruence. }
    destruct (Z.eqb_spec ty TYPE_SHORT) as [->|Hty']; cbn [negb orb].
    2: { intros i Hi Hd. destruct (Hone i) as (_ & ? & _); [lia|done|lia]. }
    destruct (Z.eqb_spec c 1) as [->|Hc']; cbn [negb].
    2: { intros i Hi Hd. destruct (Hone i) as (_ & _ & ?); [lia|done|lia]. }
    exists 0. rewrite Z.mul_0_l, Z.add_0_r. split_and!; [lia|lia| |done].
    constructor; rewrite ?Z.mul_0_l, ?Z.add_0_r; [lia|done..].
  - specialize (IH (start + IFD_ENTRY_LEN)). unfold IFD_ENTRY_LEN in *.
    assert (Hhead : read_at little exif start (start + 2) ≠ Some ORIENTATION_TAG) by congruence.
    destruct (neutralize_entries little exif n (start + 12)) as [patched|].
    + destruct IH as (i & Hi & Hd & ->); [lia|lia|]. exists (i + 1).
      split_and!; [lia|lia|apply decides_next; [lia|done|done]|]. f_equal. lia.
    + intros i Hi Hd. destruct (decide (i = 0)) as [->|].
      { destruct Hd as [_ Ht _ _]. by rewrite Z.mul_0_l, Z.add_0_r in Ht. }
      replace i with (i - 1 + 1) in Hd by lia. apply decides_next in Hd; [|lia|done].
      by apply (IH ltac:(lia) ltac:(lia) (i - 1)); [lia|].
Qed.

Lemma from_le_bound bs : from_le bs < 256 ^ len bs.
Proof.
  unfold len. induction bs as [|b bs IH]; [done|]. cbn [from_le length].
  rewrite Nat2Z.inj_succ, Z.pow_succ_r by lia. pose proof (byte_val_range b). lia.
Qed.

Lemma read_at_bound little exif a b v : read_at little exif a b = Some v → 0 ≤ v < 256 ^ (b - a).
Proof.
  unfold read_at. destruct (get_range exif a b) as [bs|] eqn:Hbs; [|done]. intros [= <-].
  assert (len bs ≤ b - a) as Hlen.
  { apply get_range_bound in Hbs as Hb. unfold get_range in Hbs.
    destruct (_ && _); [|done]. injection Hbs as <-. unfold len. rewrite length_take. lia. }
  assert (256 ^ len bs ≤ 256 ^ (b - a)) by (apply Z.pow_le_mono_r; lia).
  destruct little; [pose proof (from_le_nonneg bs); pose proof (from_le_bound bs); lia|].
  unfold from_be. pose proof (from_le_nonneg (rev bs)). pose proof (from_le_bound (rev bs)) as Hb.
  unfold len in Hb. rewrite List.length_rev in Hb. fold (len bs) in Hb. lia.
Qed.

Lemma byte_order_Some order little :
  byte_order order = Some little ↔ order = if little then [x49; x49] else [x4d; x4d].
Proof.
  unfold byte_order. split; [|by intros ->; destruct little].
  destruct (decide (order = [x49; x49])) as [->|]; [by intros [= <-]|].
  destruct (decide (order = [x4d; x4d])) as [->|]; [by intros [= <-]|done].
Qed.

Lemma neutralize_header exif :
  match neutralize_exif_orientation exif with
  | Some patched => ∃ little ifd count, tiff exif little ifd count
      ∧ neutralize_entries little exif (Z.to_nat count) (ifd + 2) = Some patched
  | None => ∀ little ifd count, tiff exif little ifd count →
      neutralize_entries little exif (Z.to_nat count) (ifd + 2) = None
  end.
Proof.
  unfold neutralize_exif_orientation.
  destruct (get_range exif 0 2) as [order|] eqn:Horder; cbn [mbind option_bind];
    [|intros little ifd count [H _ _ _ _]; congruence].
  destruct (byte_order order) as [little|] eqn:Hlittle; cbn [mbind option_bind].
  2: { intros little ifd count [H _ _ _ _]. rewrite Horder in H. injection H as H.
       apply byte_order_Some in H. congruence. }
  apply byte_order_Some in Hlittle as ->.
  assert (Hsame : ∀ little' ifd count, tiff exif little' ifd count → little' = little).
  { intros little' ifd count [H _ _ _ _]. rewrite Horder in H. by destruct little, little'. }
  destruct (read_at little exif 2 4) as [magic|] eqn:Hmagic; cbn [mbind option_bind];
    [|intros little' ifd count Ht; pose proof (Hsame _ _ _ Ht); subst little'; destruct Ht; congruence].
  destruct (Z.eqb_spec magic TIFF_MAGIC) as [->|Hne]; cbn [negb];
    [|intros little' ifd count Ht; pose proof (Hsame _ _ _ Ht); subst little'; destruct Ht; congruence].
  destruct (read_at little exif 4 8) as [ifd|] eqn:Hifd; cbn [mbind option_bind];
    [|intros little' ifd count Ht; pose proof (Hsame _ _ _ Ht); subst little'; destruct Ht; congruence].
  pose proof (read_at_bound _ _ _ _ _ Hifd) as Hifdb. change (256 ^ (8 - 4)) with (2 ^ 32) in Hifdb.
  rewrite (proj2 (checked_add_Some usize_max ifd 2 (ifd + 2))) by (unfold usize_max, u64_max; lia).
  cbn [mbind option_bind].
  destruct (read_at little exif ifd (ifd + 2)) as [count|] eqn:Hcount; cbn [mbind option_bind];
    [|intros little' ifd' count' Ht; pose proof (Hsame _ _ _ Ht); subst little'; destruct Ht; congruence].
  pose proof (read_at_bound _ _ _ _ _ Hcount) as Hcountb.
  replace (256 ^ (ifd + 2 - ifd)) with 65536 in Hcountb by (by replace (ifd + 2 - ifd) with 2 by lia).
  unfold IFD_ENTRY_LEN.
  rewrite (proj2 (checked_add_Some usize_max (ifd + 2) (count * 12) (ifd + 2 + count * 12)))
    by (unfold usize_max, u64_max; lia).
  cbn [mbind option_bind].
  destruct (Z.ltb_spec (len exif) (ifd + 2 + count * 12)) as [Hshort|Hfits].
  { intros little' ifd' count' Ht. pose proof (Hsame _ _ _ Ht). subst little'. destruct Ht. simplify_eq. lia. }
  destruct (neutralize_entries _ _ _ _) as [patched|] eqn:Hloop.
  - exists little, ifd, count. by split.
  - intros little' ifd' count' Ht. pose proof (Hsame _ _ _ Ht). subst little'. destruct Ht. by simplify_eq.
Qed.

Lemma tiff_ranges exif little ifd count : tiff exif little ifd count → 0 ≤ ifd ∧ 0 ≤ count.
Proof. intros []. by split; eapply read_at_bound. Qed.

(** A patched value does not disturb what precedes it. *)
Lemma read_at_patched little exif normal pos a b :
  0 ≤ pos ∧ pos + len normal ≤ len exif → 0 ≤ a → b ≤ pos →
  read_at little (copy_from_slice pos normal exif) a b = read_at little exif a b.
Proof. intros. unfold read_at. by rewrite get_range_elsewhere. Qed.

(** What the patch does to what a reader finds. *)
Lemma neutralize_exif_reads exif :
  match neutralize_exif_orientation exif with
  | Some patched => ∃ pos v,
      exif_orientation exif pos v ∧ exif_orientation patched pos 1
      ∧ length patched = length exif
      ∧ ∀ i, Z.of_nat i < pos ∨ pos + 2 ≤ Z.of_nat i → patched !! i = exif !! i
  | None => ∀ pos v, ¬ exif_orientation exif pos v
  end.
Proof.
  pose proof (neutralize_header exif) as Hhead.
  destruct (neutralize_exif_orientation exif) as [patched|].
  - destruct Hhead as (little & ifd & count & Ht & Hloop). destruct (tiff_ranges _ _ _ _ Ht) as [Hifd Hcount].
    destruct Ht as [Horder Hmagic Hi4 Hcnt Hfits].
    pose proof (neutralize_entries_spec little exif (Z.to_nat count) (ifd + 2)) as H.
    rewrite Hloop, Z2Nat.id in H by lia. destruct (H ltac:(lia) ltac:(lia)) as (i & Hi & Hd & ->). clear H Hloop.
    set (pos := ifd + 2 + i * 12 + 8).
    assert (Hnormal : len (normal_bytes little) = 2) by by destruct little.
    assert (Hin : 0 ≤ pos ∧ pos + len (normal_bytes little) ≤ len exif) by (rewrite Hnormal; lia).
    destruct (read_at_Some little exif pos (pos + 2)) as (v & Hv & _); [lia|lia|].
    exists pos, v. split_and!.
    + exists little, ifd, count, i. split_and!; [by constructor|lia|lia|done|done|done].
    + exists little, ifd, count, i. split_and!; [|lia|lia| |done|].
      * constructor; rewrite ?read_at_patched by (done || lia); try done.
        -- by rewrite get_range_elsewhere by (done || lia).
        -- unfold len. by rewrite patched_len.
      * destruct Hd as [Hf Htag Hty Ho]. constructor; rewrite ?read_at_patched by (done || lia); try done.
        intros j Hj. rewrite read_at_patched by (done || lia). by apply Hf.
      * unfold read_at. rewrite <- Hnormal, get_range_patched by done. by destruct little.
    + by apply patched_len.
    + intros i' Hi'. apply patched_elsewhere; [done|]. unfold len in *. lia.
  - intros pos v (little & ifd & count & i & Ht & Hi & Hd & -> & Hv).
    destruct (tiff_ranges _ _ _ _ Ht) as [Hifd Hcount].
    pose proof (neutralize_entries_spec little exif (Z.to_nat count) (ifd + 2)) as H.
    rewrite (Hhead _ _ _ Ht), Z2Nat.id in H by lia. destruct Ht as [_ _ _ _ Hfits].
    by apply (H ltac:(lia) ltac:(lia) i).
Qed.

(** A block is kept exactly when a reader finds its orientation; the kept block
    then says upright, and is otherwise, length included, what it was.  No
    block that still asks for the rotation survives. *)
Theorem neutralize_exif_spec exif :
  match neutralize_exif_orientation exif with
  | Some patched => ∃ pos v,
      exif_orientation exif pos v ∧ exif_orientation patched pos 1
      ∧ length patched = length exif
      ∧ ∀ i, Z.of_nat i < pos ∨ pos + 2 ≤ Z.of_nat i → patched !! i = exif !! i
  | None => ∀ pos v, ¬ exif_orientation exif pos v
  end.
Proof. apply neutralize_exif_reads. Qed.
