(* ===== verification/Webp.v ===== *)
(** * Animated WebP: [encode_animated_webp] and [write_riff_chunk] of
    [src/services/image/handler.rs]

The container is assembled by hand around the bitstreams of the [image_webp]
crate, whose single-image encoder is a parameter; its reader here is a
reference, written from the container's layout. *)
From S2P Require Import Prelude RustStr SourceGuard RustFloat Params CacheKey KeyValidation Errors Encoding.

Local Open Scope Z_scope.

(** A frame of the [image] crate: its buffer and its delay, a fraction of
    milliseconds. *)
Record Frame := mk_Frame {
  frame_width : Z;
  frame_height : Z;
  frame_raw : list byte;
  frame_delay : Z * Z;
}.

(** [v.to_le_bytes()] on an integer of [n] bytes. *)
Fixpoint to_le_bytes (n : nat) (v : Z) : list byte :=
  match n with O => [] | S n' => byte_of_val v :: to_le_bytes n' (v / 256) end.

Definition write_riff_chunk (fourcc payload : list byte) : list byte :=
  fourcc ++ to_le_bytes 4 (len payload mod 2 ^ 32) ++ payload
  ++ (if len payload mod 2 =? 1 then [x00] else []).

Definition fourcc (s : string) : list byte := list_byte_of_string s.

Section Encode.
(** [WebPEncoder::encode] of an RGBA buffer, width and height. *)
Context (encode_frame : list byte → Z → Z → option (list byte)).

(** [numer.checked_div(denom).unwrap_or(0)] *)
Definition delay_ms (frame : Frame) : Z :=
  let (numer, denom) := frame_delay frame in if denom =? 0 then 0 else numer / denom.

(** [n.checked_sub(1).filter(|&n| n < (1 << 24))] *)
Definition minus_1 (n : Z) : option Z :=
  if (1 <=? n) && (n - 1 <? 2 ^ 24) then Some (n - 1) else None.

(** The body of the loop over the frames. *)
Definition anmf_payload (width height width_minus_1 height_minus_1 : Z) (frame : Frame)
  : result AnyhowError (list byte) :=
  if negb (frame_width frame =? width) || negb (frame_height frame =? height)
  then Err (EMessage "animated WebP: every frame must share the first frame's dimensions")
  else
    frame_webp ← ok_or (encode_frame (frame_raw frame) width height)
      (EMessage "image-webp: failed to encode animation frame");
    inner ← ok_or (get_range frame_webp 12 (len frame_webp))
      (EMessage "image-webp: encoded frame shorter than the RIFF/WEBP header");
    let duration_24 := Z.min (delay_ms frame) (2 ^ 24 - 1) in
    Ok (take 3 (to_le_bytes 4 0) ++ take 3 (to_le_bytes 4 0)
        ++ take 3 (to_le_bytes 4 width_minus_1) ++ take 3 (to_le_bytes 4 height_minus_1)
        ++ take 3 (to_le_bytes 4 duration_24) ++ [byte_of_val 2] ++ inner).

Definition encode_animated_webp (frames : list Frame) : result AnyhowError (list byte * string) :=
  match frames with
  | [] => Err (EMessage "cannot encode an animated WebP with zero frames")
  | first :: _ =>
      let width := frame_width first in
      let height := frame_height first in
      width_minus_1 ← ok_or (minus_1 width)
        (EMessage "animated WebP: canvas width out of the container's 24-bit range");
      height_minus_1 ← ok_or (minus_1 height)
        (EMessage "animated WebP: canvas height out of the container's 24-bit range");
      anmf_payloads ← mapM (anmf_payload width height width_minus_1 height_minus_1) frames;
      let vp8x_payload := [byte_of_val 18] ++ [x00; x00; x00]
        ++ take 3 (to_le_bytes 4 width_minus_1) ++ take 3 (to_le_bytes 4 height_minus_1) in
      let anim_payload := [x00; x00; x00; x00] ++ to_le_bytes 2 0 in
      let payload := fourcc "WEBP" ++ write_riff_chunk (fourcc "VP8X") vp8x_payload
        ++ write_riff_chunk (fourcc "ANIM") anim_payload
        ++ concat (write_riff_chunk (fourcc "ANMF") <$> anmf_payloads) in
      Ok (fourcc "RIFF" ++ to_le_bytes 4 (len payload mod 2 ^ 32) ++ payload, "image/webp")
  end.
End Encode.

(** ** A reader of the container *)

(** One chunk off the front: its name, its payload, what follows. *)
Definition read_chunk (bs : list byte) : option (list byte * list byte * list byte) :=
  name ← get_range bs 0 4;
  size ← read_at true bs 4 8;
  payload ← get_range bs 8 (8 + size);
  rest ← get_range bs (8 + size + size mod 2) (len bs);
  Some (name, payload, rest).

Fixpoint read_chunks (fuel : nat) (bs : list byte) : option (list (list byte * list byte)) :=
  match bs, fuel with
  | [], _ => Some []
  | _, O => None
  | _, S fuel' =>
      '(name, payload, rest) ← read_chunk bs;
      more ← read_chunks fuel' rest;
      Some ((name, payload) :: more)
  end.

(** A frame as the reader sees it: offset, size, duration, flags, bitstream. *)
Record ReadFrame := mk_ReadFrame {
  rf_x : Z; rf_y : Z; rf_width : Z; rf_height : Z;
  rf_duration : Z; rf_flags : list byte; rf_bitstream : list byte;
}.

Definition read_anmf (payload : list byte) : option ReadFrame :=
  x ← read_at true payload 0 3; y ← read_at true payload 3 6;
  w ← read_at true payload 6 9; h ← read_at true payload 9 12;
  duration ← read_at true payload 12 15; flags ← get_range payload 15 16;
  bitstream ← get_range payload 16 (len payload);
  Some (mk_ReadFrame (2 * x) (2 * y) (w + 1) (h + 1) duration flags bitstream).

(** Canvas, flags, loop count, frames. *)
Definition read_animated_webp (bs : list byte) : option (Z * Z * list byte * Z * list ReadFrame) :=
  match read_chunk bs with
  | Some (riff, body, []) =>
      form ← get_range body 0 4; chunks ← get_range body 4 (len body);
      if negb (bool_decide (riff = fourcc "RIFF")) || negb (bool_decide (form = fourcc "WEBP")) then None
      else
        chunks ← read_chunks (length chunks) chunks;
        match chunks with
        | (vp8x, header) :: (anim, control) :: frames =>
            if negb (bool_decide (vp8x = fourcc "VP8X")) || negb (bool_decide (anim = fourcc "ANIM"))
               || negb (forallb (λ c, bool_decide (c.1 = fourcc "ANMF")) frames) then None
            else
              flags ← get_range header 0 1; w ← read_at true header 4 7; h ← read_at true header 7 10;
              loops ← read_at true control 4 6;
              frames ← mapM read_anmf (frames.*2);
              Some (w + 1, h + 1, flags, loops, frames)
        | _ => None
        end
  | _ => None
  end.

Example read_back :
  let frame d := mk_Frame 2 1 [] d in
  let encode _ _ _ := Some (replicate 12 x00 ++ fourcc "VP8L" ++ to_le_bytes 4 1 ++ [x2f; x00]) in
  match encode_animated_webp encode [frame (100, 1); frame (25, 2)] with
  | Ok (out, _) =>
      option_map (λ x, (x.1, map rf_duration x.2)) (read_animated_webp out)
      = Some (2, 1, [byte_of_val 18], 0, [100; 12])
  | Err _ => False
  end.
Proof. vm_compute. reflexivity. Qed.

(** ** Properties *)

Lemma to_le_length n v : length (to_le_bytes n v) = n.
Proof. revert v. induction n as [|n IH]; intros v; cbn [to_le_bytes length]; [done|by rewrite IH]. Qed.

Lemma byte_of_val_mod v : byte_val (byte_of_val v) = v mod 256.
Proof.
  replace (byte_of_val v) with (byte_of_val (v mod 256)) by (unfold byte_of_val; by rewrite Z.mod_mod).
  apply byte_val_of_val, Z.mod_pos_bound. lia.
Qed.

Lemma from_to_le n v : 0 ≤ v < 256 ^ Z.of_nat n → from_le (to_le_bytes n v) = v.
Proof.
  revert v. induction n as [|n IH]; intros v Hv; cbn [to_le_bytes from_le].
  { change (256 ^ Z.of_nat 0) with 1 in Hv. lia. }
  rewrite Nat2Z.inj_succ, Z.pow_succ_r in Hv by lia. rewrite byte_of_val_mod, IH.
  - pose proof (Z.div_mod v 256 ltac:(lia)). lia.
  - split; [apply Z.div_pos; lia|]. apply Z.div_lt_upper_bound; lia.
Qed.

Lemma take_to_le m n v : (m ≤ n)%nat → take m (to_le_bytes n v) = to_le_bytes m v.
Proof.
  revert n v. induction m as [|m IH]; intros n v Hmn; [done|].
  destruct n as [|n]; [lia|]. cbn [to_le_bytes take]. by rewrite IH by lia.
Qed.

(** The part of a buffer between two others. *)
Lemma get_range_middle (xs ys zs : list byte) a b :
  a = len xs → b = len xs + len ys → get_range (xs ++ ys ++ zs) a b = Some ys.
Proof.
  intros -> ->. unfold get_range, len. rewrite !length_app.
  rewrite (proj2 (Z.leb_le _ _)), (proj2 (Z.leb_le _ _)) by lia. cbn [andb]. f_equal.
  replace (Z.to_nat (Z.of_nat (length xs) + Z.of_nat (length ys) - Z.of_nat (length xs)))
    with (length ys) by lia.
  by rewrite Nat2Z.id, drop_app_length, take_app_length.
Qed.

Lemma read_at_middle xs n v zs a b :
  0 ≤ v < 256 ^ Z.of_nat n → a = len xs → b = len xs + Z.of_nat n →
  read_at true (xs ++ to_le_bytes n v ++ zs) a b = Some v.
Proof.
  intros Hv -> ->. unfold read_at. rewrite (get_range_middle xs (to_le_bytes n v) zs);
    [by cbn; rewrite from_to_le|done|unfold len; by rewrite to_le_length].
Qed.

Lemma read_write_chunk name payload rest :
  length name = 4%nat → len payload < 2 ^ 32 →
  read_chunk (write_riff_chunk name payload ++ rest) = Some (name, payload, rest).
Proof.
  intros Hname Hlen. unfold read_chunk, write_riff_chunk.
  assert (0 ≤ len payload) by (unfold len; lia). rewrite Z.mod_small by lia.
  set (pad := if len payload mod 2 =? 1 then [x00] else []).
  assert (Hpad : len pad = len payload mod 2).
  { unfold pad. pose proof (Z.mod_pos_bound (len payload) 2 ltac:(lia)).
    destruct (Z.eqb_spec (len payload mod 2) 1) as [->|]; [done|]. change (len []) with 0. lia. }
  assert (Hn : len name = 4) by (unfold len; lia).
  rewrite <- !app_assoc.
  pose proof (get_range_middle [] name (to_le_bytes 4 (len payload) ++ payload ++ pad ++ rest) 0 4) as Hhead.
  rewrite app_nil_l in Hhead. rewrite Hhead by (done || (change (len []) with 0; lia)). cbn [mbind option_bind].
  rewrite read_at_middle by (cbn; lia). cbn [mbind option_bind].
  assert (Hle : len (name ++ to_le_bytes 4 (len payload)) = 8)
    by (unfold len in *; rewrite length_app, to_le_length; lia).
  rewrite (app_assoc name). set (head := name ++ to_le_bytes 4 (len payload)) in *.
  pose proof (get_range_middle head payload (pad ++ rest) 8 (8 + len payload)) as Hbody.
  rewrite Hbody by lia. cbn [mbind option_bind].
  pose proof (get_range_middle (head ++ payload ++ pad) rest []
    (8 + len payload + len payload mod 2) (len (head ++ payload ++ pad ++ rest))) as Hrest.
  rewrite app_nil_r, <- !app_assoc in Hrest. rewrite Hrest; [done|..];
    unfold len in *; rewrite !length_app in *; lia.
Qed.

Lemma read_chunks_concat fuel chunks :
  Forall (λ c, length c.1 = 4%nat ∧ len c.2 < 2 ^ 32) chunks → (length chunks ≤ fuel)%nat →
  read_chunks fuel (concat ((λ c, write_riff_chunk c.1 c.2) <$> chunks)) = Some chunks.
Proof.
  intros Hc. revert fuel. induction Hc as [|[name payload] chunks [Hn Hl] Hc IH]; intros fuel Hf;
    [by destruct fuel|].
  destruct fuel as [|fuel]; [cbn in Hf; lia|]. cbn [fmap list_fmap concat fst snd].
  destruct (write_riff_chunk name payload ++ _) as [|b bs] eqn:Heq.
  { apply (f_equal length) in Heq. unfold write_riff_chunk in Heq. rewrite !length_app in Heq.
    cbn in Hn, Heq. lia. }
  cbn [read_chunks]. rewrite <- Heq, read_write_chunk by done. cbn [mbind option_bind].
  rewrite IH by (cbn in Hf; lia). done.
Qed.

(** Reading a field of a header laid out as a concatenation. *)
Ltac header_field xs rest :=
  match goal with
  | |- read_at true ?payload _ _ = Some ?v =>
      replace payload with (xs ++ to_le_bytes 3 v ++ rest) by (subst; rewrite <- ?app_assoc; reflexivity);
      apply read_at_middle;
        [change (256 ^ Z.of_nat 3) with (2 ^ 24); lia|unfold len in *; rewrite ?length_app; cbn [length]; lia..]
  end.

Lemma chunk_even name payload :
  length name = 4%nat → len (write_riff_chunk name payload) mod 2 = 0
  ∧ len payload ≤ len (write_riff_chunk name payload).
Proof.
  intros Hname. unfold write_riff_chunk, len. rewrite !length_app, to_le_length, Hname.
  pose proof (Z.mod_pos_bound (Z.of_nat (length payload)) 2 ltac:(lia)).
  pose proof (Z.div_mod (Z.of_nat (length payload)) 2 ltac:(lia)).
  split; [|lia]. destruct (Z.eqb_spec (Z.of_nat (length payload) mod 2) 1); cbn [length].
  - apply Z.mod_divide; [lia|]. exists (Z.of_nat (length payload) / 2 + 5). lia.
  - apply Z.mod_divide; [lia|]. exists (Z.of_nat (length payload) / 2 + 4). lia.
Qed.

Lemma chunks_even chunks :
  Forall (λ c, length c.1 = 4%nat) chunks →
  let body := concat ((λ c, write_riff_chunk c.1 c.2) <$> chunks) in
  len body mod 2 = 0 ∧ Forall (λ c, len c.2 ≤ len body) chunks.
Proof.
  induction 1 as [|[name payload] chunks Hn _ IH]; cbn [fmap list_fmap concat]; [by split|].
  cbv zeta in IH. destruct IH as [IHe IHl]. destruct (chunk_even name payload Hn) as [He Hl].
  cbn [fst snd] in *. unfold len in *. rewrite length_app, Nat2Z.inj_add. split.
  - by rewrite Z.add_mod, He, IHe by lia.
  - constructor; [cbn; lia|]. eapply Forall_impl; [exact IHl|]. cbn. intros. lia.
Qed.

Lemma body_chunks chunks :
  Forall (λ c, length c.1 = 4%nat) chunks →
  let body := concat ((λ c, write_riff_chunk c.1 c.2) <$> chunks) in
  len body < 2 ^ 32 → read_chunks (length body) body = Some chunks.
Proof.
  intros Hnames body Hlen. destruct (chunks_even chunks Hnames) as [_ Hsmall].
  apply read_chunks_concat.
  - rewrite Forall_forall in Hnames, Hsmall. apply Forall_forall. intros c Hc.
    specialize (Hnames c Hc). specialize (Hsmall c Hc). cbv beta in *. fold body in Hsmall. lia.
  - unfold body. clear. induction chunks as [|c chunks IH]; cbn [fmap list_fmap concat length]; [lia|].
    rewrite length_app. unfold write_riff_chunk at 1. rewrite !length_app, to_le_length. cbn. lia.
Qed.

Lemma minus_1_Some n m : minus_1 n = Some m → m = n - 1 ∧ 1 ≤ n ≤ 2 ^ 24.
Proof.
  unfold minus_1. destruct (Z.leb_spec 1 n), (Z.ltb_spec (n - 1) (2 ^ 24)); cbn [andb]; try done.
  intros [= <-]. lia.
Qed.

(** The canvas header reads back. *)
Lemma read_vp8x w h :
  1 ≤ w ≤ 2 ^ 24 → 1 ≤ h ≤ 2 ^ 24 →
  let vp8x := [byte_of_val 18] ++ [x00; x00; x00] ++ take 3 (to_le_bytes 4 (w - 1))
                ++ take 3 (to_le_bytes 4 (h - 1)) in
  get_range vp8x 0 1 = Some [byte_of_val 18]
  ∧ read_at true vp8x 4 7 = Some (w - 1) ∧ read_at true vp8x 7 10 = Some (h - 1).
Proof.
  intros Hw Hh. rewrite !take_to_le by lia.
  set (lw := to_le_bytes 3 (w - 1)). set (lh := to_le_bytes 3 (h - 1)).
  assert (Hlens : len lw = 3 ∧ len lh = 3) by (unfold len, lw, lh; by rewrite !to_le_length).
  intros vp8x. split_and!; [done| |].
  - subst vp8x. header_field ([byte_of_val 18] ++ [x00; x00; x00]) lh.
  - subst vp8x. rewrite <- (app_nil_r lh).
    header_field ([byte_of_val 18] ++ [x00; x00; x00] ++ lw) (@nil byte).
Qed.

Section Roundtrip.
Context (encode_frame : list byte → Z → Z → option (list byte)).

(** A frame of the file is the frame it was made from: the whole canvas,
    replacing what was there, for its own delay, with its own bitstream. *)
Definition shows (w h : Z) (frame : Frame) (rf : ReadFrame) : Prop :=
  frame_width frame = w ∧ frame_height frame = h
  ∧ ∃ webp, encode_frame (frame_raw frame) w h = Some webp
      ∧ rf = mk_ReadFrame 0 0 w h (Z.min (delay_ms frame) (2 ^ 24 - 1)) [byte_of_val 2] (drop 12 webp).

Lemma read_anmf_payload w h frame payload :
  1 ≤ w ≤ 2 ^ 24 → 1 ≤ h ≤ 2 ^ 24 → 0 ≤ delay_ms frame →
  anmf_payload encode_frame w h (w - 1) (h - 1) frame = Ok payload →
  ∃ rf, read_anmf payload = Some rf ∧ shows w h frame rf.
Proof.
  intros Hw Hh Hd. unfold anmf_payload.
  destruct (Z.eqb_spec (frame_width frame) w) as [Hfw|]; cbn [negb orb]; [|done].
  destruct (Z.eqb_spec (frame_height frame) h) as [Hfh|]; cbn [negb orb]; [|done].
  intros. invert_ok.
  assert (Hinner : x0 = drop 12 x).
  { unfold get_range in H0. destruct (_ && _); [|done]. injection H0 as <-.
    apply take_ge. rewrite length_drop. unfold len. lia. }
  set (d := Z.min (delay_ms frame) (2 ^ 24 - 1)).
  set (z := to_le_bytes 3 0). set (lw := to_le_bytes 3 (w - 1)). set (lh := to_le_bytes 3 (h - 1)).
  set (ld := to_le_bytes 3 d).
  assert (payload = z ++ z ++ lw ++ lh ++ ld ++ [byte_of_val 2] ++ x0) as Hp by (symmetry; exact H1).
  clear H1.
  assert (Hlens : len z = 3 ∧ len lw = 3 ∧ len lh = 3 ∧ len ld = 3)
    by (unfold len, z, lw, lh, ld; rewrite !to_le_length; lia).
  assert (read_at true payload 0 3 = Some 0) as E1
    by header_field (@nil byte) (z ++ lw ++ lh ++ ld ++ [byte_of_val 2] ++ x0).
  assert (read_at true payload 3 6 = Some 0) as E2
    by header_field z (lw ++ lh ++ ld ++ [byte_of_val 2] ++ x0).
  assert (read_at true payload 6 9 = Some (w - 1)) as E3
    by header_field (z ++ z) (lh ++ ld ++ [byte_of_val 2] ++ x0).
  assert (read_at true payload 9 12 = Some (h - 1)) as E4
    by header_field (z ++ z ++ lw) (ld ++ [byte_of_val 2] ++ x0).
  assert (read_at true payload 12 15 = Some d) as E5
    by header_field (z ++ z ++ lw ++ lh) ([byte_of_val 2] ++ x0).
  assert (get_range payload 15 16 = Some [byte_of_val 2]) as E6.
  { replace payload with ((z ++ z ++ lw ++ lh ++ ld) ++ [byte_of_val 2] ++ x0)
      by (subst payload; rewrite <- ?app_assoc; reflexivity).
    apply get_range_middle; unfold len in *; rewrite !length_app; cbn [length]; lia. }
  assert (get_range payload 16 (len payload) = Some x0) as E7.
  { replace payload with ((z ++ z ++ lw ++ lh ++ ld ++ [byte_of_val 2]) ++ x0 ++ [])
      by (subst payload; rewrite app_nil_r, <- ?app_assoc; reflexivity).
    apply get_range_middle; unfold len in *; rewrite !length_app; cbn [length]; lia. }
  exists (mk_ReadFrame 0 0 w h d [byte_of_val 2] x0). split.
  - unfold read_anmf. rewrite E1, E2, E3, E4, E5, E6, E7. cbn. do 2 f_equal; lia.
  - split_and!; [done|done|]. exists x. by rewrite Hinner.
Qed.

Lemma read_anmf_all w h frames payloads :
  1 ≤ w ≤ 2 ^ 24 → 1 ≤ h ≤ 2 ^ 24 → Forall (λ f, 0 ≤ delay_ms f) frames →
  mapM (anmf_payload encode_frame w h (w - 1) (h - 1)) frames = Ok payloads →
  ∃ rfs, mapM read_anmf payloads = Some rfs ∧ Forall2 (shows w h) frames rfs.
Proof.
  intros Hw Hh Hd. revert payloads. induction Hd as [|frame frames Hf Hd IH]; intros payloads H.
  { injection H as <-. exists []. split; [done|constructor]. }
  cbn [mapM] in H. invert_ok. subst.
  destruct (read_anmf_payload w h frame x Hw Hh Hf H) as (rf & Hrf & Hshow).
  destruct (IH _ H0) as (rfs & Hrfs & Hall).
  exists (rf :: rfs). split; [|by constructor]. cbn [mapM]. by rewrite Hrf, Hrfs.
Qed.

(** The file, read chunk by chunk. *)
Lemma animated_webp_reads_back frames out ct :
  Forall (λ f, 0 ≤ delay_ms f) frames →
  encode_animated_webp encode_frame frames = Ok (out, ct) → len out < 2 ^ 32 →
  ct = "image/webp"
  ∧ ∃ w h rfs, read_animated_webp out = Some (w, h, [byte_of_val 18], 0, rfs)
               ∧ Forall2 (shows w h) frames rfs.
Proof.
  intros Hd H Hlen. destruct frames as [|first frames]; [done|].
  cbn [encode_animated_webp] in H. apply bind_Ok in H as (wm & Hwm & H).
  apply bind_Ok in H as (hm & Hhm & H). apply bind_Ok in H as (ps & Hps & H). cbv zeta in H.
  apply ok_or_Ok, minus_1_Some in Hwm as [-> Hw]. apply ok_or_Ok, minus_1_Some in Hhm as [-> Hh].
  set (w := frame_width first) in *. set (h := frame_height first) in *.
  destruct (read_anmf_all w h (first :: frames) ps Hw Hh Hd Hps) as (rfs & Hrfs & Hall).
  set (vp8x := [byte_of_val 18] ++ [x00; x00; x00] ++ take 3 (to_le_bytes 4 (w - 1))
                 ++ take 3 (to_le_bytes 4 (h - 1))) in H.
  set (anim := [x00; x00; x00; x00] ++ to_le_bytes 2 0) in H.
  set (chunks := (fourcc "VP8X", vp8x) :: (fourcc "ANIM", anim) :: ((λ p, (fourcc "ANMF", p)) <$> ps)).
  assert (Hnames : Forall (λ c : list byte * list byte, length c.1 = 4%nat) chunks)
    by (repeat constructor; apply Forall_fmap, Forall_forall; done).
  destruct (chunks_even chunks Hnames) as [Heven _].
  set (body := concat ((λ c, write_riff_chunk c.1 c.2) <$> chunks)) in *.
  assert (Hbody : write_riff_chunk (fourcc "VP8X") vp8x ++ write_riff_chunk (fourcc "ANIM") anim
                    ++ concat (write_riff_chunk (fourcc "ANMF") <$> ps) = body).
  { unfold body, chunks. cbn [fmap list_fmap concat fst snd]. do 3 f_equal.
    by rewrite <- list_fmap_compose. }
  rewrite Hbody in H.
  match type of H with Ok (?f, _) = _ => remember f as file eqn:Hfile end.
  injection H as <- <-. split; [done|]. exists w, h, rfs. split; [|done].
  assert (Hform : len (fourcc "WEBP" ++ body) = 4 + len body)
    by (unfold len; rewrite length_app, Nat2Z.inj_add; done).
  assert (Hbl : 4 + len body < 2 ^ 32 ∧ file = write_riff_chunk (fourcc "RIFF") (fourcc "WEBP" ++ body) ++ []).
  { subst file. split.
    - unfold len in *. rewrite !length_app in Hlen. change (length (fourcc "WEBP")) with 4%nat in Hlen. lia.
    - unfold write_riff_chunk. rewrite Hform, (Z.add_mod 4 (len body) 2), Heven by lia. by rewrite !app_nil_r. }
  destruct Hbl as [Hbl Hchunk]. clear Hfile. subst file. unfold read_animated_webp. rewrite read_write_chunk by (done || lia).
  pose proof (get_range_middle [] (fourcc "WEBP") body 0 4 eq_refl eq_refl) as Hf. cbn [app] in Hf.
  pose proof (get_range_middle (fourcc "WEBP") body [] 4 (len (fourcc "WEBP" ++ body)) eq_refl) as Hb.
  rewrite app_nil_r in Hb. rewrite Hf, Hb by done. cbn [mbind option_bind].
  rewrite !bool_decide_true by done. cbn [negb orb].
  pose proof (body_chunks chunks Hnames : len body < _ → read_chunks (length body) body = _) as Hread.
  rewrite Hread by lia.
  unfold chunks at 1. cbn [mbind option_bind]. rewrite !bool_decide_true by done. cbn [negb orb].
  rewrite (proj2 (forallb_forall _ _)).
  2: { intros c Hc. apply List.in_map_iff in Hc as (p & <- & _). by apply bool_decide_true. }
  cbn [negb]. destruct (read_vp8x w h Hw Hh) as (Hflags & Hrw & Hrh). fold vp8x in Hflags, Hrw, Hrh.
  rewrite Hflags, Hrw, Hrh. unfold anim.
  assert (read_at true ([x00; x00; x00; x00] ++ to_le_bytes 2 0) 4 6 = Some 0) as -> by done.
  assert (((λ p : list byte, (fourcc "ANMF", p)) <$> ps).*2 = ps) as ->
    by (rewrite <- list_fmap_compose; apply list_fmap_id).
  cbn [mbind option_bind]. rewrite Hrfs. cbn. do 5 f_equal; lia.
Qed.

(** C30. What is written is a RIFF file that reads back as the animation it was made
    from: the canvas of the first frame, an endless loop, and every frame in
    order, whole, with its own delay and bitstream. *)
Theorem encode_animated_webp_roundtrip frames out ct :
  Forall (λ f, 0 ≤ delay_ms f) frames →
  encode_animated_webp encode_frame frames = Ok (out, ct) → len out < 2 ^ 32 →
  ct = "image/webp"
  ∧ ∃ w h rfs, read_animated_webp out = Some (w, h, [byte_of_val 18], 0, rfs)
               ∧ Forall2 (shows w h) frames rfs.
Proof. apply animated_webp_reads_back. Qed.
End Roundtrip.

Definition example_frame (duration : Z) : Frame := mk_Frame 2 1 [x01] (duration, 1).
Definition example_encoder (raw : list byte) (w h : Z) : option (list byte) :=
  Some (replicate 12 x00 ++ fourcc "VP8L" ++ to_le_bytes 4 (len raw) ++ raw ++ [x00]).

Lemma encode_animated_webp_roundtrip_witness :
  match encode_animated_webp example_encoder [example_frame 100; example_frame 40] with
  | Ok (out, _) => ∃ w h rfs, read_animated_webp out = Some (w, h, [byte_of_val 18], 0, rfs)
                     ∧ Forall2 (shows example_encoder w h) [example_frame 100; example_frame 40] rfs
  | Err _ => False
  end.
Proof.
  pose proof (encode_animated_webp_roundtrip example_encoder [example_frame 100; example_frame 40]) as H.
  destruct (encode_animated_webp example_encoder [example_frame 100; example_frame 40])
    as [[out ct]|e] eqn:Hout; [|vm_compute in Hout; discriminate].
  refine (proj2 (H out ct _ eq_refl _)).
  - by repeat constructor.
  - vm_compute in Hout. injection Hout as <- _. reflexivity.
Defined.
