(* ===== verification/Sniff.v ===== *)
(** * Format detection and decode limits of [src/services/image/handler.rs]

[detect_format_from_bytes], [is_avif], [build_decode_limits],
[estimate_output_size] and the CMYK conversion of [decode_jpeg_pixels]. *)
From S2P Require Import Prelude RustStr SourceGuard RustFloat Params CacheKey KeyValidation Errors Performance Geometry Encoding.

Local Open Scope Z_scope.

(** ** Detection *)

(** [image::ImageFormat], the formats the code names. *)
Module Codec.
Inductive Codec := Jpeg | Png | Gif | WebP | Avif.
End Codec.
Abbreviation Codec := Codec.Codec.

#[export] Instance codec_eq_dec : EqDecision Codec.
Proof. solve_decision. Defined.

(** [&bytes[a..a + n]], where the code has checked that it is inside. *)
Definition window (bytes : list byte) (a n : nat) : list byte := take n (drop a bytes).

Definition ascii_bytes (s : string) : list byte := list_byte_of_string s.

Definition avif_brand (brand : list byte) : bool :=
  bool_decide (brand = ascii_bytes "avif") || bool_decide (brand = ascii_bytes "avis").

(** The [while] loop over the compatible brands. *)
Fixpoint scan_brands (fuel : nat) (bytes : list byte) (scan_end : Z) (offset : nat) : bool :=
  match fuel with
  | O => false
  | S fuel' =>
      if Z.of_nat offset + 4 <=? scan_end then
        if avif_brand (window bytes offset 4) then true
        else scan_brands fuel' bytes scan_end (offset + 4)
      else false
  end.

Definition is_avif (bytes : list byte) : bool :=
  if (length bytes <? 12)%nat || negb (bool_decide (window bytes 4 4 = ascii_bytes "ftyp")) then false
  else
    let box_size := Encoding.from_be (window bytes 0 4) in
    let scan_end := Z.min box_size (len bytes) in
    if avif_brand (window bytes 8 4) then true
    else scan_brands (length bytes) bytes scan_end 16.

Definition detect_format_from_bytes (bytes : list byte) : option Codec :=
  if (length bytes <? 12)%nat then None
  else
    let magic := window bytes 0 4 in
    if bool_decide (take 3 magic = [xff; xd8; xff]) then Some Codec.Jpeg
    else if bool_decide (magic = [x89; x50; x4e; x47]) then Some Codec.Png
    else if bool_decide (magic = ascii_bytes "GIF8") then Some Codec.Gif
    else if bool_decide (magic = ascii_bytes "RIFF")
            && bool_decide (window bytes 8 4 = ascii_bytes "WEBP")
    then Some Codec.WebP
    else if is_avif bytes then Some Codec.Avif else None.

(** An ISOBMFF file whose [ftyp] box names an AVIF brand: as its major brand,
    or as one of the compatible brands inside the box. *)
Definition names_avif (bytes : list byte) : Prop :=
  (12 ≤ length bytes)%nat ∧ window bytes 4 4 = ascii_bytes "ftyp"
  ∧ ∃ offset : nat, avif_brand (window bytes offset 4) = true
      ∧ (offset = 8%nat
         ∨ ∃ k : nat, offset = (16 + 4 * k)%nat
             ∧ Z.of_nat offset + 4 ≤ Z.min (Encoding.from_be (window bytes 0 4)) (len bytes)).

Lemma scan_brands_spec fuel bytes scan_end offset :
  scan_end ≤ Z.of_nat offset + 4 * Z.of_nat fuel →
  scan_brands fuel bytes scan_end offset = true ↔
  ∃ k : nat, avif_brand (window bytes (offset + 4 * k) 4) = true
             ∧ Z.of_nat (offset + 4 * k) + 4 ≤ scan_end.
Proof.
  revert offset. induction fuel as [|fuel IH]; intros offset Hfuel; cbn [scan_brands].
  { split; [done|]. intros (k & _ & Hk). lia. }
  destruct (Z.leb_spec (Z.of_nat offset + 4) scan_end) as [Hin|Hout].
  2: { split; [done|]. intros (k & _ & Hk). lia. }
  destruct (avif_brand (window bytes offset 4)) eqn:Hb.
  - split; [|done]. intros _. exists 0%nat. rewrite Nat.mul_0_r, Nat.add_0_r. by split.
  - rewrite IH by lia. split; intros (k & Hk & Hend).
    + exists (S k). replace (offset + 4 * S k)%nat with (offset + 4 + 4 * k)%nat by lia. by split.
    + destruct k as [|k]; [rewrite Nat.mul_0_r, Nat.add_0_r in Hk; congruence|].
      exists k. replace (offset + 4 + 4 * k)%nat with (offset + 4 * S k)%nat by lia. by split.
Qed.

Lemma is_avif_names bytes : is_avif bytes = true ↔ names_avif bytes.
Proof.
  unfold is_avif, names_avif. destruct (Nat.ltb_spec (length bytes) 12) as [Hs|Hs]; cbn [orb].
  { split; [done|]. intros (? & _). lia. }
  destruct (decide (window bytes 4 4 = ascii_bytes "ftyp")) as [Hf|Hf];
    [rewrite bool_decide_true by done|rewrite bool_decide_false by done; split; [done|by intros (_ & ? & _)]].
  cbn [negb]. destruct (avif_brand (window bytes 8 4)) eqn:Hmajor.
  { split; [|done]. intros _. split_and!; [done|done|]. exists 8%nat. split; [done|]. by left. }
  rewrite scan_brands_spec by (unfold len; lia). split.
  - intros (k & Hk & Hend). split_and!; [done|done|]. exists (16 + 4 * k)%nat. split; [done|].
    right. by exists k.
  - intros (_ & _ & offset & Hb & [->|(k & -> & Hend)]); [congruence|]. by exists k.
Qed.

(** The signature of a format. *)
Definition signature (bytes : list byte) (format : Codec) : Prop :=
  match format with
  | Codec.Jpeg => window bytes 0 3 = [xff; xd8; xff]
  | Codec.Png => window bytes 0 4 = [x89; x50; x4e; x47]
  | Codec.Gif => window bytes 0 4 = ascii_bytes "GIF8"
  | Codec.WebP => window bytes 0 4 = ascii_bytes "RIFF" ∧ window bytes 8 4 = ascii_bytes "WEBP"
  | Codec.Avif => names_avif bytes
  end.

(** Magic bytes other than AVIF's exclude each other. *)
Lemma signature_unique bytes f g :
  f ≠ Codec.Avif → g ≠ Codec.Avif → signature bytes f → signature bytes g → f = g.
Proof.
  assert (H3 : window bytes 0 3 = take 3 (window bytes 0 4)) by (unfold window; by rewrite take_take).
  destruct f, g; cbn; rewrite ?H3; intros ?? Hf Hg; try done; destruct_and?;
    repeat match goal with H : _ = _ |- _ => rewrite H in * end; discriminate.
Qed.

(** A source of at least twelve bytes is recognised by its signature, and
    signatures exclude each other but for an AVIF box whose size happens to
    spell another one, which then wins; brands past the end of the box or of
    the buffer do not make a source AVIF. *)
Theorem detect_format_spec bytes format :
  detect_format_from_bytes bytes = Some format ↔
  (12 ≤ length bytes)%nat ∧ signature bytes format
  ∧ (format = Codec.Avif → ∀ other, other ≠ Codec.Avif → ¬ signature bytes other).
Proof.
  unfold detect_format_from_bytes. destruct (Nat.ltb_spec (length bytes) 12) as [Hs|Hs].
  { split; [done|]. intros (? & _). lia. }
  assert (H3 : take 3 (window bytes 0 4) = window bytes 0 3) by (unfold window; by rewrite take_take).
  cbv zeta. rewrite H3.
  assert (Hmagic : ∀ f, f ≠ Codec.Avif → signature bytes f →
    Some f = Some format ↔ (12 ≤ length bytes)%nat ∧ signature bytes format
      ∧ (format = Codec.Avif → ∀ other, other ≠ Codec.Avif → ¬ signature bytes other)).
  { intros f Hf Hsig. split; [by intros [= <-]|]. intros (_ & Hsig' & Hav). f_equal.
    destruct (decide (format = Codec.Avif)) as [->|Hne]; [by destruct (Hav eq_refl f)|].
    by apply (signature_unique bytes). }
  destruct (bool_decide_reflect (window bytes 0 3 = [xff; xd8; xff])) as [Hj|Hj];
    [by apply (Hmagic Codec.Jpeg)|].
  destruct (bool_decide_reflect (window bytes 0 4 = [x89; x50; x4e; x47])) as [Hp|Hp];
    [by apply (Hmagic Codec.Png)|].
  destruct (bool_decide_reflect (window bytes 0 4 = ascii_bytes "GIF8")) as [Hg|Hg];
    [by apply (Hmagic Codec.Gif)|].
  destruct (bool_decide _ && bool_decide _) eqn:Hw.
  { apply andb_true_iff in Hw as [Hr Hw]. apply bool_decide_eq_true in Hr, Hw.
    by apply (Hmagic Codec.WebP). }
  assert (Hnone : ∀ other, other ≠ Codec.Avif → ¬ signature bytes other).
  { intros other Ho Hsig. destruct other; cbn in Hsig; try done.
    destruct Hsig as [Hr Hw']. by rewrite !bool_decide_true in Hw by done. }
  clear Hmagic. destruct (is_avif bytes) eqn:Ha.
  - apply is_avif_names in Ha. split; [by intros [= <-]|]. intros (_ & Hsig & _).
    destruct (decide (format = Codec.Avif)) as [->|Hne]; [done|by destruct (Hnone format)].
  - split; [done|]. intros (_ & Hsig & _).
    destruct (decide (format = Codec.Avif)) as [->|Hne]; [|by destruct (Hnone format)].
    apply is_avif_names in Hsig. congruence.
Qed.

(** ** Decode limits *)

Record Limits := mk_Limits {
  max_image_width : Z;
  max_image_height : Z;
  max_alloc : Z;
}.

(** [a.saturating_mul(b)] on [u64]. *)
Definition saturating_mul (a b : Z) : Z := Z.min (a * b) u64_max.

Definition build_decode_limits (max_src_resolution_mp : Z) : Limits :=
  let max_pixels := saturating_mul max_src_resolution_mp 1000000 in
  let max_bytes := saturating_mul (saturating_mul max_pixels 4) 2 in
  mk_Limits 65535 65535 (Z.max max_bytes (64 * 1024 * 1024)).

(** A source the resolution check admits can be decoded to RGBA: at four bytes
    a pixel it leaves the decoder room to spare - twice over for all but the
    last million pixels. *)
Theorem decode_limits_admit_checked_sources w h mp :
  0 ≤ mp → mp * 8000000 ≤ u64_max → 0 ≤ w → 0 ≤ h →
  check_source_resolution w h mp = Ok () →
  w * h * 4 ≤ max_alloc (build_decode_limits mp)
  ∧ w * h * 8 < max_alloc (build_decode_limits mp) + 8000000.
Proof.
  intros Hmp Hsmall Hw Hh. unfold check_source_resolution. destruct (Z.leb_spec (w * h) u64_max); [|done].
  cbn [ok_or mbind result_bind]. destruct (Z.ltb_spec mp (w * h / 1000000)) as [|Hpix]; [done|]. intros _.
  assert (w * h < (mp + 1) * 1000000).
  { pose proof (Z.div_mod (w * h) 1000000 ltac:(lia)). pose proof (Z.mod_pos_bound (w * h) 1000000 ltac:(lia)).
    lia. }
  unfold build_decode_limits, saturating_mul. cbn [max_alloc].
  rewrite (Z.min_l (mp * 1000000)), (Z.min_l (mp * 1000000 * 4)), (Z.min_l (mp * 1000000 * 4 * 2)) by lia. lia.
Qed.

Lemma decode_limits_admit_checked_sources_witness :
  8000 * 6000 * 4 ≤ max_alloc (build_decode_limits 50).
Proof.
  refine (proj1 (decode_limits_admit_checked_sources 8000 6000 50 _ _ _ _ _));
    try (vm_compute; discriminate). reflexivity.
Defined.

(** [width * height] in [usize]; the estimates of [estimate_output_size]. *)
Definition estimate_output_size (width height : Z) (format : Codec) : Z :=
  let pixels := if width * height <=? usize_max then width * height else usize_max in
  let times n := if pixels * n <=? usize_max then pixels * n else usize_max in
  match format with
  | Codec.Jpeg => pixels / 2
  | Codec.Png => times 4
  | Codec.WebP => pixels / 3
  | _ => times 3
  end.

(** ** CMYK *)

(** One pixel of [decode_jpeg_pixels]'s conversion; the products are [u32] and
    the quotients are cut to [u8]. *)
Definition cmyk_channel (ink black : Z) : Z := (255 - ink) * (255 - black) / 255 mod 256.

Definition cmyk_to_rgb (p : Z * Z * Z * Z) : Rgb :=
  let '(c, m, y, k) := p in (cmyk_channel c k, cmyk_channel m k, cmyk_channel y k).

(** Nothing is cut: a channel is the light both inks let through, rounded down,
    so no ink is white, full black is black, and more ink is never lighter. *)
Theorem cmyk_channel_spec ink black :
  u8_valid ink → u8_valid black →
  cmyk_channel ink black = (255 - ink) * (255 - black) / 255
  ∧ u8_valid (cmyk_channel ink black)
  ∧ (∀ ink' black', ink ≤ ink' → black ≤ black' → u8_valid ink' → u8_valid black' →
       cmyk_channel ink' black' ≤ cmyk_channel ink black)
  ∧ cmyk_channel ink 255 = 0 ∧ cmyk_channel ink 0 = 255 - ink.
Proof.
  assert (Heq : ∀ i k, u8_valid i → u8_valid k → cmyk_channel i k = (255 - i) * (255 - k) / 255
                       ∧ 0 ≤ cmyk_channel i k ≤ 255 - i).
  { unfold cmyk_channel, u8_valid, in_uint, u8_max. intros i k Hi Hk.
    assert (0 ≤ (255 - i) * (255 - k) / 255 ≤ 255 - i).
    { split; [apply Z.div_pos; nia|]. apply Z.div_le_upper_bound; nia. }
    rewrite Z.mod_small by lia. done. }
  intros Hi Hk. destruct (Heq ink black Hi Hk) as [He Hr].
  unfold u8_valid, in_uint, u8_max in *. split_and!; [done|lia|lia| | |].
  - intros i' k' Hii Hkk Hi' Hk'. destruct (Heq i' k' Hi' Hk') as [-> _]. rewrite He.
    apply Z.div_le_mono; nia.
  - destruct (Heq ink 255 Hi ltac:(lia)) as [-> _]. by rewrite Z.mul_0_r.
  - destruct (Heq ink 0 Hi ltac:(lia)) as [-> _]. by rewrite Z.sub_0_r, Z.div_mul.
Qed.

Lemma cmyk_channel_spec_witness : cmyk_channel 100 50 = 124 ∧ cmyk_channel 100 255 = 0.
Proof.
  destruct (cmyk_channel_spec 100 50) as (H & _ & _ & H0 & _); [done|done|].
  split; [exact H|exact H0].
Defined.
