(* ===== verification/Images.v ===== *)
(** * Images: the geometry stages of [src/services/image/handler.rs]

Resizing, cropping, rotating, canvas growth and watermarking of decoded
images.  Pixel storage and kernels are the [image] and [fast_image_resize]
crates': a class of operations, with what the code relies on as its laws. A
pixel operation of the crates is taken to return; a decoder may fail or
panic. *)
From S2P Require Import Prelude RustStr SourceGuard RustFloat FloatError Params CacheKey KeyValidation Errors Performance Geometry Raster AvifMeta.

Local Open Scope Z_scope.

(** ** Failure

A call fails with an error or unwinds with a payload, of which only text is
kept. *)
Inductive Fault :=
  | Failed (e : AnyhowError)
  | Panicked (payload : option string).

Abbreviation Exec := (result Fault).

(** [anyhow::bail!] and [.context] *)
Definition bail {A} (msg : string) : Exec A := Err (Failed (EMessage msg)).
Definition with_context {A} (msg : string) : Exec A → Exec A :=
  map_err (λ f, match f with Failed e => Failed (EContext msg e) | Panicked p => Panicked p end).

(** [catch_unwind(f).unwrap_or_else(..)]: the payload's text, or [what] panicked
    with something else. *)
Definition catch_unwind {A} (prefix no_text : string) (r : Exec A) : Exec A :=
  match r with
  | Err (Panicked payload) => bail (prefix +:+ default no_text payload)
  | _ => r
  end.

Lemma with_context_Ok {A} msg (r : Exec A) a : with_context msg r = Ok a ↔ r = Ok a.
Proof. by destruct r as [|[]]. Qed.

Lemma catch_unwind_Ok {A} prefix no_text (r : Exec A) a :
  catch_unwind prefix no_text r = Ok a ↔ r = Ok a.
Proof. by destruct r as [|[]]. Qed.

(** ** The crates *)

Inductive ColorType := L8 | La8 | Rgb8 | Rgba8 | L16 | La16 | Rgb16 | Rgba16 | Rgb32F | Rgba32F.

(** [ColorType::has_alpha] *)
Definition color_has_alpha (c : ColorType) : bool :=
  match c with La8 | Rgba8 | La16 | Rgba16 | Rgba32F => true | _ => false end.

(** [image::imageops::FilterType] and [fir::ResizeAlg]. *)
Inductive FilterType := Nearest | Triangle | CatmullRom | Gaussian | Lanczos3.
Inductive FirFilter := FirBilinear | FirCatmullRom | FirGaussian | FirLanczos3.
Inductive ResizeAlg := FirNearest | Convolution (f : FirFilter).

(** [DynamicImage]: [resample img w h alg] is [DynamicImage::new(w, h,
    img.color())] filled by [Resizer::resize], or its error; [from_raw] takes
    samples of the colour type's channels. *)
Class ImageCrate (Im : Type) := {
  dimensions : Im → Z * Z;
  color : Im → ColorType;
  from_raw : ColorType → Z → Z → list Z → option Im;
  ImageRgba8 : RgbaImage → Im;
  ImageRgb8 : RgbaImage → Im;
  to_rgba8 : Im → RgbaImage;
  to_rgb8 : Im → RgbaImage;
  crop_imm : Im → Z → Z → Z → Z → Im;
  resample : Im → Z → Z → ResizeAlg → result string Im;
  rotate90 : Im → Im;
  rotate180 : Im → Im;
  rotate270 : Im → Im;
  fliph : Im → Im;
  flipv : Im → Im;
  grayscale : Im → Im;
  blur : Im → spec_float → Im;
  apply_orientation : Orientation → Im → Im;
  overlay_rgba : RgbaImage → RgbaImage → Z → Z → RgbaImage;
  overlay_rgb : RgbaImage → RgbaImage → Z → Z → RgbaImage;
  load_from_memory : list byte → Exec Im;
}.

Definition has_alpha `{ImageCrate Im} (img : Im) : bool := color_has_alpha (color img).

(** [theta.sin_cos()] is the platform's. *)
Definition SinCos : Type := spec_float → spec_float * spec_float.

Section Stages.
Context `{ImageCrate Im} (sin_cos : SinCos).

(** ** Resampling *)

Definition fir_resize_alg (filter : FilterType) : ResizeAlg :=
  match filter with
  | Nearest => FirNearest
  | Triangle => Convolution FirBilinear
  | CatmullRom => Convolution FirCatmullRom
  | Gaussian => Convolution FirGaussian
  | Lanczos3 => Convolution FirLanczos3
  end.

Definition fir_resize_exact (img : Im) (nwidth nheight : Z) (filter : FilterType) : Exec Im :=
  let nwidth := Z.max nwidth 1 in
  let nheight := Z.max nheight 1 in
  if bool_decide ((nwidth, nheight) = dimensions img) then Ok img
  else
    match resample img nwidth nheight (fir_resize_alg filter) with
    | Ok dst => Ok dst
    | Err e => bail ("fast_image_resize failed for " +:+ uint_to_string nwidth +:+ "x"
                       +:+ uint_to_string nheight +:+ ": " +:+ e)
    end.

Definition fir_resize (img : Im) (nwidth nheight : Z) (filter : FilterType) : Exec Im :=
  if bool_decide ((nwidth, nheight) = dimensions img) then Ok img
  else
    let '(width2, height2) :=
      resize_dimensions (dimensions img).1 (dimensions img).2 nwidth nheight false in
    fir_resize_exact img width2 height2 filter.

Definition fir_resize_to_fill (img : Im) (nwidth nheight : Z) (filter : FilterType) (gravity : Gravity)
  : Exec Im :=
  let '(width2, height2) :=
    resize_dimensions (dimensions img).1 (dimensions img).2 nwidth nheight true in
  intermediate ← fir_resize_exact img width2 height2 filter;
  let '(iwidth, iheight) := dimensions intermediate in
  let '(x, y) := gravity_anchor gravity iwidth iheight nwidth nheight in
  Ok (crop_imm intermediate x y nwidth nheight).

(** ** Cropping, trimming, turning *)

Definition apply_crop (img : Im) (crop : Crop) : Im :=
  let '(src_width, src_height) := dimensions img in
  let '(x, y, w, h) := crop_rectangle crop src_width src_height in
  crop_imm img x y w h.

Definition apply_trim (img : Im) (trim : TrimOptions) : Im :=
  match trim_rectangle (to_rgba8 img) trim with
  | None => img
  | Some (x, y, w, h) => crop_imm img x y w h
  end.

Definition apply_rotate (img : Im) (degrees : Z) : Im :=
  match degrees mod 360 with
  | 90 => rotate90 img
  | 180 => rotate180 img
  | 270 => rotate270 img
  | _ => img
  end.

Definition apply_flip (img : Im) (horizontal vertical : bool) : Im :=
  let img := if horizontal then fliph img else img in
  if vertical then flipv img else img.

(** ** Growing the canvas *)

(** [RgbaImage::from_pixel]. *)
Definition filled (w h : Z) (p : Rgba) : RgbaImage := mk_RgbaImage w h (λ _ _, p).

Definition embed_on_background (img : Im) (new_w new_h off_x off_y : Z) (background : Rgb) : Im :=
  if has_alpha img
  then ImageRgba8 (overlay_rgba (filled new_w new_h (background, 255)) (to_rgba8 img) off_x off_y)
  else ImageRgb8 (overlay_rgb (filled new_w new_h (background, 255)) (to_rgb8 img) off_x off_y).

Definition apply_extend (img : Im) (target_w target_h : Z) (background : Rgb) : Im :=
  let '(w, h) := dimensions img in
  if (target_w <=? w) && (target_h <=? h) then img
  else
    let new_w := Z.max w target_w in
    let new_h := Z.max h target_h in
    embed_on_background img new_w new_h ((new_w - w) / 2) ((new_h - h) / 2) background.

(** [u32::saturating_add] *)
Definition saturating_add (a b : Z) : Z := Z.min (a + b) u32_max.

Definition apply_padding (img : Im) (padding : Padding) (background : Rgb) : Im :=
  let '(w, h) := dimensions img in
  let new_w := saturating_add (saturating_add w (pad_left padding)) (pad_right padding) in
  let new_h := saturating_add (saturating_add h (pad_top padding)) (pad_bottom padding) in
  embed_on_background img new_w new_h (pad_left padding) (pad_top padding) background.

(** ** The resize stage *)

Definition resize_stage (img : Im) (effective_width effective_height : option Z) (filter : FilterType)
    (params : ResizeQuery) (src_width src_height : Z) : Exec Im :=
  match effective_width, effective_height with
  | Some w, None => fir_resize img w u32_max filter
  | None, Some h => fir_resize img u32_max h filter
  | Some w, Some h =>
      match rq_resize_type params with
      | ResizeType.Fit => fir_resize img w h filter
      | ResizeType.Fill => fir_resize_to_fill img w h filter (rq_gravity params)
      | ResizeType.Force => fir_resize_exact img w h filter
      | ResizeType.Auto =>
          if auto_fills src_width src_height w h
          then fir_resize_to_fill img w h filter (rq_gravity params)
          else fir_resize img w h filter
      end
  | None, None => Ok img
  end.

(** What follows it: turn, mirror, filters. *)
Definition filter_stage (img : Im) (params : ResizeQuery) : Im :=
  let img := apply_rotate img (rq_rotate params) in
  let img := apply_flip img (rq_flip_horizontal params) (rq_flip_vertical params) in
  let img := match rq_grayscale params with Some true => grayscale img | _ => img end in
  match rq_blur_sigma params with
  | Some sigma => if f_gt sigma f32_zero then blur img sigma else img
  | None => img
  end.

Definition resize_and_filter (img : Im) (effective_width effective_height : option Z)
    (filter : FilterType) (params : ResizeQuery) (src_width src_height : Z) : Exec Im :=
  img ← resize_stage img effective_width effective_height filter params src_width src_height;
  Ok (filter_stage img params).

(** ** Watermarks *)

(** [x % 360.0], exact: an integer multiple of a power of two. *)
Definition f64_rem_360 (x : spec_float) : spec_float :=
  match x with
  | S754_finite s m e =>
      let r := if 0 <=? e then Zpos m * 2 ^ e mod 360 else Zpos m mod (360 * 2 ^ (- e)) in
      binary_normalize 53 1024 (cond_Zopp s r) (Z.min e 0) s
  | S754_zero _ => x
  | _ => S754_nan
  end.

Definition f64_360 : spec_float := S754_finite false 6333186975989760 (-44).

(** [x.rem_euclid(360.0)] and [x.to_radians()]: a multiplication by the
    constant [PI / 180]. *)
Definition f64_rem_euclid_360 (x : spec_float) : spec_float :=
  let r := f64_rem_360 x in if f_lt r f64_zero then f64_add r f64_360 else r.
Definition to_radians (x : spec_float) : spec_float :=
  f64_mul x (S754_finite false 5030569068109113 (-58)).

(** [x.floor()] *)
Definition f64_floor (x : spec_float) : spec_float :=
  match x with
  | S754_finite false m e => f64_of_uint (floor_mag m e)
  | S754_finite true m e => f64_of_uint (- ceil_mag m e)
  | _ => x
  end.

(** [f64::MAX], [f64::MIN], [0.5] and [EPSILON]. *)
Definition f64_MAX : spec_float := S754_finite false 9007199254740991 971.
Definition f64_MIN : spec_float := S754_finite true 9007199254740991 971.
Definition f64_half_px : spec_float := S754_finite false 4503599627370496 (-53).
Definition EPSILON : spec_float := S754_finite false 4835703278458517 (-82).

(** The extent of the four rotated corners on one axis: its least and its
    greatest coordinate. *)
Definition extent (coordinates : list spec_float) : spec_float * spec_float :=
  (fold_left f_min coordinates f64_MAX, fold_left f_max coordinates f64_MIN).

Definition canvas_size (bounds : spec_float * spec_float) : Z :=
  Z.max 1 (ceil_as_uint u32_max (f64_sub (f64_sub bounds.2 bounds.1) EPSILON)).

(** [f_ge]/[f_lt] guard the cast of a floored coordinate to an index. *)
Definition rotate_rgba (img : RgbaImage) (degrees : spec_float) : RgbaImage :=
  let width := img_width img in
  let height := img_height img in
  if (width =? 0) || (height =? 0) then img
  else
    let normalized_degrees := f64_rem_euclid_360 (f64_of_f32 degrees) in
    if f_eq normalized_degrees f64_zero then img
    else
      let '(sin_t, cos_t) := sin_cos (to_radians normalized_degrees) in
      let fw := f64_of_uint width in
      let fh := f64_of_uint height in
      let cx := f64_div fw f64_two in
      let cy := f64_div fh f64_two in
      let rotated :=
        (λ '(px, py),
          let dx := f64_sub px cx in
          let dy := f64_sub py cy in
          (f64_sub (f64_mul dx cos_t) (f64_mul dy sin_t),
           f64_add (f64_mul dx sin_t) (f64_mul dy cos_t)))
        <$> [(f64_zero, f64_zero); (fw, f64_zero); (f64_zero, fh); (fw, fh)] in
      let new_width := canvas_size (extent rotated.*1) in
      let new_height := canvas_size (extent rotated.*2) in
      let new_cx := f64_div (f64_of_uint new_width) f64_two in
      let new_cy := f64_div (f64_of_uint new_height) f64_two in
      mk_RgbaImage new_width new_height (λ out_x out_y,
        let dx := f64_sub (f64_add (f64_of_uint out_x) f64_half_px) new_cx in
        let dy := f64_sub (f64_add (f64_of_uint out_y) f64_half_px) new_cy in
        let src_x := f64_add (f64_add (f64_mul dx cos_t) (f64_mul dy sin_t)) cx in
        let src_y := f64_add (f64_add (f64_mul (SFopp dx) sin_t) (f64_mul dy cos_t)) cy in
        let src_ix := f64_floor src_x in
        let src_iy := f64_floor src_y in
        if f_ge src_ix f64_zero && f_ge src_iy f64_zero && f_lt src_ix fw && f_lt src_iy fh
        then get_pixel img (floor_as_uint u32_max src_ix) (floor_as_uint u32_max src_iy)
        else (0, 0, 0, 0)).

Definition build_shadow_layer (watermark : RgbaImage) (sigma : spec_float) : RgbaImage :=
  to_rgba8 (blur (ImageRgba8 (shadow_silhouette watermark)) sigma).

(** The box the watermark is fitted into, if it is resized at all. *)
Definition watermark_box (wm : WatermarkQuery) (base_width base_height : Z) : option (Z * Z) :=
  match (match wm_size wm with
         | Some (w, h) => if (0 <? w) || (0 <? h) then Some (w, h) else None
         | None => None
         end) with
  | Some (w, h) =>
      Some (if w =? 0 then (u32_max, h) else if h =? 0 then (w, u32_max) else (w, h))
  | None =>
      if f_gt (wm_scale wm) f32_zero then
        let scaled n :=
          round_max1_as_uint u32_max (f64_mul (f64_of_uint n) (f64_of_f32 (wm_scale wm))) in
        Some (scaled base_width, scaled base_height)
      else None
  end.

Definition apply_watermark (base : Im) (watermark_bytes : list byte) (wm : WatermarkQuery) : Exec Im :=
  watermark_img ← with_context "Failed to decode watermark image" (load_from_memory watermark_bytes);
  let '(base_width, base_height) := dimensions base in
  watermark_img ←
    match watermark_box wm base_width base_height with
    | Some (target_w, target_h) => fir_resize watermark_img target_w target_h Lanczos3
    | None => Ok watermark_img
    end;
  let watermark_rgba := to_rgba8 watermark_img in
  let watermark_rgba :=
    if negb (f_eq (wm_rotate wm) f32_zero) then rotate_rgba watermark_rgba (wm_rotate wm)
    else watermark_rgba in
  let '(x, y) :=
    watermark_position (wm_position wm) (wm_x_offset wm) (wm_y_offset wm) base_width base_height
      (img_width watermark_rgba) (img_height watermark_rgba) in
  let canvas := to_rgba8 base in
  let opacity := f_clamp f32_zero f32_one (wm_opacity wm) in
  let canvas :=
    match wm_shadow wm with
    | Some sigma =>
        if f_gt sigma f32_zero
        then composite_over canvas (build_shadow_layer watermark_rgba sigma) x y f32_one
        else canvas
    | None => canvas
    end in
  Ok (ImageRgba8 (composite_over canvas watermark_rgba x y opacity)).
End Stages.

(** ** What the crates promise *)

Class ImageLaws (Im : Type) `{ImageCrate Im} : Prop := {
  dimensions_ImageRgba8 i : dimensions (ImageRgba8 i) = (img_width i, img_height i);
  dimensions_ImageRgb8 i : dimensions (ImageRgb8 i) = (img_width i, img_height i);
  has_alpha_ImageRgba8 i : has_alpha (ImageRgba8 i) = true;
  has_alpha_ImageRgb8 i : has_alpha (ImageRgb8 i) = false;
  to_rgba8_ImageRgba8 i : to_rgba8 (ImageRgba8 i) = i;
  to_rgba8_dimensions img : (img_width (to_rgba8 img), img_height (to_rgba8 img)) = dimensions img;
  to_rgb8_dimensions img : (img_width (to_rgb8 img), img_height (to_rgb8 img)) = dimensions img;
  crop_imm_dimensions img x y w h :
    0 ≤ x → 0 ≤ y → 1 ≤ w → 1 ≤ h → x + w ≤ (dimensions img).1 → y + h ≤ (dimensions img).2 →
    dimensions (crop_imm img x y w h) = (w, h);
  crop_imm_alpha img x y w h : has_alpha (crop_imm img x y w h) = has_alpha img;
  resample_dimensions img w h alg dst : resample img w h alg = Ok dst → dimensions dst = (w, h);
  resample_alpha img w h alg dst : resample img w h alg = Ok dst → has_alpha dst = has_alpha img;
  rotate90_dimensions img : dimensions (rotate90 img) = ((dimensions img).2, (dimensions img).1);
  rotate180_dimensions img : dimensions (rotate180 img) = dimensions img;
  rotate270_dimensions img : dimensions (rotate270 img) = ((dimensions img).2, (dimensions img).1);
  fliph_dimensions img : dimensions (fliph img) = dimensions img;
  flipv_dimensions img : dimensions (flipv img) = dimensions img;
  grayscale_dimensions img : dimensions (grayscale img) = dimensions img;
  blur_dimensions img sigma : dimensions (blur img sigma) = dimensions img;
  overlay_rgba_dimensions bottom top x y :
    img_width (overlay_rgba bottom top x y) = img_width bottom
    ∧ img_height (overlay_rgba bottom top x y) = img_height bottom;
  overlay_rgb_dimensions bottom top x y :
    img_width (overlay_rgb bottom top x y) = img_width bottom
    ∧ img_height (overlay_rgb bottom top x y) = img_height bottom;
}.

(** ** Sizes through the stages *)

Section Sizes.
Context `{ImageLaws Im} (sin_cos : SinCos).
Implicit Types img dst : Im.

Lemma fir_resize_exact_dimensions img w h filter dst :
  fir_resize_exact img w h filter = Ok dst → dimensions dst = (Z.max w 1, Z.max h 1).
Proof.
  unfold fir_resize_exact. case_bool_decide as Heq; [by intros [= <-]|].
  destruct (resample _ _ _ _) as [j|e] eqn:Hr; [|done]. intros [= <-]. by eapply resample_dimensions.
Qed.

(** A fit lies in the box and touches it. *)
Lemma fir_resize_dimensions img w h filter dst :
  dim (dimensions img).1 → dim (dimensions img).2 → dim w → dim h →
  fir_resize img w h filter = Ok dst →
  1 ≤ (dimensions dst).1 ≤ w ∧ 1 ≤ (dimensions dst).2 ≤ h
  ∧ ((dimensions dst).1 = w ∨ (dimensions dst).2 = h).
Proof.
  intros Hw Hh Hbw Hbh. unfold fir_resize. case_bool_decide as Heq.
  { intros [= <-]. rewrite <- Heq. unfold dim in *. cbn. lia. }
  destruct (resize_dimensions _ _ _ _ _) as [a b] eqn:Hab. intros Hr%fir_resize_exact_dimensions.
  apply resize_dimensions_fit in Hab; [|done..]. rewrite Hr. cbn. lia.
Qed.

(** A fill is the box, unless scaling to cover it leaves 32 bits. *)
Lemma fir_resize_to_fill_dimensions img w h filter gravity dst :
  dim (dimensions img).1 → dim (dimensions img).2 → dim w → dim h →
  (dimensions img).2 * w ≤ u32_max * (dimensions img).1 →
  (dimensions img).1 * h ≤ u32_max * (dimensions img).2 →
  fir_resize_to_fill img w h filter gravity = Ok dst → dimensions dst = (w, h).
Proof.
  intros Hw Hh Hbw Hbh Hcov1 Hcov2. unfold fir_resize_to_fill.
  destruct (resize_dimensions _ _ _ _ _) as [a b] eqn:Hab. intros. invert_ok.
  apply resize_dimensions_fill in Hab; [|done..]. apply fir_resize_exact_dimensions in H1.
  rewrite H1, !Z.max_l in H2 by (unfold dim in *; lia). destruct (gravity_anchor _ _ _ _ _) as [ax ay] eqn:Ha.
  apply anchored_inside in Ha; [|unfold dim, u32_max in *; lia..]. injection H2 as <-.
  apply crop_imm_dimensions; rewrite ?H1; cbn; unfold dim in *; lia.
Qed.

(** No resize to a box within the image enlarges it, on either axis, a box of
    one side included. *)
Definition no_larger img (d : Z * Z) : Prop :=
  1 ≤ d.1 ≤ (dimensions img).1 ∧ 1 ≤ d.2 ≤ (dimensions img).2.

Lemma fir_resize_shrinks img w h filter dst :
  dim (dimensions img).1 → dim (dimensions img).2 → dim w → dim h →
  w ≤ (dimensions img).1 ∨ h ≤ (dimensions img).2 →
  fir_resize img w h filter = Ok dst → no_larger img (dimensions dst).
Proof.
  intros Hw Hh Hbw Hbh Hle. unfold fir_resize, no_larger. case_bool_decide as Heq.
  { intros [= <-]. unfold dim in *. lia. }
  destruct (resize_dimensions _ _ _ _ _) as [a b] eqn:Hab. intros Hr%fir_resize_exact_dimensions.
  apply resize_dimensions_shrinks in Hab; [|done..]. rewrite Hr. cbn. lia.
Qed.

Lemma fir_resize_to_fill_within img w h filter gravity dst :
  dim (dimensions img).1 → dim (dimensions img).2 → dim w → dim h →
  w ≤ (dimensions img).1 → h ≤ (dimensions img).2 →
  fir_resize_to_fill img w h filter gravity = Ok dst → dimensions dst = (w, h).
Proof. intros ??????. apply fir_resize_to_fill_dimensions; [done..| |]; unfold dim in *; nia. Qed.

Lemma resize_stage_shrinks img ew eh filter params sw sh dst :
  dim (dimensions img).1 → dim (dimensions img).2 →
  (∀ w, ew = Some w → dim w ∧ w ≤ (dimensions img).1) →
  (∀ h, eh = Some h → dim h ∧ h ≤ (dimensions img).2) →
  resize_stage img ew eh filter params sw sh = Ok dst → no_larger img (dimensions dst).
Proof.
  intros Hiw Hih Hew Heh. assert (dim u32_max) by (unfold dim, u32_max; lia).
  unfold resize_stage. destruct ew as [w|], eh as [h|].
  - destruct (Hew w eq_refl) as [Hw Hlew], (Heh h eq_refl) as [Hh Hleh].
    pose proof (fir_resize_shrinks img w h filter dst Hiw Hih Hw Hh (or_introl Hlew)) as Hfit.
    assert (Hfill : fir_resize_to_fill img w h filter (rq_gravity params) = Ok dst →
              no_larger img (dimensions dst))
      by (intros ->%fir_resize_to_fill_within; [unfold no_larger, dim in *; cbn; lia|done..]).
    destruct (rq_resize_type params); auto; [|by destruct (auto_fills _ _ _ _); auto].
    intros Hr%fir_resize_exact_dimensions. rewrite Hr. unfold no_larger, dim in *. cbn. lia.
  - destruct (Hew w eq_refl) as [Hw Hlew]. by apply fir_resize_shrinks; [..|left].
  - destruct (Heh h eq_refl) as [Hh Hleh]. by apply fir_resize_shrinks; [..|right].
  - intros [= <-]. unfold no_larger, dim in *. lia.
Qed.

Lemma apply_rotate_dimensions img degrees :
  degrees mod 90 = 0 →
  dimensions (apply_rotate img degrees) = swap_if (rotate_swaps_axes degrees) (dimensions img).
Proof.
  intros H90. unfold apply_rotate, rotate_swaps_axes.
  assert (degrees mod 360 = 0 ∨ degrees mod 360 = 90 ∨ degrees mod 360 = 180 ∨ degrees mod 360 = 270)
    as Hcases.
  { pose proof (Z.mod_pos_bound degrees 360 ltac:(lia)).
    pose proof (Z.div_mod degrees 360 ltac:(lia)). pose proof (Z.div_mod degrees 90 ltac:(lia)).
    set (k := degrees / 90 - 4 * (degrees / 360)).
    assert (degrees mod 360 = 90 * k) by (unfold k; lia).
    assert (k = 0 ∨ k = 1 ∨ k = 2 ∨ k = 3) by lia. lia. }
  destruct_or! Hcases; rewrite Hcases; cbn.
  - done.
  - apply rotate90_dimensions.
  - apply rotate180_dimensions.
  - apply rotate270_dimensions.
Qed.

Lemma apply_flip_dimensions img hor ver : dimensions (apply_flip img hor ver) = dimensions img.
Proof. unfold apply_flip. destruct hor, ver; by rewrite ?flipv_dimensions, ?fliph_dimensions. Qed.

Lemma filter_stage_dimensions img params :
  rq_rotate params mod 90 = 0 →
  dimensions (filter_stage img params)
  = swap_if (rotate_swaps_axes (rq_rotate params)) (dimensions img).
Proof.
  intros H90. unfold filter_stage. rewrite <- apply_rotate_dimensions by done.
  rewrite <- (apply_flip_dimensions (apply_rotate img _) (rq_flip_horizontal params)
                (rq_flip_vertical params)).
  destruct (rq_grayscale params) as [[]|], (rq_blur_sigma params) as [sigma|];
    try destruct (f_gt sigma f32_zero); by rewrite ?blur_dimensions, ?grayscale_dimensions.
Qed.

Lemma embed_dimensions img w h x y background :
  dimensions (embed_on_background img w h x y background) = (w, h).
Proof.
  unfold embed_on_background. destruct (has_alpha img).
  - rewrite dimensions_ImageRgba8. by destruct (overlay_rgba_dimensions (filled w h (background, 255)) (to_rgba8 img) x y) as [-> ->].
  - rewrite dimensions_ImageRgb8. by destruct (overlay_rgb_dimensions (filled w h (background, 255)) (to_rgb8 img) x y) as [-> ->].
Qed.

Lemma apply_extend_dimensions img w h background :
  dimensions (apply_extend img w h background)
  = (Z.max (dimensions img).1 w, Z.max (dimensions img).2 h).
Proof.
  unfold apply_extend. destruct (dimensions img) as [iw ih] eqn:Hd.
  destruct (_ && _) eqn:Hc; [|apply embed_dimensions].
  rewrite andb_true_iff, !Z.leb_le in Hc. rewrite Hd. cbn. by rewrite !Z.max_l by lia.
Qed.

(** Compositing stays on its canvas. *)
Lemma composite_over_size canvas overlay x y opacity :
  img_width (composite_over canvas overlay x y opacity) = img_width canvas
  ∧ img_height (composite_over canvas overlay x y opacity) = img_height canvas.
Proof.
  assert (Hfold : ∀ (f : RgbaImage → Z → RgbaImage) l i,
    (∀ j k, img_width (f j k) = img_width j ∧ img_height (f j k) = img_height j) →
    img_width (fold_left f l i) = img_width i ∧ img_height (fold_left f l i) = img_height i).
  { intros f l. induction l as [|k l IH]; intros i Hf; cbn [fold_left]; [done|].
    destruct (IH (f i k) Hf) as [-> ->]. apply Hf. }
  unfold composite_over. destruct (f_le _ _); [done|]. apply Hfold. intros j k.
  unfold composite_line. destruct (_ || _); [done|]. apply Hfold. intros j' k'.
  unfold composite_pixel. by destruct (_ || _).
Qed.

Lemma apply_watermark_dimensions base bytes wm out :
  apply_watermark sin_cos base bytes wm = Ok out →
  dimensions out = dimensions base ∧ has_alpha out = true.
Proof.
  unfold apply_watermark. intros. invert_ok.
  destruct (dimensions base) as [bw bh] eqn:Hd. invert_ok.
  destruct (watermark_position _ _ _ _ _ _ _) as [px py]. injection H3 as <-.
  rewrite dimensions_ImageRgba8, has_alpha_ImageRgba8. split; [|done].
  match goal with |- context [composite_over ?c ?o px py ?op] =>
    destruct (composite_over_size c o px py op) as [-> ->] end.
  rewrite <- Hd, <- to_rgba8_dimensions.
  destruct (wm_shadow wm) as [sigma|]; [|done]. destruct (f_gt sigma f32_zero); [|done].
  match goal with |- context [composite_over ?c ?o px py ?op] =>
    by destruct (composite_over_size c o px py op) as [-> ->] end.
Qed.
End Sizes.
