(* ===== verification/Codecs.v ===== *)
(** * Codecs: the decoding and encoding functions of
    [src/services/image/handler.rs] and [src/services/image/avif_codec.rs]

Which decoder a source goes to, with which guards before it, and what each
encoder is told.  The decoders and encoders themselves are the crates': a
decoder is what it answers, call by call, and may fail or panic. *)
From S2P Require Import Prelude RustStr SourceGuard RustFloat FloatError Params CacheKey KeyValidation Errors Performance Geometry Raster AvifMeta Encoding Sniff Images.

Local Open Scope Z_scope.

Abbreviation Codec := Codec.Codec.

(** The failures of the resolution checks as the code words them. *)
Definition geometry_error_to_string (e : GeometryError) : string :=
  match e with
  | AxisTooLarge axis_name bound max =>
      "Requested output dimensions too large: " +:+ axis_name +:+ " " +:+ uint_to_string bound
        +:+ " exceeds maximum " +:+ uint_to_string max
  | SourceTooLarge width height megapixels max =>
      "Source image resolution too large: " +:+ uint_to_string width +:+ "x"
        +:+ uint_to_string height +:+ " (" +:+ uint_to_string megapixels +:+ " MP, max "
        +:+ uint_to_string max +:+ " MP)"
  | SourceOverflow => "Source image dimensions overflow while checking resolution"
  end.

Definition checked {A} : result GeometryError A → Exec A :=
  map_err (λ e, Failed (EMessage (geometry_error_to_string e))).

(** [.context(msg)] on an [Option]. *)
Definition expect {A} (o : option A) (msg : string) : Exec A := ok_or o (Failed (EMessage msg)).

(** ** The decoders *)

(** A decoder of the [image] crate, opened: [.ok()] has been taken of the
    metadata, whose failure the code ignores. *)
Record ImageDecoder (Im : Type) := mk_ImageDecoder {
  decoder_dimensions : Z * Z;
  decoder_total_bytes : Z;
  decoder_set_limits : Limits → bool;
  decoder_orientation : option Orientation;
  decoder_icc_profile : option (option bytes);
  decoder_exif_metadata : option (option bytes);
  decoder_image : Exec Im;
}.
Arguments mk_ImageDecoder {Im}.
Arguments decoder_dimensions {Im}. Arguments decoder_total_bytes {Im}.
Arguments decoder_set_limits {Im}. Arguments decoder_orientation {Im}.
Arguments decoder_icc_profile {Im}. Arguments decoder_exif_metadata {Im}.
Arguments decoder_image {Im}.

(** [jpeg_decoder::PixelFormat] *)
Inductive PixelFormat := PixelL8 | PixelL16 | PixelRGB24 | PixelCMYK32.

(** [avif_decode::Image]: pixels, width and height. *)
Inductive AvifImage :=
  | AvifRgba8 (pixels : list (Z * Z * Z * Z)) (width height : Z)
  | AvifRgb8 (pixels : list (Z * Z * Z)) (width height : Z)
  | AvifGray8 (pixels : list Z) (width height : Z)
  | AvifRgba16 (pixels : list (Z * Z * Z * Z)) (width height : Z)
  | AvifRgb16 (pixels : list (Z * Z * Z)) (width height : Z)
  | AvifGray16 (pixels : list Z) (width height : Z).

Record WebpParams := mk_WebpParams {
  use_lossy : bool;
  lossy_quality : Z;
  webp_set_icc : option bytes;
  webp_set_exif : option bytes;
}.

Record JpegParams := mk_JpegParams {
  jpeg_quality : Z;
  sampling_1_1 : bool;
  progressive_scans : option Z;
  jpeg_add_icc : option bytes;
  jpeg_add_exif : option bytes;
}.

Record AvifParams := mk_AvifParams {
  avif_quality : spec_float;
  avif_alpha_quality : spec_float;
  avif_speed : Z;
  avif_exif : option bytes;
}.

(** [W] is an [image_webp::WebPDecoder], [Jd] a [jpeg_decoder::Decoder], [Ad]
    what [avif_parse::read_avif] gives. *)
Class CodecCrates (Im W Jd Ad : Type) := {
  guess_format : bytes → Exec (option Codec);
  into_decoder : option Codec → Limits → bytes → Exec (ImageDecoder Im);
  into_dimensions : option Codec → bytes → Exec (Z * Z);
  reserve : Limits → Z → option Limits;
  from_exif_chunk : bytes → option Orientation;
  webp_new : bytes → Exec W;
  webp_dimensions : W → Z * Z;
  webp_is_animated : W → bool;
  webp_has_alpha : W → bool;
  webp_num_frames : W → Z;
  set_memory_limit : W → Z → W;
  webp_icc_profile : W → option (option bytes);
  webp_exif_metadata : W → option (option bytes);
  output_buffer_size : W → option Z;
  read_image : W → Z → Exec (list Z);
  read_frame : W → Z → Exec (list Z * Z * W);
  jpeg_new : bytes → Jd;
  jpeg_read_info : Jd → Exec Jd;
  jpeg_info : Jd → option (Z * Z * PixelFormat);
  jpeg_scale : Jd → Z → Z → Exec Jd;
  jpeg_decode : Jd → Exec (list Z * Jd);
  read_avif : bytes → Exec Ad;
  primary_item_metadata : Ad → Exec (Z * Z);
  avif_from_avif : bytes → Exec unit;
  avif_to_image : bytes → Exec AvifImage;
  webp_encode : WebpParams → RgbaImage → Exec bytes;
  png_encode : option bytes → option bytes → Im → Exec bytes;
  jpeg_encode : JpegParams → RgbaImage → Z → Z → Exec bytes;
  ravif_encode_rgba : AvifParams → RgbaImage → Exec (result string bytes);
  write_to : Im → Codec → Exec bytes;
}.

(** The image, its orientation, its colour profile and its EXIF block. *)
Definition DecodedImage (Im : Type) : Type := Im * Orientation * option bytes * option bytes.

Section Codecs.
Context `{ImageCrate Im} `{CodecCrates Im W Jd Ad}.

(** ** The [image] crate's decoders *)

Definition make_reader (image_bytes : bytes) (format : option Codec) : Exec (option Codec) :=
  match format with
  | Some format => Ok (Some format)
  | None => with_context "Failed to detect image format" (guess_format image_bytes)
  end.

(** The allocation guard both users of an [ImageDecoder] carry. *)
Definition reserve_decoder (limits : Limits) (decoder : ImageDecoder Im) : Exec unit :=
  reserved_limits ← expect (reserve limits (decoder_total_bytes decoder)) "Failed to decode image";
  if decoder_set_limits decoder reserved_limits then Ok () else bail "Failed to decode image".

Definition decode_with_image_crate (image_bytes : bytes) (format : option Codec)
    (max_src_resolution_mp : Z) (want_metadata : bool) : Exec (DecodedImage Im) :=
  reader ← make_reader image_bytes format;
  let limits := build_decode_limits max_src_resolution_mp in
  decoder ← with_context "Failed to construct image decoder" (into_decoder reader limits image_bytes);
  _ ← reserve_decoder limits decoder;
  let orientation := default NoTransforms (decoder_orientation decoder) in
  let icc_profile := mjoin (decoder_icc_profile decoder) in
  let exif_metadata := if want_metadata then mjoin (decoder_exif_metadata decoder) else None in
  img ← with_context "Failed to decode image" (decoder_image decoder);
  Ok (img, orientation, icc_profile, exif_metadata).

(** ** WebP *)

Definition read_webp_pixels (decoder : W) : Exec Im :=
  let '(width, height) := webp_dimensions decoder in
  buffer_size ← expect (output_buffer_size decoder)
    "image-webp: image dimensions overflow the output buffer size";
  buf ← with_context "image-webp: failed to decode WebP pixels" (read_image decoder buffer_size);
  if webp_has_alpha decoder
  then expect (from_raw Rgba8 width height buf) "image-webp: decoded RGBA buffer size mismatch"
  else expect (from_raw Rgb8 width height buf) "image-webp: decoded RGB buffer size mismatch".

Definition decode_webp_inner (image_bytes : bytes) (max_src_resolution_mp : Z)
  : Exec (DecodedImage Im) :=
  decoder ← with_context "image-webp: failed to read WebP header" (webp_new image_bytes);
  let '(width, height) := webp_dimensions decoder in
  _ ← checked (check_source_resolution width height max_src_resolution_mp);
  let decoder := set_memory_limit decoder (max_alloc (build_decode_limits max_src_resolution_mp)) in
  let icc_profile := mjoin (webp_icc_profile decoder) in
  let exif_metadata := mjoin (webp_exif_metadata decoder) in
  let orientation := default NoTransforms (exif_metadata ≫= from_exif_chunk) in
  img ← read_webp_pixels decoder;
  Ok (img, orientation, icc_profile, exif_metadata).

Definition decode_webp (image_bytes : bytes) (max_src_resolution_mp : Z) : Exec (DecodedImage Im) :=
  catch_unwind "image-webp decode panicked: " "image-webp decode panicked with a non-string payload"
    (decode_webp_inner image_bytes max_src_resolution_mp).

Definition decode_webp_pixels (image_bytes : bytes) : Exec Im :=
  catch_unwind "image-webp decode panicked: " "image-webp decode panicked with a non-string payload"
    (decoder ← with_context "image-webp: failed to read WebP header" (webp_new image_bytes);
     read_webp_pixels decoder).

(** ** JPEG *)

(** The [chunks] of four samples; a rest of less is dropped. *)
Fixpoint as_chunks4 (samples : list Z) : list (Z * Z * Z * Z) :=
  match samples with
  | c :: m :: y :: k :: rest => (c, m, y, k) :: as_chunks4 rest
  | _ => []
  end.

Definition rgb_samples (p : Rgb) : list Z := let '(r, g, b) := p in [r; g; b].

(** The size [scale] is asked for on one axis: a [u16], not zero. *)
Definition requested_dimension (header_dimension scale_num : Z) : Z :=
  Z.max (Z.min (jpeg_scaled_dimension header_dimension scale_num) u16_max) 1.

Definition jpeg_scaled_decode_inner (image_bytes : bytes) (scale_num : Z) : Exec Im :=
  decoder ← with_context "jpeg-decoder: failed to read JPEG header"
    (jpeg_read_info (jpeg_new image_bytes));
  header_info ← expect (jpeg_info decoder) "jpeg-decoder: missing image info after header read";
  let '(header_width, header_height, _) := header_info in
  decoder ← with_context "jpeg-decoder: failed to configure DCT-scaled decode"
    (jpeg_scale decoder (requested_dimension header_width scale_num)
       (requested_dimension header_height scale_num));
  decoded ← with_context "jpeg-decoder: failed to decode JPEG" (jpeg_decode decoder);
  let '(pixels, decoder) := decoded in
  info ← expect (jpeg_info decoder) "jpeg-decoder: missing image info after decode";
  let '(width, height, pixel_format) := info in
  match pixel_format with
  | PixelL8 =>
      expect (from_raw L8 width height pixels)
        "jpeg-decoder: decoded L8 buffer size did not match reported dimensions"
  | PixelRGB24 =>
      expect (from_raw Rgb8 width height pixels)
        "jpeg-decoder: decoded RGB24 buffer size did not match reported dimensions"
  | PixelCMYK32 =>
      let rgb := concat (rgb_samples ∘ cmyk_to_rgb <$> as_chunks4 pixels) in
      expect (from_raw Rgb8 width height rgb)
        "jpeg-decoder: decoded CMYK32 buffer size did not match reported dimensions"
  | PixelL16 => bail "jpeg-decoder: 16-bit grayscale JPEG is not supported"
  end.

Definition jpeg_scaled_decode (image_bytes : bytes) (scale_num : Z) : Exec Im :=
  catch_unwind "jpeg-decoder decode panicked: " "jpeg-decoder panicked with a non-string payload"
    (jpeg_scaled_decode_inner image_bytes scale_num).

(** The orientations by a quarter turn. *)
Definition swaps_axes (orientation : Orientation) : bool :=
  match orientation with
  | Rotate90 | Rotate270
  | Rotate90FlipH | Rotate270FlipH => true
  | _ => false
  end.

Definition decode_jpeg_scaled (image_bytes : bytes) (max_src_resolution_mp : Z) (params : ResizeQuery)
  : Exec (DecodedImage Im) :=
  reader ← make_reader image_bytes (Some Codec.Jpeg);
  let limits := build_decode_limits max_src_resolution_mp in
  decoder ← with_context "Failed to construct image decoder for header read"
    (into_decoder reader limits image_bytes);
  _ ← reserve_decoder limits decoder;
  let orientation := default NoTransforms (decoder_orientation decoder) in
  let icc_profile := mjoin (decoder_icc_profile decoder) in
  let exif_metadata :=
    if rq_strip_metadata params then None else mjoin (decoder_exif_metadata decoder) in
  let '(header_width, header_height) := decoder_dimensions decoder in
  let axis_swap := rq_autorotate params && swaps_axes orientation in
  let scale_num := jpeg_decode_scale params axis_swap header_width header_height in
  if scale_num =? 8 then
    img ← with_context "Failed to decode image" (decoder_image decoder);
    Ok (img, orientation, icc_profile, exif_metadata)
  else
    img ← jpeg_scaled_decode image_bytes scale_num;
    Ok (img, orientation, icc_profile, exif_metadata).

(** ** AVIF *)

(** [catch_unwind] with [panic_to_error]. *)
Definition catch_panic {A} (what : string) : Exec A → Exec A :=
  catch_unwind (what +:+ " panicked: ") (what +:+ " panicked with a non-string payload").

Definition avif_dimensions (image_bytes : bytes) : Exec (Z * Z) :=
  avif ← with_context "avif-parse: failed to parse AVIF container" (read_avif image_bytes);
  with_context "avif-parse: failed to parse AV1 sequence header" (primary_item_metadata avif).

Definition avif_peek_dimensions (image_bytes : bytes) : Exec (Z * Z) :=
  catch_panic "avif-parse header parse" (avif_dimensions image_bytes).

Definition rgba_samples (p : Rgba) : list Z := let '(r, g, b, a) := p in [r; g; b; a].

(** [u32::try_from] of both dimensions. *)
Definition dims (width height : Z) : Exec (Z * Z) :=
  if u32_max <? width then bail "avif-decode: image width does not fit in u32"
  else if u32_max <? height then bail "avif-decode: image height does not fit in u32"
  else Ok (width, height).

Definition avif_image_to_dynamic (image : AvifImage) : Exec Im :=
  let build color samples width height what :=
    wh ← dims width height;
    expect (from_raw color wh.1 wh.2 samples)
      ("avif-decode: decoded " +:+ what +:+ " buffer size mismatch") in
  match image with
  | AvifRgba8 pixels w h => build Rgba8 (concat (rgba_samples <$> pixels)) w h "RGBA8"
  | AvifRgb8 pixels w h => build Rgb8 (concat (rgb_samples <$> pixels)) w h "RGB8"
  | AvifGray8 pixels w h => build L8 pixels w h "Gray8"
  | AvifRgba16 pixels w h => build Rgba16 (concat (rgba_samples <$> pixels)) w h "RGBA16"
  | AvifRgb16 pixels w h => build Rgb16 (concat (rgb_samples <$> pixels)) w h "RGB16"
  | AvifGray16 pixels w h => build L16 pixels w h "Gray16"
  end.

Definition avif_decode_inner (image_bytes : bytes) (max_src_resolution_mp : Z)
  : Exec (DecodedImage Im) :=
  wh ← avif_dimensions image_bytes;
  _ ← checked (check_source_resolution wh.1 wh.2 max_src_resolution_mp);
  _ ← with_context "avif-decode: failed to parse AVIF container" (avif_from_avif image_bytes);
  decoded ← with_context "avif-decode: failed to decode AV1 frame" (avif_to_image image_bytes);
  dynamic_image ← avif_image_to_dynamic decoded;
  let metadata := parse_avif_meta image_bytes in
  Ok (dynamic_image, am_orientation metadata, None, am_exif metadata).

Definition avif_decode (image_bytes : bytes) (max_src_resolution_mp : Z) : Exec (DecodedImage Im) :=
  catch_panic "avif-decode decode" (avif_decode_inner image_bytes max_src_resolution_mp).

(** ** Dispatch on the detected format *)

Definition peek_dimensions (image_bytes : bytes) (format : option Codec) : Exec (Z * Z) :=
  match format with
  | Some Codec.Avif => avif_peek_dimensions image_bytes
  | Some Codec.WebP =>
      decoder ← with_context "Failed to read WebP header" (webp_new image_bytes);
      Ok (webp_dimensions decoder)
  | _ =>
      reader ← make_reader image_bytes format;
      with_context "Failed to read image dimensions" (into_dimensions reader image_bytes)
  end.

(** A JPEG the scaled decoder fails on is decoded by the [image] crate. *)
Definition decode_with_limits (image_bytes : bytes) (format : option Codec)
    (max_src_resolution_mp : Z) (params : ResizeQuery) : Exec (DecodedImage Im) :=
  match format with
  | Some Codec.WebP => decode_webp image_bytes max_src_resolution_mp
  | Some Codec.Avif => avif_decode image_bytes max_src_resolution_mp
  | _ =>
      let full :=
        decode_with_image_crate image_bytes format max_src_resolution_mp
          (negb (rq_strip_metadata params)) in
      match format with
      | Some Codec.Jpeg =>
          match decode_jpeg_scaled image_bytes max_src_resolution_mp params with
          | Err (Failed _) => full
          | r => r
          end
      | _ => full
      end
  end.

(** ** Encoders *)

(** [Option::filter(|b| !b.is_empty())] *)
Definition non_empty (blob : option bytes) : option bytes :=
  match blob with Some [] => None | _ => blob end.

Definition f32_100 : spec_float := f32_of_uint 100.

Definition encode_webp (img : Im) (quality : spec_float) (lossless : bool)
    (icc_profile exif_metadata : option bytes) : Exec bytes :=
  let rgba := to_rgba8 img in
  let quality := Z.min 100 (round_as_uint u8_max quality) in
  with_context "image-webp: failed to encode WebP"
    (webp_encode
       (mk_WebpParams (negb lossless) quality (non_empty icc_profile) (non_empty exif_metadata)) rgba).

Definition encode_png (img : Im) (icc_profile exif_metadata : option bytes) : Exec bytes :=
  with_context "Failed to encode image to Png" (png_encode icc_profile exif_metadata img).

Definition PROGRESSIVE_SCANS : Z := 2.

Definition encode_jpeg (img : Im) (quality : Z) (progressive no_subsampling : bool)
    (icc_profile exif_metadata : option bytes) : Exec bytes :=
  let rgb := to_rgb8 img in
  let width := img_width rgb in
  let height := img_height rgb in
  if u16_max <? width
  then bail "jpeg-encoder: image width exceeds the JPEG format's 65535px limit"
  else if u16_max <? height
  then bail "jpeg-encoder: image height exceeds the JPEG format's 65535px limit"
  else
    with_context "jpeg-encoder: failed to encode JPEG"
      (jpeg_encode
         (mk_JpegParams quality no_subsampling (if progressive then Some PROGRESSIVE_SCANS else None)
            (non_empty icc_profile) (non_empty exif_metadata)) rgb width height).

Definition avif_encode_inner (rgba : RgbaImage) (quality speed : Z) (exif_metadata : option bytes)
  : Exec bytes :=
  if (0 <? img_width rgba) && (0 <? img_height rgba) then
    let quality := f_clamp f32_one f32_100 (f32_of_uint quality) in
    let speed := Z.max 1 (Z.min speed 10) in
    encoded ← ravif_encode_rgba (mk_AvifParams quality quality speed (non_empty exif_metadata)) rgba;
    match encoded with
    | Ok avif_file => Ok avif_file
    | Err e => bail ("ravif: encode failed: " +:+ e)
    end
  else bail "ravif: cannot encode a zero-sized image".

Definition avif_encode (img : Im) (quality speed : Z) (exif_metadata : option bytes) : Exec bytes :=
  catch_panic "ravif encode" (avif_encode_inner (to_rgba8 img) quality speed exif_metadata).
End Codecs.

(** ** The scale a requested size stands for

[Decoder::scale] takes a size and picks the first scale at which one axis
reaches it. *)
Definition first_scale_reaching (choose : Z → Z → Z → Z → Z) : Prop :=
  ∀ width height requested_width requested_height,
    choose width height requested_width requested_height
    = default 8 (List.find (λ s, (requested_width <=? jpeg_scaled_dimension width s)
                                 || (requested_height <=? jpeg_scaled_dimension height s)) [1; 2; 4; 8]).

(** Asking for the scaled dimensions selects the very scale they were computed
    with, for images of five pixels or more on both axes. *)
Theorem requested_scale_is_chosen choose width height scale_num :
  first_scale_reaching choose → 5 ≤ width ≤ u16_max → 5 ≤ height ≤ u16_max →
  scale_num ∈ [1; 2; 4] →
  choose width height (requested_dimension width scale_num) (requested_dimension height scale_num)
  = scale_num.
Proof.
  unfold u16_max. intros -> Hw Hh Hs.
  assert (Hreq : ∀ d, 5 ≤ d ≤ 65535 → requested_dimension d scale_num = jpeg_scaled_dimension d scale_num).
  { intros d Hd. unfold requested_dimension, jpeg_scaled_dimension, u16_max.
    rewrite !elem_of_cons in Hs. destruct Hs as [->|[->|[->|[]%not_elem_of_nil]]];
      pose proof (Z.div_mod (d * 1 + 7) 8); pose proof (Z.div_mod (d * 2 + 7) 8);
      pose proof (Z.div_mod (d * 4 + 7) 8); Z.to_euclidean_division_equations; lia. }
  assert (Hinc : ∀ d, 5 ≤ d → jpeg_scaled_dimension d 1 < jpeg_scaled_dimension d 2
                              ∧ jpeg_scaled_dimension d 2 < jpeg_scaled_dimension d 4).
  { intros d Hd. unfold jpeg_scaled_dimension. Z.to_euclidean_division_equations. lia. }
  rewrite !Hreq by done. destruct (Hinc width ltac:(lia)), (Hinc height ltac:(lia)).
  rewrite !elem_of_cons in Hs. cbn [List.find].
  destruct Hs as [->|[->|[->|[]%not_elem_of_nil]]];
    repeat (rewrite (proj2 (Z.leb_gt _ _)) by lia); rewrite ?Z.leb_refl; done.
Qed.

(** On a narrower image the dimensions of several scales coincide, and the
    smallest of them wins: one pixel by a thousand, wanted four hundred high,
    is decoded at a hundred and twenty-five. *)
Theorem narrow_jpeg_decoded_below_target choose :
  first_scale_reaching choose →
  let scale_num := select_jpeg_dct_scale 1 1000 1 400 in
  let chosen := choose 1 1000 (requested_dimension 1 scale_num) (requested_dimension 1000 scale_num) in
  scale_num = 4 ∧ chosen = 1 ∧ jpeg_scaled_dimension 1000 chosen = 125.
Proof. intros Hc. cbv zeta. rewrite Hc. by split_and!. Qed.

Definition example_choose (width height requested_width requested_height : Z) : Z :=
  default 8 (List.find (λ s, (requested_width <=? jpeg_scaled_dimension width s)
                             || (requested_height <=? jpeg_scaled_dimension height s)) [1; 2; 4; 8]).

Lemma requested_scale_is_chosen_witness :
  example_choose 4000 3000 (requested_dimension 4000 2) (requested_dimension 3000 2) = 2.
Proof.
  refine (requested_scale_is_chosen example_choose 4000 3000 2 (λ _ _ _ _, eq_refl) _ _ _);
    [split; vm_compute; discriminate..|right; left].
Defined.
