(* ===== verification/Pipeline.v ===== *)
(** * The image pipeline: [process_image_blocking_with_limits_and_watermark] of
    [src/services/image/handler.rs]

From bytes to bytes: the checks before decoding, the single-image path
([encode_single_image]) and the animation path ([decode_animation_source],
[encode_animation]). *)
From S2P Require Import Prelude RustStr SourceGuard RustFloat FloatError Params CacheKey KeyValidation Errors Performance Geometry Raster AvifMeta Storage HttpCache Encoding Webp Sniff Images Codecs.

Local Open Scope Z_scope.

Definition DEFAULT_WEBP_QUALITY : spec_float := S754_finite false 10747904 (-17).
Definition DEFAULT_JPEG_QUALITY : Z := 75.
Definition DEFAULT_AVIF_QUALITY : Z := 80.
Definition DEFAULT_AVIF_SPEED : Z := 6.
Definition DEFAULT_BACKGROUND : Rgb := (255, 255, 255).

Example default_webp_quality_is_82 : f32_of_uint 82 = DEFAULT_WEBP_QUALITY.
Proof. reflexivity. Qed.

(** [image::Frame]: its buffer, at (0, 0), and its delay. *)
Record AnimFrame := mk_AnimFrame {
  anim_buffer : RgbaImage;
  anim_delay : Z * Z;
}.

(** [RgbaImage::as_raw]: rows of pixels of four bytes. *)
Definition as_raw (img : RgbaImage) : list byte :=
  concat ((λ y, concat ((λ x, byte_of_val <$> rgba_samples (get_pixel img x y)) <$> range (img_width img)))
          <$> range (img_height img)).

(** [G] is a [GifDecoder]; [vp8l_encode] the default [WebPEncoder::encode]. *)
Class AnimationCrates (G : Type) := {
  gif_new : bytes → Exec G;
  gif_set_limits : G → Limits → Exec G;
  gif_dimensions : G → Z * Z;
  into_frames : G → list (Exec AnimFrame);
  gif_set_repeat_infinite : Exec unit;
  gif_encode_frames : list AnimFrame → Exec bytes;
  vp8l_encode : bytes → Z → Z → option bytes;
}.

(** An [anyhow] result as one that may also unwind. *)
Definition fallible {A} : result AnyhowError A → Exec A := map_err Failed.

Section Pipeline.
Context `{ImageCrate Im} `{CodecCrates Im W Jd Ad} `{AnimationCrates G} (sin_cos : SinCos).
Implicit Types (params : ResizeQuery) (config : PerformanceConfig).

(** ** One image *)

Definition choose_filter (effective_width effective_height : option Z) : FilterType :=
  match effective_width, effective_height with
  | Some w, Some h => if (w <=? 300) && (h <=? 300) then Triangle else Lanczos3
  | _, _ => Lanczos3
  end.

(** The EXIF block the encoder receives. *)
Definition forwarded_exif params (exif_metadata : option bytes) (exif_orientation_applied : bool)
  : option bytes :=
  if rq_strip_metadata params then None
  else
    raw ← exif_metadata;
    if exif_orientation_applied then neutralize_exif_orientation raw else Some raw.

Definition output_codec (format : ImageFormat) : Exec (Codec * string) :=
  match format with
  | ImageFormat.Jpg => Ok (Codec.Jpeg, "image/jpeg")
  | ImageFormat.Png => Ok (Codec.Png, "image/png")
  | ImageFormat.Webp => Ok (Codec.WebP, "image/webp")
  | ImageFormat.Avif => Ok (Codec.Avif, "image/avif")
  | ImageFormat.Gif => Ok (Codec.Gif, "image/gif")
  | ImageFormat.Auto => bail "internal error: unresolved Auto format reached the image encoder"
  end.

(** The resize stage and the canvas around it, up to the size check. *)
Definition sized_image (img : Im) (src_width src_height : Z) params : Exec Im :=
  let sizing := effective_resize_box params src_width src_height in
  let '(effective_width, effective_height) := resize_box sizing in
  let filter := choose_filter effective_width effective_height in
  img ← resize_and_filter img effective_width effective_height filter params src_width src_height;
  let background := default DEFAULT_BACKGROUND (rq_background params) in
  let img :=
    match extend_box sizing with
    | Some (target_w, target_h) =>
        if rq_extend params then apply_extend img target_w target_h background else img
    | None => img
    end in
  Ok (match rq_padding params with
      | Some padding => apply_padding img padding background
      | None => img
      end).

Definition final_size_error (final_width final_height : Z) config : string :=
  "Requested output dimensions too large after extend/padding: " +:+ uint_to_string final_width
    +:+ "x" +:+ uint_to_string final_height +:+ " exceeds maximum "
    +:+ uint_to_string (max_output_width config) +:+ "x"
    +:+ uint_to_string (max_output_height config).

(** What the alpha stage leaves for the encoder. *)
Definition flatten_or_normalize (output_format : Codec) (background : Rgb) (img : Im) : Im :=
  if has_alpha img then
    match output_format with
    | Codec.Jpeg => ImageRgb8 (flatten_onto_background (to_rgba8 img) background)
    | _ => ImageRgba8 (normalize_transparent_pixels (to_rgba8 img) background)
    end
  else img.

(** All of [encode_single_image] up to the encoders: the format, the content
    type, and the image to encode. *)
Definition prepare_image (img : Im) (src_width src_height : Z) params config
    (watermark_bytes : option bytes) : Exec (Codec * string * Im) :=
  img ← sized_image img src_width src_height params;
  let '(final_width, final_height) := dimensions img in
  if (max_output_width config <? final_width) || (max_output_height config <? final_height)
  then bail (final_size_error final_width final_height config)
  else
    img ←
      match watermark_bytes, rq_watermark params with
      | Some watermark_bytes, Some watermark => apply_watermark sin_cos img watermark_bytes watermark
      | _, _ => Ok img
      end;
    output ← output_codec (rq_format params);
    let background := default DEFAULT_BACKGROUND (rq_background params) in
    Ok (output, flatten_or_normalize output.1 background img).

(** [{:?}] *)
Definition codec_debug (format : Codec) : string :=
  match format with
  | Codec.Jpeg => "Jpeg" | Codec.Png => "Png" | Codec.Gif => "Gif"
  | Codec.WebP => "WebP" | Codec.Avif => "Avif"
  end.

(** [Option::or] *)
Definition or_else {A} (a b : option A) : option A := match a with Some _ => a | None => b end.

(** The [match output_format] over the encoders. *)
Definition encode_output (output_format : Codec) (img : Im) params config
    (icc_profile exif_metadata : option bytes) : Exec bytes :=
  with_context ("Failed to encode image to " +:+ codec_debug output_format)
    match output_format with
    | Codec.WebP =>
        let lossless := default false (rq_webp_lossless params) in
        let quality :=
          match or_else (rq_webp_quality params) (rq_quality params) with
          | Some q => f32_of_uint q
          | None => DEFAULT_WEBP_QUALITY
          end in
        encode_webp img quality lossless icc_profile exif_metadata
    | Codec.Png => encode_png img icc_profile exif_metadata
    | Codec.Jpeg =>
        let quality :=
          default DEFAULT_JPEG_QUALITY (or_else (rq_jpeg_quality params) (rq_quality params)) in
        let progressive := default (jpeg_progressive_default config) (rq_jpeg_progressive params) in
        let no_subsampling :=
          default (jpeg_no_subsampling_default config) (rq_jpeg_no_subsampling params) in
        let encode_at q := encode_jpeg img q progressive no_subsampling icc_profile exif_metadata in
        match rq_max_bytes params with
        | Some max_bytes => (encode_with_max_bytes max_bytes encode_at quality).1
        | None => encode_at quality
        end
    | Codec.Avif =>
        avif_encode img (default DEFAULT_AVIF_QUALITY (rq_quality params)) DEFAULT_AVIF_SPEED
          exif_metadata
    | Codec.Gif => write_to img output_format
    end.

Definition encode_single_image (img : Im) (src_width src_height : Z) params
    (icc_profile exif_metadata : option bytes) (exif_orientation_applied : bool) config
    (watermark_bytes : option bytes) : Exec (bytes * string) :=
  let exif_metadata := forwarded_exif params exif_metadata exif_orientation_applied in
  prepared ← prepare_image img src_width src_height params config watermark_bytes;
  let '(output_format, content_type, img) := prepared in
  output_bytes ← encode_output output_format img params config icc_profile exif_metadata;
  Ok (output_bytes, content_type).

(** ** Animations *)

Definition too_many_frames (max_frames : Z) : string :=
  "animated source exceeds the maximum of " +:+ uint_to_string max_frames +:+ " frames".

Fixpoint collect_frames_capped (index max_frames : Z) (frames : list (Exec AnimFrame))
  : Exec (list AnimFrame) :=
  match frames with
  | [] => Ok []
  | frame :: rest =>
      if max_frames <=? index then bail (too_many_frames max_frames)
      else
        frame ← with_context "Failed to decode animation frame" frame;
        out ← collect_frames_capped (index + 1) max_frames rest;
        Ok (frame :: out)
  end.

(** The loop over [read_frame]. *)
Fixpoint read_webp_frames (num_frames : nat) (decoder : W) (has_alpha : bool)
    (width height buffer_size : Z) : Exec (list AnimFrame) :=
  match num_frames with
  | O => Ok []
  | S num_frames' =>
      read ← with_context "Failed to decode animation frame" (read_frame decoder buffer_size);
      let '(buf, duration_ms, decoder') := read in
      let color := if has_alpha then Rgba8 else Rgb8 in
      img ← expect (from_raw color width height buf)
        "WebP: decoded animation frame buffer size mismatch";
      frames ← read_webp_frames num_frames' decoder has_alpha width height buffer_size;
      Ok (mk_AnimFrame (to_rgba8 img) (duration_ms, 1) :: frames)
  end.

Definition decode_animation_source (image_bytes : bytes) (source_format : Codec) config
  : Exec (option (list AnimFrame * Z * Z)) :=
  let limits := build_decode_limits (max_src_resolution_mp config) in
  match source_format with
  | Codec.Gif =>
      decoder ← with_context "Failed to read GIF header" (gif_new image_bytes);
      decoder ← with_context "GIF source exceeds configured decode limits"
        (gif_set_limits decoder limits);
      let '(src_width, src_height) := gif_dimensions decoder in
      _ ← checked (check_source_resolution src_width src_height (max_src_resolution_mp config));
      frames ← collect_frames_capped 0 (max_animation_frames config) (into_frames decoder);
      Ok (Some (frames, src_width, src_height))
  | Codec.WebP =>
      decoder ← with_context "Failed to read WebP header" (webp_new image_bytes);
      if negb (webp_is_animated decoder) then Ok None
      else
        let '(src_width, src_height) := webp_dimensions decoder in
        _ ← checked (check_source_resolution src_width src_height (max_src_resolution_mp config));
        let decoder := set_memory_limit decoder (max_alloc limits) in
        let num_frames := webp_num_frames decoder in
        if max_animation_frames config <? num_frames
        then bail (too_many_frames (max_animation_frames config))
        else
          buffer_size ← expect (output_buffer_size decoder)
            "WebP source exceeds configured decode limits";
          frames ← read_webp_frames (Z.to_nat num_frames) decoder (webp_has_alpha decoder)
                      src_width src_height buffer_size;
          Ok (Some (frames, src_width, src_height))
  | _ => Ok None
  end.

Definition encode_animated_gif (frames : list AnimFrame) : Exec (bytes * string) :=
  _ ← with_context "Failed to set GIF repeat behaviour" gif_set_repeat_infinite;
  buf ← with_context "Failed to encode animated GIF" (gif_encode_frames frames);
  Ok (buf, "image/gif").

(** The buffer of a frame as the container writer sees it. *)
Definition webp_frame (frame : AnimFrame) : Frame :=
  mk_Frame (img_width (anim_buffer frame)) (img_height (anim_buffer frame))
    (as_raw (anim_buffer frame)) (anim_delay frame).

(** The body of the loop of [encode_animation]. *)
Definition process_frame (src_width src_height : Z) params (frame : AnimFrame) : Exec AnimFrame :=
  let guard src w := if rq_enlarge params then w else Z.min w src in
  let effective_width := guard src_width <$> rq_width params in
  let effective_height := guard src_height <$> rq_height params in
  let filter := choose_filter effective_width effective_height in
  img ← resize_and_filter (ImageRgba8 (anim_buffer frame) : Im) effective_width effective_height
          filter params src_width src_height;
  let background := default DEFAULT_BACKGROUND (rq_background params) in
  Ok (mk_AnimFrame (normalize_transparent_pixels (to_rgba8 img) background) (anim_delay frame)).

Definition encode_animation (frames : list AnimFrame) (src_width src_height : Z) params
  : Exec (bytes * string) :=
  output_frames ← mapM (process_frame src_width src_height params) frames;
  match rq_format params with
  | ImageFormat.Gif => encode_animated_gif output_frames
  | ImageFormat.Webp => fallible (encode_animated_webp vp8l_encode (webp_frame <$> output_frames))
  | _ => bail "internal error: encode_animation reached with a non-animatable format"
  end.

(** ** The whole *)

(** Peek, check, decode, orient, trim, crop, and on to the encoder. *)
Definition process_single (image_bytes : bytes) (format : option Codec) params config
    (watermark_bytes : option bytes) : Exec (bytes * string) :=
  peeked ← peek_dimensions image_bytes format;
  _ ← checked (check_source_resolution peeked.1 peeked.2 (max_src_resolution_mp config));
  decoded ← decode_with_limits image_bytes format (max_src_resolution_mp config) params;
  let '(img, orientation, icc_profile, exif_metadata) := decoded in
  let exif_orientation_applied :=
    rq_autorotate params && negb (bool_decide (orientation = NoTransforms)) in
  let img := if rq_autorotate params then apply_orientation orientation img else img in
  let img := match rq_trim params with Some trim => apply_trim img trim | None => img end in
  let img := match rq_crop params with Some crop => apply_crop img crop | None => img end in
  let '(src_width, src_height) := dimensions img in
  encode_single_image img src_width src_height params icc_profile exif_metadata
    exif_orientation_applied config watermark_bytes.

Definition wants_animatable_output (format : ImageFormat) : bool :=
  match format with ImageFormat.Gif | ImageFormat.Webp => true | _ => false end.

Definition process_image_blocking_with_limits_and_watermark (image_bytes : bytes) params config
    (watermark_bytes : option bytes) : Exec (bytes * string) :=
  _ ← checked (check_output_dimensions params config);
  let format := detect_format_from_bytes image_bytes in
  animation ←
    match format with
    | Some source_format =>
        if wants_animatable_output (rq_format params)
        then decode_animation_source image_bytes source_format config
        else Ok None
    | None => Ok None
    end;
  match animation with
  | Some (frames, src_width, src_height) =>
      match frames with
      | [] => Err (Panicked (Some "checked frames.len() == 1 above"))
      | [frame] =>
          encode_single_image (ImageRgba8 (anim_buffer frame)) src_width src_height params None None
            false config watermark_bytes
      | _ => encode_animation frames src_width src_height params
      end
  | None => process_single image_bytes format params config watermark_bytes
  end.
End Pipeline.

(** ** Properties: what reaches an encoder *)

Section Prepared.
Context `{ImageLaws Im} (sin_cos : SinCos).
Implicit Types (params : ResizeQuery) (config : PerformanceConfig).

Lemma flatten_or_normalize_spec format background (img : Im) :
  let out := flatten_or_normalize format background img in
  dimensions out = dimensions img
  ∧ (format = Codec.Jpeg → has_alpha out = false)
  ∧ (has_alpha out = true →
     ∀ x y, (get_pixel (to_rgba8 out) x y).2 = 0 → (get_pixel (to_rgba8 out) x y).1 = background).
Proof.
  unfold flatten_or_normalize. destruct (has_alpha img) eqn:Ha; [|by rewrite Ha].
  assert (Hnorm : ∀ out, out = ImageRgba8 (normalize_transparent_pixels (to_rgba8 img) background) →
    dimensions out = dimensions img
    ∧ ∀ x y, (get_pixel (to_rgba8 out) x y).2 = 0 → (get_pixel (to_rgba8 out) x y).1 = background).
  { intros out ->. rewrite dimensions_ImageRgba8, to_rgba8_ImageRgba8.
    split; [apply to_rgba8_dimensions|]. intros x y.
    change (get_pixel (normalize_transparent_pixels (to_rgba8 img) background) x y)
      with (let p := get_pixel (to_rgba8 img) x y in if p.2 =? 0 then (background, p.2) else p).
    cbv zeta. destruct (Z.eqb_spec (get_pixel (to_rgba8 img) x y).2 0); [done|]. by intros. }
  destruct format; cbv zeta; [|destruct (Hnorm _ eq_refl) as [Hd Hp]; split_and!; [exact Hd|discriminate|intros _; exact Hp]..].
  rewrite dimensions_ImageRgb8, has_alpha_ImageRgb8. split_and!; [apply to_rgba8_dimensions|done|done].
Qed.

(** C14. Whatever is asked for, the still image an encoder receives - that of a
    source of one frame, or of a format that holds one - is within the
    configured size - growth by extension and padding included, and watermarks
    do not grow it -, a JPEG encoder receives no alpha channel to drop, and to
    every other one an invisible pixel shows the background colour only. *)
Theorem prepared_image_fits_encoder (img : Im) src_width src_height params config watermark_bytes
    format content_type out :
  prepare_image sin_cos img src_width src_height params config watermark_bytes
    = Ok (format, content_type, out) →
  (dimensions out).1 ≤ max_output_width config ∧ (dimensions out).2 ≤ max_output_height config
  ∧ (format = Codec.Jpeg → has_alpha out = false)
  ∧ (has_alpha out = true → ∀ x y,
       (get_pixel (to_rgba8 out) x y).2 = 0 →
       (get_pixel (to_rgba8 out) x y).1 = default DEFAULT_BACKGROUND (rq_background params)).
Proof.
  unfold prepare_image. intros Hp. apply bind_Ok in Hp as (sized & _ & Hp).
  destruct (dimensions sized) as [fw fh] eqn:Hd. destruct (_ || _) eqn:Hmax; [done|].
  rewrite orb_false_iff, !Z.ltb_ge in Hmax.
  apply bind_Ok in Hp as (marked & Hm & Hp). apply bind_Ok in Hp as ([fmt ct] & _ & Hp).
  injection Hp as <- <- <-.
  assert (dimensions marked = (fw, fh)) as Hdm.
  { destruct watermark_bytes, (rq_watermark params); try by injection Hm as <-.
    apply apply_watermark_dimensions in Hm as [-> _]. done. }
  destruct (flatten_or_normalize_spec fmt (default DEFAULT_BACKGROUND (rq_background params)) marked)
    as (Hdim & Hjpeg & Halpha). rewrite Hdim, Hdm. cbn. tauto.
Qed.

(** The stage stays in a box that is no larger than the image. *)
Lemma resize_stage_bounded (img : Im) w h filter params out :
  dim (dimensions img).1 → dim (dimensions img).2 →
  dim w → dim h → w ≤ (dimensions img).1 → h ≤ (dimensions img).2 →
  resize_stage img (Some w) (Some h) filter params (dimensions img).1 (dimensions img).2 = Ok out →
  (dimensions out).1 ≤ w ∧ (dimensions out).2 ≤ h.
Proof.
  intros Hsw Hsh Hw Hh Hle1 Hle2 Hr.
  assert (Hfit : fir_resize img w h filter = Ok out → (dimensions out).1 ≤ w ∧ (dimensions out).2 ≤ h).
  { intros (? & ? & _)%fir_resize_dimensions; [lia|done..]. }
  assert (Hfill : fir_resize_to_fill img w h filter (rq_gravity params) = Ok out →
            (dimensions out).1 ≤ w ∧ (dimensions out).2 ≤ h) by (by intros ->%fir_resize_to_fill_within).
  unfold resize_stage in Hr. destruct (rq_resize_type params); auto.
  - apply fir_resize_exact_dimensions in Hr. rewrite Hr. cbn. unfold dim in *. lia.
  - destruct (auto_fills _ _ _ _); auto.
Qed.

Lemma resize_and_filter_shrinks (img : Im) ew eh filter params sw sh out :
  dim (dimensions img).1 → dim (dimensions img).2 → rq_rotate params mod 90 = 0 →
  (∀ w, ew = Some w → dim w ∧ w ≤ (dimensions img).1) →
  (∀ h, eh = Some h → dim h ∧ h ≤ (dimensions img).2) →
  resize_and_filter img ew eh filter params sw sh = Ok out →
  no_larger img (swap_if (rotate_swaps_axes (rq_rotate params)) (dimensions out)).
Proof.
  intros Hsw Hsh Hrot Hw Hh Hr. unfold resize_and_filter in Hr. apply bind_Ok in Hr as (stage & Hstage & Hr).
  injection Hr as <-. apply resize_stage_shrinks in Hstage; [|done..].
  rewrite filter_stage_dimensions by done. by destruct (rotate_swaps_axes _), (dimensions stage).
Qed.

(** C24. Without [enlarge], minimum dimensions and a larger canvas - [extend] or
    padding - the image that is made is no larger than the one it is made
    from, turned as the request turns it, whatever its resize type, zoom and
    pixel ratio; and so is every frame of an animation, which knows neither
    minimum dimensions nor canvases. *)
Theorem never_upscales (img : Im) frame params :
  rq_enlarge params = false → rq_rotate params mod 90 = 0 →
  opt_valid dim (rq_width params) → opt_valid dim (rq_height params) →
  let turned d := swap_if (rotate_swaps_axes (rq_rotate params)) d in
  (∀ out, dim (dimensions img).1 → dim (dimensions img).2 →
     rq_min_width params = None → rq_min_height params = None →
     rq_extend params = false → rq_padding params = None →
     sized_image img (dimensions img).1 (dimensions img).2 params = Ok out →
     no_larger img (turned (dimensions out)))
  ∧ (∀ out, let buffer := anim_buffer frame in
     dim (img_width buffer) → dim (img_height buffer) →
     process_frame (Im := Im) (img_width buffer) (img_height buffer) params frame = Ok out →
     no_larger (ImageRgba8 buffer : Im) (turned (img_width (anim_buffer out), img_height (anim_buffer out)))).
Proof.
  intros Hen Hrot Hpw Hph turned. split.
  - intros out Hsw Hsh Hmw Hmh Hext Hpad. unfold sized_image. rewrite Hext, Hpad.
    pose proof (guarded_box params _ _ Hsw Hsh Hen Hmw Hmh) as [Hbw Hbh].
    destruct (effective_resize_box _ _ _) as [[ew eh] ebox]. cbn [resize_box extend_box] in *.
    intros Hs. apply bind_Ok in Hs as (resized & Hr & Hs).
    assert (out = resized) as -> by (destruct ebox as [[]|]; by injection Hs as <-).
    by eapply resize_and_filter_shrinks; [..|exact Hr].
  - intros out buffer Hw Hh. unfold process_frame. rewrite Hen. cbv zeta.
    intros Hf. apply bind_Ok in Hf as (resized & Hr & Hf). injection Hf as <-. cbn [anim_buffer].
    assert (∀ src v k, dim src → opt_valid dim v → (λ w, Z.min w src) <$> v = Some k → dim k ∧ k ≤ src) as Haxis.
    { intros src v k Hsrc Hv (j & -> & ->)%fmap_Some. cbn in Hv. unfold dim in *. lia. }
    change (img_width (normalize_transparent_pixels ?i ?b)) with (img_width i).
    change (img_height (normalize_transparent_pixels ?i ?b)) with (img_height i).
    rewrite to_rgba8_dimensions. fold buffer in Hr.
    eapply resize_and_filter_shrinks; [..|exact Hr]; rewrite ?dimensions_ImageRgba8; try done;
      intros k Hk; [exact (Haxis _ _ _ Hw Hpw Hk)|exact (Haxis _ _ _ Hh Hph Hk)].
Qed.

(** C22. [extend] keeps its word: a request for both dimensions is answered in
    exactly the size it asks for, zoom and pixel ratio included, whatever the
    source, the resize type and the rotation, although nothing is enlarged;
    padding, which goes around it, and minimum dimensions, which go beyond it,
    must not be asked for as well, and a rotation is by quarter turns. *)
Theorem extended_image_is_exact (img : Im) params tw th out :
  dim (dimensions img).1 → dim (dimensions img).2 →
  rq_enlarge params = false → rq_extend params = true → rq_rotate params mod 90 = 0 →
  rq_min_width params = None → rq_min_height params = None → rq_padding params = None →
  scale_axis (rq_dpr params) (rq_width params) (rq_zoom_x params) = Some tw →
  scale_axis (rq_dpr params) (rq_height params) (rq_zoom_y params) = Some th →
  sized_image img (dimensions img).1 (dimensions img).2 params = Ok out →
  dimensions out = (tw, th).
Proof.
  intros Hsw Hsh Hen Hext Hrot Hmw Hmh Hpad Htw Hth.
  destruct (guarded_box params _ _ Hsw Hsh Hen Hmw Hmh) as [Hbw Hbh].
  assert (Hbox : ∃ w h, resize_box (effective_resize_box params (dimensions img).1 (dimensions img).2)
                        = (Some w, Some h)
                        ∧ extend_box (effective_resize_box params (dimensions img).1 (dimensions img).2)
                          = Some (tw, th)
                        ∧ (swap_if (rotate_swaps_axes (rq_rotate params)) (w, h)).1 ≤ tw
                        ∧ (swap_if (rotate_swaps_axes (rq_rotate params)) (w, h)).2 ≤ th).
  { assert (is_Some (rq_width params)) as Hsome
      by (unfold scale_axis in Htw; destruct (rq_width params); [done|discriminate]).
    unfold effective_resize_box. rewrite (bool_decide_true (is_Some (rq_width params))) by done. cbn [orb negb].
    rewrite Hmw, Hmh, Htw, Hth, Hen.
    destruct (rotate_swaps_axes _); cbn; do 2 eexists; (split_and!; [reflexivity|reflexivity|cbn; lia..]). }
  destruct Hbox as (w & h & Hbox & Hextbox & Hlew & Hleh). rewrite Hbox in Hbw, Hbh.
  destruct (Hbw w eq_refl) as [Hdw Hlw], (Hbh h eq_refl) as [Hdh Hlh].
  unfold sized_image. rewrite Hbox, Hextbox, Hext, Hpad. unfold resize_and_filter.
  intros Hs. apply bind_Ok in Hs as (resized & Hr & Hs). apply bind_Ok in Hr as (stage & Hstage & Hr).
  injection Hr as <-. injection Hs as <-.
  apply resize_stage_bounded in Hstage; [|done..].
  rewrite apply_extend_dimensions, filter_stage_dimensions by done.
  destruct (rotate_swaps_axes _); cbn in *; f_equal; lia.
Qed.
End Prepared.

(** ** Properties: the whole pipeline *)

Section Whole.
Context `{ImageCrate Im} `{CodecCrates Im W Jd Ad} `{AnimationCrates G} (sin_cos : SinCos).
Implicit Types (params : ResizeQuery) (config : PerformanceConfig).
Abbreviation process :=
  (process_image_blocking_with_limits_and_watermark (Im := Im) (W := W) (Jd := Jd) (Ad := Ad) (G := G) sin_cos).

Lemma encode_single_image_type (img : Im) sw sh params icc exif applied config wm out ct :
  encode_single_image sin_cos img sw sh params icc exif applied config wm = Ok (out, ct) →
  ∃ format, output_codec (rq_format params) = Ok (format, ct).
Proof.
  unfold encode_single_image. intros Hs. apply bind_Ok in Hs as ([[format ct'] img'] & Hp & Hs).
  apply bind_Ok in Hs as (bytes & _ & Hs). injection Hs as <- <-.
  unfold prepare_image in Hp. apply bind_Ok in Hp as (sized & _ & Hp).
  destruct (dimensions sized) as [fw fh]. destruct (_ || _); [done|].
  apply bind_Ok in Hp as (marked & _ & Hp). apply bind_Ok in Hp as ([f c] & Ho & Hp).
  exists f. by injection Hp as -> <- _.
Qed.

Lemma encode_animated_webp_type frames out ct :
  encode_animated_webp vp8l_encode frames = Ok (out, ct) → ct = "image/webp".
Proof.
  unfold encode_animated_webp. destruct frames as [|first frames]; [done|]. intros Ht.
  apply bind_Ok in Ht as (? & _ & Ht). apply bind_Ok in Ht as (? & _ & Ht).
  apply bind_Ok in Ht as (? & _ & Ht). cbv zeta in Ht. congruence.
Qed.

Lemma encode_animation_type frames sw sh params out ct :
  encode_animation (Im := Im) frames sw sh params = Ok (out, ct) →
  ∃ format, output_codec (rq_format params) = Ok (format, ct).
Proof.
  unfold encode_animation. intros Ha. apply bind_Ok in Ha as (fs & _ & Ha).
  destruct (rq_format params); try discriminate Ha.
  - unfold fallible in Ha. apply map_err_Ok, encode_animated_webp_type in Ha as ->. by eexists.
  - unfold encode_animated_gif in Ha. apply bind_Ok in Ha as (? & _ & Ha).
    apply bind_Ok in Ha as (? & _ & Ha). injection Ha as <- <-. by eexists.
Qed.

(** A processed image, and what it went through. *)
Lemma process_cases image_bytes params config watermark_bytes out :
  process image_bytes params config watermark_bytes = Ok out →
  checked (A := ()) (check_output_dimensions params config) = Ok ()
  ∧ let format := detect_format_from_bytes image_bytes in
    ((∃ frames sw sh source_format,
        format = Some source_format ∧ wants_animatable_output (rq_format params) = true
        ∧ decode_animation_source image_bytes source_format config = Ok (Some (frames, sw, sh))
        ∧ ((1 < length frames)%nat ∧ encode_animation (Im := Im) frames sw sh params = Ok out
           ∨ ∃ frame, frames = [frame] ∧ encode_single_image sin_cos (ImageRgba8 (anim_buffer frame)) sw sh
                                           params None None false config watermark_bytes = Ok out))
     ∨ process_single sin_cos image_bytes format params config watermark_bytes = Ok out).
Proof.
  unfold process_image_blocking_with_limits_and_watermark. intros Hp.
  apply bind_Ok in Hp as ([] & Hc & Hp). split; [done|]. cbv zeta.
  apply bind_Ok in Hp as (animation & Ha & Hp).
  destruct animation as [[[frames sw] sh]|]; [left|by right].
  destruct (detect_format_from_bytes image_bytes) as [source_format|]; [|done].
  destruct (wants_animatable_output _) eqn:Hw; [|done].
  exists frames, sw, sh, source_format. split_and!; [done..|].
  destruct frames as [|frame [|frame' frames]]; [done|right; by exists frame|left].
  split; [cbn; lia|done].
Qed.

Lemma process_type image_bytes params config watermark_bytes out ct :
  process image_bytes params config watermark_bytes = Ok (out, ct) →
  ∃ format, output_codec (rq_format params) = Ok (format, ct).
Proof.
  intros [_ Hp]%process_cases. cbv zeta in Hp.
  destruct Hp as [(frames & sw & sh & f & _ & _ & _ & [[_ Ha]|(frame & _ & Hs)])|Hs].
  - by eapply encode_animation_type.
  - by eapply encode_single_image_type.
  - unfold process_single in Hs. apply bind_Ok in Hs as ([pw ph] & _ & Hs).
    apply bind_Ok in Hs as (? & _ & Hs). apply bind_Ok in Hs as ([[[img o] icc] exif] & _ & Hs).
    cbv zeta in Hs. destruct (dimensions _) as [sw sh]. by eapply encode_single_image_type.
Qed.

Lemma process_content_type sha256 sub_path image_bytes params config watermark_bytes out ct :
  process image_bytes params config watermark_bytes = Ok (out, ct) →
  ct = content_type_for_key (generate_key sha256 sub_path params).
Proof.
  intros [format Hf]%process_type. unfold content_type_for_key, generate_key.
  rewrite <- str_app_assoc, rsplit_once_app by (by destruct (rq_format params)).
  rewrite image_format_roundtrip. destruct (rq_format params); try discriminate Hf; cbn in Hf; injection Hf as _ <-; reflexivity.
Qed.

(** What is stored under a key is what a download of the key says it is: the
    content type the pipeline returns is the one the download derives from the
    extension of the request's key. *)
Theorem content_type_agrees_with_key sha256 sub_path image_bytes params config watermark_bytes out ct :
  process image_bytes params config watermark_bytes = Ok (out, ct) →
  ct = content_type_for_key (generate_key sha256 sub_path params).
Proof. apply process_content_type. Qed.

(** The size a source announces before a pixel of it is decoded. *)
Definition announces config (image_bytes : bytes) (w h : Z) : Prop :=
  peek_dimensions (Im := Im) (W := W) (Jd := Jd) (Ad := Ad) image_bytes
    (detect_format_from_bytes image_bytes) = Ok (w, h)
  ∨ ∃ header decoder,
      gif_new image_bytes = Ok header
      ∧ gif_set_limits header (build_decode_limits (max_src_resolution_mp config)) = Ok decoder
      ∧ gif_dimensions decoder = (w, h).

Lemma check_source_resolution_Ok w h mp :
  checked (A := ()) (check_source_resolution w h mp) = Ok () →
  w * h ≤ u64_max ∧ w * h < (mp + 1) * 1000000.
Proof.
  unfold checked, check_source_resolution. destruct (Z.leb_spec (w * h) u64_max); [|done].
  cbn [ok_or mbind result_bind map_err]. destruct (Z.ltb_spec mp (w * h / 1000000)); [done|]. intros _.
  split; [done|]. pose proof (Z.div_mod (w * h) 1000000 ltac:(lia)).
  pose proof (Z.mod_pos_bound (w * h) 1000000 ltac:(lia)). lia.
Qed.

Lemma decode_animation_source_checked image_bytes format config frames sw sh :
  detect_format_from_bytes image_bytes = Some format →
  decode_animation_source (W := W) image_bytes format config = Ok (Some (frames, sw, sh)) →
  announces config image_bytes sw sh
  ∧ checked (A := ()) (check_source_resolution sw sh (max_src_resolution_mp config)) = Ok ().
Proof.
  intros Hf Hd. unfold announces. rewrite Hf.
  destruct format; try discriminate Hd; cbn [decode_animation_source] in Hd.
  - apply bind_Ok in Hd as (header & Hn%with_context_Ok & Hd).
    apply bind_Ok in Hd as (decoder & Hl%with_context_Ok & Hd).
    destruct (gif_dimensions decoder) as [w h] eqn:Hdim. apply bind_Ok in Hd as ([] & Hc & Hd).
    apply bind_Ok in Hd as (fs & _ & Hd). injection Hd as <- <- <-. split; [right|done].
    by exists header, decoder.
  - apply bind_Ok in Hd as (decoder & Hn & Hd). destruct (negb _); [done|].
    destruct (webp_dimensions decoder) as [w h] eqn:Hdim. apply bind_Ok in Hd as ([] & Hc & Hd).
    cbv zeta in Hd. destruct (_ <? _); [done|]. apply bind_Ok in Hd as (size & _ & Hd).
    apply bind_Ok in Hd as (fs & _ & Hd). injection Hd as <- <- <-. split; [left|done].
    cbn [peek_dimensions]. rewrite Hn. cbn [mbind result_bind]. by rewrite Hdim.
Qed.

Lemma process_announced image_bytes params config watermark_bytes out :
  process image_bytes params config watermark_bytes = Ok out →
  ∃ w h, announces config image_bytes w h
         ∧ w * h ≤ u64_max ∧ w * h < (max_src_resolution_mp config + 1) * 1000000.
Proof.
  intros [_ Hp]%process_cases. cbv zeta in Hp.
  destruct Hp as [(frames & sw & sh & f & Hf & _ & Hd & _)|Hs].
  - destruct (decode_animation_source_checked _ _ _ _ _ _ Hf Hd) as [Ha Hc].
    exists sw, sh. split; [done|]. by apply check_source_resolution_Ok.
  - unfold process_single in Hs. apply bind_Ok in Hs as ([w h] & Hpeek & Hs).
    apply bind_Ok in Hs as ([] & Hc & _). exists w, h. split; [by left|].
    by apply check_source_resolution_Ok.
Qed.

(** The size the first check of the pixels sees, if the source gets that far. *)
Definition measured params config (image_bytes : bytes) (w h : Z) : Prop :=
  match detect_format_from_bytes image_bytes, wants_animatable_output (rq_format params) with
  | Some Codec.Gif, true =>
      ∃ header decoder, gif_new image_bytes = Ok header
        ∧ gif_set_limits header (build_decode_limits (max_src_resolution_mp config)) = Ok decoder
        ∧ gif_dimensions decoder = (w, h)
  | format, _ =>
      peek_dimensions (Im := Im) (W := W) (Jd := Jd) (Ad := Ad) image_bytes format = Ok (w, h)
  end.

Lemma check_source_resolution_large w h mp :
  dim w → dim h → mp < w * h / 1000000 →
  check_source_resolution w h mp = Err (SourceTooLarge w h (w * h / 1000000) mp).
Proof.
  intros Hw Hh Hmp. unfold check_source_resolution.
  rewrite (proj2 (Z.leb_le _ _)) by (unfold dim, u32_max, u64_max in *; nia).
  cbn [ok_or mbind result_bind]. by rewrite (proj2 (Z.ltb_lt _ _)).
Qed.

(** A source that measures too many pixels is refused as such, whichever way it
    would have gone. *)
Lemma process_oversized image_bytes params config watermark_bytes w h :
  check_output_dimensions params config = Ok () → measured params config image_bytes w h →
  dim w → dim h → max_src_resolution_mp config < w * h / 1000000 →
  process image_bytes params config watermark_bytes
  = checked (Err (SourceTooLarge w h (w * h / 1000000) (max_src_resolution_mp config))).
Proof.
  intros Hc Hm Hw Hh Hlarge. unfold process_image_blocking_with_limits_and_watermark. rewrite Hc.
  pose proof (check_source_resolution_large _ _ _ Hw Hh Hlarge) as Hcheck. cbn [checked map_err mbind result_bind].
  assert (Hsingle : peek_dimensions (Im := Im) (W := W) (Jd := Jd) (Ad := Ad) image_bytes
      (detect_format_from_bytes image_bytes) = Ok (w, h) →
    process_single (Im := Im) (W := W) (Jd := Jd) (Ad := Ad) sin_cos image_bytes
      (detect_format_from_bytes image_bytes) params config watermark_bytes
    = checked (Err (SourceTooLarge w h (w * h / 1000000) (max_src_resolution_mp config)))).
  { intros Hp. unfold process_single. rewrite Hp. cbn [mbind result_bind fst snd]. by rewrite Hcheck. }
  unfold measured in Hm. destruct (detect_format_from_bytes image_bytes) as [format|] eqn:Hf; [|by apply Hsingle].
  destruct (wants_animatable_output (rq_format params)); [|destruct format; by apply Hsingle].
  destruct format; try by apply Hsingle.
  - destruct Hm as (header & decoder & Hn & Hl & Hd). cbn [decode_animation_source]. cbv zeta. rewrite Hn.
    cbn [with_context map_err mbind result_bind]. rewrite Hl. cbn [with_context map_err mbind result_bind]. rewrite Hd, Hcheck. done.
  - pose proof Hm as Hm'. cbn [peek_dimensions] in Hm. cbn [decode_animation_source].
    destruct (with_context _ (webp_new image_bytes)) as [decoder|e]; [|done].
    cbn [mbind result_bind] in Hm |- *. destruct (negb _); [by apply Hsingle|]. injection Hm as ->.
    by rewrite Hcheck.
Qed.

(** No image is processed whose header announces more pixels than the
    configured megapixels, on the animation path neither. *)
Theorem processed_source_within_limit image_bytes params config watermark_bytes out :
  process image_bytes params config watermark_bytes = Ok out →
  ∃ w h, announces config image_bytes w h
         ∧ w * h ≤ u64_max ∧ w * h < (max_src_resolution_mp config + 1) * 1000000.
Proof. apply process_announced. Qed.

(** ** Properties: animations *)

Lemma collect_frames_capped_length index max frames out :
  0 ≤ index → collect_frames_capped index max frames = Ok out →
  Z.of_nat (length out) ≤ Z.max 0 (max - index).
Proof.
  revert index out. induction frames as [|frame frames IH]; intros index out Hi Hc; cbn in Hc.
  { injection Hc as <-. cbn. lia. }
  destruct (Z.leb_spec max index); [done|]. apply bind_Ok in Hc as (f & _ & Hc).
  apply bind_Ok in Hc as (rest & Hrest & Hc). injection Hc as <-.
  apply IH in Hrest; [|lia]. cbn [length]. lia.
Qed.

Lemma read_webp_frames_length n decoder alpha w h size frames :
  read_webp_frames (W := W) n decoder alpha w h size = Ok frames → length frames = n.
Proof.
  revert decoder frames. induction n as [|n IH]; intros decoder frames Hr; cbn in Hr.
  { by injection Hr as <-. }
  apply bind_Ok in Hr as ([[buf ms] decoder'] & _ & Hr). apply bind_Ok in Hr as (img & _ & Hr).
  apply bind_Ok in Hr as (rest & Hrest & Hr). injection Hr as <-. cbn. by erewrite IH.
Qed.

Lemma decode_animation_source_capped image_bytes format config frames sw sh :
  0 ≤ max_animation_frames config →
  decode_animation_source (W := W) image_bytes format config = Ok (Some (frames, sw, sh)) →
  Z.of_nat (length frames) ≤ max_animation_frames config.
Proof.
  intros Hmax Hd. destruct format; try discriminate Hd; cbn [decode_animation_source] in Hd.
  - apply bind_Ok in Hd as (? & _ & Hd). apply bind_Ok in Hd as (decoder & _ & Hd).
    destruct (gif_dimensions decoder). apply bind_Ok in Hd as (? & _ & Hd).
    apply bind_Ok in Hd as (fs & Hc & Hd). injection Hd as <- _ _.
    apply collect_frames_capped_length in Hc; lia.
  - apply bind_Ok in Hd as (decoder & _ & Hd). destruct (negb _); [done|].
    destruct (webp_dimensions decoder). apply bind_Ok in Hd as (? & _ & Hd). cbv zeta in Hd.
    destruct (Z.ltb_spec (max_animation_frames config)
                (webp_num_frames (set_memory_limit decoder
                   (max_alloc (build_decode_limits (max_src_resolution_mp config)))))); [done|].
    apply bind_Ok in Hd as (size & _ & Hd). apply bind_Ok in Hd as (fs & Hr & Hd).
    injection Hd as <- _ _. apply read_webp_frames_length in Hr. lia.
Qed.

Lemma process_frame_delay sw sh params frame out :
  process_frame (Im := Im) sw sh params frame = Ok out → anim_delay out = anim_delay frame.
Proof. unfold process_frame. intros Hp. apply bind_Ok in Hp as (img & _ & Hp). by injection Hp as <-. Qed.

Lemma processed_frames sw sh params frames outs :
  mapM (process_frame (Im := Im) sw sh params) frames = Ok outs →
  Forall2 (λ f o, process_frame (Im := Im) sw sh params f = Ok o ∧ anim_delay o = anim_delay f) frames outs.
Proof.
  revert outs. induction frames as [|f fs IH]; intros outs Hm; cbn in Hm.
  - injection Hm as <-. constructor.
  - apply bind_Ok in Hm as (o & Ho & Hm). apply bind_Ok in Hm as (os & Hos & Hm). injection Hm as <-.
    constructor; [split; [done|by eapply process_frame_delay]|by apply IH].
Qed.

(** C23. An animation stays one, within the configured maximum of frames.  Asked for
    as WebP, what is made from a source of several frames reads back as that
    many frames in order, each for its source's time, as far as the format's 24
    bits go.  Asked for as GIF, what the GIF encoder is handed is every frame,
    processed, in order and with the delay of its source. *)
Theorem animation_keeps_frames image_bytes params config watermark_bytes frames sw sh format out ct :
  0 ≤ max_animation_frames config → wants_animatable_output (rq_format params) = true →
  detect_format_from_bytes image_bytes = Some format →
  decode_animation_source (W := W) image_bytes format config = Ok (Some (frames, sw, sh)) →
  (1 < length frames)%nat →
  process image_bytes params config watermark_bytes = Ok (out, ct) →
  Z.of_nat (length frames) ≤ max_animation_frames config
  ∧ match rq_format params with
    | ImageFormat.Gif =>
        ct = "image/gif" ∧ ∃ outs, gif_encode_frames outs = Ok out
          ∧ Forall2 (λ f o, process_frame (Im := Im) sw sh params f = Ok o ∧ anim_delay o = anim_delay f) frames outs
    | _ =>
        Forall (λ f, 0 ≤ (anim_delay f).1 ∧ 0 ≤ (anim_delay f).2) frames → len out < 2 ^ 32 →
        ct = "image/webp" ∧ ∃ w h rfs, read_animated_webp out = Some (w, h, [byte_of_val 18], 0, rfs)
          ∧ Forall2 (λ frame rf, rf_duration rf = Z.min (delay_ms (webp_frame frame)) (2 ^ 24 - 1)
                                 ∧ rf_width rf = w ∧ rf_height rf = h) frames rfs
    end.
Proof.
  intros Hmax Hfmt Hdet Hdec Hlen Hp.
  split; [by eapply decode_animation_source_capped|].
  unfold process_image_blocking_with_limits_and_watermark in Hp.
  apply bind_Ok in Hp as (? & _ & Hp). rewrite Hdet, Hfmt, Hdec in Hp. cbn [mbind result_bind] in Hp.
  assert (encode_animation (Im := Im) frames sw sh params = Ok (out, ct)) as Ha.
  { destruct frames as [|? [|? ?]]; [cbn in Hlen; lia..|exact Hp]. }
  unfold encode_animation in Ha. apply bind_Ok in Ha as (outs & Hmap%processed_frames & Ha).
  destruct (rq_format params); try done; cbv iota in Ha.
  2: { unfold encode_animated_gif in Ha. apply bind_Ok in Ha as (? & _ & Ha).
       apply bind_Ok in Ha as (buf & Hbuf%with_context_Ok & Ha). injection Ha as <- <-. split; [done|].
       by exists outs. }
  intros Hdelay Hout. unfold fallible in Ha. apply map_err_Ok in Ha.
  split; [by eapply encode_animated_webp_type|].
  assert (Hsame : Forall2 (λ f o, anim_delay o = anim_delay f) frames outs)
    by (eapply Forall2_impl; [exact Hmap|by intros ?? [_ ?]]).
  apply animated_webp_reads_back in Ha as (_ & w & h & rfs & Hread & Hshow); [| |done].
  - exists w, h, rfs. split; [done|]. rewrite Forall2_fmap_l in Hshow.
    refine (Forall2_trans _ _ _ _ _ _ _ Hsame Hshow).
    intros f o rf Hfo (Hw & Hh & webp & _ & ->). cbn.
    split_and!; [|done|done]. unfold delay_ms. cbn. by rewrite Hfo.
  - apply Forall_fmap, Forall_forall. intros o Ho. cbn. unfold delay_ms. cbn.
    apply list_elem_of_lookup in Ho as [i Ho].
    destruct (Forall2_lookup_r _ _ _ _ _ Hsame Ho) as (f & Hf & ->).
    rewrite Forall_lookup in Hdelay. apply Hdelay in Hf as [Hn Hd0].
    destruct (anim_delay f) as [n d]. cbn in *. destruct (Z.eqb_spec d 0); [lia|]. apply Z.div_pos; lia.
Qed.
End Whole.

(** ** Properties: kept metadata *)

(** A reader finds one orientation in a block. *)
Lemma exif_orientation_unique exif pos v pos' v' :
  exif_orientation exif pos v → exif_orientation exif pos' v' → pos = pos' ∧ v = v'.
Proof.
  intros (le & ifd & n & i & Ht & Hi & Hd & -> & Hv) (le' & ifd' & n' & i' & Ht' & Hi' & Hd' & -> & Hv').
  destruct Ht as [Ho _ Hifd _ _], Ht' as [Ho' _ Hifd' _ _].
  assert (le = le') as <- by (destruct le, le'; congruence || done).
  assert (ifd = ifd') as <- by congruence.
  assert (i = i') as <-; [|split; [done|congruence]].
  destruct (Z.lt_trichotomy i i') as [Hlt|[|Hlt]]; [|done|].
  - destruct Hd as [_ Htag _ _], Hd' as [Hf _ _ _]. by destruct (Hf i ltac:(lia)).
  - destruct Hd as [Hf _ _ _], Hd' as [_ Htag _ _]. by destruct (Hf i' ltac:(lia)).
Qed.

(** Metadata is dropped when asked for, and kept as it is unless the pixels were
    turned by it.  Then no reader of the kept block turns them again: it is
    kept exactly when its orientation can be found, and the only change to it
    is that the orientation now is upright. *)
Theorem forwarded_exif_spec params exif_metadata applied :
  match forwarded_exif params exif_metadata applied with
  | Some out => rq_strip_metadata params = false ∧ ∃ raw, exif_metadata = Some raw
      ∧ if applied
        then ∃ pos, (∀ p v, exif_orientation out p v ↔ p = pos ∧ v = 1)
               ∧ length out = length raw
               ∧ ∀ i, Z.of_nat i < pos ∨ pos + 2 ≤ Z.of_nat i → out !! i = raw !! i
        else out = raw
  | None => rq_strip_metadata params = true ∨ exif_metadata = None
      ∨ applied = true ∧ ∃ raw, exif_metadata = Some raw ∧ ∀ pos v, ¬ exif_orientation raw pos v
  end.
Proof.
  unfold forwarded_exif. destruct (rq_strip_metadata params); [by left|].
  destruct exif_metadata as [raw|]; cbn [mbind option_bind]; [|by right; left].
  destruct applied; [|split; [done|by exists raw]].
  pose proof (neutralize_exif_reads raw) as Hn.
  destruct (neutralize_exif_orientation raw) as [out|].
  - destruct Hn as (pos & v & _ & Hone & Hlen & Hrest). split; [done|]. exists raw. split; [done|].
    exists pos. split_and!; [|done|done]. intros p v'. split; [|by intros [-> ->]].
    intros Hp. by apply (exif_orientation_unique out).
  - right; right. split; [done|]. by exists raw.
Qed.

(** ** What animations do not carry *)

(** The options an animation is made without: it is the same with them as
    without them, so a watermark that was asked for, fetched and paid for is
    silently missing, and so is every other one. *)
Theorem animation_ignores_options `{ImageCrate Im} `{AnimationCrates G} frames src_width src_height params :
  encode_animation (Im := Im) frames src_width src_height params
  = encode_animation (Im := Im) frames src_width src_height
      (params <| rq_watermark := None |> <| rq_trim := None |> <| rq_crop := None |>
              <| rq_zoom_x := f32_one |> <| rq_zoom_y := f32_one |> <| rq_dpr := f32_one |>
              <| rq_min_width := None |> <| rq_min_height := None |>
              <| rq_extend := false |> <| rq_padding := None |>).
Proof. reflexivity. Qed.

(** What becomes of an unwinding in the blocking task: the channel closes. *)
Definition unwinding {A} (r : Exec A) : option (result AnyhowError A) :=
  match r with
  | Ok a => Some (Ok a)
  | Err (Failed e) => Some (Err e)
  | Err (Panicked _) => None
  end.

(** A source in which the decoder finds no frame at all: the [expect] behind
    the check for more than one frame panics instead of refusing it. *)
Theorem frameless_animation_panics `{ImageCrate Im} `{CodecCrates Im W Jd Ad} `{AnimationCrates G}
    sin_cos image_bytes params config watermark_bytes format sw sh :
  check_output_dimensions params config = Ok () →
  wants_animatable_output (rq_format params) = true →
  detect_format_from_bytes image_bytes = Some format →
  decode_animation_source (W := W) image_bytes format config = Ok (Some ([], sw, sh)) →
  unwinding (process_image_blocking_with_limits_and_watermark (Im := Im) (W := W) (Jd := Jd) (Ad := Ad)
               sin_cos image_bytes params config watermark_bytes) = None.
Proof.
  intros Hc Hw Hf Hd. unfold process_image_blocking_with_limits_and_watermark.
  rewrite Hc, Hf, Hw, Hd. done.
Qed.

(** ** Instances: a crate of images without codecs *)

(** An image with or without an alpha channel, resampled to the nearest pixel. *)
Definition ToyImage : Type := bool * RgbaImage.

Definition toy_map (f : RgbaImage → RgbaImage) (img : ToyImage) : ToyImage := (img.1, f img.2).

Definition toy_turn (w h : RgbaImage → Z) (at_ : RgbaImage → Z → Z → Z * Z) : ToyImage → ToyImage :=
  toy_map (λ i, mk_RgbaImage (w i) (h i) (λ x y, let '(x', y') := at_ i x y in get_pixel i x' y')).

#[local] Instance toy_images : ImageCrate ToyImage := {
  dimensions img := (img_width img.2, img_height img.2);
  color img := if (img.1 : bool) then Rgba8 else Rgb8;
  from_raw c w h _ := Some (color_has_alpha c, filled w h (0, 0, 0, 255));
  ImageRgba8 i := (true, i);
  ImageRgb8 i := (false, i);
  to_rgba8 img := img.2;
  to_rgb8 img := img.2;
  crop_imm img x y w h := toy_turn (λ _, w) (λ _, h) (λ _ x' y', (x + x', y + y')) img;
  resample img w h _ :=
    Ok (toy_turn (λ _, w) (λ _, h) (λ i x y, (x * img_width i / w, y * img_height i / h)) img);
  rotate90 := toy_turn img_height img_width (λ i x y, (y, img_height i - 1 - x));
  rotate180 := toy_turn img_width img_height (λ i x y, (img_width i - 1 - x, img_height i - 1 - y));
  rotate270 := toy_turn img_height img_width (λ i x y, (img_width i - 1 - y, x));
  fliph := toy_turn img_width img_height (λ i x y, (img_width i - 1 - x, y));
  flipv := toy_turn img_width img_height (λ i x y, (x, img_height i - 1 - y));
  grayscale img := img;
  blur img _ := img;
  apply_orientation _ img := img;
  overlay_rgba bottom top x y := composite_over bottom top x y f32_one;
  overlay_rgb bottom top x y := composite_over bottom top x y f32_one;
  load_from_memory _ := Ok (true, filled 2 2 (255, 0, 0, 128));
}.

#[local] Instance toy_image_laws : ImageLaws ToyImage.
Proof.
  split; try done; try (intros; apply composite_over_size).
  all: intros img w h alg dst [= <-]; done.
Qed.

(** No decoder and no encoder of this crate knows a format. *)
#[local] Instance toy_codecs : CodecCrates ToyImage () () () := {
  guess_format _ := Ok None; into_decoder _ _ _ := bail "unsupported";
  into_dimensions _ _ := bail "unsupported"; reserve _ _ := None; from_exif_chunk _ := None;
  webp_new _ := bail "unsupported"; webp_dimensions _ := (0, 0); webp_is_animated _ := false;
  webp_has_alpha _ := false; webp_num_frames _ := 0; set_memory_limit w _ := w;
  webp_icc_profile _ := None; webp_exif_metadata _ := None; output_buffer_size _ := None;
  read_image _ _ := bail "unsupported"; read_frame _ _ := bail "unsupported"; jpeg_new _ := ();
  jpeg_read_info _ := bail "unsupported"; jpeg_info _ := None; jpeg_scale _ _ _ := bail "unsupported";
  jpeg_decode _ := bail "unsupported"; read_avif _ := bail "unsupported";
  primary_item_metadata _ := bail "unsupported"; avif_from_avif _ := bail "unsupported";
  avif_to_image _ := bail "unsupported"; webp_encode _ _ := bail "unsupported";
  png_encode _ _ _ := bail "unsupported"; jpeg_encode _ _ _ _ := bail "unsupported";
  ravif_encode_rgba _ _ := bail "unsupported"; write_to _ _ := bail "unsupported";
}.

(** Every GIF is three frames of two red pixels, the second twice as long. *)
Definition toy_frame (ms : Z) : AnimFrame := mk_AnimFrame (filled 2 1 (255, 0, 0, 255)) (ms, 1).

#[local] Instance toy_animation : AnimationCrates () := {
  gif_new _ := Ok (); gif_set_limits g _ := Ok g; gif_dimensions _ := (2, 1);
  into_frames _ := [Ok (toy_frame 40); Ok (toy_frame 80); Ok (toy_frame 40)];
  gif_set_repeat_infinite := Ok (); gif_encode_frames _ := bail "unsupported";
  vp8l_encode := example_encoder;
}.

Definition no_turn : SinCos := λ _, (f64_zero, f64_one).
Definition gif_bytes : bytes := list_byte_of_string "GIF89a--------".
Definition webp_query : ResizeQuery := resize_query_default <| rq_format := ImageFormat.Webp |>.

Definition toy_process : bytes → ResizeQuery → PerformanceConfig → option bytes → Exec (bytes * string) :=
  process_image_blocking_with_limits_and_watermark (Im := ToyImage) (W := ()) (Jd := ()) (Ad := ())
    (G := ()) no_turn.

(** A translucent image on its way to a JPEG, with a watermark. *)
Lemma prepared_image_fits_encoder_witness :
  ∃ out, prepare_image no_turn ((true, filled 8 4 (9, 9, 9, 0)) : ToyImage) 8 4 resize_query_default
           (performance_default 4) (Some gif_bytes) = Ok (Codec.Jpeg, "image/jpeg", out)
         ∧ has_alpha out = false ∧ (dimensions out).1 ≤ 4096.
Proof.
  destruct (prepare_image no_turn ((true, filled 8 4 (9, 9, 9, 0)) : ToyImage) 8 4 resize_query_default
    (performance_default 4) (Some gif_bytes)) as [[[format ct] out]|] eqn:Hp; [|vm_compute in Hp; discriminate].
  destruct (prepared_image_fits_encoder no_turn ((true, filled 8 4 (9, 9, 9, 0)) : ToyImage) 8 4
    resize_query_default (performance_default 4) (Some gif_bytes) format ct out Hp) as (Hw & _ & Hj & _).
  assert (format = Codec.Jpeg ∧ ct = "image/jpeg") as [-> ->]
    by (vm_compute in Hp; injection Hp as <- <- _; split; reflexivity).
  exists out. split; [reflexivity|]. split; [by apply Hj|exact Hw].
Defined.

(** Filled, at twice the pixels, by less than was asked for. *)
Lemma never_upscales_witness :
  (∃ out, sized_image ((true, filled 40 50 (9, 9, 9, 0)) : ToyImage) 40 50 fill_query = Ok out
          ∧ 1 ≤ (dimensions out).1 ≤ 40 ∧ 1 ≤ (dimensions out).2 ≤ 50)
  ∧ ∃ out, process_frame (Im := ToyImage) 2 1 fill_query (toy_frame 40) = Ok out
           ∧ 1 ≤ img_width (anim_buffer out) ≤ 2.
Proof.
  destruct (never_upscales ((true, filled 40 50 (9, 9, 9, 0)) : ToyImage) (toy_frame 40) fill_query) as [Hs Hf];
    [reflexivity|reflexivity|split; vm_compute; discriminate..|]. split.
  - destruct (sized_image ((true, filled 40 50 (9, 9, 9, 0)) : ToyImage) 40 50 fill_query) as [out|] eqn:Hr;
      [|vm_compute in Hr; discriminate].
    exists out. split; [reflexivity|].
    apply (Hs out); first [reflexivity|exact Hr|split; vm_compute; discriminate].
  - destruct (process_frame (Im := ToyImage) 2 1 fill_query (toy_frame 40)) as [out|] eqn:Hr;
      [|vm_compute in Hr; discriminate].
    exists out. split; [reflexivity|].
    apply (Hf out); first [exact Hr|split; vm_compute; discriminate].
Defined.

(** Eight by four, turned, in a canvas of one hundred by sixty. *)
Definition extend_query : ResizeQuery :=
  resize_query_default <| rq_width := Some 100 |> <| rq_height := Some 60 |> <| rq_extend := true |>
                       <| rq_rotate := 90 |> <| rq_resize_type := ResizeType.Auto |>.

Lemma extended_image_is_exact_witness :
  ∃ out, sized_image ((true, filled 8 4 (9, 9, 9, 0)) : ToyImage) 8 4 extend_query = Ok out
         ∧ dimensions out = (100, 60).
Proof.
  destruct (sized_image ((true, filled 8 4 (9, 9, 9, 0)) : ToyImage) 8 4 extend_query) as [out|] eqn:Hs;
    [|vm_compute in Hs; discriminate].
  exists out. split; [reflexivity|].
  refine (extended_image_is_exact ((true, filled 8 4 (9, 9, 9, 0)) : ToyImage) extend_query 100 60 out
    _ _ _ _ _ _ _ _ _ _ Hs); try (split; vm_compute; discriminate); vm_compute; reflexivity.
Defined.

Lemma animation_keeps_frames_witness :
  ∃ out rfs, toy_process gif_bytes webp_query (performance_default 4) None = Ok (out, "image/webp")
    ∧ read_animated_webp out = Some (2, 1, [byte_of_val 18], 0, rfs) ∧ rf_duration <$> rfs = [40; 80; 40].
Proof.
  destruct (toy_process gif_bytes webp_query (performance_default 4) None) as [[out ct]|] eqn:Hp;
    [|vm_compute in Hp; discriminate].
  destruct (animation_keeps_frames no_turn gif_bytes webp_query (performance_default 4) None
    [toy_frame 40; toy_frame 80; toy_frame 40] 2 1 Codec.Gif out ct)
    as [_ (_ & w & h & rfs & Hread & Hall)];
    [vm_compute; discriminate|reflexivity..|cbn; lia|exact Hp|by repeat constructor| |].
  { vm_compute in Hp. injection Hp as <- <-. reflexivity. }
  exists out, rfs.
  assert (w = 2 ∧ h = 1 ∧ ct = "image/webp") as (-> & -> & ->).
  { vm_compute in Hp. injection Hp as <- <-. vm_compute in Hread. injection Hread as <- <- _. done. }
  split; [reflexivity|]. split; [exact Hread|].
  inversion Hall as [|? r1 ? l1 [H1 _] Hall1]; subst. inversion Hall1 as [|? r2 ? l2 [H2 _] Hall2]; subst.
  inversion Hall2 as [|? r3 ? l3 [H3 _] Hall3]; subst. inversion Hall3; subst.
  cbn. rewrite H1, H2, H3. reflexivity.
Defined.

Lemma processed_source_within_limit_witness :
  ∃ out, toy_process gif_bytes webp_query (performance_default 4) None = Ok out
         ∧ ∃ w h, announces (Im := ToyImage) (W := ()) (Jd := ()) (Ad := ()) (G := ())
                    (performance_default 4) gif_bytes w h ∧ w * h < (50 + 1) * 1000000.
Proof.
  destruct (toy_process gif_bytes webp_query (performance_default 4) None) as [out|] eqn:Hp;
    [|vm_compute in Hp; discriminate].
  exists out. split; [reflexivity|].
  destruct (processed_source_within_limit no_turn gif_bytes webp_query (performance_default 4) None out Hp)
    as (w & h & Ha & _ & Hlt). exists w, h. exact (conj Ha Hlt).
Defined.

Lemma content_type_agrees_with_key_witness :
  ∃ out, toy_process gif_bytes webp_query (performance_default 4) None = Ok (out, "image/webp")
         ∧ content_type_for_key (generate_key (λ _, replicate 32 x00) "c/" webp_query) = "image/webp".
Proof.
  destruct (toy_process gif_bytes webp_query (performance_default 4) None) as [[out ct]|] eqn:Hp;
    [|vm_compute in Hp; discriminate].
  exists out. rewrite <- (content_type_agrees_with_key no_turn (λ _, replicate 32 x00) "c/" gif_bytes
    webp_query (performance_default 4) None out ct Hp).
  assert (ct = "image/webp") as -> by (vm_compute in Hp; congruence). split; reflexivity.
Defined.
