(* ===== verification/ResizeApi.v ===== *)
(** * The resize endpoint: [src/modules/api/{handler,resize}.rs] and
    [ResizeService] of [src/services/resize/handler.rs]

The service as it is put together at startup, and a request on its own from
the path to the redirect: no other request holds the key in flight (for those
see [SingleFlight.v]).  Downloading and processing are an interface, which
[Fetch.v] and [Pipeline.v] implement; storage is a [StorageBackend]. *)
From S2P Require Import Prelude RustStr SourceGuard RustFloat Params UrlOptions Presets UrlSource UrlGrammar CacheKey KeyValidation Performance Negotiation Access Errors Storage StorageSelect HttpCache.

Local Open Scope Z_scope.

(** ** Startup *)

Record EnvConfig := mk_EnvConfig {
  env_http_host : string;
  env_http_port : Z;
  env_storage_type : option string;
  env_sub_path : string;
  env_s3 : S3Config;
  env_local_fs_storage_path : string;
  env_cdn_base_url : string;
  env_log_level : string;
  env_otlp_span_endpoint : string;
  env_otlp_metric_endpoint : string;
  env_otlp_service_name : string;
  env_signing_key : option string;
  env_signing_salt : option string;
  env_allow_unsigned_requests : option bool;
  env_metrics_auth_token : option string;
  env_allow_unauthenticated_metrics : option bool;
  env_presets : option string;
  env_allowed_processing_options : option string;
  env_performance : PerformanceEnv;
}.

(** [ResizeService] with the [CacheService] inside it. *)
Record ResizeService := mk_ResizeService {
  storage_service : StorageService;
  storage_backend : Backend;
  minio_sub_path : string;
  performance_config : PerformanceConfig;
  cache_ttl : option Z;
}.

Record ApiService := mk_ApiService {
  resize_service : ResizeService;
  signing : SigningConfig;
  presets : PresetRegistry;
  allowed_options : AllowedOptions;
  metrics_auth : option MetricsAuthConfig;
}.

(** What [create] fails with, by the step that failed. *)
Inductive CreateError :=
  | BadConfig (e : ConfigError)
  | BadPresets (e : PresetParseError)
  | BadProfile (profile : string)
  | BadStorage (msg : string).

(** [ResizeService::with_config] *)
Definition with_config (backend : Backend) (storage : StorageService) (sub_path : string)
    (config : PerformanceConfig) : ResizeService :=
  mk_ResizeService storage backend sub_path config None.

(** The storage configuration [create] builds over the features of the build. *)
Definition storage_config_of (build : Build) (config : EnvConfig) : StorageConfig :=
  let c := with_key_prefix (env_sub_path config) (storage_config_new (env_cdn_base_url config)) in
  let c := match env_storage_type config with Some t => with_storage_type t c | None => c end in
  let c := if feature_s3 build then with_s3_config (env_s3 config) c else c in
  if feature_local_fs build then with_local_fs_config (env_local_fs_storage_path config) c else c.

(** [otel] is the feature, [env_var] [STORAGE_TYPE] of the process and [cpus] the
    processors it may use. *)
Definition create (otel : bool) (build : Build) (cpus : Z) (env_var : option string) (config : EnvConfig)
  : result CreateError ApiService :=
  signing ← map_err BadConfig
    (signing_from_env (env_signing_key config) (env_signing_salt config)
       (env_allow_unsigned_requests config));
  metrics_auth ←
    (if otel
     then Some <$> map_err BadConfig
            (metrics_from_env (env_metrics_auth_token config) (env_allow_unauthenticated_metrics config))
     else Ok None);
  presets ← map_err BadPresets (preset_registry_parse (default EmptyString (env_presets config)));
  let allowed_options :=
    allowed_options_parse (default EmptyString (env_allowed_processing_options config)) in
  performance_config ← map_err BadProfile (performance_try_from cpus (env_performance config));
  '(backend, storage) ← map_err BadStorage
    (storage_service_new build env_var (storage_config_of build config));
  Ok (mk_ApiService (with_config backend storage (env_sub_path config) performance_config) signing
        presets allowed_options metrics_auth).

(** ** A request *)

(** The interface of [ImageService]. *)
Class ImageService := {
  image_download : string → result AnyhowError (list byte);
  image_process : list byte → ResizeQuery → result AnyhowError (list byte * string);
}.

(** The messages of [verify_or_reject]. *)
Definition forbidden_message (r : ForbiddenReason) : string :=
  match r with
  | UnsignedRefused =>
      "unsigned requests are refused; signing is required (#27). Set ALLOW_UNSIGNED_REQUESTS=true to enable the /unsigned/ escape for local development."
  | NoSigningKey => "no signing key is configured; use /unsigned/... in local development"
  | InvalidSignature => "invalid signature"
  end.

Section Request.
Context `{StorageBackend E St} `{ImageService}.
Context (sha256 : list byte → list byte).
Context (hmac_sha256 : list byte → list byte → list byte) (ct_eq : list byte → list byte → bool).
Context (b64_decode url_decode : string → option string).
(** [Display] of a parse error, and [{:?}] of a string: both escape by Unicode
    tables. *)
Context (parse_error_text : UrlParseError → string) (debug_str : string → string).

Definition url_parse_error (e : UrlParseError) : AppError := BadRequest (parse_error_text e).

Definition do_resize_work (svc : ResizeService) (e : E) (cache_key : string) (params : ResizeQuery)
    (s : St) : result AnyhowError string * St :=
  match image_download (rq_url params) with
  | Err err => (Err err, s)
  | Ok image_bytes =>
      match image_process image_bytes params with
      | Err err => (Err err, s)
      | Ok (processed_image, content_type) =>
          match service_upload_image_with_ttl (storage_service svc) e cache_key content_type
                  processed_image (cache_ttl svc) s with
          | (Err err, s') => (Err err, s')
          | (Ok _, s') => (Ok (get_cdn_url (storage_service svc) cache_key), s')
          end
      end
  end.

(** A failed cache check goes on as a miss; [e0] is the environment of the
    check, [e1] that of the upload. *)
Definition resize (svc : ResizeService) (e0 e1 : E) (params : ResizeQuery) (s : St)
  : result AnyhowError string * St :=
  let cache_key := generate_key sha256 (minio_sub_path svc) params in
  match service_check_cache (storage_service svc) e0 cache_key s with
  | (Ok true, s') => (Ok (get_cdn_url (storage_service svc) cache_key), s')
  | (_, s') => do_resize_work svc e1 cache_key params s'
  end.

Definition perform_resize (api : ApiService) (e0 e1 : E) (query : ResizeQuery) (s : St)
  : result AppError string * St :=
  let (r, s') := resize (resize_service api) e0 e1 query s in (map_err classify_resize_error r, s').

(** What [handle] does before it touches the service: the query and whether
    its format was negotiated. *)
Definition admitted_query (api : ApiService) (raw_path : string) (accept : option string)
  : result AppError (ResizeQuery * bool) :=
  signed ← map_err url_parse_error (split raw_path);
  _ ← map_err (λ r, Forbidden (forbidden_message r))
        (verify_or_reject hmac_sha256 ct_eq b64_decode (signing api) signed);
  parsed ← map_err url_parse_error
    (parse_with_config b64_decode url_decode signed (presets api) (allowed_options api));
  let query := into_resize_query parsed in
  let '(resolved_format, negotiated) := resolve (rq_format query) accept in
  Ok (query <| rq_format := resolved_format |>, negotiated).

Definition handle (api : ApiService) (e0 e1 : E) (raw_path : string) (accept : option string) (s : St)
  : result AppError (string * bool) * St :=
  match admitted_query api raw_path accept with
  | Err err => (Err err, s)
  | Ok (query, negotiated) =>
      let (r, s') := perform_resize api e0 e1 query s in
      ((λ location, (location, negotiated)) <$> r, s')
  end.

Definition redirect_response (location : string) (negotiated : bool) : Response :=
  let response := insert_header "cache-control" immutable (mk_Response 301 [] EmptyString) in
  let response := if negotiated then insert_header "vary" "Accept" response else response in
  if header_value_ok location then insert_header "location" location response
  else
    error_response
      (AnyError (EMessage ("generated CDN location " +:+ debug_str location +:+ " is not a valid HTTP header value"))).

(** The path and the readable [Accept] header of the request are its input. *)
Definition resize_handler (api : ApiService) (e0 e1 : E) (raw_path : string) (accept : option string)
    (s : St) : Response * St :=
  match handle api e0 e1 raw_path accept s with
  | (Ok (location, negotiated), s') => (redirect_response location negotiated, s')
  | (Err err, s') => (error_response err, s')
  end.
End Request.

(** ** Properties: startup *)

(** The two secrets of a service: each is configured, or its absence allowed in
    so many words. *)
Definition authenticated (otel : bool) (config : EnvConfig) (api : ApiService) : Prop :=
  (signing_enabled (signing api) = true ∨ env_allow_unsigned_requests config = Some true)
  ∧ (otel = true → ∃ m, metrics_auth api = Some m
       ∧ (metrics_enabled m = true ∨ env_allow_unauthenticated_metrics config = Some true)).

(** Startup fails closed. *)
Lemma create_authenticated otel build cpus env_var config api :
  create otel build cpus env_var config = Ok api → authenticated otel config api.
Proof.
  unfold create. intros Hc. apply bind_Ok in Hc as (sc & Hsc & Hc).
  apply bind_Ok in Hc as (ma & Hma & Hc). apply bind_Ok in Hc as (pr & _ & Hc). cbv zeta in Hc.
  apply bind_Ok in Hc as (pc & _ & Hc). apply bind_Ok in Hc as ([backend storage] & _ & Hc).
  injection Hc as <-. unfold authenticated. cbn. split.
  - apply map_err_Ok in Hsc. unfold signing_from_env in Hsc. apply bind_Ok in Hsc as (k & _ & Hsc).
    apply bind_Ok in Hsc as (sa & _ & Hsc). cbv zeta in Hsc.
    destruct (signing_enabled _) eqn:Hen; cbn [negb andb] in Hsc.
    + injection Hsc as <-. by left.
    + right. destruct (env_allow_unsigned_requests config) as [[]|]; done.
  - intros ->. cbn in Hma. apply fmap_Ok in Hma as (m & Hm & <-). exists m. split; [done|].
    apply map_err_Ok, metrics_fails_closed in Hm as [?|[? _]]; auto.
Qed.

(** One prefix for the keys and their check. *)
Lemma create_storage otel build cpus env_var config api :
  create otel build cpus env_var config = Ok api →
  ∃ backend pc, resize_service api =
    with_config backend (mk_StorageService (env_cdn_base_url config) (env_sub_path config)) (env_sub_path config) pc.
Proof.
  unfold create. intros Hc. apply bind_Ok in Hc as (sc & _ & Hc).
  apply bind_Ok in Hc as (ma & _ & Hc). apply bind_Ok in Hc as (pr & _ & Hc). cbv zeta in Hc.
  apply bind_Ok in Hc as (pc & _ & Hc). apply bind_Ok in Hc as ([backend storage] & Hst & Hc).
  injection Hc as <-. cbn. apply map_err_Ok in Hst. unfold storage_service_new in Hst.
  apply bind_Ok in Hst as (ty & _ & Hst). exists backend, pc. f_equal.
  assert (config_cdn_base_url (storage_config_of build config) = env_cdn_base_url config
          ∧ config_key_prefix (storage_config_of build config) = env_sub_path config) as [Hcdn Hprefix]
    by (unfold storage_config_of;
        by destruct (env_storage_type config), (feature_s3 build), (feature_local_fs build)).
  rewrite Hcdn, Hprefix in Hst. destruct ty.
  - destruct (feature_s3 build); [|done]. apply bind_Ok in Hst as (? & _ & Hst). congruence.
  - destruct (feature_local_fs build); [|done]. apply bind_Ok in Hst as (? & _ & Hst). congruence.
  - destruct (cfg_test build && feature_in_memory build); congruence.
Qed.

(** C40. The prefix that keys are generated under is the prefix they are checked
    against, so a service that starts with a prefix free of control characters
    accepts every key it will make - those of queries whose format has been
    negotiated, and no other.  It starts only with a signing key and a metrics
    token, or with the absence of each waived. *)
Theorem created_service_accepts_its_keys otel build cpus env_var config api sha256 q :
  create otel build cpus env_var config = Ok api →
  (∀ m, length (sha256 m) = 32%nat) → str_exists is_control (env_sub_path config) = false →
  let svc := resize_service api in
  (validate_cache_key (generate_key sha256 (minio_sub_path svc) q) (key_prefix (storage_service svc)) = Ok ()
     ↔ rq_format q ≠ ImageFormat.Auto)
  ∧ cdn_base_url (storage_service svc) = env_cdn_base_url config
  ∧ authenticated otel config api.
Proof.
  intros Hc Hsha Hsub. cbv zeta. destruct (create_storage _ _ _ _ _ _ Hc) as (backend & pc & ->).
  split_and!; [by apply generated_key_validates|done|by eapply create_authenticated].
Qed.

(** ** Properties: a request *)

Section Served.
Context `{StorageContract E St} `{ImageService}.
Context (sha256 : list byte → list byte).
Context (hmac_sha256 : list byte → list byte → list byte) (ct_eq : list byte → list byte → bool).
Context (b64_decode url_decode : string → option string).
Context (parse_error_text : UrlParseError → string) (debug_str : string → string).
Context (api : ApiService).
Abbreviation svc := (resize_service api).
Abbreviation key_of := (generate_key sha256 (minio_sub_path svc)).
Abbreviation admitted :=
  (admitted_query hmac_sha256 ct_eq b64_decode url_decode parse_error_text api).

(** What [create] leaves behind, with a hash of its size. *)
Hypothesis sha256_length : ∀ m, length (sha256 m) = 32%nat.
Hypothesis same_prefix : key_prefix (storage_service svc) = minio_sub_path svc.
Hypothesis printable_prefix : str_exists is_control (minio_sub_path svc) = false.
Hypothesis no_ttl : cache_ttl svc = None.
Hypothesis usable_keys : ∀ key, validate_cache_key key (key_prefix (storage_service svc)) = Ok () → usable key.

Lemma resolve_concrete format accept : (resolve format accept).1 ≠ ImageFormat.Auto.
Proof.
  unfold resolve. destruct format; try done. destruct accept as [a|]; [|done].
  cbv zeta. repeat case_match; try done; unfold prefer; repeat case_match; done.
Qed.

Lemma admitted_query_key raw_path accept query negotiated :
  admitted raw_path accept = Ok (query, negotiated) →
  validate_cache_key (key_of query) (key_prefix (storage_service svc)) = Ok ().
Proof.
  unfold admitted_query. intros Ha. apply bind_Ok in Ha as (signed & _ & Ha).
  apply bind_Ok in Ha as (? & _ & Ha). apply bind_Ok in Ha as (parsed & _ & Ha). cbv zeta in Ha.
  pose proof (resolve_concrete (rq_format (into_resize_query parsed)) accept) as Hc.
  destruct (resolve _ accept) as [f n]. injection Ha as <- <-. rewrite same_prefix.
  by apply generated_key_validates.
Qed.

Lemma refused_status raw_path accept err :
  admitted raw_path accept = Err err → status_code err = 400 ∨ status_code err = 403.
Proof.
  assert (Hm : ∀ {A A'} (f : A → AppError) (r : result A A') e,
            (∀ a, status_code (f a) = 400 ∨ status_code (f a) = 403) → map_err f r = Err e →
            status_code e = 400 ∨ status_code e = 403).
  { intros A A' f [a|a] e Hf; [done|]. intros [= <-]. apply Hf. }
  unfold admitted_query. intros [Ha|(signed & _ & Ha)]%bind_Err.
  { eapply Hm; [|exact Ha]. by left. }
  apply bind_Err in Ha as [Ha|(? & _ & Ha)]; [eapply Hm; [|exact Ha]; by right|].
  apply bind_Err in Ha as [Ha|(parsed & _ & Ha)]; [eapply Hm; [|exact Ha]; by left|].
  cbv zeta in Ha. by destruct (resolve _ accept).
Qed.

(** What the source of a query, and processing it, come to. *)
Definition made (query : ResizeQuery) : result AnyhowError (list byte * string) :=
  bytes ← image_download (rq_url query); image_process bytes query.

Lemma do_resize_work_made e key query s :
  do_resize_work svc e key query s =
  match made query with
  | Err err => (Err err, s)
  | Ok (data, ct) =>
      let (r, s') := service_upload_image_with_ttl (storage_service svc) e key ct data (cache_ttl svc) s in
      ((λ _, get_cdn_url (storage_service svc) key) <$> r, s')
  end.
Proof.
  unfold do_resize_work, made. destruct (image_download (rq_url query)) as [bytes|err]; [|done].
  cbn [mbind result_bind]. destruct (image_process bytes query) as [[data ct]|err]; [|done].
  by destruct (service_upload_image_with_ttl _ _ _ _ _ _ _) as [[] s'].
Qed.

(** What one call of [resize] leaves: an image behind the URL it returned,
    whether calls of the storage fail or not. *)
Lemma resize_serves e0 e1 query s :
  sound s → honest e0 → honest e1 → 0 ≤ backend_now e1 →
  validate_cache_key (key_of query) (key_prefix (storage_service svc)) = Ok () →
  let out := resize sha256 svc e0 e1 query s in
  sound out.2
  ∧ match out.1 with
    | Ok url => url = get_cdn_url (storage_service svc) (key_of query)
        ∧ ((is_Some (live s (backend_now e0) (key_of query))
            ∧ ∀ t, backend_now e0 ≤ t → live out.2 t (key_of query) = live s t (key_of query))
           ∨ ((calm e0 → live s (backend_now e0) (key_of query) = None)
              ∧ ∃ data ct, made query = Ok (data, ct)
                  ∧ ∀ t, 0 ≤ t → live out.2 t (key_of query) = Some data))
    | Err _ => calm e0 → calm e1 →
        live s (backend_now e0) (key_of query) = None ∧ ∃ err, made query = Err err
    end.
Proof.
  intros Hs He0 He1 Hnow Hkey. pose proof (usable_keys _ Hkey) as Hu.
  unfold resize, service_check_cache, validated. rewrite Hkey.
  pose proof (reads_of_live e0 (key_of query) s He0 Hs Hu) as Hread.
  pose proof (λ b, check_told e0 (key_of query) s b He0 Hs Hu) as Htold.
  destruct (check_frame e0 (key_of query) s Hs Hu) as [Hs1 Hl1].
  destruct (check_cache e0 (key_of query) s) as [r s1]. cbn [fst snd] in *.
  assert (Hnone : r ≠ Ok true → calm e0 → live s (backend_now e0) (key_of query) = None).
  { intros Hr He. destruct (live s _ _) as [d|]; [|done]. by destruct (proj1 Hread He). }
  assert (r = Ok true ∨ r ≠ Ok true) as [->|Hr] by (destruct r as [[]|]; auto).
  { specialize (Htold _ eq_refl). symmetry in Htold. apply bool_decide_eq_true in Htold. cbn.
    split_and!; [done|done|]. left. split; [done|]. intros t Ht. by apply Hl1. }
  specialize (Hnone Hr).
  assert ((match r with
           | Ok true => (Ok (get_cdn_url (storage_service svc) (key_of query)), s1)
           | _ => do_resize_work svc e1 (key_of query) query s1
           end) = do_resize_work svc e1 (key_of query) query s1) as -> by (by destruct r as [[]|]).
  rewrite do_resize_work_made. destruct (made query) as [[data ct]|err]; [|by cbn; eauto 8].
  unfold service_upload_image_with_ttl, validated. rewrite Hkey, no_ttl.
  destruct (upload_frame e1 (key_of query) ct data None s1 Hs1 Hu) as [Hs2 _].
  pose proof (upload_stores e1 (key_of query) ct data None s1 He1 Hs1 Hu Hnow ltac:(done)) as Hst.
  pose proof (λ He, upload_succeeds e1 (key_of query) ct data None s1 He Hs1 Hu) as Hok.
  destruct (upload_image_with_ttl e1 (key_of query) ct data None s1) as [[[]|err] s2]; cbn in *;
    (split; [done|]); [|intros _ He; by specialize (Hok He)].
  split; [done|]. right. split; [done|]. exists data, ct. split; [done|]. intros t Ht. by apply Hst.
Qed.

(** C16. A redirect keeps its promise: it is given to a request that was admitted -
    signed, allowed and well formed - and only for a URL of our own, under
    which the image now is, although calls of the storage may have failed: the
    one that was there, or the one made from the source for this request and
    stored, to stay.  Every other answer is an error that caches do not keep,
    and one to a request that was not admitted has not touched the storage.
    When the storage does not fail and the image is there or can be made, the
    answer is the redirect. *)
Theorem resize_handler_spec e0 e1 raw_path accept s :
  sound s → honest e0 → honest e1 → 0 ≤ backend_now e1 →
  let out := resize_handler sha256 hmac_sha256 ct_eq b64_decode url_decode parse_error_text debug_str api
               e0 e1 raw_path accept s in
  match admitted raw_path accept with
  | Err err => out = (error_response err, s) ∧ (resp_status out.1 = 400 ∨ resp_status out.1 = 403)
  | Ok (query, negotiated) =>
      let url := get_cdn_url (storage_service svc) (key_of query) in
      sound out.2
      ∧ (resp_status out.1 = 301
         ∧ header "location" out.1 = Some url
         ∧ header "vary" out.1 = (if negotiated then Some "Accept" else None)
         ∧ ((∃ data, live s (backend_now e0) (key_of query) = Some data
                     ∧ live out.2 (backend_now e0) (key_of query) = Some data)
            ∨ (∃ data ct, made query = Ok (data, ct)
                 ∧ ∀ t, 0 ≤ t → live out.2 t (key_of query) = Some data))
         ∨ 400 ≤ resp_status out.1 ∧ header "cache-control" out.1 = Some "no-store")
      ∧ (calm e0 → calm e1 → header_value_ok url = true →
         is_Some (live s (backend_now e0) (key_of query)) ∨ (∃ image, made query = Ok image) →
         resp_status out.1 = 301)
  end.
Proof.
  intros Hs He0 He1 Hnow. unfold resize_handler, handle. cbv zeta.
  destruct (admitted raw_path accept) as [[query negotiated]|err] eqn:Ha.
  2: { split; [done|]. cbn. by eapply refused_status. }
  apply admitted_query_key in Ha. unfold perform_resize.
  destruct (resize_serves e0 e1 query s Hs He0 He1 Hnow Ha) as [Hsound Hout].
  destruct (resize sha256 svc e0 e1 query s) as [r s']. cbn [fst snd] in *.
  destruct r as [url|err]; cbn [map_err fmap result_fmap fst snd].
  2: { split; [done|]. split; [right; split; [|done]; by destruct (classify_resize_error err)|].
       intros Hc0 Hc1 _ Hmade. destruct (Hout Hc0 Hc1) as [Hnone [err' Herr]]. rewrite Hnone, Herr in Hmade.
       by destruct Hmade as [[? [=]]|[? [=]]]. }
  split; [done|]. destruct Hout as [-> Hdata]. unfold redirect_response. cbv zeta.
  destruct (header_value_ok _); [|by split; [right|]].
  assert (∀ r, resp_status (insert_header "location" (get_cdn_url (storage_service svc) (key_of query)) r)
    = resp_status r) as Hst by done.
  split; [left|intros; by destruct negotiated].
  split_and!.
  - by destruct negotiated.
  - by rewrite header_insert.
  - rewrite header_insert. cbn. destruct negotiated; by rewrite ?header_insert.
  - destruct Hdata as [[[data Hdata] Hl]|[_ ?]]; [left|by right].
    exists data. split; [done|]. by rewrite Hl.
Qed.

Lemma redirect_followed e0 e1 e2 calls raw_path accept s query negotiated :
  sound s → honest e0 → honest e1 → calm e2 → 0 ≤ backend_now e1 → backend_now e0 ≤ backend_now e2 →
  0 ≤ backend_now e2 → admitted raw_path accept = Ok (query, negotiated) →
  let key := key_of query in
  (∀ data, live s (backend_now e0) key = Some data → live s (backend_now e2) key = Some data) →
  Forall (λ c, spares key c.2 ∧ backend_now c.1 ≤ backend_now e2) calls →
  let out := resize_handler sha256 hmac_sha256 ct_eq b64_decode url_decode parse_error_text debug_str api
               e0 e1 raw_path accept s in
  let later := (run_calls (storage_service svc) calls out.2).2 in
  let got := (download_handler (storage_service svc) e2 key later).1 in
  resp_status out.1 = 301 →
  header "location" out.1 = Some (get_cdn_url (storage_service svc) key)
  ∧ resp_status got = 200 ∧ header "cache-control" got = Some immutable
  ∧ header "content-type" got = Some (content_type_for_key key)
  ∧ ∃ data, resp_body got = string_of_list_byte data
      ∧ (live s (backend_now e0) key = Some data ∨ ∃ ct, made query = Ok (data, ct)).
Proof.
  intros Hs He0 He1 He2 Hnow1 Hnow02 Hnow2 Ha. cbv zeta. intros Hkept Hcalls.
  pose proof (admitted_query_key _ _ _ _ Ha) as Hkey.
  unfold resize_handler, handle, perform_resize. rewrite Ha.
  destruct (resize_serves e0 e1 query s Hs He0 He1 Hnow1 Hkey) as [Hsound Hout].
  destruct (resize sha256 svc e0 e1 query s) as [[url|err] s'];
    cbn [map_err fmap result_fmap fst snd] in *; [|by destruct (classify_resize_error err)].
  destruct Hout as [-> Hdata]. unfold redirect_response. cbv zeta.
  destruct (header_value_ok _); [|done]. intros _. rewrite header_insert.
  destruct (run_calls_frame (storage_service svc) usable_keys calls s' (key_of query) (backend_now e2)
    Hsound (usable_keys _ Hkey) Hcalls) as [Hsl Hll].
  pose proof (download_answer (storage_service svc) usable_keys e2 (key_of query) _ Hsl He2) as Hgot.
  cbv zeta in Hgot. rewrite Hkey, Hll in Hgot.
  assert (∃ data, live s' (backend_now e2) (key_of query) = Some data
      ∧ (live s (backend_now e0) (key_of query) = Some data ∨ ∃ ct, made query = Ok (data, ct)))
    as (data & Hlive & Hfrom).
  { destruct Hdata as [[[data Hdata] Hl]|(_ & data & ct & Hmade & Hl)]; exists data.
    - split; [rewrite Hl by done; by apply Hkept|by left].
    - split; [by apply Hl|right; by exists ct]. }
  rewrite Hlive in Hgot. destruct Hgot as (? & ? & ? & ?). split_and!; [done..|]. by exists data.
Qed.

(** C7. The redirect can be followed, although calls of the storage may have failed
    before it was given: at any later time, whatever other requests did to
    other keys in between, a download of the key in its [Location] that meets
    no failure itself is the image - the one that was there, if it has not
    expired by then, or the one made from the source - with the type its format
    asks for. *)
Theorem redirect_leads_to_image e0 e1 e2 calls raw_path accept s query negotiated :
  sound s → honest e0 → honest e1 → calm e2 → 0 ≤ backend_now e1 → backend_now e0 ≤ backend_now e2 →
  0 ≤ backend_now e2 → admitted raw_path accept = Ok (query, negotiated) →
  let key := key_of query in
  (∀ data, live s (backend_now e0) key = Some data → live s (backend_now e2) key = Some data) →
  Forall (λ c, spares key c.2 ∧ backend_now c.1 ≤ backend_now e2) calls →
  let out := resize_handler sha256 hmac_sha256 ct_eq b64_decode url_decode parse_error_text debug_str api
               e0 e1 raw_path accept s in
  let later := (run_calls (storage_service svc) calls out.2).2 in
  let got := (download_handler (storage_service svc) e2 key later).1 in
  resp_status out.1 = 301 →
  header "location" out.1 = Some (get_cdn_url (storage_service svc) key)
  ∧ resp_status got = 200 ∧ header "cache-control" got = Some immutable
  ∧ header "content-type" got = Some (content_type_for_key key)
  ∧ ∃ data, resp_body got = string_of_list_byte data
      ∧ (live s (backend_now e0) key = Some data ∨ ∃ ct, made query = Ok (data, ct)).
Proof. apply redirect_followed. Qed.
End Served.

(** ** Instances: a local deployment over the in-memory backend *)

Definition demo_config : EnvConfig := {|
  env_http_host := "0.0.0.0"; env_http_port := 3000; env_log_level := "debug";
  env_otlp_span_endpoint := "http://localhost:4317";
  env_otlp_metric_endpoint := "http://localhost:4318/v1/metrics"; env_otlp_service_name := "resizer";
  env_storage_type := Some "local_fs"; env_sub_path := "c/";
  env_s3 := mk_S3Config "http://s3" "id" "secret" "images" "eu"; env_local_fs_storage_path := "data";
  env_cdn_base_url := "http://cdn/"; env_signing_key := None; env_signing_salt := None;
  env_allow_unsigned_requests := Some true; env_metrics_auth_token := Some "token";
  env_allow_unauthenticated_metrics := None; env_presets := None;
  env_allowed_processing_options := None; env_performance := performance_env_empty |}.

Definition demo_create : result CreateError ApiService :=
  create true (mk_Build true true false false) 4 None demo_config.

Definition demo_sha (_ : list byte) : list byte := replicate 32 x00.

Lemma created_service_accepts_its_keys_witness :
  ∃ api, demo_create = Ok api
    ∧ validate_cache_key (generate_key demo_sha (minio_sub_path (resize_service api)) resize_query_default)
        (key_prefix (storage_service (resize_service api))) = Ok ().
Proof.
  destruct demo_create as [api|] eqn:Hc; [|vm_compute in Hc; discriminate].
  exists api. split; [reflexivity|].
  by apply (created_service_accepts_its_keys true (mk_Build true true false false) 4 None demo_config api
    demo_sha resize_query_default Hc (λ _, eq_refl) eq_refl).
Defined.

(** Any source is one byte, and its own resized version. *)
#[local] Instance demo_images : ImageService := {
  image_download _ := Ok [x2a];
  image_process bytes _ := Ok (bytes, "image/webp");
}.

Definition demo_api : ApiService :=
  mk_ApiService
    (with_config InMemoryStorage (mk_StorageService "http://cdn/" "c/") "c/" (performance_default 4))
    (mk_SigningConfig [] [] true) preset_registry_empty unrestricted None.

Lemma resize_handler_spec_witness :
  let out := resize_handler (H := InMemory.backend) demo_sha (λ _ _, []) (λ _ _, false) (λ _, None) Some
               (λ _, "bad request") (λ s, s) demo_api 0 0 "/unsigned/rs:fit:10:0/plain/o.auto"
               (Some "image/webp") ∅ in
  resp_status out.1 = 301 ∧ header "vary" out.1 = Some "Accept"
  ∧ ∃ k, header "location" out.1 = Some ("http://cdn/" +:+ k) ∧ mem_live out.2 10 k = Some [x2a].
Proof.
  cbv zeta.
  pose proof (resize_handler_spec (H := mem_contract) demo_sha (λ _ _, []) (λ _ _, false) (λ _, None) Some
    (λ _, "bad request") (λ s, s) demo_api (λ _, eq_refl) eq_refl eq_refl eq_refl (λ _ _, I) 0 0
    "/unsigned/rs:fit:10:0/plain/o.auto" (Some "image/webp") ∅ I I I ltac:(done)) as Hspec.
  cbv zeta in Hspec.
  destruct (admitted_query _ _ _ _ _ demo_api _ _) as [[query negotiated]|err] eqn:Ha;
    [|vm_compute in Ha; discriminate].
  vm_compute in Ha. injection Ha as Hq Hn. subst negotiated.
  destruct Hspec as (_ & [(H301 & Hloc & Hvary & Hdata)|[H400 _]] & _).
  2: { exfalso. revert H400. vm_compute. congruence. }
  split; [exact H301|]. split; [exact Hvary|].
  exists (generate_key demo_sha "c/" query). split; [exact Hloc|].
  destruct Hdata as [(data & Hlive & _)|(data & ct & Hmade & Hlive)].
  - exfalso. subst query. vm_compute in Hlive. discriminate.
  - injection Hmade as <- _. apply (Hlive 10). done.
Defined.

Definition demo_key : string :=
  "c/0000000000000000000000000000000000000000000000000000000000000000.webp".

(** The same request, followed an hour after another image was deleted. *)
Lemma redirect_leads_to_image_witness :
  let handler := resize_handler (H := InMemory.backend) demo_sha (λ _ _, []) (λ _ _, false) (λ _, None) Some
                   (λ _, "bad request") (λ s, s) demo_api in
  let out := handler 0 0 "/unsigned/rs:fit:10:0/plain/o.auto" (Some "image/webp") ∅ in
  let key := demo_key in
  let later := (run_calls (H := InMemory.backend) (storage_service (resize_service demo_api))
                  [(5, CallDelete "c/other.png")] out.2).2 in
  let got := (download_handler (H := InMemory.backend) (storage_service (resize_service demo_api)) 3600 key later).1 in
  header "location" out.1 = Some ("http://cdn/" +:+ key)
  ∧ header "content-type" got = Some "image/webp" ∧ resp_body got = string_of_list_byte [x2a].
Proof.
  cbv zeta.
  destruct (admitted_query (λ _ _, []) (λ _ _, false) (λ _, None) Some (λ _, "bad request") demo_api
    "/unsigned/rs:fit:10:0/plain/o.auto" (Some "image/webp")) as [[query negotiated]|err] eqn:Ha;
    [|vm_compute in Ha; discriminate].
  pose proof (redirect_leads_to_image (H := mem_contract) demo_sha (λ _ _, []) (λ _ _, false) (λ _, None) Some
    (λ _, "bad request") (λ s, s) demo_api (λ _, eq_refl) eq_refl eq_refl eq_refl (λ _ _, I) 0 0 3600
    [(5, CallDelete "c/other.png")] "/unsigned/rs:fit:10:0/plain/o.auto" (Some "image/webp") ∅ query negotiated
    I I I I ltac:(done) ltac:(done) ltac:(done) Ha) as Hspec.
  vm_compute in Ha. injection Ha as Hq Hn. subst query. cbv zeta in Hspec.
  destruct Hspec as (Hloc & _ & _ & Htype & data & Hbody & Hfrom).
  { intros data Hlive. vm_compute in Hlive. discriminate. }
  { repeat constructor; vm_compute; congruence. }
  { vm_compute. reflexivity. }
  match type of Hloc with context [generate_key ?h ?p ?q] =>
    assert (generate_key h p q = demo_key) as Hk by (vm_compute; reflexivity) end.
  rewrite Hk in *. split; [exact Hloc|]. split; [exact Htype|]. rewrite Hbody.
  destruct Hfrom as [Hlive|(ct & Hmade)]; [vm_compute in Hlive; discriminate|].
  injection Hmade as <- _. reflexivity.
Defined.
