(* ===== verification/Service.v ===== *)
(** * The deployed service: [ImageService] as [Fetch.v] and [Pipeline.v] make it

[ResizeApi.v] is proved against an interface; here are the downloads and the
processing of [src/services/image/handler.rs] behind it, and what then holds
of every image the endpoint stores. *)
From S2P Require Import Prelude RustStr SourceGuard RustFloat Params UrlOptions Presets UrlSource UrlGrammar CacheKey KeyValidation Performance Negotiation Access Errors Geometry Raster AvifMeta Storage StorageSelect HttpCache Fetch Encoding Webp Sniff Images Codecs Pipeline ResizeApi.

Local Open Scope Z_scope.

Section Deployed.
Context (v4net_contains v6net_contains : Z * Z → Z → bool).
Context {Url : Type} (url_parse : string → option Url) (url_join : Url → string → option Url)
  (url_scheme : Url → string) (url_host_str : Url → option string)
  (url_port_or_known_default : Url → option Z) (url_path : Url → string)
  (url_to_string : Url → string).
Context `{ImageCrate Im} `{CodecCrates Im W Jd Ad} `{AnimationCrates G} (sin_cos : SinCos).
Context (config : PerformanceConfig) (permits : Z).
(** What the network answers to the fetch of an image and to that of its
    watermark. *)
Context (net watermark_net : Network (Url := Url)).

Definition deployed_process_blocking (image_bytes : list byte) (params : ResizeQuery)
    (watermark_bytes : option (list byte)) : option (result AnyhowError (list byte * string)) :=
  unwinding
    (process_image_blocking_with_limits_and_watermark (Im := Im) (W := W) (Jd := Jd) (Ad := Ad) (G := G)
       sin_cos image_bytes params config watermark_bytes).

Definition deployed : ImageService := {|
  image_download url :=
    (download_image v4net_contains v6net_contains url_parse url_join url_scheme url_host_str
       url_port_or_known_default url_path url_to_string config net url).1;
  image_process image_bytes params :=
    (process_image v4net_contains v6net_contains url_parse url_join url_scheme url_host_str
       url_port_or_known_default url_path url_to_string config watermark_net deployed_process_blocking
       permits image_bytes params).1;
|}.

Lemma deployed_process_Ok image_bytes params out :
  image_process (ImageService := deployed) image_bytes params = Ok out →
  0 < permits
  ∧ ∃ watermark_bytes,
      process_image_blocking_with_limits_and_watermark (Im := Im) (W := W) (Jd := Jd) (Ad := Ad) (G := G)
        sin_cos image_bytes params config watermark_bytes = Ok out.
Proof.
  cbn [image_process deployed]. unfold process_image.
  destruct (download_watermark_if_needed _ _ _ _ _ _ _ _ _ _ _ params) as [[wm|err] connections]; [|done].
  destruct (Z.leb_spec permits 0); [done|]. cbn [fst]. unfold deployed_process_blocking, unwinding. intros Hp.
  split; [done|]. exists wm.
  destruct (process_image_blocking_with_limits_and_watermark _ _ _ _ _) as [a|[e|p]]; [|done..].
  by injection Hp as <-.
Qed.

(** C15. Every image the endpoint makes and stores went through all the checks: its
    source was received within the size cap and announces no more pixels than
    allowed, a permit was free, the request is within the output limits, and
    the type it is stored with is the one downloads of its key are served
    with. *)
Theorem stored_image_passed_checks sha256 sub_path params image_bytes data content_type :
  0 ≤ max_image_size config < 2 ^ 63 →
  (∀ n client current response piece, send net n client current = Some response →
     Some piece ∈ source_body response → in_memory piece) →
  image_download (ImageService := deployed) (rq_url params) = Ok image_bytes →
  image_process (ImageService := deployed) image_bytes params = Ok (data, content_type) →
  Z.of_nat (length image_bytes) ≤ max_image_size config ∧ 0 < permits
  ∧ check_output_dimensions params config = Ok ()
  ∧ (∃ w h, announces (Im := Im) (W := W) (Jd := Jd) (Ad := Ad) (G := G) config image_bytes w h
            ∧ w * h < (max_src_resolution_mp config + 1) * 1000000)
  ∧ content_type = content_type_for_key (generate_key sha256 sub_path params).
Proof.
  intros Hcap Hmem Hd Hp. apply deployed_process_Ok in Hp as (Hperm & wm & Hp). split_and!.
  - eapply download_image_capped; [exact Hcap|exact Hmem|exact Hd].
  - done.
  - apply process_cases in Hp as [Hc _]. unfold checked in Hc. by apply map_err_Ok in Hc.
  - apply process_announced in Hp as (w & h & Ha & _ & Hlt). by exists w, h.
  - by eapply process_content_type.
Qed.

(** *** Failures

What a request that is admitted and finds nothing stored is answered when the
deployed service cannot make its image. *)

Section Failures.
Context `{StorageBackend E St}.
Context (sha256 : list byte → list byte).
Context (hmac_sha256 : list byte → list byte → list byte) (ct_eq : list byte → list byte → bool).
Context (b64_decode url_decode : string → option string).
Context (parse_error_text : UrlParseError → string) (debug_str : string → string).
Context (api : ApiService) (e0 e1 : E) (s : St).
Context (raw_path : string) (accept : option string) (query : ResizeQuery) (negotiated : bool).
Hypothesis admitted :
  admitted_query hmac_sha256 ct_eq b64_decode url_decode parse_error_text api raw_path accept = Ok (query, negotiated).
Hypothesis not_stored :
  (service_check_cache (storage_service (resize_service api)) e0
     (generate_key sha256 (minio_sub_path (resize_service api)) query) s).1 ≠ Ok true.

Definition answered : Response :=
  (resize_handler (H0 := deployed) sha256 hmac_sha256 ct_eq b64_decode url_decode parse_error_text debug_str
     api e0 e1 raw_path accept s).1.

(** The answer is the one [classify_resize_error] gives for what failed. *)
Lemma answered_failure err :
  image_download (ImageService := deployed) (rq_url query) = Err err
  ∨ (∃ bytes, image_download (ImageService := deployed) (rq_url query) = Ok bytes
      ∧ image_process (ImageService := deployed) bytes query = Err err) →
  resp_status answered = status_code (classify_resize_error err).
Proof.
  intros Hfail. unfold answered, resize_handler, handle. rewrite admitted. unfold perform_resize, resize.
  assert (∀ s1, do_resize_work (H0 := deployed) (resize_service api) e1
    (generate_key sha256 (minio_sub_path (resize_service api)) query) query s1 = (Err err, s1)) as Hwork.
  { intros s1. unfold do_resize_work. destruct Hfail as [->|(bytes & -> & ->)]; done. }
  destruct (service_check_cache _ _ _ _) as [[[]|] s1]; [done|..]; by rewrite Hwork.
Qed.

Lemma too_large_is_bad_request msg :
  mentions "too large" msg = true → status_code (classify_resize_error (EMessage msg)) = 400.
Proof. intros Hm. unfold classify_resize_error. cbn [source_rejection error_to_string]. by rewrite Hm. Qed.

(** A number in a message that mentions nothing. *)
Lemma numbered_status pre n post :
  0 ≤ n →
  status_code (classify_resize_error (EMessage (pre +:+ uint_to_string n +:+ post))) =
  (if (mentions "too large" pre || mentions "too large" post) || (mentions "decode" pre || mentions "decode" post) then 400
   else if (mentions "permit" pre || mentions "permit" post) || (mentions "cancelled" pre || mentions "cancelled" post) then 503
   else if mentions "encode" pre || mentions "encode" post then 500 else 502).
Proof.
  intros Hn. unfold classify_resize_error. cbn [source_rejection error_to_string].
  rewrite !mentions_around by done. repeat case_match; done.
Qed.

(** What comes of the watermark of the query, if it asks for one. *)
Definition watermark_fetched : result AnyhowError (option (list byte)) :=
  (download_watermark_if_needed v4net_contains v6net_contains url_parse url_join url_scheme url_host_str
     url_port_or_known_default url_path url_to_string config watermark_net query).1.

Lemma no_watermark_fetched : rq_watermark query = None → watermark_fetched = Ok None.
Proof. intros Hwm. unfold watermark_fetched, download_watermark_if_needed. by rewrite Hwm. Qed.

Lemma deployed_process bytes :
  image_process (ImageService := deployed) bytes query =
  match watermark_fetched with
  | Err e => Err e
  | Ok wm =>
      if permits <=? 0 then Err (no_permit config)
      else default (Err cancelled) (deployed_process_blocking bytes query wm)
  end.
Proof.
  cbn [image_process deployed]. unfold watermark_fetched, process_image.
  destruct (download_watermark_if_needed _ _ _ _ _ _ _ _ _ _ _ query) as [[wm|e] connections]; [|done].
  cbn [fst]. destruct (permits <=? 0); [done|]. by destruct (deployed_process_blocking bytes query wm).
Qed.

(** The source and the watermark were fetched, and [blocking] is what
    processing them came to. *)
Definition processed_to (bytes : list byte) (blocking : Exec (list byte * string)) : Prop :=
  image_download (ImageService := deployed) (rq_url query) = Ok bytes
  ∧ ∃ wm, watermark_fetched = Ok wm
      ∧ process_image_blocking_with_limits_and_watermark (Im := Im) (W := W) (Jd := Jd) (Ad := Ad) (G := G)
          sin_cos bytes query config wm = blocking.

Lemma processed_fails bytes blocking e :
  processed_to bytes blocking → 0 < permits → default (Err cancelled) (unwinding blocking) = Err e →
  resp_status answered = status_code (classify_resize_error e).
Proof.
  intros (Hd & wm & Hwm & Hp) Hperm He. apply answered_failure. right. exists bytes. split; [done|].
  rewrite deployed_process, Hwm. destruct (Z.leb_spec permits 0); [lia|].
  unfold deployed_process_blocking. by rewrite Hp.
Qed.

Lemma processing_failure bytes e :
  processed_to bytes (Err (Failed e)) → 0 < permits →
  resp_status answered = status_code (classify_resize_error e).
Proof. intros Hp Hperm. by eapply processed_fails. Qed.

(** More bytes than the cap: announced, or sent, whatever comes after them. *)
Definition oversized_body (response : SourceResponse) : Prop :=
  (∃ n, source_content_length response = Some n ∧ max_image_size config < n)
  ∨ ∃ pieces rest, source_body response = (Some <$> pieces) ++ rest ∧ Forall in_memory pieces
      ∧ max_image_size config < Z.of_nat (length (concat pieces)).

Lemma oversized_received response url :
  0 ≤ max_image_size config < 2 ^ 63 → is_success (source_status response) = true → oversized_body response →
  ∃ e, receive_image config url response = Err e ∧ status_code (classify_resize_error e) = 400.
Proof.
  intros Hcap Hok Hbig. unfold receive_image. rewrite Hok. cbn [negb].
  assert (∀ msg, mentions "too large" msg = true →
    ∃ e, Err (A := list byte) (EMessage msg) = Err e ∧ status_code (classify_resize_error e) = 400) as Herr
    by (intros msg Hm; eexists; split; [done|by apply too_large_is_bad_request]).
  assert ((∃ n, source_content_length response = Some n ∧ max_image_size config < n)
    ∨ ∃ e, stream_body config url 0 [] (source_body response) = Err e
        ∧ status_code (classify_resize_error e) = 400) as Hcase.
  { destruct Hbig as [Hbig|(pieces & rest & -> & Hmem & Hbig)]; [by left|right].
    pose proof (stream_body_over config Hcap url [] pieces rest Hmem ltac:(cbn; lia) Hbig) as Hover.
    change (Z.of_nat (length [])) with 0 in Hover. rewrite Hover. apply Herr. by apply (mentions_longer _ "Image too large: exceeded "). }
  destruct (source_content_length response) as [n|].
  - destruct (Z.ltb_spec (max_image_size config) n).
    + apply Herr. by apply (mentions_longer _ "Image too large: ").
    + destruct Hcase as [(? & [= <-] & ?)|?]; [lia|done].
  - by destruct Hcase as [(? & [=] & _)|?].
Qed.

(** C17. Refused sources and watermarks, sources of too many bytes - announced or
    sent - or too many pixels, and oversized requests are the client's fault
    (400); a service without a free permit, and one whose processing panicked,
    is unavailable (503). *)
Theorem failures_are_classified :
  0 ≤ max_image_size config < 2 ^ 63 → 0 ≤ max_concurrent_processing config →
  (∀ err, image_download (ImageService := deployed) (rq_url query) = Err err →
     is_Some (source_rejection err) → resp_status answered = 400)
  ∧ (∀ response connections,
       fetch_validated v4net_contains v6net_contains url_parse url_join url_scheme url_host_str
         url_port_or_known_default url_path url_to_string config net (rq_url query) = (Ok response, connections) →
       is_success (source_status response) = true → oversized_body response → resp_status answered = 400)
  ∧ (∀ bytes, image_download (ImageService := deployed) (rq_url query) = Ok bytes →
       (∀ err, watermark_fetched = Err err → is_Some (source_rejection err) → resp_status answered = 400)
       ∧ ((∃ wm, watermark_fetched = Ok wm) → permits ≤ 0 → resp_status answered = 503))
  ∧ (∀ bytes blocking, processed_to bytes blocking → 0 < permits →
       (∀ g, check_output_dimensions query config = Err g → resp_status answered = 400)
       ∧ (∀ w h, check_output_dimensions query config = Ok () →
            measured (Im := Im) (W := W) (Jd := Jd) (Ad := Ad) (G := G) query config bytes w h →
            dim w → dim h → max_src_resolution_mp config < w * h / 1000000 → resp_status answered = 400)
       ∧ ∀ payload, blocking = Err (Panicked payload) → resp_status answered = 503).
Proof.
  intros Hcap Hmax.
  assert (∀ err, is_Some (source_rejection err) → status_code (classify_resize_error err) = 400) as Hrefused
    by (intros err [r Hr]; unfold classify_resize_error; by rewrite Hr).
  split_and!.
  - intros err Hd Hr. rewrite (answered_failure err) by by left. by apply Hrefused.
  - intros response connections Hf Hok Hbig.
    destruct (oversized_received response (rq_url query) Hcap Hok Hbig) as (e & He & Hst).
    rewrite (answered_failure e); [done|left]. cbn [image_download deployed]. unfold download_image. by rewrite Hf.
  - intros bytes Hd. split.
    + intros err Hwm Hr. rewrite (answered_failure err); [by apply Hrefused|right].
      exists bytes. by rewrite deployed_process, Hwm.
    + intros [wm Hwm] Hperm. rewrite (answered_failure (no_permit config)).
      { unfold no_permit. by rewrite numbered_status. }
      right. exists bytes. split; [done|]. rewrite deployed_process, Hwm. by destruct (Z.leb_spec permits 0); [|lia].
  - intros bytes blocking Hp Hperm. split_and!.
    + intros g Hg.
      pose proof Hp as (_ & wm & _ & Hrun). unfold process_image_blocking_with_limits_and_watermark in Hrun.
      rewrite Hg in Hrun. cbn in Hrun. subst blocking. erewrite processing_failure; [|exact Hp|done].
      apply check_output_dimensions_Err in Hg as (axis & bound & max & ->).
      by apply too_large_is_bad_request, mentions_longer.
    + intros w h Hc Hm Hw Hh Hlarge. pose proof Hp as (_ & wm & _ & Hrun).
      rewrite (process_oversized _ _ _ _ _ w h) in Hrun by done. subst blocking.
      erewrite processing_failure; [|exact Hp|done]. by apply too_large_is_bad_request, mentions_longer.
    + intros payload ->. by erewrite processed_fails; [|exact Hp|done|done].
Qed.

(** A source that no decoder knows the header of, an animation with too many
    frames, and a source URL that does not parse: answered like a failure of
    the origin (502). *)
Theorem bad_sources_are_bad_gateways :
  (∀ bytes format e, image_download (ImageService := deployed) (rq_url query) = Ok bytes →
     rq_watermark query = None → 0 < permits → check_output_dimensions query config = Ok () →
     detect_format_from_bytes bytes = None → guess_format bytes = Ok format →
     into_dimensions format bytes = Err (Failed e) → source_rejection e = None → resp_status answered = 502)
  ∧ (∀ bytes format n, image_download (ImageService := deployed) (rq_url query) = Ok bytes →
     rq_watermark query = None → 0 < permits → check_output_dimensions query config = Ok () →
     detect_format_from_bytes bytes = Some format → wants_animatable_output (rq_format query) = true →
     decode_animation_source (W := W) bytes format config = bail (too_many_frames n) → 0 ≤ n →
     resp_status answered = 502)
  ∧ (url_parse (rq_url query) = None → resp_status answered = 502).
Proof.
  split_and!.
  - intros bytes format e Hd Hwm Hperm Hc Hdet Hg Hdim He.
    erewrite processing_failure; [|split; [exact Hd|]; exists None; split; [by apply no_watermark_fetched|]|done].
    2:{ unfold process_image_blocking_with_limits_and_watermark. rewrite Hc, Hdet. cbn.
        unfold process_single, peek_dimensions, make_reader. rewrite Hg. cbn. rewrite Hdim. reflexivity. }
    unfold classify_resize_error. cbn [source_rejection]. by rewrite He.
  - intros bytes format n Hd Hwm Hperm Hc Hdet Hw Hanim Hn.
    erewrite processing_failure; [|split; [exact Hd|]; exists None; split; [by apply no_watermark_fetched|]|done].
    2:{ unfold process_image_blocking_with_limits_and_watermark. rewrite Hc, Hdet, Hw, Hanim. reflexivity. }
    unfold too_many_frames. by rewrite numbered_status.
  - intros Hu. erewrite answered_failure; [|left; cbn [image_download deployed]; unfold download_image, fetch_validated;
      rewrite Hu; reflexivity]. reflexivity.
Qed.
End Failures.
End Deployed.

(** ** Instances: an origin that serves one animation *)

#[local] Existing Instance toy_images.
#[local] Existing Instance toy_codecs.
#[local] Existing Instance toy_animation.

Definition gif_origin : Network (Url := string) :=
  mk_Network (λ _ _ _, None) (λ _ _ _, true)
    (λ _ _ _, Some (mk_SourceResponse 200 "OK" None None [Some gif_bytes])).

Definition demo_deployed : ImageService :=
  deployed (cidr_contains 32) (cidr_contains 128) (Url := string) Some (λ _, Some) (λ _, "http") Some
    (λ _, Some 80) (λ _, "/") (λ u, u) (Im := ToyImage) (W := ()) (Jd := ()) (Ad := ()) (G := ())
    no_turn (performance_default 4) 1 gif_origin gif_origin.

Definition animation_query : ResizeQuery := webp_query <| rq_url := "93.184.216.34" |>.

Lemma stored_image_passed_checks_witness :
  image_download (ImageService := demo_deployed) (rq_url animation_query) = Ok gif_bytes
  ∧ ∃ data, image_process (ImageService := demo_deployed) gif_bytes animation_query = Ok (data, "image/webp")
      ∧ "image/webp" = content_type_for_key (generate_key demo_sha "c/" animation_query).
Proof.
  assert (Hd : image_download (ImageService := demo_deployed) (rq_url animation_query) = Ok gif_bytes)
    by (vm_compute; reflexivity).
  split; [exact Hd|].
  destruct (image_process (ImageService := demo_deployed) gif_bytes animation_query)
    as [[data ct]|] eqn:Hp; [|vm_compute in Hp; discriminate].
  exists data. assert (ct = "image/webp") as -> by (vm_compute in Hp; congruence).
  split; [reflexivity|].
  refine (proj2 (proj2 (proj2 (proj2 (stored_image_passed_checks (cidr_contains 32) (cidr_contains 128)
    (Url := string) Some (λ _, Some) (λ _, "http") Some (λ _, Some 80) (λ _, "/") (λ u, u)
    (Im := ToyImage) (W := ()) (Jd := ()) (Ad := ()) (G := ()) no_turn (performance_default 4) 1 gif_origin
    gif_origin demo_sha "c/" animation_query gif_bytes data "image/webp" _ _ Hd Hp))))).
  - split; vm_compute; [discriminate|reflexivity].
  - intros n client current response piece [= <-] Hin. cbn [source_body] in Hin.
    apply list_elem_of_singleton in Hin as [= ->]. reflexivity.
Defined.

(** A request to the service with one origin. *)
Definition demo_path (args source : string) : string := "/unsigned/" +:+ args +:+ "/plain/" +:+ source.

Definition demo_admitted (raw_path : string) : result AppError (ResizeQuery * bool) :=
  admitted_query (λ _ _, []) (λ _ _, false) (λ _, None) Some (λ _, "bad request") demo_api raw_path None.

Definition demo_answered (config : PerformanceConfig) (origin : Network (Url := string)) (permits : Z)
    (raw_path : string) : Response :=
  answered (cidr_contains 32) (cidr_contains 128) (Url := string) Some (λ _, Some) (λ _, "http") Some
    (λ _, Some 80) (λ _, "/") (λ u, u) (Im := ToyImage) (W := ()) (Jd := ()) (Ad := ()) (G := ())
    no_turn config permits origin origin (H2 := InMemory.backend) demo_sha (λ _ _, [])
    (λ _ _, false) (λ _, None) Some (λ _, "bad request") (λ s, s) demo_api 0 0 ∅ raw_path None.

(** Sources of four bytes at most. *)
Definition small_sources : PerformanceConfig := {|
  max_concurrent_downloads := 20; max_concurrent_processing := 4; http_timeout := 30;
  max_image_size := 4; cpu_thread_pool_size := None; enable_http2 := true;
  connection_pool_size := 50; keep_alive_timeout := 60; max_redirects := 5;
  allowed_sources := None; allow_loopback_source_addresses := false;
  allow_link_local_source_addresses := false; max_src_resolution_mp := 50;
  max_output_width := 4096; max_output_height := 4096; max_animation_frames := 512;
  watermark_url := None; jpeg_progressive_default := false; jpeg_no_subsampling_default := false |}.

Definition large_origin : Network (Url := string) :=
  mk_Network (λ _ _ _, None) (λ _ _ _, true)
    (λ _ _ _, Some (mk_SourceResponse 200 "OK" None (Some 1000000000000) [])).

Definition unknown_origin : Network (Url := string) :=
  mk_Network (λ _ _ _, None) (λ _ _ _, true)
    (λ _ _ _, Some (mk_SourceResponse 200 "OK" None None [Some (list_byte_of_string "no image")])).

Definition demo_query (raw_path : string) : ResizeQuery :=
  match demo_admitted raw_path with Ok (query, _) => query | Err _ => resize_query_default end.

Lemma failures_are_classified_witness :
  let small := demo_path "rs:fit:10:0" in let public := "93.184.216.34.webp" in
  resp_status (demo_answered (performance_default 4) gif_origin 1 (small "127.0.0.1.webp")) = 400
  ∧ resp_status (demo_answered (performance_default 4) large_origin 1 (small public)) = 400
  ∧ resp_status (demo_answered small_sources gif_origin 1 (small public)) = 400
  ∧ resp_status (demo_answered (performance_default 4) gif_origin 0 (small public)) = 503
  ∧ resp_status (demo_answered (performance_default 4) gif_origin 1 (demo_path "rs:fit:5000:0" public)) = 400.
Proof.
  cbv zeta.
  pose proof (λ config origin permits raw_path, failures_are_classified (cidr_contains 32) (cidr_contains 128)
    (Url := string) Some (λ _, Some) (λ _, "http") Some (λ _, Some 80) (λ _, "/") (λ u, u) (Im := ToyImage)
    (W := ()) (Jd := ()) (Ad := ()) (G := ()) no_turn config permits origin origin
    (H2 := InMemory.backend) demo_sha (λ _ _, []) (λ _ _, false) (λ _, None) Some (λ _, "bad request") (λ s, s)
    demo_api 0 0 ∅ raw_path None (demo_query raw_path) false) as Hc.
  split_and!.
  - destruct (Hc (performance_default 4) gif_origin 1 (demo_path "rs:fit:10:0" "127.0.0.1.webp")) as (Hr & _);
      [vm_compute; reflexivity|vm_compute; discriminate|split; vm_compute; done|vm_compute; done|].
    eapply Hr; [vm_compute; reflexivity|vm_compute; eauto].
  - destruct (Hc (performance_default 4) large_origin 1 (demo_path "rs:fit:10:0" "93.184.216.34.webp"))
      as (_ & Hl & _); [vm_compute; reflexivity|vm_compute; discriminate|split; vm_compute; done|vm_compute; done|].
    eapply Hl; [vm_compute; reflexivity..|]. left. eexists. split; vm_compute; reflexivity.
  - destruct (Hc small_sources gif_origin 1 (demo_path "rs:fit:10:0" "93.184.216.34.webp"))
      as (_ & Hl & _); [vm_compute; reflexivity|vm_compute; discriminate|split; vm_compute; done|vm_compute; done|].
    eapply Hl; [vm_compute; reflexivity..|]. right. exists [gif_bytes], []. split; [reflexivity|].
    split; [by repeat constructor|vm_compute; reflexivity].
  - destruct (Hc (performance_default 4) gif_origin 0 (demo_path "rs:fit:10:0" "93.184.216.34.webp"))
      as (_ & _ & Hp & _); [vm_compute; reflexivity|vm_compute; discriminate|split; vm_compute; done|vm_compute; done|].
    destruct (Hp gif_bytes) as [_ Hbusy]; [vm_compute; reflexivity|].
    apply Hbusy; [eexists; vm_compute; reflexivity|vm_compute; discriminate].
  - destruct (Hc (performance_default 4) gif_origin 1 (demo_path "rs:fit:5000:0" "93.184.216.34.webp"))
      as (_ & _ & _ & Ha); [vm_compute; reflexivity|vm_compute; discriminate|split; vm_compute; done|vm_compute; done|].
    edestruct (Ha gif_bytes) as [Haxes _]; [|reflexivity|eapply Haxes; vm_compute; reflexivity].
    split; [vm_compute; reflexivity|]. exists None. split; [vm_compute; reflexivity|]. reflexivity.
Defined.

Lemma bad_sources_are_bad_gateways_witness :
  resp_status (demo_answered (performance_default 4) unknown_origin 1 (demo_path "rs:fit:10:0" "93.184.216.34.webp")) = 502.
Proof.
  destruct (bad_sources_are_bad_gateways (cidr_contains 32) (cidr_contains 128)
    (Url := string) Some (λ _, Some) (λ _, "http") Some (λ _, Some 80) (λ _, "/") (λ u, u) (Im := ToyImage)
    (W := ()) (Jd := ()) (Ad := ()) (G := ()) no_turn (performance_default 4) 1 unknown_origin unknown_origin
    (H2 := InMemory.backend) demo_sha (λ _ _, []) (λ _ _, false) (λ _, None) Some (λ _, "bad request") (λ s, s)
    demo_api 0 0 ∅ (demo_path "rs:fit:10:0" "93.184.216.34.webp") None
    (demo_query (demo_path "rs:fit:10:0" "93.184.216.34.webp")) false) as (Hu & _);
    [vm_compute; reflexivity|vm_compute; discriminate|].
  eapply (Hu (list_byte_of_string "no image") None); try (vm_compute; reflexivity).
Defined.
