(* ===== verification/Workers.v ===== *)
(** * The two semaphores of [ImageService]: [src/services/image/handler.rs]

[download_image] and [process_image] of [Fetch.v] are what one call does.
Here they run concurrently over the state the service keeps: the semaphore
downloads wait in line for, the one processing is refused by, and the closures
on the blocking pool, which hold their permit on their own and outlive a
caller that goes away.  A step is what happens between two points where
another task or thread can run; what the world answers to a fetch is part of
the event of its end. *)
From S2P Require Import Prelude RustStr Params Performance SourceGuard Errors Fetch.

Local Open Scope nat_scope.

(** ** Construction *)

(** [Semaphore::MAX_PERMITS], above which [Semaphore::new] panics. *)
Definition MAX_PERMITS : Z := usize_max / 8.

Definition semaphore_new (permits : Z) : option nat :=
  if (permits <=? MAX_PERMITS)%Z then Some (Z.to_nat permits) else None.

Inductive Call :=
  | DownloadCall (url : string)
  | ProcessCall (image_bytes : list byte) (params : ResizeQuery).

Inductive Outcome :=
  | Downloaded (r : result AnyhowError (list byte))
  | Processed (r : result AnyhowError (list byte * string)).

Inductive CallPhase :=
  | Queued (url : string)                           (* [download_semaphore.acquire()] *)
  | Fetching (url : string)                         (* its permit is held *)
  | Admission (watermark_bytes : option (list byte)) (* before [try_acquire_owned()] *)
  | Awaiting                                        (* [rx.await] *)
  | Returned (r : Outcome)
  | Gone.                                           (* the caller dropped the future *)

(** A closure handed to [spawn_blocking]: not begun, at work, or with its result
    sent and its permit still held. *)
Inductive JobPhase := Spawned | Working | Sent.

Record Job := mk_Job {
  job_watermark : option (list byte);
  job_phase : JobPhase;
}.

Record Entry := mk_Entry {
  entry_call : Call;
  entry_phase : CallPhase;
  entry_job : option Job;
}.

Record Service := mk_Service {
  download_permits : nat;
  download_queue : list nat;
  processing_permits : nat;
  calls : list Entry;
}.

#[export] Instance entry_eta : Eta Entry := λ c, mk_Entry (entry_call c) (entry_phase c) (entry_job c).
#[export] Instance service_eta : Eta Service := λ s,
  mk_Service (download_permits s) (download_queue s) (processing_permits s) (calls s).

(** [ImageService::with_config]; [None] is a panic. *)
Definition image_service_with_config (config : PerformanceConfig) : option Service :=
  downloads ← semaphore_new (max_concurrent_downloads config);
  processing ← semaphore_new (max_concurrent_processing config);
  Some (mk_Service downloads [] processing []).

Definition image_service_new (cpus : Z) : option Service :=
  image_service_with_config (performance_default cpus).

(** ** Steps *)

(** [Net] is what the world can answer to one fetch. *)
Inductive Event (Net : Type) :=
  | Submit (c : Call)
  | Grant
  | Fetched (i : nat) (net : Net)
  | TryAcquire (i : nat)
  | StartJob (i : nat)
  | Send (i : nat)
  | Release (i : nat)
  | Abandon (i : nat)
  | Disconnect (i : nat).
Arguments Submit {Net}. Arguments Grant {Net}. Arguments Fetched {Net}. Arguments TryAcquire {Net}.
Arguments StartJob {Net}. Arguments Send {Net}. Arguments Release {Net}. Arguments Abandon {Net}.
Arguments Disconnect {Net}.

Section Service.
Context (config : PerformanceConfig).
(** [download_image] with its permit, alone. *)
Context {Net : Type} (download : Net → string → result AnyhowError (list byte)).
Context (process_blocking :
  list byte → ResizeQuery → option (list byte) → option (result AnyhowError (list byte * string))).

(** The first half of [download_watermark_if_needed]: nothing to fetch, or
    what. *)
Definition watermark_source (params : ResizeQuery) : result AnyhowError (option string) :=
  match rq_watermark params with
  | None => Ok None
  | Some watermark =>
      Some <$> ok_or (match wm_url watermark with Some url => Some url | None => watermark_url config end)
        (EMessage
           "watermark requested (wm:) but no watermark image is available - set WATERMARK_URL or pass wmu:{base64url} in the request")
  end.

(** The phase a call is in when it is first suspended. *)
Definition first_phase (c : Call) : CallPhase :=
  match c with
  | DownloadCall url => Queued url
  | ProcessCall _ params =>
      match watermark_source params with
      | Err e => Returned (Processed (Err e))
      | Ok None => Admission None
      | Ok (Some url) => Queued url
      end
  end.

Definition set_phase (p : CallPhase) (c : Entry) : Entry := c <| entry_phase := p |>.
Definition set_job (j : option Job) (c : Entry) : Entry := c <| entry_job := j |>.

(** What a finished fetch means to the call that made it. *)
Definition fetched (c : Call) (answer : result AnyhowError (list byte)) : CallPhase :=
  match c with
  | DownloadCall _ => Returned (Downloaded answer)
  | ProcessCall _ _ =>
      match context "Failed to download watermark image" answer with
      | Ok bytes => Admission (Some bytes)
      | Err e => Returned (Processed (Err e))
      end
  end.

(** [tx.send(..)], or the end of [tx]: nobody receives what is sent to a caller
    that is gone. *)
Definition send (r : result AnyhowError (list byte * string)) (p : CallPhase) : CallPhase :=
  match p with Awaiting => Returned (Processed r) | _ => p end.

Definition is_gone (p : CallPhase) : bool := match p with Gone => true | _ => false end.

Definition step (s : Service) (ev : Event Net) : option Service :=
  match ev with
  | Submit c =>
      let i := length (calls s) in
      let s := s <| calls := calls s ++ [mk_Entry c (first_phase c) None] |> in
      match first_phase c with
      | Queued _ => Some (s <| download_queue := download_queue s ++ [i] |>)
      | _ => Some s
      end
  | Grant =>
      (* the semaphore is fair: permits go to the first in line *)
      match download_permits s, download_queue s with
      | S free, i :: rest =>
          c ← calls s !! i;
          match entry_phase c with
          | Queued url =>
              Some (s <| download_permits := free |> <| download_queue := rest |>
                      <| calls := alter (set_phase (Fetching url)) i (calls s) |>)
          | _ => None
          end
      | _, _ => None
      end
  | Fetched i net =>
      c ← calls s !! i;
      match entry_phase c with
      | Fetching url =>
          Some (s <| download_permits := S (download_permits s) |>
                  <| calls := alter (set_phase (fetched (entry_call c) (download net url))) i (calls s) |>)
      | _ => None
      end
  | TryAcquire i =>
      c ← calls s !! i;
      match entry_phase c with
      | Admission watermark_bytes =>
          match processing_permits s with
          | O => Some (s <| calls := alter (set_phase (Returned (Processed (Err (no_permit config))))) i (calls s) |>)
          | S free =>
              Some (s <| processing_permits := free |>
                      <| calls := alter (λ c, set_job (Some (mk_Job watermark_bytes Spawned))
                                                (set_phase Awaiting c)) i (calls s) |>)
          end
      | _ => None
      end
  | StartJob i =>
      c ← calls s !! i;
      match entry_job c with
      | Some (mk_Job watermark_bytes Spawned) =>
          if is_gone (entry_phase c) then
            Some (s <| processing_permits := S (processing_permits s) |>
                    <| calls := alter (set_job None) i (calls s) |>)
          else Some (s <| calls := alter (set_job (Some (mk_Job watermark_bytes Working))) i (calls s) |>)
      | _ => None
      end
  | Send i =>
      c ← calls s !! i;
      match entry_call c, entry_job c with
      | ProcessCall image_bytes params, Some (mk_Job watermark_bytes Working) =>
          match process_blocking image_bytes params watermark_bytes with
          | Some result =>
              Some (s <| calls := alter (λ c, set_job (Some (mk_Job watermark_bytes Sent))
                                                (set_phase (send result (entry_phase c)) c)) i (calls s) |>)
          | None =>
              (* a panic unwinds the closure, and drops the permit and [tx] *)
              Some (s <| processing_permits := S (processing_permits s) |>
                      <| calls := alter (λ c, set_job None
                                                (set_phase (send (Err cancelled) (entry_phase c)) c)) i (calls s) |>)
          end
      | _, _ => None
      end
  | Release i =>
      c ← calls s !! i;
      match entry_job c with
      | Some (mk_Job _ Sent) =>
          Some (s <| processing_permits := S (processing_permits s) |>
                  <| calls := alter (set_job None) i (calls s) |>)
      | _ => None
      end
  | Abandon i =>
      (* a runtime that shuts down drops the closures it has not begun *)
      c ← calls s !! i;
      match entry_job c with
      | Some (mk_Job _ Spawned) =>
          Some (s <| processing_permits := S (processing_permits s) |>
                  <| calls := alter (λ c, set_job None
                                            (set_phase (send (Err cancelled) (entry_phase c)) c)) i (calls s) |>)
      | _ => None
      end
  | Disconnect i =>
      (* a future is dropped where it is suspended *)
      c ← calls s !! i;
      let s' := s <| calls := alter (set_phase Gone) i (calls s) |> in
      match entry_phase c with
      | Queued _ => Some (s' <| download_queue := filter (λ j, j ≠ i) (download_queue s) |>)
      | Fetching _ => Some (s' <| download_permits := S (download_permits s) |>)
      | Awaiting => Some s'
      | _ => None
      end
  end.

Fixpoint run (s : Service) (evs : list (Event Net)) : option Service :=
  match evs with
  | [] => Some s
  | ev :: rest => s' ← step s ev; run s' rest
  end.
End Service.

(** ** Properties: permits *)

Definition fetching (c : Entry) : nat := match entry_phase c with Fetching _ => 1 | _ => 0 end.
Definition holding (c : Entry) : nat := match entry_job c with Some _ => 1 | None => 0 end.
Definition queued (c : Entry) : Prop := match entry_phase c with Queued _ => True | _ => False end.

(** The entries whose closure is before its end have a caller that waits for
    them, or has gone; those that wait have such a closure. *)
Definition processes (c : Call) : Prop := match c with ProcessCall _ _ => True | _ => False end.

Definition entry_ok (c : Entry) : Prop :=
  match entry_job c, entry_phase c with
  | None, Awaiting => False
  | None, Admission _ => processes (entry_call c)
  | None, _ => True
  | Some (mk_Job _ Sent), (Returned _ | Gone) => processes (entry_call c)
  | Some (mk_Job _ (Spawned | Working)), (Awaiting | Gone) => processes (entry_call c)
  | Some _, _ => False
  end.

(** What is left of a call and its closure. *)
Definition phase_weight (p : CallPhase) : nat :=
  match p with Queued _ => 7 | Fetching _ => 6 | Admission _ => 5 | Awaiting => 1 | _ => 0 end.
Definition job_weight (j : option Job) : nat :=
  match j with
  | Some (mk_Job _ Spawned) => 3 | Some (mk_Job _ Working) => 2 | Some (mk_Job _ Sent) => 1 | None => 0
  end.
Definition weight (c : Entry) : nat := phase_weight (entry_phase c) + job_weight (entry_job c).
Definition measure (s : Service) : nat := sum_list_with weight (calls s).

Section Invariant.
Context (config : PerformanceConfig).
Context {Net : Type} (download : Net → string → result AnyhowError (list byte)).
Context (process_blocking :
  list byte → ResizeQuery → option (list byte) → option (result AnyhowError (list byte * string))).
Context (downloads processing : nat).

Abbreviation step := (step config download process_blocking).
Abbreviation run := (run config download process_blocking).

Record inv (s : Service) : Prop := {
  inv_downloads : download_permits s + sum_list_with fetching (calls s) = downloads;
  inv_processing : processing_permits s + sum_list_with holding (calls s) = processing;
  inv_once : NoDup (download_queue s);
  inv_queue i : i ∈ download_queue s ↔ ∃ c, calls s !! i = Some c ∧ queued c;
  inv_entries i c : calls s !! i = Some c → entry_ok c;
}.

(** One entry changed, permits with it; [queue] is what is left of the line. *)
Record moves (s s' : Service) (i : nat) (c : Entry) (f : Entry → Entry) : Prop := {
  moved_from : calls s !! i = Some c;
  moved_to : calls s' = alter f i (calls s);
  moved_call : entry_call (f c) = entry_call c;
  moved_downloads : download_permits s' + fetching (f c) = download_permits s + fetching c;
  moved_processing : processing_permits s' + holding (f c) = processing_permits s + holding c;
  moved_once : NoDup (download_queue s) → NoDup (download_queue s');
  moved_queue j : NoDup (download_queue s) →
    j ∈ download_queue s' ↔ j ∈ download_queue s ∧ (queued c → j ≠ i);
  moved_on : ¬ queued (f c);
  moved_ok : entry_ok c → entry_ok (f c);
  moved_weight : weight (f c) < weight c;
}.

Lemma moves_inv s s' i c f : inv s → moves s s' i c f → inv s'.
Proof.
  intros [] []. split.
  - pose proof (sum_alter fetching f _ _ _ moved_from0). rewrite moved_to0. lia.
  - pose proof (sum_alter holding f _ _ _ moved_from0). rewrite moved_to0. lia.
  - auto.
  - intros j. rewrite moved_queue0, inv_queue0, moved_to0, list_lookup_alter by done. destruct (decide (i = j)) as [->|Hne].
    + rewrite moved_from0. split.
      * intros [(c' & [= <-] & Hq) Hne]. by destruct (Hne Hq).
      * intros (c' & [= <-] & Hq). done.
    + naive_solver.
  - intros j c'. rewrite moved_to0, list_lookup_alter. destruct (decide (i = j)) as [->|]; [|apply inv_entries0].
    rewrite moved_from0. intros [= <-]. by eapply moved_ok0, inv_entries0.
Qed.

Lemma moves_measure s s' i c f : moves s s' i c f → measure s' < measure s.
Proof.
  intros []. unfold measure. pose proof (sum_alter weight f _ _ _ moved_from0). rewrite moved_to0. lia.
Qed.

Lemma fetched_shape c answer :
  (∃ r, fetched c answer = Returned r) ∨ ∃ wm, fetched c answer = Admission wm ∧ processes c.
Proof. destruct c; cbn; [by left; eexists|]. destruct (context _ answer); [right|left]; by eexists. Qed.

Ltac moving i c f :=
  exists i, c, f; destruct c as [call phase job]; unfold entry_ok in *; cbn in *; simplify_eq;
  split; unfold entry_ok, set_phase, set_job, queued, fetching, holding, weight; cbn; try done; try lia;
  try (by intros; tauto); try (by destruct job as [[? []]|]; cbn; try done; lia);
  try (by destruct phase; cbn in *; try done; try lia; intros; tauto).

Lemma step_moves s ev s' :
  inv s → step s ev = Some s' → (∀ c, ev ≠ Submit c) → ∃ i c f, moves s s' i c f.
Proof.
  intros Hinv Hs Hev. destruct ev as [call| |i answer|i|i|i|i|i|i]; cbn in Hs; [by destruct (Hev call)| |..].
  { destruct (download_permits s) as [|free] eqn:Hfree; [done|].
    destruct (download_queue s) as [|i rest] eqn:Hq; [done|].
    apply bind_Some in Hs as (c & Hc & Hs). destruct (entry_phase c) as [url| | | | |] eqn:Hp; try done.
    injection Hs as <-. moving i c (set_phase (Fetching url)); rewrite ?Hfree, ?Hq; try lia.
    - by intros [_ ?]%NoDup_cons.
    - intros j [Hi _]%NoDup_cons. rewrite elem_of_cons. split; [|naive_solver].
      intros Hj. split; [by right|]. intros _ ->. done. }
  all: apply bind_Some in Hs as (c & Hc & Hs); pose proof (inv_entries _ Hinv _ _ Hc) as Hok; clear Hinv.
  - destruct (entry_phase c) as [|url| | | |] eqn:Hp; try done.
    injection Hs as <-. destruct (fetched_shape (entry_call c) (download answer url)) as [[r Hf]|(wm & Hf & Hcall)].
    + rewrite Hf. moving i c (set_phase (Returned r)).
    + rewrite Hf. moving i c (set_phase (Admission wm)).
  - destruct (entry_phase c) as [| |wm| | |] eqn:Hp; try done.
    destruct (processing_permits s) as [|free] eqn:Hfree; injection Hs as <-.
    + moving i c (set_phase (Returned (Processed (Err (no_permit config))))).
    + moving i c (λ c, set_job (Some (mk_Job wm Spawned)) (set_phase Awaiting c)).
  - destruct (entry_job c) as [[wm []]|] eqn:Hj; try done. destruct (is_gone (entry_phase c)) eqn:Hg; injection Hs as <-.
    + moving i c (set_job None).
    + moving i c (set_job (Some (mk_Job wm Working))).
  - destruct (entry_call c) as [|b p] eqn:Hcall; [done|]. destruct (entry_job c) as [[wm []]|] eqn:Hj; try done.
    destruct (process_blocking b p wm) as [result|]; injection Hs as <-.
    + moving i c (λ c, set_job (Some (mk_Job wm Sent)) (set_phase (send result (entry_phase c)) c)).
    + moving i c (λ c, set_job None (set_phase (send (Err cancelled) (entry_phase c)) c)).
  - destruct (entry_job c) as [[wm []]|] eqn:Hj; try done. injection Hs as <-. moving i c (set_job None).
  - destruct (entry_job c) as [[wm []]|] eqn:Hj; try done. injection Hs as <-.
    moving i c (λ c, set_job None (set_phase (send (Err cancelled) (entry_phase c)) c)).
  - destruct (entry_phase c) as [url|url| | | |] eqn:Hp; try done; injection Hs as <-; moving i c (set_phase Gone).
    + apply NoDup_filter.
    + intros j _. rewrite list_elem_of_filter. tauto.
Qed.

Lemma step_lighter s ev s' :
  inv s → step s ev = Some s' → (∀ c, ev ≠ Submit c) → measure s' < measure s.
Proof. intros Hinv Hs Hev. destruct (step_moves _ _ _ Hinv Hs Hev) as (i & c & f & Hm). by eapply moves_measure. Qed.

Lemma first_phase_ok c :
  match first_phase config c with
  | Queued _ | Returned _ => True | Admission _ => processes c | _ => False
  end.
Proof. destruct c as [|b p]; cbn; [done|]. by destruct (watermark_source config p) as [[]|]. Qed.

Lemma submit_inv s c s' : inv s → step s (Submit c) = Some s' → inv s'.
Proof.
  intros [] Hs. unfold step in Hs. pose proof (first_phase_ok c) as Hok. set (e := mk_Entry c (first_phase config c) None).
  fold e in Hs.
  assert (s' = mk_Service (download_permits s)
    (download_queue s ++ match first_phase config c with Queued _ => [length (calls s)] | _ => [] end)
    (processing_permits s) (calls s ++ [e])) as ->.
  { destruct (first_phase config c); injection Hs as <-; by rewrite ?app_nil_r. }
  assert (fetching e = 0 ∧ holding e = 0) as [Hf Hh] by (unfold e, fetching, holding; cbn [entry_phase entry_job]; by destruct (first_phase config c)).
  assert (∀ i, i ∈ download_queue s → i < length (calls s)) as Hlt.
  { intros i (c' & Hc & _)%inv_queue0. by eapply lookup_lt_Some. }
  split; cbn [download_permits download_queue processing_permits calls].
  - rewrite sum_list_with_app. cbn [sum_list_with]. lia.
  - rewrite sum_list_with_app. cbn [sum_list_with]. lia.
  - apply NoDup_app. split_and!; [done|..].
    + intros i Hi%Hlt. destruct (first_phase config c); rewrite ?list_elem_of_singleton, ?elem_of_nil; lia.
    + destruct (first_phase config c); try apply NoDup_nil_2; apply NoDup_singleton.
  - intros i. rewrite elem_of_app, inv_queue0. split.
    + intros [(c' & Hc & Hq)|Hi].
      * exists c'. split; [|done]. by apply lookup_app_l_Some.
      * exists e. assert (queued e ∧ i = length (calls s)) as [Hq ->].
        { unfold queued, e. cbn [entry_phase]. destruct (first_phase config c);
            [by apply list_elem_of_singleton in Hi as ->|by apply elem_of_nil in Hi..]. }
        split; [by apply list_lookup_middle|done].
    + intros (c' & [Hc|[Hlen Hc]]%lookup_app_Some & Hq); [left; by exists c'|right].
      destruct (i - length (calls s)) as [|k] eqn:Hi; [|done]. injection Hc as <-.
      unfold queued, e in Hq. cbn [entry_phase] in Hq. destruct (first_phase config c); try done. apply list_elem_of_singleton. lia.
  - intros i c' [Hc|[_ Hc]]%lookup_app_Some; [by eapply inv_entries0|].
    destruct (i - length (calls s)) as [|k]; [|done]. injection Hc as <-.
    unfold entry_ok, e. cbn [entry_phase entry_job entry_call]. by destruct (first_phase config c).
Qed.

Lemma step_inv s ev s' : inv s → step s ev = Some s' → inv s'.
Proof.
  intros Hinv Hs. destruct ev as [c| | | | | | | |]; [by eapply submit_inv|..].
  all: edestruct step_moves as (? & ? & ? & Hm); [exact Hinv|exact Hs|done|]; by eapply moves_inv.
Qed.

Lemma run_inv s evs s' : inv s → run s evs = Some s' → inv s'.
Proof.
  revert s. induction evs as [|ev evs IH]; intros s Hinv Hr; cbn in Hr; [by injection Hr as <-|].
  apply bind_Some in Hr as (s1 & Hs & Hr). eapply IH; [|exact Hr]. by eapply step_inv.
Qed.

(** Who has left the line, or was never in it, does not join it. *)
Lemma step_stays_out s ev s' i :
  inv s → step s ev = Some s' → i < length (calls s) →
  i < length (calls s') ∧ (i ∉ download_queue s → i ∉ download_queue s').
Proof.
  intros Hinv Hs Hi. assert ((∃ c, ev = Submit c) ∨ ∀ c, ev ≠ Submit c) as [[c ->]|Hev]
    by (destruct ev; [by left; eexists|by right..]).
  - cbn in Hs. destruct (first_phase config c); injection Hs as <-; simpl; rewrite length_app; simpl;
      (split; [lia|]); try done. intros Hni [?| ->%list_elem_of_singleton]%elem_of_app; [done|lia].
  - destruct (step_moves _ _ _ Hinv Hs Hev) as (j & c & f & []). rewrite moved_to0, length_alter. split; [done|].
    intros Hni Hin. by apply moved_queue0, proj1 in Hin; [|apply inv_once].
Qed.

Lemma run_stays_out s evs s' i :
  inv s → run s evs = Some s' → i < length (calls s) → i ∉ download_queue s → i ∉ download_queue s'.
Proof.
  revert s. induction evs as [|ev evs IH]; intros s Hinv Hr Hi Hni; cbn in Hr; [by injection Hr as <-|].
  apply bind_Some in Hr as (s1 & Hs & Hr). destruct (step_stays_out _ _ _ i Hinv Hs Hi) as [Hi1 Hni1].
  by apply (IH s1); [by eapply step_inv|..|apply Hni1].
Qed.

(** ** Properties: the end of work *)

(** Whatever a call has come to, it or its closure can go on, if anything is
    left of it. *)
Lemma can_go_on `{!Inhabited Net} s i c :
  inv s → 0 < downloads → calls s !! i = Some c → weight c ≠ 0 →
  ∃ ev s', step s ev = Some s' ∧ ∀ j, ev ≠ Disconnect j ∧ ev ≠ Abandon j ∧ ∀ c, ev ≠ Submit c.
Proof.
  intros Hinv Hd Hc Hw. pose proof (inv_entries _ Hinv _ _ Hc) as Hok. unfold entry_ok, weight in *.
  destruct (entry_job c) as [[wm ph]|] eqn:Hj.
  - exists (match ph with Spawned => StartJob i | Working => Send i | Sent => Release i end).
    destruct ph; cbn; rewrite Hc; cbn; rewrite Hj.
    + destruct (is_gone _); by eexists.
    + destruct (entry_call c) as [|b p]; [by destruct (entry_phase c)|].
      destruct (process_blocking b p wm); by eexists.
    + by eexists.
  - destruct (entry_phase c) as [url|url|wm| |r|] eqn:Hp; try done.
    + destruct (download_queue s) as [|j rest] eqn:Hq.
      { assert (i ∈ download_queue s) as Hin.
        { apply (inv_queue _ Hinv). exists c. split; [done|]. unfold queued. by rewrite Hp. }
        rewrite Hq in Hin. by apply elem_of_nil in Hin. }
      destruct (proj1 (inv_queue _ Hinv j)) as (c' & Hc' & Hq'); [rewrite Hq; by left|]. unfold queued in Hq'.
      destruct (download_permits s) as [|free] eqn:Hfree.
      * pose proof (inv_downloads _ Hinv) as Hsum. rewrite Hfree in Hsum.
        destruct (sum_list_with_pos fetching (calls s)) as (k & e & He & Hf); [lia|].
        unfold fetching in Hf. destruct (entry_phase e) eqn:Hpe; try lia.
        exists (Fetched k inhabitant). cbn. rewrite He. cbn. rewrite Hpe. by eexists.
      * exists Grant. cbn. rewrite Hfree, Hq, Hc'. cbn. destruct (entry_phase c'); try done. by eexists.
    + exists (Fetched i inhabitant). cbn. rewrite Hc. cbn. rewrite Hp. by eexists.
    + exists (TryAcquire i). cbn. rewrite Hc. cbn. rewrite Hp. destruct (processing_permits s); by eexists.
Qed.

Lemma run_measure s evs s' :
  inv s → run s evs = Some s' → Forall (λ ev, ∀ c, ev ≠ Submit c) evs → length evs + measure s' ≤ measure s.
Proof.
  revert s. induction evs as [|ev evs IH]; intros s Hinv Hr Hall; cbn in *; [injection Hr as <-; lia|].
  apply bind_Some in Hr as (s1 & Hs & Hr). apply Forall_cons in Hall as [Hev Hall].
  pose proof (step_lighter _ _ _ Hinv Hs Hev). pose proof (IH _ (step_inv _ _ _ Hinv Hs) Hr Hall). lia.
Qed.

Lemma weightless c : entry_ok c → weight c = 0 →
  fetching c = 0 ∧ holding c = 0 ∧ ((∃ r, entry_phase c = Returned r) ∨ entry_phase c = Gone).
Proof.
  unfold entry_ok, weight, fetching, holding.
  destruct (entry_job c) as [[wm []]|], (entry_phase c) eqn:Hp; cbn; try done; try lia; intros; split_and!; eauto.
Qed.
End Invariant.

Section Theorems.
Context (config : PerformanceConfig).
Context {Net : Type} (download : Net → string → result AnyhowError (list byte)).
Context (process_blocking :
  list byte → ResizeQuery → option (list byte) → option (result AnyhowError (list byte * string))).

Abbreviation step := (step config download process_blocking).
Abbreviation run := (run config download process_blocking).
Abbreviation max_downloads := (Z.to_nat (max_concurrent_downloads config)).
Abbreviation max_processing := (Z.to_nat (max_concurrent_processing config)).

Lemma with_config_inv s0 :
  image_service_with_config config = Some s0 → inv max_downloads max_processing s0.
Proof.
  unfold image_service_with_config, semaphore_new. intros (d & Hd & (p & Hp & [= <-])%bind_Some)%bind_Some.
  cases. split; cbn; [lia|lia|apply NoDup_nil_2| |done].
  intros i. split; [by intros ?%elem_of_nil|by intros (c & ? & _)].
Qed.

Lemma with_config_calls s0 : image_service_with_config config = Some s0 → calls s0 = [].
Proof.
  unfold image_service_with_config. intros (d & _ & (p & _ & [= <-])%bind_Some)%bind_Some. done.
Qed.

Lemma running_inv s0 evs s :
  image_service_with_config config = Some s0 → run s0 evs = Some s → inv max_downloads max_processing s.
Proof. intros H0 Hrun. eapply run_inv; [by apply with_config_inv|exact Hrun]. Qed.

(** C9. However calls come, fail and are abandoned by their callers, every permit
    is free or held by one fetch or one closure, so neither limit is ever
    exceeded; a call is refused processing exactly when every permit is held,
    at once and at no cost to others, and otherwise gets one. *)
Theorem permits_bound_work s0 evs s :
  image_service_with_config config = Some s0 → run s0 evs = Some s →
  download_permits s + sum_list_with fetching (calls s) = max_downloads
  ∧ processing_permits s + sum_list_with holding (calls s) = max_processing
  ∧ ∀ i c wm, calls s !! i = Some c → entry_phase c = Admission wm →
      ∃ s', step s (TryAcquire i) = Some s'
        ∧ (if decide (sum_list_with holding (calls s) = max_processing)
           then s' = s <| calls := alter (set_phase (Returned (Processed (Err (no_permit config))))) i (calls s) |>
           else calls s' !! i = Some (mk_Entry (entry_call c) Awaiting (Some (mk_Job wm Spawned)))
                ∧ processing_permits s' + 1 = processing_permits s).
Proof.
  intros H0 Hrun. destruct (running_inv _ _ _ H0 Hrun) as [Hd Hp _ _ _]. split_and!; [done..|].
  intros i c wm Hc Hph. cbn. rewrite Hc. cbn. rewrite Hph.
  destruct (processing_permits s) as [|free] eqn:Hfree; eexists; (split; [done|]).
  - rewrite decide_True by lia. done.
  - rewrite decide_False by lia. split; [|simpl; lia].
    simpl. rewrite list_lookup_alter, decide_True, Hc by done. done.
Qed.

(** C11. With room for a download, work ends: a run without new calls has at most
    [measure s] steps, and while something is left there is a step that neither
    disconnects a caller nor throws work away.  When nothing is left every
    call has returned or its caller has gone, and every permit is back. *)
Theorem work_ends `{!Inhabited Net} s0 evs s :
  image_service_with_config config = Some s0 → run s0 evs = Some s → 0 < max_downloads →
  (∀ evs' s', run s evs' = Some s' → Forall (λ ev, ∀ c, ev ≠ Submit c) evs' → length evs' ≤ measure s)
  ∧ (measure s ≠ 0 → ∃ ev s', step s ev = Some s'
       ∧ ∀ j, ev ≠ Disconnect j ∧ ev ≠ Abandon j ∧ ∀ c, ev ≠ Submit c)
  ∧ (measure s = 0 → download_permits s = max_downloads ∧ processing_permits s = max_processing
       ∧ ∀ i c, calls s !! i = Some c → (∃ r, entry_phase c = Returned r) ∨ entry_phase c = Gone).
Proof.
  intros H0 Hrun Hd. pose proof (running_inv _ _ _ H0 Hrun) as Hinv. split_and!.
  - intros evs' s' Hrun' Hall. pose proof (run_measure _ _ _ _ _ _ _ _ Hinv Hrun' Hall). lia.
  - intros Hm. destruct (sum_list_with_pos weight (calls s)) as (i & c & Hc & Hw); [unfold measure in Hm; lia|].
    eapply can_go_on; [exact _|exact Hinv|done|exact Hc|lia].
  - unfold measure. intros Hm. pose proof (proj1 (sum_list_with_zero _ _) Hm) as Hzero. clear Hm. destruct Hinv as [Hdl Hpr _ _ Hok].
    rewrite (proj2 (sum_list_with_zero fetching _)) in Hdl by (intros i c Hc; by eapply weightless, Hzero; [eapply Hok|]).
    rewrite (proj2 (sum_list_with_zero holding _)) in Hpr by (intros i c Hc; by eapply weightless, Hzero; [eapply Hok|]).
    split_and!; [lia|lia|]. intros i c Hc. by eapply weightless, Hzero; [eapply Hok|].
Qed.

(** ** Properties: the line for downloads *)

Definition grants (evs : list (Event Net)) : nat :=
  sum_list_with (λ ev, match ev with Grant => 1 | _ => 0 end) evs.

Lemma step_queue s ev s' i before after :
  step s ev = Some s' → download_queue s = before ++ i :: after → i ∈ download_queue s' → NoDup (download_queue s) →
  ∃ before' after', download_queue s' = before' ++ i :: after'
    ∧ length before' + match ev with Grant => 1 | _ => 0 end ≤ length before.
Proof.
  intros Hs Hq Hin Hnd.
  assert ((∃ more, download_queue s' = download_queue s ++ more ∧ ev ≠ Grant)
    ∨ (ev = Grant ∧ ∃ j, download_queue s = j :: download_queue s')
    ∨ (∃ j, download_queue s' = filter (λ k, k ≠ j) (download_queue s) ∧ ev ≠ Grant)) as Hcases.
  { destruct ev as [c| |k answer|k|k|k|k|k|k]; cbn in Hs.
    - left. destruct (first_phase config c); injection Hs as <-; [by eexists|by exists []; rewrite app_nil_r..].
    - right; left. destruct (download_permits s), (download_queue s) as [|j rest]; try done.
      apply bind_Some in Hs as (c & _ & Hs). destruct (entry_phase c); try done. injection Hs as <-. split; [done|by exists j].
    - left. exists []. rewrite app_nil_r. apply bind_Some in Hs as (c & _ & Hs). by cases.
    - left. exists []. rewrite app_nil_r. apply bind_Some in Hs as (c & _ & Hs). by cases.
    - left. exists []. rewrite app_nil_r. apply bind_Some in Hs as (c & _ & Hs). by cases.
    - left. exists []. rewrite app_nil_r. apply bind_Some in Hs as (c & _ & Hs). by cases.
    - left. exists []. rewrite app_nil_r. apply bind_Some in Hs as (c & _ & Hs). by cases.
    - left. exists []. rewrite app_nil_r. apply bind_Some in Hs as (c & _ & Hs). by cases.
    - apply bind_Some in Hs as (c & _ & Hs). destruct (entry_phase c); try done; injection Hs as <-;
        [right; right; by exists k|left; exists []; by rewrite app_nil_r..]. }
  destruct Hcases as [(more & Hq' & Hne)|[(-> & j & Hq')|(j & Hq' & Hne)]].
  - exists before, (after ++ more). rewrite Hq', Hq, <- app_assoc. split; [done|]. destruct ev; try done; lia.
  - rewrite Hq in Hq'. destruct before as [|b before]; injection Hq' as Hj Hrest.
    + rewrite Hq in Hnd. apply NoDup_cons in Hnd as [Hni _]. by rewrite Hrest in Hni.
    + exists before, after. rewrite <- Hrest. split; [done|]. cbn. lia.
  - rewrite Hq' in Hin. apply list_elem_of_filter in Hin as [Hij _].
    exists (filter (λ k, k ≠ j) before), (filter (λ k, k ≠ j) after).
    rewrite Hq', Hq, filter_app, filter_cons_True by done. split; [done|].
    pose proof (length_filter (λ k, k ≠ j) before). destruct ev; try done; lia.
Qed.

(** Downloads are admitted in the order they were asked for: one that still
    waits has seen at most as many permits handed out as were ahead of it. *)
Theorem downloads_in_order s0 evs s evs' s' i before after :
  image_service_with_config config = Some s0 → run s0 evs = Some s →
  download_queue s = before ++ i :: after → run s evs' = Some s' → i ∈ download_queue s' →
  grants evs' ≤ length before.
Proof.
  intros H0 Hrun. pose proof (running_inv _ _ _ H0 Hrun) as Hinv. clear H0 Hrun s0 evs. intros Hq Hrun Hin.
  revert s before after Hinv Hq Hrun. induction evs' as [|ev evs' IH]; intros s before after Hinv Hq Hrun; [cbn; lia|].
  cbn in Hrun. apply bind_Some in Hrun as (s1 & Hs & Hrun). pose proof (step_inv _ _ _ _ _ _ _ _ Hinv Hs) as Hinv1.
  assert (i < length (calls s)) as Hi.
  { destruct (proj1 (inv_queue _ _ _ Hinv i)) as (c & Hc & _); [|by eapply lookup_lt_Some].
    rewrite Hq, elem_of_app, elem_of_cons. by right; left. }
  assert (i ∈ download_queue s1) as Hin1.
  { destruct (decide (i ∈ download_queue s1)) as [|Hout]; [done|]. exfalso.
    apply (run_stays_out _ _ _ _ _ _ _ _ i Hinv1 Hrun); [|done|done].
    apply (step_stays_out _ _ _ _ _ _ _ _ i Hinv Hs Hi). }
  destruct (step_queue _ _ _ _ _ _ Hs Hq Hin1 (inv_once _ _ _ Hinv)) as (before' & after' & Hq1 & Hlen).
  pose proof (IH _ _ _ Hinv1 Hq1 Hrun). unfold grants in *. destruct ev; cbn in *; lia.
Qed.

(** ** Properties: callers that go away *)

(** A closure whose caller went away before it began never works: it ends where
    it begins, and gives its permit back. *)
Theorem dropped_closure_does_no_work s evs s' i c wm :
  calls s !! i = Some c → entry_phase c = Gone → entry_job c = Some (mk_Job wm Spawned) →
  run s evs = Some s' →
  ∃ c', calls s' !! i = Some c' ∧ entry_phase c' = Gone
    ∧ (entry_job c' = Some (mk_Job wm Spawned) ∨ entry_job c' = None).
Proof.
  intros Hc Hp Hj. assert (entry_phase c = Gone ∧ (entry_job c = Some (mk_Job wm Spawned) ∨ entry_job c = None)) as Hi
    by auto. clear Hp Hj. revert s c Hc Hi. induction evs as [|ev evs IH]; intros s c Hc [Hp Hj] Hrun; cbn in Hrun.
  { injection Hrun as <-. by exists c. }
  apply bind_Some in Hrun as (s1 & Hs & Hrun).
  assert (∃ c', calls s1 !! i = Some c' ∧ entry_phase c' = Gone
    ∧ (entry_job c' = Some (mk_Job wm Spawned) ∨ entry_job c' = None)) as (c1 & Hc1 & Hi1); [|by eapply IH].
  clear IH Hrun evs. destruct c as [call phase job]; cbn in *; subst phase.
  destruct ev as [c| |k answer|k|k|k|k|k|k]; cbn in Hs.
  { exists (mk_Entry call Gone job). split; [|done].
    destruct (first_phase config c); injection Hs as <-; simpl; by rewrite lookup_app_l by (by eapply lookup_lt_Some). }
  { destruct (download_permits s), (download_queue s) as [|k rest]; try done.
    apply bind_Some in Hs as (c & Hk & Hs). destruct (decide (k = i)) as [->|Hne]; [by simplify_eq/=|].
    destruct (entry_phase c); try done. injection Hs as <-. exists (mk_Entry call Gone job). simpl.
    by rewrite list_lookup_alter_ne. }
  all: apply bind_Some in Hs as (c & Hk & Hs); destruct (decide (k = i)) as [->|Hne];
    [|exists (mk_Entry call Gone job); cases; by rewrite list_lookup_alter_ne].
  all: rewrite Hc in Hk; injection Hk as <-; cbn in Hs; destruct Hj as [->| ->]; try done; try by destruct call.
  all: injection Hs as <-; simpl; rewrite list_lookup_alter, decide_True, Hc by done; eexists; split; [done|]; auto.
Qed.
End Theorems.

(** ** Properties: what a call returns *)

Section Results.
Context (v4net_contains v6net_contains : Z * Z → Z → bool).
Context {Url : Type} (url_parse : string → option Url) (url_join : Url → string → option Url)
  (url_scheme : Url → string) (url_host_str : Url → option string)
  (url_port_or_known_default : Url → option Z) (url_path : Url → string)
  (url_to_string : Url → string).
Context (config : PerformanceConfig).
Context (process_blocking :
  list byte → ResizeQuery → option (list byte) → option (result AnyhowError (list byte * string))).

Abbreviation Network := (Network (Url := Url)).
Abbreviation download :=
  (λ (net : Network) url,
     (download_image v4net_contains v6net_contains url_parse url_join url_scheme url_host_str
        url_port_or_known_default url_path url_to_string config net url).1).
Abbreviation watermark net params :=
  (download_watermark_if_needed v4net_contains v6net_contains url_parse url_join url_scheme url_host_str
     url_port_or_known_default url_path url_to_string config net params).1.
Abbreviation process net permits bytes params :=
  (process_image v4net_contains v6net_contains url_parse url_join url_scheme url_host_str
     url_port_or_known_default url_path url_to_string config net process_blocking permits bytes params).1.
Abbreviation step := (step config download process_blocking).
Abbreviation run := (run config download process_blocking).

Lemma watermark_by_source net params :
  watermark net params =
  match watermark_source config params with
  | Err e => Err e
  | Ok None => Ok None
  | Ok (Some url) => Some <$> context "Failed to download watermark image" (download net url)
  end.
Proof.
  unfold download_watermark_if_needed, watermark_source. destruct (rq_watermark params) as [wm|]; [|done].
  destruct (match wm_url wm with Some url => Some url | None => watermark_url config end) as [url|]; [|done].
  cbn. by destruct (download_image _ _ _ _ _ _ _ _ _ _ _ _).
Qed.

(** The history, and what it says of call [i]: the network its fetch met, if it
    makes one. *)
Context (evs : list (Event Network)).

Definition met (i : nat) (p : ResizeQuery) (net : Network) : Prop :=
  match watermark_source config p with Ok (Some _) => Fetched i net ∈ evs | _ => True end.

(** A result is that of the call alone, or its closure was thrown away. *)
Definition alone (i : nat) (b : list byte) (p : ResizeQuery) (r : result AnyhowError (list byte * string)) : Prop :=
  (∃ net, met i p net ∧ (r = process net 0 b p ∨ r = process net 1 b p))
  ∨ (r = Err cancelled ∧ Abandon i ∈ evs).

Definition watermarked (i : nat) (p : ResizeQuery) (wm : option (list byte)) : Prop :=
  ∃ net, met i p net ∧ watermark net p = Ok wm.

(** What has happened to a call agrees with what it would have come to alone. *)
Definition sound (i : nat) (c : Entry) : Prop :=
  match entry_call c, entry_phase c with
  | DownloadCall url, (Queued u | Fetching u) => u = url
  | DownloadCall url, Returned r => ∃ net, Fetched i net ∈ evs ∧ r = Downloaded (download net url)
  | ProcessCall b p, (Queued u | Fetching u) => watermark_source config p = Ok (Some u)
  | ProcessCall b p, Admission wm => watermarked i p wm
  | ProcessCall b p, Returned r => ∃ r', r = Processed r' ∧ alone i b p r'
  | _, _ => True
  end
  ∧ match entry_call c, entry_job c with ProcessCall b p, Some j => watermarked i p (job_watermark j) | _, _ => True end.

(** A call that fails before its permit. *)
Lemma failed_alone i b p net e : met i p net → watermark net p = Err e → alone i b p (Err e).
Proof.
  intros Hmet Hwm. left. exists net. split; [done|left]. unfold process_image.
  destruct (download_watermark_if_needed _ _ _ _ _ _ _ _ _ _ _ p) as [r conns]. cbn in Hwm. by subst r.
Qed.

Lemma first_phase_sound `{!Inhabited Network} i c : sound i (mk_Entry c (first_phase config c) None).
Proof.
  destruct c as [url|b p]; [done|]. split; [|done]. cbn [entry_call entry_phase first_phase].
  pose proof (watermark_by_source inhabitant p) as Hwm.
  assert (∀ x, watermark_source config p = x → (∀ u, x ≠ Ok (Some u)) → met i p inhabitant) as Hmet.
  { intros x Hx Hno. unfold met. rewrite Hx. destruct x as [[u|]|]; [by destruct (Hno u)|done..]. }
  destruct (watermark_source config p) as [[url|]|e]; [done|..]; specialize (Hmet _ eq_refl ltac:(done)).
  - by exists inhabitant.
  - eexists. split; [done|]. by eapply failed_alone.
Qed.

Lemma fetched_sound i b p u net :
  watermark_source config p = Ok (Some u) → Fetched i net ∈ evs →
  sound i (mk_Entry (ProcessCall b p) (fetched (ProcessCall b p) (download net u)) None).
Proof.
  intros Hu Hin. split; [|done]. cbn [entry_call entry_phase fetched]. pose proof (watermark_by_source net p) as Hwm.
  assert (met i p net) as Hmet by (unfold met; by rewrite Hu).
  rewrite Hu in Hwm. destruct (context _ (download net u)) as [bytes|e]; [by exists net|]. cbn in Hwm.
  eexists. split; [done|]. by eapply failed_alone.
Qed.

Lemma process_watermarked net free b p wm :
  watermark net p = Ok wm →
  process net free b p = if (free <=? 0)%Z then Err (no_permit config)
                         else default (Err cancelled) (process_blocking b p wm).
Proof.
  unfold process_image. destruct (download_watermark_if_needed _ _ _ _ _ _ _ _ _ _ _ p) as [r conns]. cbn. intros ->.
  destruct (free <=? 0)%Z; [done|]. by destruct (process_blocking b p wm).
Qed.

Lemma refused_alone i b p wm : watermarked i p wm → alone i b p (Err (no_permit config)).
Proof. intros (net & Hmet & Hwm). left. exists net. split; [done|left]. by rewrite (process_watermarked _ _ _ _ _ Hwm). Qed.

Lemma worked_alone i b p wm : watermarked i p wm → alone i b p (default (Err cancelled) (process_blocking b p wm)).
Proof. intros (net & Hmet & Hwm). left. exists net. split; [done|right]. by rewrite (process_watermarked _ _ _ _ _ Hwm). Qed.

(** The end of a closure, and of its half of the channel. *)
Lemma send_sound i b p ph j j' r :
  sound i (mk_Entry (ProcessCall b p) ph (Some j)) →
  (ph = Awaiting ∨ is_gone ph = true) → alone i b p r →
  (j' = None ∨ option_map job_watermark j' = Some (job_watermark j)) →
  sound i (mk_Entry (ProcessCall b p) (send r ph) j').
Proof.
  intros [_ Hj] Hph Hr Hj'. split.
  - destruct Hph as [->|Hg]; [by exists r|by destruct ph].
  - cbn in *. destruct j' as [j'|]; [|done]. by destruct Hj' as [|[= ->]].
Qed.

Lemma step_sound `{!Inhabited Network} max_downloads max_processing s ev s' :
  inv max_downloads max_processing s → (∀ i c, calls s !! i = Some c → sound i c) →
  step s ev = Some s' → ev ∈ evs → ∀ i c, calls s' !! i = Some c → sound i c.
Proof.
  intros Hinv Hall Hs Hev. destruct ev as [call| |i net|i|i|i|i|i|i]; cbn in Hs.
  { assert (calls s' = calls s ++ [mk_Entry call (first_phase config call) None]) as ->
      by (by destruct (first_phase config call); injection Hs as <-).
    intros i c [Hc|[_ Hc]]%lookup_app_Some; [by eapply Hall|].
    destruct (i - length (calls s)); [|done]. injection Hc as <-. apply first_phase_sound. }
  { destruct (download_permits s), (download_queue s) as [|i rest]; try done.
    apply bind_Some in Hs as (c & Hc & Hs). pose proof (Hall _ _ Hc) as Hsound.
    destruct c as [call [url| | | | |] job]; try done. injection Hs as <-.
    apply (alter_all sound _ _ _ _ Hall Hc), Hsound. }
  all: apply bind_Some in Hs as (c & Hc & Hs); pose proof (Hall _ _ Hc) as Hsound;
    pose proof (inv_entries _ _ _ Hinv _ _ Hc) as Hok; clear Hinv; destruct c as [call phase job];
    unfold entry_ok in Hok; cbn in Hok, Hs.
  - destruct phase as [|url| | | |]; try done. injection Hs as <-. apply (alter_all sound _ _ _ _ Hall Hc).
    destruct job as [[? []]|]; [done..|]. destruct Hsound as [Hu _]. cbn in Hu.
    destruct call as [url'|b p]; [subst; split; [by exists net|done]|by apply fetched_sound].
  - destruct phase as [| |wm| | |]; try done. destruct job as [[? []]|]; [done..|].
    destruct call as [|b p]; [done|]. destruct Hsound as [Hwm _]. cbn in Hwm.
    destruct (processing_permits s); injection Hs as <-; apply (alter_all sound _ _ _ _ Hall Hc); split; try done.
    eexists. split; [done|]. by eapply refused_alone.
  - destruct job as [[wm []]|]; try done. destruct call as [|b p]; [by destruct phase|].
    destruct (is_gone phase) eqn:Hg; injection Hs as <-; apply (alter_all sound _ _ _ _ Hall Hc); by destruct phase.
  - destruct call as [|b p]; [done|]. destruct job as [[wm []]|]; try done.
    assert (phase = Awaiting ∨ is_gone phase = true) as Hph by (destruct phase; auto).
    pose proof (worked_alone i b p wm (proj2 Hsound)) as Hone.
    destruct (process_blocking b p wm) as [r|]; injection Hs as <-; apply (alter_all sound _ _ _ _ Hall Hc);
      apply (send_sound _ _ _ _ _ _ _ Hsound Hph); auto.
  - destruct job as [[wm []]|]; try done. injection Hs as <-. apply (alter_all sound _ _ _ _ Hall Hc).
    destruct Hsound. split; [done|]. by destruct call.
  - destruct job as [[wm []]|]; try done. injection Hs as <-. apply (alter_all sound _ _ _ _ Hall Hc).
    destruct call as [|b p]; [by destruct phase|].
    apply (send_sound _ _ _ _ _ _ _ Hsound); [destruct phase; auto|by right|auto].
  - assert (s'.(calls) = alter (set_phase Gone) i (calls s)) as ->
      by (destruct phase; try done; by injection Hs as <-).
    apply (alter_all sound _ _ _ _ Hall Hc). destruct Hsound. split; [by destruct call|done].
Qed.

Lemma run_sound `{!Inhabited Network} max_downloads max_processing s evs' s' :
  inv max_downloads max_processing s → (∀ i c, calls s !! i = Some c → sound i c) →
  run s evs' = Some s' → evs' ⊆ evs → ∀ i c, calls s' !! i = Some c → sound i c.
Proof.
  revert s. induction evs' as [|ev evs' IH]; intros s Hinv Hall Hrun Hsub; cbn in Hrun; [by injection Hrun as <-|].
  apply bind_Some in Hrun as (s1 & Hs & Hrun).
  eapply IH; [by eapply step_inv| |exact Hrun|intros e He; apply Hsub; by right].
  eapply step_sound; [done|done|exact Hs|]. apply Hsub. by left.
Qed.

End Results.

(** ** Properties: limits *)

(** With no permit for downloads every download waits until its caller gives
    up. *)
Theorem no_download_permit_hangs {Net} config (download : Net → string → result AnyhowError (list byte))
    process_blocking s0 evs s i c url :
  max_concurrent_downloads config = 0%Z → image_service_with_config config = Some s0 →
  run config download process_blocking s0 evs = Some s → calls s !! i = Some c → entry_call c = DownloadCall url →
  (∃ url, entry_phase c = Queued url) ∨ entry_phase c = Gone.
Proof.
  intros Hzero H0. assert (∀ i c url, calls s0 !! i = Some c → entry_call c = DownloadCall url →
    (∃ url, entry_phase c = Queued url) ∨ entry_phase c = Gone) as Hall.
  { intros j e u. by rewrite (with_config_calls _ _ H0). }
  pose proof (with_config_inv _ _ H0) as Hinv. rewrite Hzero in Hinv. clear H0 Hzero. intros Hrun Hc Hcall.
  revert s0 Hinv Hall Hrun. induction evs as [|ev evs IH]; intros s0 Hinv Hall Hrun; cbn in Hrun.
  { injection Hrun as ->. by eapply Hall. }
  apply bind_Some in Hrun as (s1 & Hs & Hrun). eapply IH; [by eapply step_inv| |exact Hrun]. clear IH Hrun Hc Hcall.
  intros j e u He Hcall. destruct ev as [call| |k answer|k|k|k|k|k|k]; cbn in Hs.
  { assert (calls s1 = calls s0 ++ [mk_Entry call (first_phase config call) None]) as Hnew
      by (by destruct (first_phase config call); injection Hs as <-).
    rewrite Hnew in He. apply lookup_app_Some in He as [He|[_ He]]; [by eapply Hall|].
    destruct (j - length (calls s0)); [|done]. injection He as <-. cbn in Hcall. subst call. left. by eexists. }
  { pose proof (inv_downloads _ _ _ Hinv). destruct (download_permits s0); [done|lia]. }
  all: apply bind_Some in Hs as (c' & Hk & Hs); destruct (decide (k = j)) as [->|Hne];
    [|apply (Hall j e u); [|done]; cases; by rewrite list_lookup_alter_ne in He].
  all: pose proof (inv_entries _ _ _ Hinv _ _ Hk) as Hok; destruct c' as [call phase job]; unfold entry_ok in Hok; cbn in *.
  all: assert (call = DownloadCall u) as -> by
      (cases; rewrite list_lookup_alter, decide_True, Hk in He by done; by injection He as <-).
  all: destruct (Hall j _ u Hk eq_refl) as [[url' Hq]|Hq]; cbn in Hq; subst phase; try done;
    destruct job as [[wm []]|]; try done.
  all: injection Hs as <-; simpl in He; rewrite list_lookup_alter, decide_True, Hk in He by done;
    injection He as <-; by right.
Qed.

Lemma run_first {Net} config (download : Net → string → result AnyhowError (list byte)) process_blocking s ev s1 evs s' :
  step config download process_blocking s ev = Some s1 → run config download process_blocking s1 evs = Some s' →
  run config download process_blocking s (ev :: evs) = Some s'.
Proof. intros Hs Hr. cbn [run]. by rewrite Hs. Qed.

(** The answer is sent before the permit is given back: a caller that waits for
    its answer before it asks again can be refused, although nobody else uses
    the service. *)
Theorem answered_before_permit_is_back {Net} (download : Net → string → result AnyhowError (list byte))
    process_blocking b p out :
  rq_watermark p = None → process_blocking b p None = Some (Ok out) →
  ∃ s0 s, image_service_new 1 = Some s0
    ∧ run (performance_default 1) download process_blocking s0
        [Submit (ProcessCall b p); TryAcquire 0; StartJob 0; Send 0; Submit (ProcessCall b p); TryAcquire 1] = Some s
    ∧ entry_phase <$> calls s =
        [Returned (Processed (Ok out)); Returned (Processed (Err (no_permit (performance_default 1))))].
Proof.
  intros Hwm Hout.
  assert (first_phase (performance_default 1) (ProcessCall b p) = Admission None) as Hf
    by (unfold first_phase, watermark_source; by rewrite Hwm).
  eexists _, _. split; [reflexivity|]. split.
  - eapply run_first; [unfold step; rewrite Hf; reflexivity|]. do 2 (eapply run_first; [reflexivity|]).
    eapply run_first; [simpl; rewrite Hout; reflexivity|].
    eapply run_first; [unfold step; rewrite Hf; reflexivity|]. eapply run_first; reflexivity.
  - reflexivity.
Qed.

(** ** Instances: one permit to process images, two callers *)

Section Example.
Definition example_blocking (b : list byte) (_ : ResizeQuery) (_ : option (list byte))
  : option (result AnyhowError (list byte * string)) := Some (Ok (b, "image/png")).

(** A network that answers every fetch with these bytes. *)
Definition example_download (net : list byte) (_ : string) : result AnyhowError (list byte) := Ok net.

Abbreviation example_run := (run (performance_default 1) example_download example_blocking).
Abbreviation process_one := (Submit (ProcessCall [x01] resize_query_default)).

Definition idle : Service := mk_Service 20 [] 1 [].
Definition busy_calls : list (Event (list byte)) := [process_one; process_one; TryAcquire 0].
Definition busy : Service := default idle (example_run idle busy_calls).

Lemma permits_bound_work_witness :
  sum_list_with holding (calls busy) = 1
  ∧ ∃ s', step (performance_default 1) example_download example_blocking busy (TryAcquire 1) = Some s'
      ∧ s' = busy <| calls := alter (set_phase (Returned (Processed (Err (no_permit (performance_default 1)))))) 1 (calls busy) |>.
Proof.
  destruct (permits_bound_work (performance_default 1) example_download example_blocking idle busy_calls busy eq_refl eq_refl)
    as (_ & Hp & Hshed). split; [exact Hp|].
  destruct (Hshed 1 (mk_Entry (ProcessCall [x01] resize_query_default) (Admission None) None) None eq_refl eq_refl)
    as (s' & Hs & Hr). exists s'. split; [exact Hs|exact Hr].
Defined.

Lemma work_ends_witness :
  measure busy = 9 ∧ ∃ ev s', step (performance_default 1) example_download example_blocking busy ev = Some s' ∧ ∀ j, ev ≠ Disconnect j.
Proof.
  split; [reflexivity|].
  destruct (work_ends (performance_default 1) example_download example_blocking idle busy_calls busy eq_refl eq_refl ltac:(cbn; lia))
    as (_ & Hstep & _).
  destruct Hstep as (ev & s' & Hs & Hev); [discriminate|]. exists ev, s'. split; [exact Hs|]. intros j. apply Hev.
Defined.

Lemma downloads_in_order_witness :
  let s := default idle (example_run idle [Submit (DownloadCall "a"); Submit (DownloadCall "b")]) in
  let s' := default idle (example_run s [Grant]) in
  1 ∈ download_queue s' ∧ grants (Net := list byte) [Grant] ≤ length [0].
Proof.
  cbv zeta. split; [by left|].
  apply (downloads_in_order (performance_default 1) example_download example_blocking idle
    [Submit (DownloadCall "a"); Submit (DownloadCall "b")] _ [Grant] _ 1 [0] [] eq_refl eq_refl eq_refl eq_refl).
  by left.
Defined.

Lemma dropped_closure_does_no_work_witness :
  let s := default idle (example_run idle [process_one; TryAcquire 0; Disconnect 0]) in
  let s' := default idle (example_run s [StartJob 0]) in
  processing_permits s' = 1 ∧ ∃ c', calls s' !! 0 = Some c' ∧ entry_phase c' = Gone.
Proof.
  cbv zeta. split; [reflexivity|].
  destruct (dropped_closure_does_no_work (performance_default 1) example_download example_blocking
    (default idle (example_run idle [process_one; TryAcquire 0; Disconnect 0])) [StartJob 0] _ 0 _ None
    eq_refl eq_refl eq_refl eq_refl) as (c' & Hc & Hp & _).
  exists c'. split; [exact Hc|exact Hp].
Defined.

(** An origin that answers with one byte, and one that cannot be reached. *)
Definition byte_origin : Network (Url := string) :=
  mk_Network (λ _ _ _, None) (λ _ _ _, true) (λ _ _ _, Some (mk_SourceResponse 200 "OK" None None [Some [x01]])).
Definition dead_origin : Network (Url := string) := mk_Network (λ _ _ _, None) (λ _ _ _, true) (λ _ _ _, None).

Definition origin_download (net : Network (Url := string)) (url : string) : result AnyhowError (list byte) :=
  (download_image (λ _ _, false) (λ _ _, false) Some (λ _, Some) (λ _, "http") Some (λ _, Some 80%Z) (λ _, "/")
     (λ u, u) (performance_default 1) net url).1.

(** Two downloads and an image, the downloads answered in the other order. *)
Definition answered_events : list (Event (Network (Url := string))) :=
  [Submit (DownloadCall "93.184.216.34"); process_one; Submit (DownloadCall "93.184.216.34"); Grant; Grant;
   Fetched 2 dead_origin; TryAcquire 1; StartJob 1; Fetched 0 byte_origin; Send 1].

Definition answered_calls : Service :=
  default idle (run (performance_default 1) origin_download example_blocking idle answered_events).


Definition closed_for_downloads : PerformanceConfig := {|
  max_concurrent_downloads := 0; max_concurrent_processing := 1; http_timeout := 30;
  max_image_size := 50; cpu_thread_pool_size := None; enable_http2 := true;
  connection_pool_size := 50; keep_alive_timeout := 60; max_redirects := 5;
  allowed_sources := None; allow_loopback_source_addresses := false;
  allow_link_local_source_addresses := false; max_src_resolution_mp := 50;
  max_output_width := 4096; max_output_height := 4096; max_animation_frames := 512;
  watermark_url := None; jpeg_progressive_default := false; jpeg_no_subsampling_default := false |}.

Lemma no_download_permit_hangs_witness :
  (∃ url, Queued "a" = Queued url) ∨ Queued "a" = Gone.
Proof.
  exact (no_download_permit_hangs closed_for_downloads example_download example_blocking (mk_Service 0 [] 1 [])
    [Submit (DownloadCall "a")] _ 0 (mk_Entry (DownloadCall "a") (Queued "a") None) "a"
    eq_refl eq_refl eq_refl eq_refl eq_refl).
Defined.

Lemma answered_before_permit_is_back_witness :
  ∃ s0 s, image_service_new 1 = Some s0
    ∧ run (performance_default 1) example_download example_blocking s0
        [process_one; TryAcquire 0; StartJob 0; Send 0; process_one; TryAcquire 1] = Some s.
Proof.
  destruct (answered_before_permit_is_back example_download example_blocking [x01] resize_query_default ([x01], "image/png")
    eq_refl eq_refl) as (s0 & s & H0 & Hr & _). exists s0, s. split; [exact H0|exact Hr].
Defined.
End Example.
