(* ===== verification/Buffered.v ===== *)
(** * Streams of futures with bounded concurrency

[stream::iter(items).map(f).buffer_unordered(n).collect()], which
[ResizeService::resize_batch] of [src/services/resize/handler.rs] and
[run_requests] of [src/bin/benchmark.rs] are built on.  What the combinator
documents - items are taken in order, at most [n] of their futures run at any
time, results come in the order of completion - is a step relation over the
indices of the items; which future completes next is the event. *)
From S2P Require Import Prelude.

Local Open Scope nat_scope.

Record Pool := mk_Pool {
  pool_next : nat;
  pool_running : gset nat;
  pool_finished : list nat;
}.

Definition pool_initial : Pool := mk_Pool 0 ∅ [].

Inductive PoolEvent := Start | Finish (i : nat).

Section Pool.
Context (total width : nat).

Definition pool_step (p : Pool) (ev : PoolEvent) : option Pool :=
  match ev with
  | Start =>
      if (pool_next p <? total) && (size (pool_running p) <? width)
      then Some (mk_Pool (S (pool_next p)) ({[pool_next p]} ∪ pool_running p) (pool_finished p))
      else None
  | Finish i =>
      if bool_decide (i ∈ pool_running p)
      then Some (mk_Pool (pool_next p) (pool_running p ∖ {[i]}) (pool_finished p ++ [i]))
      else None
  end.

Fixpoint pool_run (p : Pool) (evs : list PoolEvent) : option Pool :=
  match evs with
  | [] => Some p
  | ev :: rest => p' ← pool_step p ev; pool_run p' rest
  end.

(** The stream has ended: nothing left to take, nothing running.  That nothing
    is left is found out by asking for the next item, which is done when there
    is room for one: without room the stream stays pending, items or not. *)
Definition pool_done (p : Pool) : Prop :=
  0 < width ∧ pool_next p = total ∧ pool_running p = ∅.

#[export] Instance pool_done_dec p : Decision (pool_done p).
Proof. unfold pool_done. apply _. Defined.

(** ** Invariant *)

(** Every index taken is running or finished, once; and an index cannot have
    finished before all but [width - 1] of its predecessors. *)
Record pool_inv (p : Pool) : Prop := {
  pool_bounded : pool_next p ≤ total;
  pool_split i : i < pool_next p ↔ i ∈ pool_running p ∨ i ∈ pool_finished p;
  pool_disjoint i : i ∈ pool_running p → i ∉ pool_finished p;
  pool_once : NoDup (pool_finished p);
  pool_width : size (pool_running p) ≤ width;
  pool_size : pool_next p = size (pool_running p) + length (pool_finished p);
  pool_window j i : pool_finished p !! j = Some i → i < j + width;
}.

Lemma pool_inv_initial : pool_inv pool_initial.
Proof.
  split; cbn; rewrite ?size_empty; try done; try lia; try apply NoDup_nil_2.
  intros i. split; [lia|]. intros [H|H]; [set_solver|by apply elem_of_nil in H].
Qed.

Lemma pool_inv_start p :
  pool_inv p → pool_next p < total → size (pool_running p) < width →
  pool_inv (mk_Pool (S (pool_next p)) ({[pool_next p]} ∪ pool_running p) (pool_finished p)).
Proof.
  intros [] Hn Hw. assert (pool_next p ∉ pool_running p) as Hfresh.
  { intros Hin. assert (pool_next p < pool_next p) by (apply pool_split0; by left). lia. }
  split; cbn; try done.
  - intros i. rewrite elem_of_union, elem_of_singleton. pose proof (pool_split0 i).
    destruct (decide (i = pool_next p)) as [->|]; split; intros; [by left; left|lia| |].
    + assert (i ∈ pool_running p ∨ i ∈ pool_finished p) by (apply H; lia). tauto.
    + apply Nat.lt_lt_succ_r, H. tauto.
  - intros i [->%elem_of_singleton|Hi]%elem_of_union; [|by apply pool_disjoint0].
    intros Hf. assert (pool_next p < pool_next p) by (apply pool_split0; by right). lia.
  - rewrite size_union, size_singleton by set_solver. lia.
  - rewrite size_union, size_singleton by set_solver. lia.
Qed.

Lemma pool_inv_finish p i :
  pool_inv p → i ∈ pool_running p →
  pool_inv (mk_Pool (pool_next p) (pool_running p ∖ {[i]}) (pool_finished p ++ [i])).
Proof.
  intros [] Hi. assert (size (pool_running p) = S (size (pool_running p ∖ {[i]}))) as Hs.
  { rewrite (union_difference_L {[i]} (pool_running p)) at 1 by set_solver.
    by rewrite size_union, size_singleton by set_solver. }
  split; cbn; try done.
  - intros k. rewrite pool_split0, elem_of_difference, elem_of_singleton, elem_of_app, list_elem_of_singleton.
    destruct (decide (k = i)); naive_solver.
  - intros k [Hk Hne%not_elem_of_singleton]%elem_of_difference.
    rewrite elem_of_app, list_elem_of_singleton. intros [Hf|?]; [by eapply pool_disjoint0|done].
  - apply NoDup_app. split_and!; [done| |apply NoDup_singleton].
    intros k Hk ->%list_elem_of_singleton. by eapply pool_disjoint0.
  - lia.
  - rewrite length_app. cbn. lia.
  - intros j k [Hj|[Hj Hk]]%lookup_app_Some; [by apply pool_window0|].
    apply list_lookup_singleton_Some in Hk as [Hz <-].
    assert (i < pool_next p) by (apply pool_split0; by left). lia.
Qed.

Lemma pool_inv_step p ev p' : pool_inv p → pool_step p ev = Some p' → pool_inv p'.
Proof.
  intros Hp. unfold pool_step. destruct ev as [|i].
  - destruct (Nat.ltb_spec (pool_next p) total), (Nat.ltb_spec (size (pool_running p)) width); try done.
    intros [= <-]. by apply pool_inv_start.
  - case_bool_decide; [|done]. intros [= <-]. by apply pool_inv_finish.
Qed.

Lemma pool_run_inv p evs p' : pool_inv p → pool_run p evs = Some p' → pool_inv p'.
Proof.
  revert p. induction evs as [|ev evs IH]; intros p Hp; cbn; [by intros [= <-]|].
  intros (q & Hq & Hrun)%bind_Some. eapply IH; [|done]. by eapply pool_inv_step.
Qed.

(** When the stream has ended, every item has finished exactly once. *)
Lemma pool_done_all p : pool_inv p → pool_done p → pool_finished p ≡ₚ seq 0 total.
Proof.
  intros [] (_ & Hn & Hr). apply NoDup_Permutation; [done|apply NoDup_seq|].
  intros i. rewrite elem_of_seq, <- Hn. specialize (pool_split0 i). rewrite Hr in pool_split0.
  rewrite elem_of_empty in pool_split0. naive_solver lia.
Qed.

(** ** Progress *)

(** How many events are left. *)
Definition pool_left (p : Pool) : nat := 2 * (total - pool_next p) + size (pool_running p).

Lemma pool_step_left p ev p' :
  pool_inv p → pool_step p ev = Some p' → pool_left p = S (pool_left p').
Proof.
  intros Hp Hs. pose proof (pool_inv_step _ _ _ Hp Hs) as Hp'.
  pose proof (pool_size _ Hp). pose proof (pool_size _ Hp'). pose proof (pool_bounded _ Hp').
  unfold pool_left. destruct ev as [|i]; cbn in Hs.
  - destruct (_ && _); [|done]. injection Hs as <-. cbn in *. lia.
  - case_bool_decide; [|done]. injection Hs as <-. cbn in *. rewrite length_app in *. cbn in *. lia.
Qed.

Lemma pool_run_left p evs p' :
  pool_inv p → pool_run p evs = Some p' → pool_left p = length evs + pool_left p'.
Proof.
  revert p. induction evs as [|ev evs IH]; intros p Hp Hrun; [by injection Hrun as <-|].
  cbn [pool_run] in Hrun. apply bind_Some in Hrun as (q & Hq & Hrun). rewrite (pool_step_left _ _ _ Hp Hq).
  rewrite (IH q) by (done || by eapply pool_inv_step). done.
Qed.

(** With room for one future the stream never stops before its end. *)
Lemma pool_progress p :
  0 < width → pool_inv p → ¬ pool_done p → ∃ ev, is_Some (pool_step p ev).
Proof.
  intros Hw [] Hd. destruct (decide (pool_running p = ∅)) as [Hr|Hr].
  - exists Start. unfold pool_step. rewrite Hr, size_empty.
    destruct (Nat.ltb_spec (pool_next p) total); [|exfalso; apply Hd; split_and!; [done|lia|done]].
    destruct (Nat.ltb_spec 0 width); [by eexists|lia].
  - apply set_choose_L in Hr as [i Hi]. exists (Finish i). cbn. by rewrite bool_decide_true.
Qed.

Lemma pool_done_stuck p ev : pool_done p → pool_step p ev = None.
Proof.
  intros (_ & Hn & Hr). destruct ev as [|i]; unfold pool_step.
  - destruct (Nat.ltb_spec (pool_next p) total); [lia|done].
  - rewrite bool_decide_eq_false_2 by (rewrite Hr; set_solver). done.
Qed.

(** Without room it never starts. *)
Lemma pool_no_room evs p : width = 0 → pool_run pool_initial evs = Some p → p = pool_initial.
Proof.
  intros Hw. destruct evs as [|[|i] evs]; cbn; [by intros [= <-]| |done].
  rewrite Hw, andb_false_r. done.
Qed.
End Pool.

(** The results of a finished stream: [f] of every index, in completion order. *)
Lemma pool_results {A} total width evs p (f : nat → A) :
  pool_run total width pool_initial evs = Some p → pool_done total width p →
  f <$> pool_finished p ≡ₚ f <$> seq 0 total.
Proof.
  intros Hrun Hd. apply fmap_Permutation, (pool_done_all total width); [|done].
  by eapply pool_run_inv; [apply pool_inv_initial|].
Qed.
