(* ===== verification/SingleFlight.v ===== *)
(** * Single-flight resizing: [src/services/resize/handler.rs]

[ResizeService::resize] as a step relation over all concurrent requests.
A request is an index into [requests]; the points between two of its steps
are the code's [.await]s and the places where another thread can run.  The
map entry of a key names the request whose [InFlightGuard] owns it, and a
channel is that request's identity.  [generate_key], [get_cdn_url] and
[process_image] are the services' functions; what the network and the
storage backend answer is part of the event. *)
From S2P Require Import Prelude RustStr RustFloat Params SourceGuard KeyValidation Errors.

Local Open Scope nat_scope.

(** The outcome handed from a leader to its followers. *)
Abbreviation InFlightResult := (result string string).

Inductive Phase :=
  | CheckingCache
  | Missed
  | Following (leader : nat) (mailbox : option InFlightResult)
  | Downloading
  | Processing (image_bytes : list byte)
  | Uploading (processed_image : list byte) (content_type : string)
  | Returned (r : result AnyhowError string)
  | Cancelled.

Record Request := mk_Request {
  req_params : ResizeQuery;
  req_phase : Phase;
}.

Record State := mk_State {
  in_flight : gmap string nat;
  requests : list Request;
  stored : gmap string (list byte * string);
}.

#[export] Instance request_eta : Eta Request := λ r, mk_Request (req_params r) (req_phase r).
#[export] Instance state_eta : Eta State := λ s, mk_State (in_flight s) (requests s) (stored s).

Definition initial : State := mk_State ∅ [] ∅.

Inductive Event :=
  | Arrive (params : ResizeQuery)
  | CheckCache (i : nat) (backend_error : bool)
  | Join (i : nat)
  | Download (i : nat) (answer : result AnyhowError (list byte))
  | Process (i : nat)
  | Upload (i : nat) (answer : result AnyhowError unit)
  | Receive (i : nat)
  | Cancel (i : nat).

Section Service.
Context (generate_key : ResizeQuery → string) (get_cdn_url : string → string).
Context (process_image : list byte → ResizeQuery → result AnyhowError (list byte * string)).

Definition req_key (r : Request) : string := generate_key (req_params r).

Definition cancelled_message (key : string) : string :=
  "in-flight request for key " +:+ key +:+ " was cancelled or panicked before completing".

Definition set_phase (i : nat) (p : Phase) (st : State) : State :=
  st <| requests := alter (λ r, r <| req_phase := p |>) i (requests st) |>.

(** [tx.send(result)]: every subscriber of the channel gets the value. *)
Definition deliver (leader : nat) (res : InFlightResult) (r : Request) : Request :=
  match req_phase r with
  | Following l None => if decide (l = leader) then r <| req_phase := Following l (Some res) |> else r
  | _ => r
  end.

(** [InFlightGuard::drop], with the outcome [finish] recorded if it ran. *)
Definition guard_drop (key : string) (result : option InFlightResult) (st : State) : State :=
  match in_flight st !! key with
  | None => st
  | Some leader =>
      st <| in_flight := delete key (in_flight st) |>
         <| requests := deliver leader (default (Err (cancelled_message key)) result)
                          <$> requests st |>
  end.

(** [guard.finish(..)], the guard's drop, and the return of [resize]. *)
Definition finish (i : nat) (key : string) (r : result AnyhowError string) (st : State) : State :=
  set_phase i (Returned r)
    (guard_drop key (Some (map_err error_to_string r)) st).

Definition leading (p : Phase) : bool :=
  match p with Downloading | Processing _ | Uploading _ _ => true | _ => false end.

Definition step (st : State) (ev : Event) : option State :=
  match ev with
  | Arrive params =>
      Some (st <| requests := requests st ++ [mk_Request params CheckingCache] |>)
  | CheckCache i backend_error =>
      r ← requests st !! i;
      match req_phase r with
      | CheckingCache =>
          (* [check_cache]: an error counts as a miss. *)
          if negb backend_error && bool_decide (is_Some (stored st !! req_key r))
          then Some (set_phase i (Returned (Ok (get_cdn_url (req_key r)))) st)
          else Some (set_phase i Missed st)
      | _ => None
      end
  | Join i =>
      r ← requests st !! i;
      match req_phase r with
      | Missed =>
          match in_flight st !! req_key r with
          | Some leader => Some (set_phase i (Following leader None) st)
          | None =>
              Some (set_phase i Downloading
                      (st <| in_flight := <[req_key r := i]> (in_flight st) |>))
          end
      | _ => None
      end
  | Download i answer =>
      r ← requests st !! i;
      match req_phase r with
      | Downloading =>
          match answer with
          | Ok bytes => Some (set_phase i (Processing bytes) st)
          | Err e => Some (finish i (req_key r) (Err e) st)
          end
      | _ => None
      end
  | Process i =>
      r ← requests st !! i;
      match req_phase r with
      | Processing bytes =>
          match process_image bytes (req_params r) with
          | Ok (img, ct) => Some (set_phase i (Uploading img ct) st)
          | Err e => Some (finish i (req_key r) (Err e) st)
          end
      | _ => None
      end
  | Upload i answer =>
      r ← requests st !! i;
      match req_phase r with
      | Uploading img ct =>
          match answer with
          | Ok _ =>
              Some (finish i (req_key r) (Ok (get_cdn_url (req_key r)))
                      (st <| stored := <[req_key r := (img, ct)]> (stored st) |>))
          | Err e => Some (finish i (req_key r) (Err e) st)
          end
      | _ => None
      end
  | Receive i =>
      r ← requests st !! i;
      match req_phase r with
      | Following _ (Some (Ok url)) => Some (set_phase i (Returned (Ok url)) st)
      | Following _ (Some (Err e)) => Some (set_phase i (Returned (Err (EMessage e))) st)
      | _ => None
      end
  | Cancel i =>
      r ← requests st !! i;
      match req_phase r with
      | Returned _ | Cancelled => None
      | Downloading | Processing _ | Uploading _ _ =>
          Some (set_phase i Cancelled (guard_drop (req_key r) None st))
      | _ => Some (set_phase i Cancelled st)
      end
  end.

Fixpoint run (st : State) (evs : list Event) : option State :=
  match evs with
  | [] => Some st
  | ev :: rest => st' ← step st ev; run st' rest
  end.

Inductive reachable : State → Prop :=
  | reachable_initial : reachable initial
  | reachable_step st ev st' : reachable st → step st ev = Some st' → reachable st'.
End Service.

(** ** Invariant *)

Section Properties.
Context (generate_key : ResizeQuery → string) (get_cdn_url : string → string).
Context (process_image : list byte → ResizeQuery → result AnyhowError (list byte * string)).

Abbreviation key := (req_key generate_key).
Abbreviation step := (step generate_key get_cdn_url process_image).
Abbreviation reachable := (reachable generate_key get_cdn_url process_image).

(** The URL a request has returned, or will return on its next step. *)
Definition promised (p : Phase) (url : string) : Prop :=
  p = Returned (Ok url) ∨ ∃ l, p = Following l (Some (Ok url)).

(** What a phase says about the rest of the state. *)
Record phase_ok (st : State) (r : Request) (p : Phase) : Prop := {
  ok_follow l : p = Following l None → in_flight st !! key r = Some l;
  ok_url url : promised p url → url = get_cdn_url (key r) ∧ is_Some (stored st !! key r);
  ok_upload img ct : p = Uploading img ct → ∃ bytes, process_image bytes (req_params r) = Ok (img, ct);
}.

Record inv (st : State) : Prop := {
  inv_leader k l :
    in_flight st !! k = Some l ↔
    ∃ r, requests st !! l = Some r ∧ key r = k ∧ leading (req_phase r) = true;
  inv_phase i r : requests st !! i = Some r → phase_ok st r (req_phase r);
  inv_stored k img ct :
    stored st !! k = Some (img, ct) →
    ∃ params bytes, generate_key params = k ∧ process_image bytes params = Ok (img, ct);
}.

Lemma lookup_set_phase st i p j :
  requests (set_phase i p st) !! j =
  (if decide (i = j) then (λ r, r <| req_phase := p |>) <$> requests st !! j else requests st !! j).
Proof.
  simpl. rewrite list_lookup_alter. by destruct (decide (i = j)) as [->|].
Qed.

Lemma lookup_set_phase_Some st i p j r :
  requests (set_phase i p st) !! j = Some r →
  (j = i ∧ ∃ r0, requests st !! i = Some r0 ∧ r = mk_Request (req_params r0) p)
  ∨ (j ≠ i ∧ requests st !! j = Some r).
Proof.
  rewrite lookup_set_phase. case_decide as H; [subst|intros ?; right; by split].
  intros (r0 & Hr0 & ->)%fmap_Some. left. split; [done|]. by exists r0.
Qed.

Lemma phase_ok_mono st st' r p :
  phase_ok st r p → in_flight st' = in_flight st →
  (∀ k, is_Some (stored st !! k) → is_Some (stored st' !! k)) → phase_ok st' r p.
Proof.
  intros [H1 H2 H3] Hf Hs. split; [by rewrite Hf| |done].
  intros url Hu. apply H2 in Hu as [? ?]. auto.
Qed.

(** A step of one request that neither takes nor gives up the lead. *)
Lemma inv_set_phase st i r p :
  inv st → requests st !! i = Some r → leading p = leading (req_phase r) →
  phase_ok st r p → inv (set_phase i p st).
Proof.
  intros Hinv Hr Hlead Hp. split.
  - intros k l. change (in_flight (set_phase i p st)) with (in_flight st).
    rewrite (inv_leader st Hinv), lookup_set_phase.
    destruct (decide (i = l)) as [->|]; [|done]. rewrite Hr. simpl. split.
    + intros (? & [= <-] & Hk & Hl). eexists. split; [done|]. simpl. by rewrite Hlead.
    + intros (? & [= <-] & Hk & Hl). exists r. simpl in *. by rewrite <- Hlead.
  - intros j r' Hj. apply lookup_set_phase_Some in Hj as [(-> & r0 & Hr0 & ->)|[_ Hj]].
    + rewrite Hr in Hr0. injection Hr0 as <-. simpl.
      destruct Hp as [H1 H2 H3]. split; [exact H1|exact H2|exact H3].
    + eapply phase_ok_mono; [by apply (inv_phase st Hinv j)|done|done].
  - apply (inv_stored st Hinv).
Qed.

(** Nobody owns the key: the request takes the lead. *)
Lemma inv_lead st i r :
  inv st → requests st !! i = Some r → in_flight st !! key r = None →
  leading (req_phase r) = false →
  inv (set_phase i Downloading (st <| in_flight := <[key r := i]> (in_flight st) |>)).
Proof.
  intros Hinv Hr Hnone Hlead. set (st1 := st <| in_flight := _ |>). split.
  - intros k l. change (in_flight (set_phase i Downloading st1)) with (<[key r := i]> (in_flight st)).
    rewrite lookup_set_phase. change (requests st1) with (requests st).
    destruct (decide (k = key r)) as [->|Hk].
    + rewrite lookup_insert. case_decide; [|done]. split.
      * intros [= <-]. rewrite decide_True by done. rewrite Hr. by eexists.
      * intros (r' & Hr' & Hkr & Hl). case_decide as Hil; [by subst|].
        assert (in_flight st !! key r = Some l) by (apply (inv_leader st Hinv); eauto). congruence.
    + rewrite lookup_insert_ne by done. rewrite (inv_leader st Hinv).
      destruct (decide (i = l)) as [->|]; [|done]. rewrite Hr. simpl. split.
      * intros (? & [= <-] & ? & ?). congruence.
      * intros (? & [= <-] & Hkr & _). by destruct Hk.
  - intros j r' Hj. apply lookup_set_phase_Some in Hj as [(-> & r0 & Hr0 & ->)|[_ Hj]].
    + simpl. split; [done| |done]. intros url [?|[? ?]]; done.
    + change (requests st1) with (requests st) in Hj.
      destruct (inv_phase st Hinv j r' Hj) as [H1 H2 H3]. split; [|exact H2|exact H3].
      intros l Hl. apply H1 in Hl. simpl. rewrite lookup_insert_ne; [done|].
      intros Heq. rewrite <- Heq in Hl. congruence.
  - apply (inv_stored st Hinv).
Qed.

Lemma guard_drop_leader st k l res :
  in_flight st !! k = Some l →
  guard_drop k res st =
  st <| in_flight := delete k (in_flight st) |>
     <| requests := deliver l (default (Err (cancelled_message k)) res) <$> requests st |>.
Proof. intros H. unfold guard_drop. by rewrite H. Qed.

Lemma deliver_params l res r : req_params (deliver l res r) = req_params r.
Proof. unfold deliver. destruct (req_phase r) as [| |? []| | | | |]; try done. by case_decide. Qed.

Lemma deliver_leader l res r : leading (req_phase r) = true → deliver l res r = r.
Proof. unfold deliver. by destruct (req_phase r). Qed.

Lemma deliver_leading l res r : leading (req_phase (deliver l res r)) = leading (req_phase r).
Proof.
  unfold deliver. destruct (req_phase r) as [| |? []| | | | |] eqn:H; try (by rewrite H).
  case_decide; simpl; [done|by rewrite H].
Qed.

(** A request that is not the one leaving, after the leader [i] of [k] has left
    with [res]: a follower of [i] holds its outcome, the others are untouched. *)
Lemma phase_ok_delivered st st' i k res r :
  phase_ok st r (req_phase r) → in_flight st !! k = Some i →
  in_flight st' = delete k (in_flight st) → stored st' = stored st →
  (req_phase r = Following i None → key r = k) →
  (∀ url, res = Ok url → url = get_cdn_url k ∧ is_Some (stored st !! k)) →
  phase_ok st' (deliver i res r) (req_phase (deliver i res r)).
Proof.
  intros Hok Hown Hf Hs Hkey Hurl.
  assert (Hmine : req_phase r = Following i None ∨ req_phase r ≠ Following i None) by
    (destruct (req_phase r) as [| |l [|]| | | | |]; try (by right); destruct (decide (l = i)) as [->|];
     [by left|right; congruence]).
  assert (Hkr : key (deliver i res r) = key r) by (unfold req_key; by rewrite deliver_params).
  destruct Hmine as [Hph|Hph].
  - assert (Hdel : deliver i res r = r <| req_phase := Following i (Some res) |>)
      by (unfold deliver; by rewrite Hph, decide_True).
    split; rewrite ?Hkr, ?Hs, ?(Hkey Hph); rewrite Hdel; [done| |done].
    intros url [[=]|(l & [= _ Hu])]. by apply Hurl.
  - assert (deliver i res r = r) as ->.
    { unfold deliver. destruct (req_phase r) as [| |l [|]| | | | |]; try done. case_decide; congruence. }
    destruct Hok as [H1 H2 H3]. split; rewrite ?Hs; [|done|done].
    intros l Hl. rewrite Hf, lookup_delete_ne; [by apply H1|]. intros Heq.
    specialize (H1 l Hl). rewrite <- Heq, Hown in H1. injection H1 as ->. done.
Qed.

(** The leader of a key stops leading: its entry goes and its followers get
    the result. *)
Lemma inv_unlead st i r p res :
  inv st → requests st !! i = Some r → leading (req_phase r) = true →
  leading p = false → (∀ l, p ≠ Following l None) →
  (∀ url, res = Some (Ok url) ∨ promised p url →
          url = get_cdn_url (key r) ∧ is_Some (stored st !! key r)) →
  inv (set_phase i p (guard_drop (key r) res st)).
Proof.
  intros Hinv Hr Hlead Hp Hnf Hurl.
  assert (Hown : in_flight st !! key r = Some i) by (apply (inv_leader st Hinv); eauto).
  rewrite (guard_drop_leader _ _ _ _ Hown). set (res' := default _ res). set (st1 := _ <| requests := _ |>).
  assert (Hlk : ∀ j, requests st1 !! j = deliver i res' <$> requests st !! j)
    by (intros j; apply list_lookup_fmap).
  split.
  - intros k l. change (in_flight (set_phase i p st1)) with (delete (key r) (in_flight st)).
    rewrite lookup_set_phase, Hlk. destruct (decide (k = key r)) as [->|Hk].
    + rewrite lookup_delete. case_decide; [|done]. split; [done|]. case_decide as Hil; [subst l|].
      * rewrite Hr. simpl. intros (? & [= <-] & _ & Hl). simpl in Hl. congruence.
      * intros (r' & (r0 & Hr0 & ->)%fmap_Some & Hkr & Hl). rewrite deliver_leading in Hl.
        unfold req_key in Hkr. rewrite deliver_params in Hkr.
        assert (in_flight st !! key r = Some l) by (apply (inv_leader st Hinv); eauto). congruence.
    + rewrite lookup_delete_ne by done. rewrite (inv_leader st Hinv). case_decide as Hil; [subst l|].
      * rewrite Hr. simpl. split; intros (? & [= <-] & Hkr & _);
          unfold req_key in *; simpl in *; rewrite ?deliver_params in Hkr; by destruct Hk.
      * split.
        -- intros (r0 & Hr0 & Hkr & Hl). exists (deliver i res' r0). rewrite Hr0.
           unfold req_key. rewrite deliver_params, deliver_leading. done.
        -- intros (r' & (r0 & Hr0 & ->)%fmap_Some & Hkr & Hl). exists r0.
           rewrite deliver_leading in Hl. unfold req_key in *. by rewrite deliver_params in Hkr.
  - intros j r' Hj. apply lookup_set_phase_Some in Hj as [(-> & r0 & Hr0 & ->)|[Hji Hj]].
    + rewrite Hlk, Hr in Hr0. injection Hr0 as <-. simpl. rewrite deliver_params. split.
      * intros l ->. by destruct (Hnf l).
      * intros url Hu. apply Hurl. by right.
      * intros img ct ->. done.
    + rewrite Hlk in Hj. apply fmap_Some in Hj as (r0 & Hr0 & ->).
      apply (phase_ok_delivered st _ i (key r)); [by apply (inv_phase st Hinv j)|done..| |].
      * intros Hph. pose proof (ok_follow _ _ _ (inv_phase st Hinv j r0 Hr0) i Hph) as Hf.
        apply (inv_leader st Hinv) in Hf as (r1 & Hr1 & Hk1 & _). rewrite Hr in Hr1. by injection Hr1 as <-.
      * intros url Hu. apply Hurl. left. subst res'. destruct res as [[]|]; simpl in Hu; congruence.
  - apply (inv_stored st Hinv).
Qed.

Lemma inv_initial : inv initial.
Proof.
  split; simpl.
  - intros k l. rewrite lookup_empty. split; [done|]. by intros (? & ? & _).
  - done.
  - done.
Qed.

Lemma not_promised p url : (∀ r, p ≠ Returned r) → (∀ l m, p ≠ Following l m) → ¬ promised p url.
Proof. intros H1 H2 [->|[l ->]]; [by eapply H1|by eapply H2]. Qed.

(** A phase that promises nothing and follows nobody. *)
Lemma phase_ok_silent st r p :
  (∀ r, p ≠ Returned r) → (∀ l m, p ≠ Following l m) → (∀ img ct, p ≠ Uploading img ct) →
  phase_ok st r p.
Proof.
  intros H1 H2 H3. split.
  - intros l ->. by destruct (H2 l None).
  - intros url Hu. by destruct (not_promised p url).
  - intros img ct ->. by destruct (H3 img ct).
Qed.

(** A failed flight: the followers learn the failure. *)
Lemma inv_fail st i r e :
  inv st → requests st !! i = Some r → leading (req_phase r) = true →
  inv (finish i (key r) (Err e) st).
Proof.
  intros Hinv Hr Hl. unfold finish. apply inv_unlead; try done. cbn [map_err].
  intros url [[=]|[[=]|[? [=]]]].
Qed.

Lemma inv_arrive st params :
  inv st → inv (st <| requests := requests st ++ [mk_Request params CheckingCache] |>).
Proof.
  intros Hinv. split; simpl.
  - intros k l. rewrite (inv_leader st Hinv). split; intros (r & Hr & Hk & Hl); exists r.
    + split_and!; [by apply lookup_app_l_Some|done..].
    + apply lookup_app_Some in Hr as [?|[_ Hr]]; [done|].
      apply list_lookup_singleton_Some in Hr as [_ <-]. done.
  - intros i r Hr. apply lookup_app_Some in Hr as [Hr|[_ Hr]].
    + eapply phase_ok_mono; [by apply (inv_phase st Hinv i)|done|done].
    + apply list_lookup_singleton_Some in Hr as [_ <-]. by apply phase_ok_silent.
  - apply (inv_stored st Hinv).
Qed.

(** The storage gains an image that was processed for its key. *)
Lemma inv_store st params bytes img ct :
  inv st → process_image bytes params = Ok (img, ct) →
  inv (st <| stored := <[generate_key params := (img, ct)]> (stored st) |>).
Proof.
  intros Hinv Hp. split; simpl.
  - apply (inv_leader st Hinv).
  - intros j r' Hj. eapply phase_ok_mono; [by apply (inv_phase st Hinv j)|done|].
    intros k Hk. simpl. destruct (decide (k = generate_key params)) as [->|]; [by rewrite lookup_insert_eq|].
    by rewrite lookup_insert_ne.
  - intros k img' ct'. destruct (decide (k = generate_key params)) as [->|].
    + rewrite lookup_insert_eq. intros [= <- <-]. by exists params, bytes.
    + rewrite lookup_insert_ne by done. apply (inv_stored st Hinv).
Qed.

Lemma inv_step st ev st' : inv st → step st ev = Some st' → inv st'.
Proof.
  intros Hinv. destruct ev as [params|i be|i|i ans|i|i ans|i|i]; simpl; intros Hstep.
  1: { injection Hstep as <-. by apply inv_arrive. }
  all: apply bind_Some in Hstep as (r & Hr & Hstep); pose proof (inv_phase st Hinv i r Hr) as Hok;
    destruct (req_phase r) as [| |l m| |bytes|img ct|res|] eqn:Hph; try done.
  7-12: injection Hstep as <-.
  7-9: apply (inv_set_phase st i r); [done|done|by rewrite Hph|by apply phase_ok_silent].
  7-9: apply inv_unlead; try done; [by rewrite Hph|intros url [[=]|[[=]|[? [=]]]]].
  - destruct (_ && _) eqn:Hhit; injection Hstep as <-;
      (apply (inv_set_phase st i r); [done|done|by rewrite Hph|]).
    + apply andb_true_iff in Hhit as [_ Hs%bool_decide_eq_true]. split; [done| |done].
      intros url [[= <-]|[? [=]]]. done.
    + by apply phase_ok_silent.
  - destruct (in_flight st !! key r) as [l|] eqn:Hl; injection Hstep as <-.
    + apply (inv_set_phase st i r); [done|done|by rewrite Hph|].
      split; [by intros l' [= <-]| |done]. intros url [[=]|[? [=]]].
    + apply (inv_lead st i r); [done..|]. by rewrite Hph.
  - destruct ans as [bytes|e]; injection Hstep as <-.
    + apply (inv_set_phase st i r); [done|done|by rewrite Hph|]. by apply phase_ok_silent.
    + apply (inv_fail st i r); [done..|by rewrite Hph].
  - destruct (process_image bytes (req_params r)) as [[img ct]|e] eqn:Hp; injection Hstep as <-.
    + apply (inv_set_phase st i r); [done|done|by rewrite Hph|].
      split; [done| |intros ? ? [= <- <-]; by exists bytes]. intros url [[=]|[? [=]]].
    + apply (inv_fail st i r); [done..|by rewrite Hph].
  - destruct ans as [[]|e]; injection Hstep as <-; [|by apply (inv_fail st i r); [..|rewrite Hph]].
    destruct (ok_upload _ _ _ Hok img ct eq_refl) as [bytes Hp].
    pose proof (inv_store st _ _ _ _ Hinv Hp) as Hinv1.
    unfold finish. apply inv_unlead; try done; [by rewrite Hph|]. cbn [map_err].
    intros url Hu. assert (url = get_cdn_url (key r)) as ->.
    { destruct Hu as [[= ->]|[[= ->]|[? [=]]]]; done. }
    split; [done|]. simpl. rewrite lookup_insert_eq. by eexists.
  - destruct m as [[url|e]|]; [| |done]; injection Hstep as <-;
      (apply (inv_set_phase st i r); [done|done|by rewrite Hph|]; split; [done| |done]).
    + intros url' [[= <-]|[? [=]]]. apply (ok_url _ _ _ Hok). right. by exists l.
    + intros url' [[=]|[? [=]]].
Qed.

Lemma reachable_inv st : reachable st → inv st.
Proof. induction 1; [apply inv_initial|by eapply inv_step]. Qed.

(** ** Safety *)

(** C2. At any moment at most one request is downloading, processing or
    uploading for a key, and the map names exactly that one. *)
Theorem single_leader st i j r r' :
  reachable st → requests st !! i = Some r → requests st !! j = Some r' →
  leading (req_phase r) = true → leading (req_phase r') = true → key r = key r' →
  i = j ∧ in_flight st !! key r = Some i.
Proof.
  intros Hst%reachable_inv Hi Hj Hli Hlj Hk.
  assert (in_flight st !! key r = Some i) as H1 by (apply (inv_leader st Hst); eauto).
  assert (in_flight st !! key r = Some j) as H2 by (apply (inv_leader st Hst); eauto).
  split; [congruence|done].
Qed.

(** C5. A URL is handed out only for an object that is in storage, and the
    object is the processed output of a request with that key. *)
Theorem returned_url_is_stored st i r url :
  reachable st → requests st !! i = Some r → req_phase r = Returned (Ok url) →
  url = get_cdn_url (key r) ∧
  ∃ img ct params bytes, stored st !! key r = Some (img, ct)
    ∧ generate_key params = key r ∧ process_image bytes params = Ok (img, ct).
Proof.
  intros Hst%reachable_inv Hi Hp.
  destruct (ok_url _ _ _ (inv_phase st Hst i r Hi) url) as [Hu [[img ct] Hs]]; [by left|].
  split; [done|]. destruct (inv_stored st Hst _ _ _ Hs) as (params & bytes & ? & ?).
  by exists img, ct, params, bytes.
Qed.

(** What a request that has stopped leaves to its followers. *)
Definition outcome (k : string) (p : Phase) : option InFlightResult :=
  match p with
  | Returned r => Some (map_err error_to_string r)
  | Cancelled => Some (Err (cancelled_message k))
  | _ => None
  end.

(** ** The shapes of a step *)

(** How far a request is from returning. *)
Definition weight (p : Phase) : nat :=
  match p with
  | CheckingCache => 5
  | Missed => 4
  | Downloading => 3
  | Processing _ => 2
  | Uploading _ _ => 1
  | Following _ None => 2
  | Following _ (Some _) => 1
  | Returned _ | Cancelled => 0
  end.

Inductive move (st : State) (i : nat) (r : Request) (p : Phase) : State → Prop :=
  | move_quiet : leading p = leading (req_phase r) → move st i r p (set_phase i p st)
  | move_lead : p = Downloading → leading (req_phase r) = false → in_flight st !! key r = None →
      move st i r p (set_phase i p (st <| in_flight := <[key r := i]> (in_flight st) |>))
  | move_unlead st0 res :
      requests st0 = requests st → in_flight st0 = in_flight st →
      leading (req_phase r) = true → leading p = false →
      outcome (key r) p = Some (default (Err (cancelled_message (key r))) res) →
      move st i r p (set_phase i p (guard_drop (key r) res st0)).

Lemma step_move st ev st' :
  step st ev = Some st' →
  (∃ params, ev = Arrive params ∧
     st' = st <| requests := requests st ++ [mk_Request params CheckingCache] |>)
  ∨ (∃ i r p, requests st !! i = Some r ∧ weight p < weight (req_phase r) ∧ move st i r p st').
Proof.
  destruct ev as [params|i be|i|i ans|i|i ans|i|i]; simpl; intros Hstep.
  1: { left. exists params. by injection Hstep. }
  all: right; apply bind_Some in Hstep as (r & Hr & Hstep); exists i, r;
    destruct (req_phase r) as [| |l m| |bytes|img ct|res|] eqn:Hph; try done.
  - destruct (_ && _); injection Hstep as <-; eexists; (split_and!; [done| |constructor; by rewrite Hph]);
      simpl; lia.
  - destruct (in_flight st !! key r) eqn:Hl; injection Hstep as <-; eexists.
    + split_and!; [done| |constructor; by rewrite Hph]. simpl; lia.
    + split_and!; [done| |apply move_lead; [done|by rewrite Hph|done]]. simpl; lia.
  - destruct ans; injection Hstep as <-; eexists.
    + split_and!; [done| |constructor; by rewrite Hph]. simpl; lia.
    + split_and!; [done| |apply move_unlead; try done; by rewrite Hph]. simpl; lia.
  - destruct (process_image bytes (req_params r)) as [[]|]; injection Hstep as <-; eexists.
    + split_and!; [done| |constructor; by rewrite Hph]. simpl; lia.
    + split_and!; [done| |apply move_unlead; try done; by rewrite Hph]. simpl; lia.
  - destruct ans; injection Hstep as <-; eexists;
      (split_and!; [done| |apply move_unlead; try done; by rewrite Hph]); simpl; lia.
  - destruct m as [[]|]; [..|done]; injection Hstep as <-; eexists;
      (split_and!; [done| |constructor; by rewrite Hph]); simpl; lia.
  - injection Hstep as <-. eexists. split_and!; [done| |constructor; by rewrite Hph]. simpl; lia.
  - injection Hstep as <-. eexists. split_and!; [done| |constructor; by rewrite Hph]. simpl; lia.
  - injection Hstep as <-. eexists. split_and!; [done| |constructor; by rewrite Hph].
    destruct m; simpl; lia.
  - injection Hstep as <-. eexists.
    split_and!; [done| |apply move_unlead; try done; by rewrite Hph]. simpl; lia.
  - injection Hstep as <-. eexists.
    split_and!; [done| |apply move_unlead; try done; by rewrite Hph]. simpl; lia.
  - injection Hstep as <-. eexists.
    split_and!; [done| |apply move_unlead; try done; by rewrite Hph]. simpl; lia.
Qed.

Lemma guard_drop_lookup st k res j :
  ∃ l res', requests (guard_drop k res st) !! j = requests st !! j
  ∨ requests (guard_drop k res st) !! j = deliver l res' <$> requests st !! j.
Proof.
  unfold guard_drop. destruct (in_flight st !! k) as [l|].
  - exists l, (default (Err (cancelled_message k)) res). right. apply list_lookup_fmap.
  - exists 0, (Err EmptyString). by left.
Qed.

(** Only its own steps make a request start or stop leading. *)
Lemma move_other st k r0 p st' i r r' :
  move st k r0 p st' → i ≠ k → requests st !! i = Some r → requests st' !! i = Some r' →
  leading (req_phase r') = leading (req_phase r).
Proof.
  intros Hm Hik Hr Hr'. assert (Hne : ¬ k = i) by congruence. destruct Hm as [_|_ _ _|st0 res Hreq _ _ _ _].
  - rewrite lookup_set_phase, decide_False, Hr in Hr' by done. by injection Hr' as <-.
  - rewrite lookup_set_phase, decide_False in Hr' by done. simpl in Hr'. rewrite Hr in Hr'.
    by injection Hr' as <-.
  - rewrite lookup_set_phase, decide_False in Hr' by done.
    destruct (guard_drop_lookup st0 (key r0) res i) as (l & res' & [H|H]); rewrite H, Hreq, Hr in Hr';
      simpl in Hr'; injection Hr' as <-; [done|apply deliver_leading].
Qed.

(** C3. However a leader stops - success, failure, panic or cancellation - its
    map entry is gone and everyone waiting for it holds its outcome. *)
Theorem leader_exit_wakes_followers st ev st' i r r' :
  reachable st → step st ev = Some st' →
  requests st !! i = Some r → leading (req_phase r) = true →
  requests st' !! i = Some r' → leading (req_phase r') = false →
  in_flight st' !! key r = None ∧
  ∃ res, outcome (key r) (req_phase r') = Some res ∧
    ∀ j f, requests st !! j = Some f → req_phase f = Following i None →
      requests st' !! j = Some (f <| req_phase := Following i (Some res) |>).
Proof.
  intros Hst%reachable_inv Hstep Hr Hl Hr' Hl'.
  apply step_move in Hstep as [(params & _ & ->)|(k & r0 & p & Hk & _ & Hm)].
  { simpl in Hr'. rewrite lookup_app_l in Hr' by (by eapply lookup_lt_Some). congruence. }
  destruct (decide (i = k)) as [<-|Hne].
  2: { pose proof (move_other _ _ _ _ _ _ _ _ Hm Hne Hr Hr'). congruence. }
  rewrite Hr in Hk. injection Hk as <-.
  assert (req_phase r' = p) as Hp.
  { destruct Hm; apply lookup_set_phase_Some in Hr' as [(_ & r0 & _ & ->)|[? _]]; done. }
  subst p. destruct Hm as [Heq|Hd _ _|st0 res Hreq Hfl _ _ Hout]; [congruence|by rewrite Hd in Hl'|].
  assert (Hown : in_flight st0 !! key r = Some i) by (rewrite Hfl; apply (inv_leader st Hst); eauto).
  rewrite (guard_drop_leader _ _ _ _ Hown). split; [apply lookup_delete_eq|].
  eexists. split; [exact Hout|]. intros j f Hj Hph. rewrite lookup_set_phase, decide_False.
  - simpl. rewrite list_lookup_fmap, Hreq, Hj. simpl. unfold deliver. rewrite Hph.
    by rewrite decide_True.
  - intros <-. rewrite Hr in Hj. injection Hj as <-. by rewrite Hph in Hl.
Qed.

(** ** Liveness *)

Definition measure (st : State) : nat := sum_list_with (λ r, weight (req_phase r)) (requests st).

Lemma measure_set_phase st i p r :
  requests st !! i = Some r → measure (set_phase i p st) + weight (req_phase r) = measure st + weight p.
Proof.
  exact (sum_alter (λ r, weight (req_phase r)) (λ r, r <| req_phase := p |>) (requests st) i r).
Qed.

Lemma weight_deliver l res r : weight (req_phase (deliver l res r)) ≤ weight (req_phase r).
Proof.
  unfold deliver. destruct (req_phase r) as [| |l' [|]| | | | |] eqn:H; try (rewrite H; lia).
  case_decide; [simpl; lia|rewrite H; lia].
Qed.

Lemma measure_guard_drop st k res : measure (guard_drop k res st) ≤ measure st.
Proof.
  unfold guard_drop, measure. destruct (in_flight st !! k) as [l|]; [|lia]. simpl.
  induction (requests st) as [|r rs IH]; simpl; [lia|].
  pose proof (weight_deliver l (default (Err (cancelled_message k)) res) r).
  unfold fmap in IH. lia.
Qed.

Lemma step_measure st ev st' :
  step st ev = Some st' → (∀ params, ev ≠ Arrive params) → measure st' < measure st.
Proof.
  intros Hstep Hna. apply step_move in Hstep as [(params & -> & _)|(i & r & p & Hr & Hw & Hm)].
  { by destruct (Hna params). }
  destruct Hm as [_|_ _ _|st0 res Hreq _ Hlead _ _].
  - pose proof (measure_set_phase st i p r Hr). lia.
  - pose proof (measure_set_phase (st <| in_flight := <[key r:=i]> (in_flight st) |>) i p r Hr) as H.
    change (measure (st <| in_flight := <[key r:=i]> (in_flight st) |>)) with (measure st) in H.
    assert (∀ a b, a + weight (req_phase r) = b + weight p → a < b) as Hlt by (intros; lia).
    exact (Hlt _ _ H).
  - pose proof (measure_guard_drop st0 (key r) res) as Hd.
    assert (requests (guard_drop (key r) res st0) !! i = Some r) as Hr1.
    { destruct (guard_drop_lookup st0 (key r) res i) as (l & res' & [H|H]); rewrite H, Hreq, Hr; [done|].
      simpl. f_equal. by apply deliver_leader. }
    pose proof (measure_set_phase _ i p r Hr1) as H. unfold measure in *. rewrite Hreq in Hd. lia.
Qed.

Definition settled (p : Phase) : Prop := weight p = 0.

(** A request that has not settled can always be brought closer to settling
    by some request taking its own next step, without cancelling anyone. *)
Lemma never_stuck st i r :
  inv st → requests st !! i = Some r → ¬ settled (req_phase r) →
  ∃ ev st', step st ev = Some st' ∧ (∀ params, ev ≠ Arrive params) ∧ (∀ j, ev ≠ Cancel j).
Proof.
  intros Hinv Hr Hns.
  assert (Hlead : ∀ l rl, requests st !! l = Some rl → leading (req_phase rl) = true →
    ∃ ev st', step st ev = Some st' ∧ (∀ params, ev ≠ Arrive params) ∧ (∀ j, ev ≠ Cancel j)).
  { intros l rl Hrl Hl. destruct (req_phase rl) as [| | | |bytes|img ct| |] eqn:Hph; try done.
    - exists (Download l (Ok [])). simpl. rewrite Hrl. simpl. rewrite Hph. by eexists.
    - exists (Process l). simpl. rewrite Hrl. simpl. rewrite Hph.
      destruct (process_image bytes (req_params rl)) as [[]|]; by eexists.
    - exists (Upload l (Ok ())). simpl. rewrite Hrl. simpl. rewrite Hph. by eexists. }
  destruct (req_phase r) as [| |l [m|]| |bytes|img ct|res|] eqn:Hph;
    try (by apply (Hlead i r Hr); rewrite Hph); try (by destruct Hns).
  - exists (CheckCache i true). simpl. rewrite Hr. simpl. rewrite Hph. by eexists.
  - exists (Join i). simpl. rewrite Hr. simpl. rewrite Hph.
    destruct (in_flight st !! key r); by eexists.
  - exists (Receive i). simpl. rewrite Hr. simpl. rewrite Hph. destruct m; by eexists.
  - pose proof (ok_follow _ _ _ (inv_phase st Hinv i r Hr) l Hph) as Hl.
    apply (inv_leader st Hinv) in Hl as (rl & Hrl & _ & Hll). by apply (Hlead l rl).
Qed.

Abbreviation run := (run generate_key get_cdn_url process_image).

(** C4. No request waits forever: from any reachable state every run without new
    arrivals has at most [measure st] steps, and as long as some request has
    not returned, a step that cancels nobody is possible.  So followers are
    never left hanging, whatever happens to their leader. *)
Theorem flights_terminate st :
  reachable st →
  (∀ evs st', run st evs = Some st' → Forall (λ ev, ∀ params, ev ≠ Arrive params) evs →
     length evs + measure st' ≤ measure st)
  ∧ ((∃ i r, requests st !! i = Some r ∧ ¬ settled (req_phase r)) →
     ∃ ev st', step st ev = Some st' ∧ (∀ params, ev ≠ Arrive params) ∧ (∀ j, ev ≠ Cancel j))
  ∧ (measure st = 0 ↔ ∀ i r, requests st !! i = Some r →
       (∃ res, req_phase r = Returned res) ∨ req_phase r = Cancelled).
Proof.
  intros Hst. split_and!.
  - clear Hst. intros evs. revert st. induction evs as [|ev evs IH]; intros st st' Hrun Hna; simpl in *.
    + injection Hrun as ->. lia.
    + apply bind_Some in Hrun as (st1 & Hs & Hrun). apply Forall_cons in Hna as [H1 H2].
      pose proof (step_measure _ _ _ Hs H1). pose proof (IH _ _ Hrun H2). lia.
  - intros (i & r & Hr & Hns). by apply (never_stuck st i r (reachable_inv st Hst)).
  - unfold measure. generalize (requests st). clear. induction l as [|r l IH]; simpl; [done|]. split.
    + intros Hz [|i] r' Hr'; simpl in Hr'; [|by eapply IH; [lia|]].
      injection Hr' as <-. destruct (req_phase r) as [| |? []| | | |res|]; simpl in Hz; try lia;
        [left; by exists res|by right].
    + intros Hall. destruct (Hall 0 r eq_refl) as [[res Hp]|Hp]; rewrite Hp; simpl;
        apply IH; intros i; apply (Hall (S i)).
Qed.
End Properties.

(** ** Instances: two requests for one key *)

Section Example.
Definition example_image (bytes : list byte) (q : ResizeQuery)
  : result AnyhowError (list byte * string) := Ok (bytes, "image/png").

Definition example_key (q : ResizeQuery) : string := "key".

Abbreviation example_run := (run example_key (λ k, "/api/images/files/" +:+ k) example_image).
Abbreviation example_reachable :=
  (reachable example_key (λ k, "/api/images/files/" +:+ k) example_image).

Lemma run_reachable st evs st' :
  example_reachable st → example_run st evs = Some st' → example_reachable st'.
Proof.
  revert st. induction evs as [|ev evs IH]; intros st Hst Hrun; simpl in Hrun.
  - by injection Hrun as <-.
  - apply bind_Some in Hrun as (st1 & Hs & Hrun). eapply IH; [|done]. by eapply reachable_step.
Qed.

(** A leader that is downloading, and a follower of it. *)
Definition joined : list Event :=
  [Arrive resize_query_default; Arrive resize_query_default;
   CheckCache 0 false; CheckCache 1 false; Join 0; Join 1].

Definition after (evs : list Event) : State := default initial (example_run initial evs).

Lemma after_reachable evs : is_Some (example_run initial evs) → example_reachable (after evs).
Proof.
  intros [st Hst]. unfold after. rewrite Hst. eapply run_reachable; [apply reachable_initial|done].
Qed.

Lemma single_leader_witness : in_flight (after joined) !! "key" = Some 0.
Proof.
  by apply (single_leader example_key (λ k, "/api/images/files/" +:+ k) example_image (after joined) 0 0
              (mk_Request resize_query_default Downloading)
              (mk_Request resize_query_default Downloading));
    [apply after_reachable; eexists|..].
Defined.

Definition served : list Event := joined ++ [Download 0 (Ok [Byte.x01]); Process 0; Upload 0 (Ok ())].

Lemma returned_url_is_stored_witness :
  ∃ img ct, stored (after served) !! "key" = Some (img, ct).
Proof.
  destruct (returned_url_is_stored example_key (λ k, "/api/images/files/" +:+ k) example_image
              (after served) 0
              (mk_Request resize_query_default (Returned (Ok "/api/images/files/key")))
              "/api/images/files/key") as (_ & img & ct & _ & _ & H & _);
    [apply after_reachable; eexists; reflexivity|reflexivity|reflexivity|].
  by exists img, ct.
Defined.

Lemma leader_exit_wakes_followers_witness :
  requests (after (joined ++ [Cancel 0])) !! 1 =
    Some (mk_Request resize_query_default (Following 0 (Some (Err (cancelled_message "key"))))).
Proof.
  destruct (leader_exit_wakes_followers example_key (λ k, "/api/images/files/" +:+ k) example_image
              (after joined) (Cancel 0) (after (joined ++ [Cancel 0])) 0
              (mk_Request resize_query_default Downloading)
              (mk_Request resize_query_default Cancelled)) as (_ & res & Hres & Hfollow);
    [apply after_reachable; eexists; reflexivity|reflexivity..|].
  injection Hres as <-.
  by rewrite (Hfollow 1 (mk_Request resize_query_default (Following 0 None))).
Defined.

Lemma flights_terminate_witness :
  ∃ ev st', step example_key (λ k, "/api/images/files/" +:+ k) example_image (after joined) ev = Some st'
    ∧ ∀ j, ev ≠ Cancel j.
Proof.
  destruct (flights_terminate example_key (λ k, "/api/images/files/" +:+ k) example_image
              (after joined)) as (_ & Hstep & _); [apply after_reachable; eexists; reflexivity|].
  destruct Hstep as (ev & st' & Hs & _ & Hc).
  - exists 1, (mk_Request resize_query_default (Following 0 None)). by split.
  - by exists ev, st'.
Defined.
End Example.

(** ** What followers lose

The hand-off flattens the leader's error to its text, so the type that
[classify_resize_error] downcasts to does not reach the followers: the same
rejected source answers 400 to the leader and 502 to everyone else. *)
Theorem followers_lose_the_error_type :
  ∃ e, status_code (classify_resize_error e) = 400%Z
       ∧ status_code (classify_resize_error (EMessage (error_to_string e))) = 502%Z.
Proof. exists (ESource (UnsupportedScheme "ftp")). by vm_compute. Qed.
