(* ===== verification/Batch.v ===== *)
(** * Batches: [ResizeService::resize_batch] of
    [src/services/resize/handler.rs]

A batch runs [resize] for each of its queries, [max_concurrent] at a time, as
[Buffered.v] has it; each call is a request of [SingleFlight.v], next to those
of every other client. *)
From S2P Require Import Prelude RustStr RustFloat Params SourceGuard KeyValidation Errors Buffered SingleFlight.

Local Open Scope nat_scope.

Record Batch := mk_Batch {
  batch_pool : Pool;
  batch_ids : list nat;
  batch_results : list (result AnyhowError string);
  batch_flights : State;
}.

(** The next query's future is polled for the first time, any request makes a
    step, or a future of the batch is ready. *)
Inductive BatchEvent :=
  | Launch
  | Flight (ev : Event)
  | Collect (i : nat).

Definition batch_begin (st : State) : Batch := mk_Batch pool_initial [] [] st.

Section Steps.
Context (generate_key : ResizeQuery → string) (get_cdn_url : string → string).
Context (process_image : list byte → ResizeQuery → result AnyhowError (list byte * string)).
Context (queries : list ResizeQuery) (max_concurrent : nat).

Abbreviation step := (step generate_key get_cdn_url process_image).
Abbreviation pool_step := (pool_step (length queries) max_concurrent).

(** Only dropping the batch would drop one of its futures. *)
Definition drops_item (b : Batch) (ev : Event) : bool :=
  match ev with Cancel id => bool_decide (id ∈ batch_ids b) | _ => false end.

Definition resize_batch (b : Batch) (ev : BatchEvent) : option Batch :=
  match ev with
  | Launch =>
      params ← queries !! pool_next (batch_pool b);
      p ← pool_step (batch_pool b) Start;
      st ← step (batch_flights b) (Arrive params);
      Some (mk_Batch p (batch_ids b ++ [length (requests (batch_flights b))]) (batch_results b) st)
  | Flight ev =>
      if drops_item b ev then None
      else
        st ← step (batch_flights b) ev;
        Some (mk_Batch (batch_pool b) (batch_ids b) (batch_results b) st)
  | Collect i =>
      id ← batch_ids b !! i;
      r ← requests (batch_flights b) !! id;
      match req_phase r with
      | Returned res =>
          p ← pool_step (batch_pool b) (Finish i);
          Some (mk_Batch p (batch_ids b) (batch_results b ++ [res]) (batch_flights b))
      | _ => None
      end
  end.

Fixpoint batch_run (b : Batch) (evs : list BatchEvent) : option Batch :=
  match evs with
  | [] => Some b
  | ev :: rest => b' ← resize_batch b ev; batch_run b' rest
  end.

Definition batch_done (b : Batch) : Prop := pool_done (length queries) max_concurrent (batch_pool b).

(** The result of item [i] in a batch that has it. *)
Definition item_result (b : Batch) (i : nat) (res : result AnyhowError string) : Prop :=
  ∃ id r, batch_ids b !! i = Some id ∧ requests (batch_flights b) !! id = Some r
    ∧ req_phase r = Returned res.
End Steps.

(** ** What a step of the flights leaves alone *)

Section Flights.
Context (generate_key : ResizeQuery → string) (get_cdn_url : string → string).
Context (process_image : list byte → ResizeQuery → result AnyhowError (list byte * string)).

Abbreviation step := (step generate_key get_cdn_url process_image).
Abbreviation key := (req_key generate_key).

(** [r'] is [r] later on: the same query, and what has settled stays. *)
Definition later (r r' : Request) : Prop :=
  req_params r' = req_params r ∧ (settled (req_phase r) → req_phase r' = req_phase r).

Lemma later_refl r : later r r.
Proof. done. Qed.

Lemma later_deliver l res r : later r (deliver l res r).
Proof.
  split; [apply deliver_params|]. unfold deliver, settled.
  destruct (req_phase r) as [| |m []| | | | |] eqn:Hp; try done.
Qed.

Lemma guard_drop_later k res st i r :
  requests st !! i = Some r → ∃ r', requests (guard_drop k res st) !! i = Some r' ∧ later r r'.
Proof.
  intros Hr. destruct (guard_drop_lookup st k res i) as (l & res' & [H|H]); rewrite H, Hr; cbn; eexists.
  - split; [done|apply later_refl].
  - split; [done|apply later_deliver].
Qed.

Lemma step_later st ev st' i r :
  step st ev = Some st' → requests st !! i = Some r → ∃ r', requests st' !! i = Some r' ∧ later r r'.
Proof.
  intros Hs Hr. apply step_move in Hs as [(params & _ & ->)|(k & r0 & p & Hk & Hw & Hm)].
  { exists r. split; [|done]. simpl. rewrite lookup_app_l; [done|by eapply lookup_lt_Some]. }
  assert (∀ st0 r1, requests st0 !! i = Some r1 → later r r1 →
            ∃ r', requests (set_phase k p st0) !! i = Some r' ∧ later r r') as Hset.
  { intros st0 r1 Hr1 [Hq Hl]. rewrite lookup_set_phase. destruct (decide (k = i)) as [->|]; [|by exists r1].
    rewrite Hr1. cbn. eexists. split; [done|]. split; [done|]. intros Hse.
    rewrite Hr in Hk. injection Hk as <-. unfold settled in Hse. lia. }
  destruct Hm as [_|_ _ _|st0 res Hreq _ _ _ _]; [by eapply Hset|by eapply Hset|].
  destruct (guard_drop_later (key r0) res st0 i r) as (r1 & Hr1 & Hl); [by rewrite Hreq|]. by eapply Hset.
Qed.

Lemma lookup_cancelled k p st i r :
  requests (set_phase k p st) !! i = Some r → req_phase r = Cancelled → p ≠ Cancelled →
  requests st !! i = Some r.
Proof. intros [(_ & r0 & _ & ->)|[_ H]]%lookup_set_phase_Some; [by intros|done]. Qed.

Lemma guard_drop_cancelled k res st i r :
  requests (guard_drop k res st) !! i = Some r → req_phase r = Cancelled →
  requests st !! i = Some r.
Proof.
  intros Hr Hc. destruct (guard_drop_lookup st k res i) as (l & res' & [H|H]); rewrite H in Hr; [done|].
  destruct (requests st !! i) as [r0|]; [|done]. cbn in Hr. injection Hr as <-. f_equal.
  unfold deliver in *. destruct (req_phase r0) as [| |m []| | | | |] eqn:Hp; try done.
  by destruct (decide (m = l)).
Qed.

(** A request is cancelled by its own [Cancel] and by nothing else. *)
Lemma step_cancelled st ev st' i r' :
  step st ev = Some st' → requests st' !! i = Some r' → req_phase r' = Cancelled →
  ev = Cancel i ∨ requests st !! i = Some r'.
Proof.
  intros Hs Hr Hc. destruct ev as [params|j be|j|j ans|j|j ans|j|j]; cbn in Hs.
  { injection Hs as <-. cbn in Hr. apply lookup_app_Some in Hr as [Hr|[_ Hr]]; [by right|].
    apply list_lookup_singleton_Some in Hr as [_ <-]. done. }
  all: apply bind_Some in Hs as (r & Hj & Hs); unfold finish in Hs;
    repeat (case_match; try discriminate Hs); injection Hs as <-.
  all: try (right; eapply lookup_cancelled in Hr; [|done|done]).
  all: try done.
  all: try (by eapply guard_drop_cancelled in Hr).
  all: apply lookup_set_phase_Some in Hr as [(-> & r0 & H0 & ->)|[_ Hr]]; [by left|right; try done].
  all: by eapply guard_drop_cancelled in Hr.
Qed.
End Flights.

(** ** Properties of a batch *)

Section Properties.
Context (generate_key : ResizeQuery → string) (get_cdn_url : string → string).
Context (process_image : list byte → ResizeQuery → result AnyhowError (list byte * string)).
Context (queries : list ResizeQuery) (max_concurrent : nat).

Abbreviation step := (step generate_key get_cdn_url process_image).
Abbreviation key := (req_key generate_key).
Abbreviation reachable := (reachable generate_key get_cdn_url process_image).
Abbreviation batch_step := (resize_batch generate_key get_cdn_url process_image queries max_concurrent).
Abbreviation batch_run := (batch_run generate_key get_cdn_url process_image queries max_concurrent).
Abbreviation pool_ok := (pool_inv (length queries) max_concurrent).
Abbreviation batch_done := (batch_done queries max_concurrent).

(** Every launched item is a live request for its query, and every result is
    that of the item which finished at its place. *)
Record batch_inv (b : Batch) : Prop := {
  batch_flights_ok : reachable (batch_flights b);
  batch_pool_ok : pool_ok (batch_pool b);
  batch_launched : length (batch_ids b) = pool_next (batch_pool b);
  batch_item i id : batch_ids b !! i = Some id →
    ∃ r, requests (batch_flights b) !! id = Some r ∧ queries !! i = Some (req_params r)
      ∧ req_phase r ≠ Cancelled;
  batch_aligned : Forall2 (item_result b) (pool_finished (batch_pool b)) (batch_results b);
}.

(** A result stays when items are added and the flights go on. *)
Lemma item_result_later b b' i res :
  batch_ids b `prefix_of` batch_ids b' →
  (∀ id r, requests (batch_flights b) !! id = Some r →
     ∃ r', requests (batch_flights b') !! id = Some r' ∧ later r r') →
  item_result b i res → item_result b' i res.
Proof.
  intros Hp Hl (id & r & Hid & Hr & Hres). destruct (Hl _ _ Hr) as (r' & Hr' & _ & Hs).
  exists id, r'. split_and!; [by eapply prefix_lookup_Some|done|]. by rewrite Hs; rewrite ?Hres.
Qed.

(** What the flights may do under a batch: later requests, no item cancelled. *)
Lemma batch_inv_flights b st' :
  batch_inv b → reachable st' →
  (∀ i r, requests (batch_flights b) !! i = Some r → ∃ r', requests st' !! i = Some r' ∧ later r r'
     ∧ (i ∈ batch_ids b → req_phase r ≠ Cancelled → req_phase r' ≠ Cancelled)) →
  batch_inv (mk_Batch (batch_pool b) (batch_ids b) (batch_results b) st').
Proof.
  intros [] Hst Hl. split; cbn; try done.
  - intros i id Hid. destruct (batch_item0 _ _ Hid) as (r & Hr & Hq & Hc).
    destruct (Hl _ _ Hr) as (r' & Hr' & [Hp _] & Hnc). exists r'. rewrite Hp. split_and!; [done..|].
    apply Hnc; [by eapply list_elem_of_lookup_2|done].
  - eapply Forall2_impl; [exact batch_aligned0|]. intros i res. apply item_result_later; [done|].
    intros id r Hr. destruct (Hl _ _ Hr) as (r' & Hr' & Hlr & _). by exists r'.
Qed.

Lemma batch_inv_launch b p st' params :
  batch_inv b → queries !! pool_next (batch_pool b) = Some params →
  pool_step (length queries) max_concurrent (batch_pool b) Start = Some p →
  step (batch_flights b) (Arrive params) = Some st' →
  batch_inv (mk_Batch p (batch_ids b ++ [length (requests (batch_flights b))]) (batch_results b) st').
Proof.
  intros Hb Hq Hp Hs. pose proof (pool_inv_step _ _ _ _ _ (batch_pool_ok _ Hb) Hp) as Hp'.
  unfold pool_step in Hp. destruct (_ && _); [|done]. injection Hp as <-.
  assert (reachable st') as Hst by (eapply reachable_step; [apply (batch_flights_ok _ Hb)|done]).
  assert (batch_inv (mk_Batch (batch_pool b) (batch_ids b) (batch_results b) st')) as [].
  { apply batch_inv_flights; [done..|]. intros i r Hr.
    destruct (step_later _ _ _ _ _ _ _ _ Hs Hr) as (r' & Hr' & Hl). exists r'. split_and!; [done..|].
    intros _ Hc Hc'. by destruct (step_cancelled _ _ _ _ _ _ _ _ Hs Hr' Hc') as [[=]|?]; simplify_eq. }
  injection Hs as <-. split; cbn in *; try done.
  - rewrite length_app. cbn. lia.
  - intros i id [Hid|[Hge Hid]]%lookup_app_Some; [by apply batch_item0|].
    apply list_lookup_singleton_Some in Hid as [Hz <-]. assert (i = pool_next (batch_pool b)) as -> by lia.
    exists (mk_Request params CheckingCache). simpl. rewrite lookup_app_r, Nat.sub_diag by lia. by split_and!.
  - eapply Forall2_impl; [exact batch_aligned0|]. intros i res.
    apply item_result_later; [by apply prefix_app_r|by eauto using later_refl].
Qed.

Lemma batch_inv_collect b p i id r res :
  batch_inv b → batch_ids b !! i = Some id → requests (batch_flights b) !! id = Some r →
  req_phase r = Returned res →
  pool_step (length queries) max_concurrent (batch_pool b) (Finish i) = Some p →
  batch_inv (mk_Batch p (batch_ids b) (batch_results b ++ [res]) (batch_flights b)).
Proof.
  intros Hb Hid Hr Hres Hp. pose proof (pool_inv_step _ _ _ _ _ (batch_pool_ok _ Hb) Hp) as Hp'.
  unfold pool_step in Hp. case_bool_decide; [|done]. injection Hp as <-. destruct Hb.
  split; cbn; try done. apply Forall2_app.
  - eapply Forall2_impl; [exact batch_aligned0|]. intros j res'.
    apply item_result_later; [done|by eauto using later_refl].
  - constructor; [|constructor]. by exists id, r.
Qed.

Lemma batch_inv_step b ev b' : batch_inv b → batch_step b ev = Some b' → batch_inv b'.
Proof.
  intros Hb. destruct ev as [|ev|i]; cbn [resize_batch].
  - intros (params & Hq & (p & Hp & (st' & Hs & [= <-])%bind_Some)%bind_Some)%bind_Some.
    by eapply batch_inv_launch.
  - destruct (drops_item b ev) eqn:Hd; [done|]. intros (st' & Hs & [= <-])%bind_Some.
    apply batch_inv_flights; [done|by eapply reachable_step; [apply (batch_flights_ok _ Hb)|]|].
    intros i r Hr. destruct (step_later _ _ _ _ _ _ _ _ Hs Hr) as (r' & Hr' & Hl). exists r'.
    split_and!; [done..|]. intros Hin Hc Hc'.
    destruct (step_cancelled _ _ _ _ _ _ _ _ Hs Hr' Hc') as [->|?]; [|by simplify_eq].
    cbn in Hd. by apply bool_decide_eq_false in Hd.
  - intros (id & Hid & (r & Hr & H)%bind_Some)%bind_Some. destruct (req_phase r) eqn:Hph; try done.
    apply bind_Some in H as (p & Hp & [= <-]). by eapply batch_inv_collect.
Qed.

Lemma batch_run_inv b evs b' : batch_inv b → batch_run b evs = Some b' → batch_inv b'.
Proof.
  revert b. induction evs as [|ev evs IH]; intros b Hb; cbn; [by intros [= <-]|].
  intros (c & Hc & Hrun)%bind_Some. eapply IH; [|done]. by eapply batch_inv_step.
Qed.

Lemma batch_inv_begin st : reachable st → batch_inv (batch_begin st).
Proof. intros Hst. split; cbn; [done|apply pool_inv_initial|done..|constructor]. Qed.

Lemma batch_run_begin st evs b :
  reachable st → batch_run (batch_begin st) evs = Some b → batch_inv b.
Proof. intros Hst. apply batch_run_inv, batch_inv_begin, Hst. Qed.

Lemma batch_unsettled b i id r :
  batch_inv b → batch_ids b !! i = Some id → requests (batch_flights b) !! id = Some r →
  ¬ settled (req_phase r) → i ∈ pool_running (batch_pool b).
Proof.
  intros [] Hid Hr Hns. assert (i < pool_next (batch_pool b)) as Hi
    by (rewrite <- batch_launched0; by eapply lookup_lt_Some).
  apply (pool_split _ _ _ batch_pool_ok0) in Hi as [Hi|Hi]; [done|].
  apply list_elem_of_lookup in Hi as [j Hj].
  destruct (Forall2_lookup_l _ _ _ _ _ batch_aligned0 Hj) as (res & _ & id' & r' & Hid' & Hr' & Hres).
  simplify_eq. by rewrite Hres in Hns.
Qed.

(** C25. A batch holds at most [max_concurrent] requests in flight.  Once it ends it
    has one result for every query, in some order of completion, and a result
    that is a URL is that of its own query's key, under which an image is. *)
Theorem resize_batch_results st evs b :
  reachable st → batch_run (batch_begin st) evs = Some b →
  (∀ items, NoDup items →
     (∀ i, i ∈ items → ∃ id r, batch_ids b !! i = Some id
        ∧ requests (batch_flights b) !! id = Some r ∧ ¬ settled (req_phase r)) →
     length items ≤ max_concurrent)
  ∧ (batch_done b → ∃ order, order ≡ₚ seq 0 (length queries) ∧
       Forall2 (λ i res, ∃ q, queries !! i = Some q ∧
         ∀ url, res = Ok url → url = get_cdn_url (generate_key q)
           ∧ is_Some (stored (batch_flights b) !! generate_key q)) order (batch_results b)).
Proof.
  intros Hst Hrun. pose proof (batch_run_begin _ _ _ Hst Hrun) as Hb. split.
  - intros items Hnd Hitems. etrans; [|apply (pool_width _ _ _ (batch_pool_ok _ Hb))].
    rewrite <- (size_list_to_set (C := gset nat)) by done. apply subseteq_size. intros i Hi.
    apply elem_of_list_to_set in Hi. destruct (Hitems i Hi) as (id & r & Hid & Hr & Hns).
    by eapply batch_unsettled.
  - intros Hd. exists (pool_finished (batch_pool b)).
    split; [apply (pool_done_all _ _ _ (batch_pool_ok _ Hb) Hd)|].
    eapply Forall2_impl; [apply (batch_aligned _ Hb)|]. intros i res (id & r & Hid & Hr & Hres).
    destruct (batch_item _ Hb _ _ Hid) as (r' & Hr' & Hq & _). assert (r' = r) as -> by congruence.
    exists (req_params r). split; [done|]. intros url ->.
    apply (ok_url _ _ _ _ _ _ (inv_phase _ _ _ _ (reachable_inv _ _ _ _ (batch_flights_ok _ Hb)) id r Hr)).
    by left.
Qed.

(** ** Termination *)

(** More than any run without new clients has left to do. *)
Definition batch_left (b : Batch) : nat :=
  7 * (length queries - pool_next (batch_pool b)) + size (pool_running (batch_pool b))
  + measure (batch_flights b).

Definition no_arrival (ev : BatchEvent) : Prop := ∀ params, ev ≠ Flight (Arrive params).

Lemma batch_step_left b ev b' :
  batch_inv b → batch_step b ev = Some b' → no_arrival ev → batch_left b' < batch_left b.
Proof.
  intros Hb Hs Hna. destruct ev as [|ev|i]; cbn [resize_batch] in Hs.
  - apply bind_Some in Hs as (params & Hq & (p & Hp & (st' & Hs & [= <-])%bind_Some)%bind_Some).
    unfold pool_step in Hp. destruct (_ && _); [|done]. injection Hp as <-. injection Hs as <-.
    apply lookup_lt_Some in Hq. unfold batch_left, measure. simpl.
    rewrite sum_list_with_app. simpl.
    assert (size ({[pool_next (batch_pool b)]} ∪ pool_running (batch_pool b))
            ≤ 1 + size (pool_running (batch_pool b))).
    { rewrite size_union_alt, size_singleton. pose proof (subseteq_size (pool_running (batch_pool b) ∖ {[pool_next (batch_pool b)]}) (pool_running (batch_pool b)) ltac:(set_solver)). lia. }
    lia.
  - destruct (drops_item b ev); [done|]. apply bind_Some in Hs as (st' & Hs & [= <-]).
    assert (measure st' < measure (batch_flights b)); [|unfold batch_left; cbn [batch_pool batch_flights]; lia].
    eapply step_measure; [done|]. intros params ->. by apply (Hna params).
  - apply bind_Some in Hs as (id & Hid & (r & Hr & Hs)%bind_Some). destruct (req_phase r); try done.
    apply bind_Some in Hs as (p & Hp & [= <-]).
    pose proof (pool_step_left _ _ _ _ _ (batch_pool_ok _ Hb) Hp) as Hl.
    unfold pool_step in Hp. case_bool_decide; [|done]. injection Hp as <-. unfold pool_left in Hl.
    unfold batch_left. cbn [batch_pool batch_flights pool_next pool_running] in *. lia.
Qed.

Lemma batch_run_left b evs b' :
  batch_inv b → batch_run b evs = Some b' → Forall no_arrival evs →
  length evs + batch_left b' ≤ batch_left b.
Proof.
  revert b. induction evs as [|ev evs IH]; intros b Hb Hrun Hna; [by injection Hrun as <-|].
  cbn [Batch.batch_run] in Hrun. apply bind_Some in Hrun as (c & Hc & Hrun).
  apply Forall_cons in Hna as [H1 H2]. pose proof (batch_step_left _ _ _ Hb Hc H1).
  pose proof (IH c (batch_inv_step _ _ _ Hb Hc) Hrun H2). cbn [length]. lia.
Qed.

Lemma batch_progress b :
  0 < max_concurrent → batch_inv b → ¬ batch_done b →
  ∃ ev, is_Some (batch_step b ev) ∧ no_arrival ev ∧ (∀ id, ev ≠ Flight (Cancel id)).
Proof.
  intros Hm Hb Hd. destruct (pool_progress _ _ _ Hm (batch_pool_ok _ Hb) Hd) as [[|i] [p Hp]].
  - exists Launch. split_and!; [|done..]. cbn [resize_batch].
    destruct (queries !! pool_next (batch_pool b)) as [q|] eqn:Hq; cbn [mbind option_bind].
    + rewrite Hp. by eexists.
    + apply lookup_ge_None in Hq. unfold pool_step in Hp.
      destruct (Nat.ltb_spec (pool_next (batch_pool b)) (length queries)); [lia|done].
  - unfold pool_step in Hp. case_bool_decide as Hi; [|done].
    assert (i < length (batch_ids b)) as [id Hid]%lookup_lt_is_Some.
    { rewrite (batch_launched _ Hb). apply (pool_split _ _ _ (batch_pool_ok _ Hb)). by left. }
    destruct (batch_item _ Hb _ _ Hid) as (r & Hr & _ & Hc).
    destruct (decide (weight (req_phase r) = 0)) as [Hs|Hs].
    + exists (Collect i). split_and!; [|done..]. cbn [resize_batch]. rewrite Hid. cbn [mbind option_bind]. rewrite Hr.
      cbn [mbind option_bind]. destruct (req_phase r) as [| |? []| | | | |]; try done.
      unfold pool_step. rewrite bool_decide_true by done. by eexists.
    + destruct (never_stuck _ _ _ _ _ _ (reachable_inv _ _ _ _ (batch_flights_ok _ Hb)) Hr Hs)
        as (ev & st' & Hev & Hna & Hnc).
      exists (Flight ev). split_and!; [|by intros ? [= ->]; eapply Hna|by intros ? [= ->]; eapply Hnc].
      cbn [resize_batch]. destruct ev; try (by destruct (Hnc i0)); cbn [drops_item]; rewrite Hev; by eexists.
Qed.

(** C26. With room for a request the batch always gets to its end: it is never
    stuck before it and cannot go on for ever without new clients.  Without
    room it starts no request and never returns. *)
Theorem resize_batch_ends st evs b :
  reachable st → batch_run (batch_begin st) evs = Some b →
  (0 < max_concurrent →
     (¬ batch_done b →
        ∃ ev, is_Some (batch_step b ev) ∧ no_arrival ev ∧ ∀ id, ev ≠ Flight (Cancel id))
     ∧ ∀ evs' b', batch_run b evs' = Some b' → Forall no_arrival evs' → length evs' ≤ batch_left b)
  ∧ (max_concurrent = 0 → batch_ids b = [] ∧ ¬ batch_done b).
Proof.
  intros Hst Hrun. pose proof (batch_run_begin _ _ _ Hst Hrun) as Hb. split.
  - intros Hm. split; [by apply batch_progress|]. intros evs' b' Hrun' Hna.
    pose proof (batch_run_left _ _ _ Hb Hrun' Hna). lia.
  - intros Hm. split; [|intros [Hw _]; lia]. pose proof (batch_pool_ok _ Hb) as Hp.
    apply length_zero_iff_nil. rewrite (batch_launched _ Hb), (pool_size _ _ _ Hp).
    destruct (pool_finished (batch_pool b)) as [|i l] eqn:Hf.
    + pose proof (pool_width _ _ _ Hp). cbn [length]. lia.
    + pose proof (pool_window _ _ _ Hp 0 i) as Hw. rewrite Hf in Hw. specialize (Hw eq_refl). lia.
Qed.
End Properties.

(** ** Instances: two queries, one at a time *)

Section Example.
Definition example_queries : list ResizeQuery := [resize_query_default; resize_query_default].
Abbreviation run n :=
  (batch_run example_key (λ k, "/api/images/files/" +:+ k) example_image example_queries n (batch_begin initial)).

(** The second query finds what the first one stored. *)
Definition one_by_one : list BatchEvent :=
  [Launch; Flight (CheckCache 0 false); Flight (Join 0); Flight (Download 0 (Ok [Byte.x01]));
   Flight (Process 0); Flight (Upload 0 (Ok ())); Collect 0;
   Launch; Flight (CheckCache 1 false); Collect 1].

Lemma resize_batch_results_witness :
  ∃ b, run 1 one_by_one = Some b
    ∧ Forall2 (λ i res, ∃ q, example_queries !! i = Some q ∧
        ∀ url, res = Ok url → url = "/api/images/files/" +:+ example_key q
          ∧ is_Some (stored (batch_flights b) !! example_key q)) [0; 1] (batch_results b).
Proof.
  destruct (run 1 one_by_one) as [b|] eqn:Hrun; [|vm_compute in Hrun; discriminate Hrun].
  exists b. split; [done|].
  destruct (resize_batch_results _ _ _ _ _ _ _ _ (reachable_initial _ _ _) Hrun) as [_ H].
  vm_compute in Hrun. injection Hrun as <-.
  destruct H as (order & Hp & Hf); [split_and!; [lia|done..]|]. cbn [batch_results batch_flights] in *.
  destruct order as [|i [|j [|]]]; try (apply Permutation_length in Hp; discriminate Hp).
  constructor; [|constructor; [|constructor]].
  - exists resize_query_default. split; [done|]. apply Forall2_cons in Hf as [(q & Hq & Hu) _].
    destruct i as [|[|i]]; [..|discriminate Hq]; injection Hq as <-; apply Hu.
  - exists resize_query_default. split; [done|].
    apply Forall2_cons in Hf as [_ [(q & Hq & Hu) _]%Forall2_cons].
    destruct j as [|[|j]]; [..|discriminate Hq]; injection Hq as <-; apply Hu.
Defined.

Lemma resize_batch_ends_witness :
  (∃ b ev, run 1 [Launch] = Some b
     ∧ is_Some (resize_batch example_key (λ k, "/api/images/files/" +:+ k) example_image example_queries 1 b ev))
  ∧ ∀ evs b, run 0 evs = Some b → batch_ids b = [] ∧ ¬ batch_done example_queries 0 b.
Proof.
  split.
  - destruct (run 1 [Launch]) as [b|] eqn:Hrun; [|vm_compute in Hrun; discriminate Hrun].
    destruct (resize_batch_ends _ _ _ _ _ _ _ _ (reachable_initial _ _ _) Hrun) as [H _].
    destruct (H ltac:(lia)) as [(ev & Hev & _) _].
    + vm_compute in Hrun. injection Hrun as <-. by intros (_ & ? & _).
    + exists b, ev. by split.
  - intros evs b Hrun.
    by apply (resize_batch_ends _ _ _ _ _ _ _ _ (reachable_initial _ _ _) Hrun).
Defined.
End Example.
