(* ===== verification/AsmBench.v ===== *)
(** * The comparison of AVIF decoders: [tools/avif-asm-bench]

The two decoder programs, which differ in the crate they are linked with
([decoder-asm/src/main.rs] and [decoder-noasm/src/main.rs]), and the program
that runs them in turn and reports the ratio of their times
([src/main.rs]).  The AVIF crate, the clock, the file system, cargo and rustc
are parameters; progress messages and the markdown table are left out. *)
From stdpp Require Import sorting.
From S2P Require Import Prelude RustStr RustFloat FloatError Samples AvifMeta CacheKey Params Errors Images Codecs.

Local Open Scope Z_scope.

(** ** A decoder program *)

Definition FNV_OFFSET : Z := 0xcbf29ce484222325.
Definition FNV_PRIME : Z := 0x100000001B3.

Definition fnv1a_64 (bytes : list byte) : Z :=
  fold_left (λ hash b, Z.lxor hash (byte_val b) * FNV_PRIME mod 2 ^ 64) bytes FNV_OFFSET.

(** [u16::to_le_bytes] *)
Definition u16_to_le_bytes (word : Z) : list byte := [byte_of_val word; byte_of_val (word / 256)].

Definition flatten (image : AvifImage) : list byte * Z * Z :=
  match image with
  | AvifRgba8 pixels w h => (byte_of_val <$> concat (rgba_samples <$> pixels), w, h)
  | AvifRgb8 pixels w h => (byte_of_val <$> concat (rgb_samples <$> pixels), w, h)
  | AvifGray8 pixels w h => (byte_of_val <$> pixels, w, h)
  | AvifRgba16 pixels w h => (concat (u16_to_le_bytes <$> concat (rgba_samples <$> pixels)), w, h)
  | AvifRgb16 pixels w h => (concat (u16_to_le_bytes <$> concat (rgb_samples <$> pixels)), w, h)
  | AvifGray16 pixels w h => (concat (u16_to_le_bytes <$> pixels), w, h)
  end.

(** The text of [ParseIntError] for an unsigned type. *)
Fixpoint digits_error (max acc : Z) (s : string) : string :=
  match s with
  | EmptyString => EmptyString
  | String a rest =>
      match to_digit 10 a with
      | None => "invalid digit found in string"
      | Some d =>
          if max <? acc * 10 + d then "number too large to fit in target type"
          else digits_error max (acc * 10 + d) rest
      end
  end.

Definition parse_uint_error (max : Z) (s : string) : string :=
  match s with
  | EmptyString => "cannot parse integer from empty string"
  | String "+" EmptyString => "invalid digit found in string"
  | String "+" rest => digits_error max 0 rest
  | _ => digits_error max 0 s
  end.

(** [format!("{:016x}")] of a [u64]. *)
Definition hex16 (hash : Z) : string := lower_hex (to_be 8 hash).

Definition println (s : string) : string := s +:+ line_end.

Section Decoder.
(** The stages of the [i]-th decode and its duration in nanoseconds; reading the
    file. *)
Context {Dec : Type} (from_avif : nat → list byte → result string Dec)
  (to_image : nat → Dec → result string AvifImage) (elapsed : nat → Z)
  (read_file : string → result string (list byte)).

Definition decode_nth (i : nat) (path : string) (bytes : list byte) : result string AvifImage :=
  decoder ← map_err (λ e, path +:+ ": from_avif: " +:+ e) (from_avif i bytes);
  map_err (λ e, path +:+ ": to_image: " +:+ e) (to_image i decoder).

(** The loop over the iterations. *)
Fixpoint time_decodes (n i : nat) (path : string) (bytes : list byte) : result string (list Z) :=
  match n with
  | O => Ok []
  | S n' =>
      _ ← decode_nth i path bytes;
      nanos ← time_decodes n' (S i) path bytes;
      Ok (elapsed i :: nanos)
  end.

Definition report_head (flat : list byte) (w h : Z) : string :=
  println ("DIMS " +:+ uint_to_string w +:+ " " +:+ uint_to_string h)
  +:+ println ("HASH " +:+ hex16 (fnv1a_64 flat)).

Definition report_iter (n : Z) : string := println ("ITER " +:+ uint_to_string n).

(** What is printed to the standard output, and the result. *)
Definition decoder_run (bin_name : string) (args : list string) : string * result string unit :=
  let usage := "usage: " +:+ bin_name +:+ " <avif-path> <iterations>" in
  let read :=
    path ← ok_or (head args) usage;
    arg ← ok_or (args !! 1%nat) usage;
    iterations ← ok_or (parse_uint usize_max arg)
                   ("invalid iteration count: " +:+ parse_uint_error usize_max arg);
    bytes ← map_err (λ e, "reading " +:+ path +:+ ": " +:+ e) (read_file path);
    first ← decode_nth 0 path bytes;
    Ok (path, iterations, bytes, first) in
  match read with
  | Err e => (EmptyString, Err e)
  | Ok (path, iterations, bytes, first) =>
      let '(flat, w, h) := flatten first in
      match time_decodes (Z.to_nat iterations) 1 path bytes with
      | Err e => (report_head flat w h, Err e)
      | Ok nanos =>
          (report_head flat w h +:+ fold_right (λ n s, report_iter n +:+ s) EmptyString nanos, Ok ())
      end
  end.

(** What the parent of a finished process sees; a failed exit status has its
    text. *)
Record Finished := mk_Finished {
  exit_status : result string unit;
  out_stdout : string;
  out_stderr : string;
}.

Definition decoder_main (bin_name : string) (args : list string) : Finished :=
  let '(printed, result) := decoder_run bin_name args in
  match result with
  | Ok _ => mk_Finished (Ok ()) printed EmptyString
  | Err e => mk_Finished (Err "exit status: 1") printed (println (bin_name +:+ ": " +:+ e))
  end.

(** The two programs, which are copies of each other but for their names and the
    crate they link. *)
Definition decoder_asm : list string → Finished := decoder_main "decoder-asm".
Definition decoder_noasm : list string → Finished := decoder_main "decoder-noasm".
End Decoder.

(** ** The orchestrator *)

Definition u128_max : Z := 2 ^ 128 - 1.

(** A message to exit with, or a panic. *)
Inductive Stop := Fails (msg : string) | Panics.

Definition QUALITIES : list Z := [50; 80].
Definition SPEED : Z := 6.
Definition ROUNDS : nat := 6.
Definition ITERS_PER_ROUND : Z := 5.

Record Fixture := mk_Fixture { fixture_name : string; relative_path : string }.

Definition BENCH_FIXTURES : list Fixture :=
  [mk_Fixture "blue-marble" "benches/fixtures/real/blue-marble.jpg";
   mk_Fixture "earthrise" "benches/fixtures/real/earthrise.jpg"].

Record DecoderSide := mk_DecoderSide { label : string; crate_dir : string; bin_name : string }.

Definition ASM : DecoderSide :=
  mk_DecoderSide "asm-on (upstream avif-decode)" "decoder-asm" "decoder-asm".
Definition NOASM : DecoderSide :=
  mk_DecoderSide "asm-off (vaam-avif-decode fork)" "decoder-noasm" "decoder-noasm".

Record DecodeResult := mk_DecodeResult { dr_dims : Z * Z; dr_hash : string; dr_nanos : list Z }.

Section Orchestrator.
(** [{:?}] of a path or a line; [char::is_alphanumeric] outside ASCII, on the
    bytes of one character. *)
Context (debug : string → string) (alphanumeric_beyond_ascii : string → bool).

(** The variables of [invoke_decoder]'s loop. *)
Record Parsed := mk_Parsed { ps_dims : option (Z * Z); ps_hash : option string; ps_nanos : list Z }.

Definition read_line (p : Parsed) (line : string) : result string Parsed :=
  match strip_prefix "DIMS " line with
  | Some rest =>
      let parts := split_whitespace rest in
      w ← ok_or (head parts ≫= parse_u32) ("bad DIMS line: " +:+ line);
      h ← ok_or ((parts !! 1%nat) ≫= parse_u32) ("bad DIMS line: " +:+ line);
      Ok (mk_Parsed (Some (w, h)) (ps_hash p) (ps_nanos p))
  | None =>
      match strip_prefix "HASH " line with
      | Some rest => Ok (mk_Parsed (ps_dims p) (Some (trim rest)) (ps_nanos p))
      | None =>
          match strip_prefix "ITER " line with
          | Some rest =>
              n ← ok_or (parse_uint u128_max (trim rest))
                    ("bad ITER line " +:+ debug line +:+ ": " +:+ parse_uint_error u128_max (trim rest));
              Ok (mk_Parsed (ps_dims p) (ps_hash p) (ps_nanos p ++ [n]))
          | None => Ok p
          end
      end
  end.

Fixpoint read_lines (p : Parsed) (ls : list string) : result string Parsed :=
  match ls with
  | [] => Ok p
  | line :: rest => p' ← read_line p line; read_lines p' rest
  end.

(** [spawned] is what running the binary came to. *)
Definition invoke_decoder (bin_path : string) (spawned : result string Finished) (iterations : Z)
  : result string DecodeResult :=
  output ← map_err (λ e, "spawning " +:+ debug bin_path +:+ ": " +:+ e) spawned;
  _ ← map_err (λ status,
        debug bin_path +:+ " exited with " +:+ status +:+ ": " +:+ from_utf8_lossy (out_stderr output))
        (exit_status output);
  p ← read_lines (mk_Parsed None None []) (lines (from_utf8_lossy (out_stdout output)));
  dims ← ok_or (ps_dims p) (debug bin_path +:+ ": no DIMS line in output");
  hash ← ok_or (ps_hash p) (debug bin_path +:+ ": no HASH line in output");
  if negb (Z.of_nat (length (ps_nanos p)) =? iterations)
  then Err (debug bin_path +:+ ": expected " +:+ uint_to_string iterations +:+ " ITER lines, got "
            +:+ uint_to_string (Z.of_nat (length (ps_nanos p))))
  else Ok (mk_DecodeResult dims hash (ps_nanos p)).

(** What is kept of a side's rounds: the dimensions and the hash of the first
    ([get_or_insert]), the times of all. *)
Definition accumulate (kept : option DecodeResult) (r : DecodeResult) : DecodeResult :=
  match kept with
  | None => r
  | Some k => mk_DecodeResult (dr_dims k) (dr_hash k) (dr_nanos k ++ dr_nanos r)
  end.

(** [asm] and [noasm] give what the two binaries come to in each round. *)
Fixpoint alternate (rounds round : nat) (asm_bin noasm_bin : string)
    (asm noasm : nat → result string Finished) (a n : option DecodeResult)
  : result Stop (DecodeResult * DecodeResult) :=
  match rounds with
  | O =>
      match a, n with
      | Some a, Some n => Ok (a, n)
      | _, _ => Err Panics
      end
  | S rounds' =>
      let failed side e := Fails ("round " +:+ uint_to_string (Z.of_nat round) +:+ ", " +:+ side +:+ ": " +:+ e) in
      ra ← map_err (failed "asm-on") (invoke_decoder asm_bin (asm round) ITERS_PER_ROUND);
      rn ← map_err (failed "asm-off") (invoke_decoder noasm_bin (noasm round) ITERS_PER_ROUND);
      alternate rounds' (S round) asm_bin noasm_bin asm noasm
        (Some (accumulate a ra)) (Some (accumulate n rn))
  end.

Definition run_decoder_alternating (asm_bin noasm_bin : string) (asm noasm : nat → result string Finished)
  : result Stop (DecodeResult * DecodeResult) :=
  alternate ROUNDS 0 asm_bin noasm_bin asm noasm None None.

(** An index out of range panics; the sum of two [u128]s wraps in the release
    build. *)
Definition median_ms (nanos : list Z) : result Stop spec_float :=
  let sorted := merge_sort Z.le nanos in
  let mid := (length sorted / 2)%nat in
  median_ns ←
    (if Nat.even (length sorted) then
       if Nat.eqb mid 0 then Err Panics
       else
         x ← ok_or (sorted !! (mid - 1)%nat) Panics;
         y ← ok_or (sorted !! mid) Panics;
         Ok (f64_div (f64_of_uint ((x + y) mod 2 ^ 128)) (f64_of_uint 2))
     else
       x ← ok_or (sorted !! mid) Panics;
       Ok (f64_of_uint x));
  Ok (f64_div median_ns (f64_of_uint 1000000)).

(** [Path::join] with a relative path. *)
Definition path_join (dir p : string) : string :=
  match str_rev dir with
  | EmptyString => p
  | String c _ => if Ascii.eqb c "/" then dir +:+ p else dir +:+ "/" +:+ p
  end.

Definition release_binary (windows : bool) (crate_dir bin_name : string) : string :=
  let exe := if windows then bin_name +:+ ".exe" else bin_name in
  path_join (path_join (path_join crate_dir "target") "release") exe.

Definition build_release (crate_dir : string) (status : result string (result string unit)) : result string unit :=
  status ← map_err (λ e, "spawning cargo build in " +:+ debug crate_dir +:+ ": " +:+ e) status;
  map_err (λ s, "cargo build failed in " +:+ debug crate_dir +:+ ": " +:+ s) status.

Fixpoint find_map {A B} (f : A → option B) (l : list A) : option B :=
  match l with
  | [] => None
  | x :: rest => match f x with Some y => Some y | None => find_map f rest end
  end.

(** From the output of [rustc -vV]. *)
Definition host_target_triple (rustc : result string Finished) : result string string :=
  output ← map_err (λ e, "running rustc -vV: " +:+ e) rustc;
  ok_or (find_map (strip_prefix "host: ") (lines (from_utf8_lossy (out_stdout output))))
    "rustc -vV output had no `host:` line".

(** The bytes of the character at the front, from its first. *)
Definition utf8_len (a : ascii) : nat :=
  let c := code a in
  if c <? 128 then 1 else if c <? 224 then 2 else if c <? 240 then 3 else 4.

Definition is_alphanumeric (ch : string) : bool :=
  match ch with
  | String a EmptyString =>
      is_ascii_digit a || ((97 <=? code (ascii_to_lower a)) && (code (ascii_to_lower a) <=? 122))
  | _ => alphanumeric_beyond_ascii ch
  end.

(** [line.trim_start_matches(|c| !c.is_alphanumeric() && c != QUOTE)] with the
    double quote. *)
Fixpoint trim_drawing (fuel : nat) (line : string) : string :=
  match fuel, line with
  | S fuel', String a _ =>
      let n := utf8_len a in
      let ch := String.substring 0 n line in
      if is_alphanumeric ch || Ascii.eqb a quote_char then line
      else trim_drawing fuel' (String.substring n (String.length line - n) line)
  | _, _ => line
  end.

Definition ASM_FEATURE : string :=
  "rav1d feature " +:+ String quote_char ("asm" +:+ String quote_char EmptyString).

(** From the output of [cargo tree]. *)
Definition asm_feature_enabled (crate_dir target_triple : string) (cargo_tree : result string Finished)
  : result string bool :=
  output ← map_err (λ e, "running cargo tree in " +:+ debug crate_dir +:+ ": " +:+ e) cargo_tree;
  _ ← map_err (λ _, "cargo tree failed in " +:+ debug crate_dir +:+ ": "
                    +:+ from_utf8_lossy (out_stderr output)) (exit_status output);
  let stdout := from_utf8_lossy (out_stdout output) in
  if negb (List.existsb (contains_str "rav1d") (lines stdout))
  then Err ("cargo tree in " +:+ debug crate_dir +:+ " produced no `rav1d` line for target "
            +:+ target_triple +:+ ", so the asm feature cannot be determined. Output was:" +:+ line_end
            +:+ stdout)
  else Ok (List.existsb (λ line, String.eqb (trim_drawing (String.length line) line) ASM_FEATURE) (lines stdout)).

(** ** The whole run *)

(** What the run meets outside: the tools, the file system, the image crates,
    and what a binary comes to on a file in a round.  [Src] is a decoded
    source. *)
Record Workbench (Src : Type) := mk_Workbench {
  wb_manifest_dir : string;
  wb_windows : bool;
  wb_rustc : result string Finished;
  wb_cargo_tree : string → result string Finished;
  wb_cargo_build : string → result string (result string unit);
  wb_temp_dir : string;
  wb_create_temp_dir : result string unit;
  wb_read : string → result string (list byte);
  wb_load : list byte → result string Src;
  wb_encode : Src → Z → result string (list byte);
  wb_write : string → list byte → result string unit;
  wb_spawn : string → string → nat → result string Finished;
  wb_write_markdown : string → result string unit;
}.
#[global] Arguments wb_manifest_dir {Src} _.
#[global] Arguments wb_windows {Src} _.
#[global] Arguments wb_rustc {Src} _.
#[global] Arguments wb_cargo_tree {Src} _ _.
#[global] Arguments wb_cargo_build {Src} _ _.
#[global] Arguments wb_temp_dir {Src} _.
#[global] Arguments wb_create_temp_dir {Src} _.
#[global] Arguments wb_read {Src} _ _.
#[global] Arguments wb_load {Src} _ _.
#[global] Arguments wb_encode {Src} _ _ _.
#[global] Arguments wb_write {Src} _ _ _.
#[global] Arguments wb_spawn {Src} _ _ _ _.
#[global] Arguments wb_write_markdown {Src} _ _.

Record Row := mk_Row {
  row_fixture : string;
  row_quality : Z;
  row_asm_ms : spec_float;
  row_noasm_ms : spec_float;
  row_ratio : spec_float;
}.

(** The loop over the arguments: the positional ones and the last
    [--markdown-out]. *)
Fixpoint parse_args (args positional : list string) (markdown_out : option string)
  : result string (list string * option string) :=
  match args with
  | [] => Ok (positional, markdown_out)
  | arg :: rest =>
      if String.eqb arg "--markdown-out" then
        match rest with
        | [] => Err "--markdown-out requires a path argument"
        | path :: rest => parse_args rest positional (Some path)
        end
      else parse_args rest (positional ++ [arg]) markdown_out
  end.

Definition dims_debug (d : Z * Z) : string :=
  "(" +:+ uint_to_string d.1 +:+ ", " +:+ uint_to_string d.2 +:+ ")".

Definition same_pixels (a n : DecodeResult) : bool :=
  bool_decide (dr_dims a = dr_dims n) && String.eqb (dr_hash a) (dr_hash n).

Definition measure {Src} (wb : Workbench Src) (asm_bin noasm_bin avif_path name : string) (quality : Z)
  : result Stop Row :=
  '(a, n) ← run_decoder_alternating asm_bin noasm_bin (wb_spawn wb asm_bin avif_path)
              (wb_spawn wb noasm_bin avif_path);
  if negb (same_pixels a n)
  then Err (Fails (name +:+ " @ quality " +:+ uint_to_string quality
         +:+ ": decoders disagree - asm-on dims=" +:+ dims_debug (dr_dims a) +:+ " hash=" +:+ dr_hash a
         +:+ ", asm-off dims=" +:+ dims_debug (dr_dims n) +:+ " hash=" +:+ dr_hash n
         +:+ " - a speed comparison between decoders that disagree is meaningless, refusing to report timings"))
  else
    asm_median ← median_ms (dr_nanos a);
    noasm_median ← median_ms (dr_nanos n);
    Ok (mk_Row name quality asm_median noasm_median (f64_div noasm_median asm_median)).

Definition fails {A} : result string A → result Stop A := map_err Fails.

(** One fixture at one quality. *)
Definition compare_at {Src} (wb : Workbench Src) (asm_bin noasm_bin tmp_dir : string) (fixture : Fixture)
    (image : Src) (quality : Z) : result Stop Row :=
  avif_bytes ← fails (map_err (λ e, "ravif encode failed: " +:+ e) (wb_encode wb image quality));
  let avif_path :=
    path_join tmp_dir (fixture_name fixture +:+ "-q" +:+ uint_to_string quality +:+ ".avif") in
  _ ← fails (map_err (λ e, "writing " +:+ debug avif_path +:+ ": " +:+ e) (wb_write wb avif_path avif_bytes));
  measure wb asm_bin noasm_bin avif_path (fixture_name fixture) quality.

Definition compare_fixture {Src} (wb : Workbench Src) (asm_bin noasm_bin tmp_dir repo_root : string)
    (fixture : Fixture) : result Stop (list Row) :=
  let jpg_path := path_join repo_root (relative_path fixture) in
  jpg_bytes ← fails (map_err (λ e, "reading fixture " +:+ debug jpg_path +:+ ": " +:+ e) (wb_read wb jpg_path));
  image ← fails (map_err (λ e, "decoding fixture " +:+ debug jpg_path +:+ " as JPEG: " +:+ e)
                  (wb_load wb jpg_bytes));
  mapM (compare_at wb asm_bin noasm_bin tmp_dir fixture image) QUALITIES.

(** The rows and their mean ratio, or why there are none; removing the
    temporary directory may fail unnoticed. *)
Definition bench_run {Src} (wb : Workbench Src) (args : list string) : result Stop (list Row * spec_float) :=
  '(positional, markdown_out) ← fails (parse_args args [] None);
  let repo_root := default "." (head positional) in
  target_triple ← fails (host_target_triple (wb_rustc wb));
  let asm_dir := path_join (wb_manifest_dir wb) (crate_dir ASM) in
  let noasm_dir := path_join (wb_manifest_dir wb) (crate_dir NOASM) in
  asm_has_asm ← fails (asm_feature_enabled asm_dir target_triple (wb_cargo_tree wb asm_dir));
  noasm_has_asm ← fails (asm_feature_enabled noasm_dir target_triple (wb_cargo_tree wb noasm_dir));
  if (noasm_has_asm : bool)
  then Err (Fails ("BUG: " +:+ target_triple +:+ "'s no-asm side (" +:+ crate_dir NOASM
         +:+ ") resolved rav1d's `asm` feature as enabled - the comparison would be meaningless. Refusing to run."))
  else
    _ ← fails (build_release asm_dir (wb_cargo_build wb asm_dir));
    _ ← fails (build_release noasm_dir (wb_cargo_build wb noasm_dir));
    let asm_bin := release_binary (wb_windows wb) asm_dir (bin_name ASM) in
    let noasm_bin := release_binary (wb_windows wb) noasm_dir (bin_name NOASM) in
    _ ← fails (map_err (λ e, "creating " +:+ debug (wb_temp_dir wb) +:+ ": " +:+ e) (wb_create_temp_dir wb));
    rows ← mapM (compare_fixture wb asm_bin noasm_bin (wb_temp_dir wb) repo_root) BENCH_FIXTURES;
    let rows := concat rows in
    let mean_ratio := f64_div (sum_floats (row_ratio <$> rows)) (f64_of_uint (Z.of_nat (length rows))) in
    _ ← match markdown_out with
        | Some path => fails (map_err (λ e, "writing " +:+ debug path +:+ ": " +:+ e) (wb_write_markdown wb path))
        | None => Ok ()
        end;
    Ok (rows, mean_ratio).
End Orchestrator.

(** ** Properties: the protocol between the programs *)

Lemma is_hex_graphic a : is_hex a = true → is_graphic a = true.
Proof.
  unfold is_hex. rewrite orb_true_iff. intros [H|H]; [by apply digit_graphic|].
  cbn in H. repeat (apply orb_true_iff in H as [H|H]; [by apply Ascii.eqb_eq in H as ->|]). done.
Qed.

Lemma uint_graphic n : 0 ≤ n → str_forall is_graphic (uint_to_string n) = true.
Proof. intros. by apply digits_graphic, uint_to_string_digits. Qed.

Lemma uint_nonempty n : 0 ≤ n → uint_to_string n ≠ EmptyString.
Proof. intros Hn E. destruct (uint_to_string_head n Hn) as (d & s & _ & H). by rewrite H in E. Qed.

Lemma hex16_graphic h : str_forall is_graphic (hex16 h) = true.
Proof. eapply str_forall_impl; [apply is_hex_graphic|apply lower_hex_chars]. Qed.

(** Printable ASCII, spaces included. *)
Definition printable (s : string) : Prop := str_forall (λ a, (32 <=? code a) && (code a <? 127)) s = true.

Lemma printable_app s t : printable s → printable t → printable (s +:+ t).
Proof. unfold printable. rewrite str_forall_app, andb_true_iff. done. Qed.

Lemma graphic_printable s : str_forall is_graphic s = true → printable s.
Proof.
  apply str_forall_impl. intros a. unfold is_graphic. rewrite !andb_true_iff, !Z.leb_le, Z.ltb_lt. lia.
Qed.

Lemma lines_println line rest : printable line → lines (println line +:+ rest) = line :: lines rest.
Proof.
  intros H. unfold println. rewrite str_app_assoc.
  apply lines_cons; (eapply str_forall_not_contains; [|exact H]); done.
Qed.

Lemma lossy_println line rest :
  printable line → from_utf8_lossy (println line +:+ rest) = println line +:+ from_utf8_lossy rest.
Proof.
  intros H. apply from_utf8_lossy_ascii. unfold println. rewrite str_forall_app, andb_true_iff. split; [|done].
  eapply str_forall_impl; [|exact H]. intros a Ha. apply andb_true_iff in Ha as [_ Ha].
  apply Z.ltb_lt in Ha. apply Z.ltb_lt. lia.
Qed.

Lemma dims_line w h : 0 ≤ w → 0 ≤ h → printable ("DIMS " +:+ uint_to_string w +:+ " " +:+ uint_to_string h).
Proof. intros. repeat apply printable_app; try done; by apply graphic_printable, uint_graphic. Qed.

Lemma hash_line h : printable ("HASH " +:+ hex16 h).
Proof. apply printable_app; [done|]. apply graphic_printable, hex16_graphic. Qed.

Lemma iter_line n : 0 ≤ n → printable ("ITER " +:+ uint_to_string n).
Proof. intros. apply printable_app; [done|]. by apply graphic_printable, uint_graphic. Qed.

Section Protocol.
Context (debug : string → string).

Lemma read_dims p w h :
  in_uint u32_max w → in_uint u32_max h →
  read_line debug p ("DIMS " +:+ uint_to_string w +:+ " " +:+ uint_to_string h)
  = Ok (mk_Parsed (Some (w, h)) (ps_hash p) (ps_nanos p)).
Proof.
  intros Hw Hh. unfold read_line. rewrite strip_prefix_app.
  rewrite split_whitespace_two
    by (apply uint_graphic, Hw || apply uint_graphic, Hh || apply uint_nonempty, Hw || apply uint_nonempty, Hh).
  cbn [head lookup list_lookup mbind option_bind]. unfold parse_u32. by rewrite !parse_uint_to_string.
Qed.

Lemma read_hash p h :
  read_line debug p ("HASH " +:+ hex16 h) = Ok (mk_Parsed (ps_dims p) (Some (hex16 h)) (ps_nanos p)).
Proof.
  unfold read_line. rewrite strip_prefix_app. cbn [strip_prefix String.append].
  change (strip_prefix "DIMS " (String "H" _)) with (None (A := string)). cbv iota.
  by rewrite trim_graphic_all by apply hex16_graphic.
Qed.

Lemma read_iter p n :
  in_uint u128_max n →
  read_line debug p ("ITER " +:+ uint_to_string n) = Ok (mk_Parsed (ps_dims p) (ps_hash p) (ps_nanos p ++ [n])).
Proof.
  intros Hn. unfold read_line. rewrite strip_prefix_app.
  assert (∀ s, strip_prefix "DIMS " ("ITER " +:+ s) = None ∧ strip_prefix "HASH " ("ITER " +:+ s) = None)
    as Hno by done.
  destruct (Hno (uint_to_string n)) as [-> ->].
  rewrite trim_digits by apply uint_to_string_digits, Hn. by rewrite parse_uint_to_string.
Qed.

Definition iter_lines (nanos : list Z) : string := fold_right (λ n s, report_iter n +:+ s) EmptyString nanos.

Lemma lossy_iters nanos : Forall (in_uint u128_max) nanos → from_utf8_lossy (iter_lines nanos) = iter_lines nanos.
Proof.
  induction 1 as [|n nanos [Hn _] _ IH]; [done|]. cbn [iter_lines fold_right]. unfold report_iter.
  rewrite lossy_println by by apply iter_line. by f_equal.
Qed.

Lemma read_iters p nanos :
  Forall (in_uint u128_max) nanos →
  read_lines debug p (lines (iter_lines nanos)) = Ok (mk_Parsed (ps_dims p) (ps_hash p) (ps_nanos p ++ nanos)).
Proof.
  intros H. revert p. induction H as [|n nanos Hn _ IH]; intros p.
  - rewrite app_nil_r. by destruct p.
  - cbn [iter_lines fold_right]. unfold report_iter. rewrite lines_println by apply iter_line, Hn.
    cbn [read_lines]. rewrite read_iter by done. cbn [mbind result_bind]. rewrite IH. cbn [ps_dims ps_hash ps_nanos].
    by rewrite <- (assoc_L (++)).
Qed.

(** What a decoder prints reads back. *)
Lemma read_report flat w h nanos :
  in_uint u32_max w → in_uint u32_max h → Forall (in_uint u128_max) nanos →
  read_lines debug (mk_Parsed None None []) (lines (from_utf8_lossy (report_head flat w h +:+ iter_lines nanos)))
  = Ok (mk_Parsed (Some (w, h)) (Some (hex16 (fnv1a_64 flat))) nanos).
Proof.
  intros Hw Hh Hn. unfold report_head. rewrite str_app_assoc.
  assert (printable ("DIMS " +:+ uint_to_string w +:+ " " +:+ uint_to_string h)) as Hd by (apply dims_line; [apply Hw|apply Hh]).
  rewrite !lossy_println by done || apply hash_line. rewrite lossy_iters by done.
  rewrite !lines_println by done || apply hash_line. cbn [read_lines].
  rewrite read_dims by done. cbn [mbind result_bind]. rewrite read_hash. cbn [mbind result_bind].
  by rewrite read_iters.
Qed.

Section Decodes.
Context {Dec : Type} (from_avif : nat → list byte → result string Dec)
  (to_image : nat → Dec → result string AvifImage) (elapsed : nat → Z)
  (read_file : string → result string (list byte)).
Abbreviation decode_nth := (decode_nth from_avif to_image).
Hypothesis clock : ∀ i, in_uint u128_max (elapsed i).

Lemma time_decodes_all n i path bytes :
  time_decodes from_avif to_image elapsed n i path bytes =
  (_ ← mapM (λ j, decode_nth j path bytes) (seq i n); Ok (elapsed <$> seq i n)).
Proof.
  revert i. induction n as [|n IH]; intros i; [done|]. cbn [time_decodes seq]. rewrite IH. cbn.
  destruct (decode_nth i path bytes); [|done]. cbn. by destruct (mapM _ _).
Qed.

(** C37. The orchestrator reads from a decoder what the decoder measured: the
    dimensions and the hash of the image, and a time for each iteration asked
    for; and if any of the decodes fails it gets that error, never a number. *)
Theorem invoke_decoder_reads bin_path name path bytes iterations :
  in_uint usize_max iterations → read_file path = Ok bytes →
  let spawned := decoder_main from_avif to_image elapsed read_file name [path; uint_to_string iterations] in
  match mapM (λ i, decode_nth i path bytes) (seq 0 (S (Z.to_nat iterations))) with
  | Err e =>
      invoke_decoder debug bin_path (Ok spawned) iterations =
      Err (debug bin_path +:+ " exited with exit status: 1: "
           +:+ from_utf8_lossy (println (name +:+ ": " +:+ e)))
  | Ok images =>
      ∃ image, head images = Some image
      ∧ ∀ flat w h, flatten image = (flat, w, h) → in_uint u32_max w → in_uint u32_max h →
        invoke_decoder debug bin_path (Ok spawned) iterations =
        Ok (mk_DecodeResult (w, h) (hex16 (fnv1a_64 flat)) (elapsed <$> seq 1 (Z.to_nat iterations)))
  end.
Proof.
  intros Hn Hread. unfold decoder_main, decoder_run.
  cbn [head lookup list_lookup ok_or mbind result_bind].
  rewrite parse_uint_to_string by done. cbn [ok_or mbind result_bind]. rewrite Hread.
  cbn [map_err mbind result_bind seq mapM]. destruct (decode_nth 0 path bytes) as [image|e]; [|done].
  cbn [mbind result_bind]. destruct (flatten image) as [[flat w] h] eqn:Hflat.
  rewrite time_decodes_all. destruct (mapM _ _) as [images|e]; [|done]. cbn [mbind result_bind mret result_ret].
  exists image. split; [done|]. rewrite Hflat. intros ? ? ? [= <- <- <-] Hw Hh. unfold invoke_decoder.
  cbn [map_err mbind result_bind exit_status out_stdout].
  fold (iter_lines (elapsed <$> seq 1 (Z.to_nat iterations))).
  rewrite read_report by (done || apply Forall_fmap, Forall_true; intros; apply clock).
  cbn [mbind result_bind ps_dims ps_hash ps_nanos ok_or].
  rewrite length_fmap, length_seq, Z2Nat.id by apply Hn. by rewrite Z.eqb_refl.
Qed.
End Decodes.
End Protocol.

(** ** Properties: the rounds *)

Section Rounds.
Context (debug : string → string) (asm_bin noasm_bin : string).
Context (asm noasm : nat → result string Finished).

Lemma invoke_decoder_length bin spawned n r :
  invoke_decoder debug bin spawned n = Ok r → Z.of_nat (length (dr_nanos r)) = n.
Proof.
  unfold invoke_decoder. intros H.
  apply bind_Ok in H as (output & _ & H). apply bind_Ok in H as (_ & _ & H).
  apply bind_Ok in H as (p & _ & H). apply bind_Ok in H as (dims & _ & H). apply bind_Ok in H as (hash & _ & H).
  destruct (Z.eqb_spec (Z.of_nat (length (ps_nanos p))) n) as [<-|]; [|done]. by injection H as <-.
Qed.

(** Every round went through, and [r] is what the side gave in it. *)
Definition played_out (bin : string) (side : nat → result string Finished) (r : nat → DecodeResult)
    (round rounds : nat) : Prop :=
  ∀ i, (round ≤ i < round + rounds)%nat → invoke_decoder debug bin (side i) ITERS_PER_ROUND = Ok (r i).

Definition kept_after (kept : option DecodeResult) (r : nat → DecodeResult) (round rounds : nat)
  : option DecodeResult :=
  fold_left (λ k i, Some (accumulate k (r i))) (seq round rounds) kept.

Lemma kept_after_S kept r round rounds :
  kept_after kept r round (S rounds) = kept_after (Some (accumulate kept (r round))) r (S round) rounds.
Proof. done. Qed.

Lemma kept_after_ext kept r r' round rounds :
  (∀ i, (round ≤ i)%nat → r i = r' i) → kept_after kept r round rounds = kept_after kept r' round rounds.
Proof.
  revert round kept. induction rounds as [|rounds IH]; intros round kept Hr; [done|].
  rewrite !kept_after_S, Hr by lia. apply IH. intros i Hi. apply Hr. lia.
Qed.

Lemma alternate_Ok rounds round ka kn a n :
  alternate debug rounds round asm_bin noasm_bin asm noasm ka kn = Ok (a, n) ↔
  ∃ ra rn, played_out asm_bin asm ra round rounds ∧ played_out noasm_bin noasm rn round rounds
    ∧ kept_after ka ra round rounds = Some a ∧ kept_after kn rn round rounds = Some n.
Proof.
  revert round ka kn. induction rounds as [|rounds IH]; intros round ka kn; cbn [alternate].
  - split.
    + intros H. destruct ka as [ka|], kn as [kn|]; try done. injection H as -> ->.
      exists (λ _, a), (λ _, a). split_and!; [intros i; lia..|done|done].
    + intros (ra & rn & _ & _ & Ha & Hn). cbn in Ha, Hn. by subst.
  - split.
    + intros H. apply bind_Ok in H as (x & Hx & H). apply bind_Ok in H as (y & Hy & H).
      apply map_err_Ok in Hx, Hy. apply IH in H as (ra & rn & Ha & Hn & Eka & Ekn).
      exists (λ i, if Nat.eqb i round then x else ra i), (λ i, if Nat.eqb i round then y else rn i).
      rewrite !kept_after_S. cbn. rewrite Nat.eqb_refl.
      assert (∀ k z r, kept_after k (λ i, if Nat.eqb i round then z else r i) (S round) rounds
                       = kept_after k r (S round) rounds) as Hskip.
      { intros k z r. apply kept_after_ext. intros i Hi. by destruct (Nat.eqb_spec i round); [lia|]. }
      rewrite !Hskip. split_and!; [..|done|done]; intros i Hi; destruct (Nat.eqb_spec i round) as [->|];
        done || (apply Ha; lia) || (apply Hn; lia).
    + intros (ra & rn & Ha & Hn & Eka & Ekn). rewrite (Ha round), (Hn round) by lia. cbn [map_err mbind result_bind].
      apply IH. exists ra, rn. split_and!; [intros i Hi; apply Ha; lia|intros i Hi; apply Hn; lia|done|done].
Qed.
End Rounds.

Lemma kept_after_Some k r round rounds :
  kept_after (Some k) r round rounds =
  Some (mk_DecodeResult (dr_dims k) (dr_hash k) (dr_nanos k ++ concat (dr_nanos ∘ r <$> seq round rounds))).
Proof.
  revert k round. induction rounds as [|rounds IH]; intros k round.
  - cbn. rewrite app_nil_r. by destruct k.
  - rewrite kept_after_S, IH. cbn. by rewrite <- (assoc_L (++)).
Qed.

Lemma kept_after_first r rounds :
  kept_after None r 0 (S rounds) =
  Some (mk_DecodeResult (dr_dims (r 0%nat)) (dr_hash (r 0%nat)) (concat (dr_nanos ∘ r <$> seq 0 (S rounds)))).
Proof. rewrite kept_after_S, kept_after_Some. done. Qed.

Lemma run_decoder_alternating_Ok debug asm_bin noasm_bin asm noasm a n :
  run_decoder_alternating debug asm_bin noasm_bin asm noasm = Ok (a, n) ↔
  ∃ ra rn, played_out debug asm_bin asm ra 0 ROUNDS ∧ played_out debug noasm_bin noasm rn 0 ROUNDS
    ∧ a = mk_DecodeResult (dr_dims (ra 0%nat)) (dr_hash (ra 0%nat)) (concat (dr_nanos ∘ ra <$> seq 0 ROUNDS))
    ∧ n = mk_DecodeResult (dr_dims (rn 0%nat)) (dr_hash (rn 0%nat)) (concat (dr_nanos ∘ rn <$> seq 0 ROUNDS)).
Proof.
  unfold run_decoder_alternating. rewrite alternate_Ok. unfold ROUNDS.
  split; intros (ra & rn & Ha & Hn & Ea & En); exists ra, rn.
  - rewrite kept_after_first in Ea, En. injection Ea as <-. injection En as <-. done.
  - rewrite !kept_after_first, Ea, En. done.
Qed.

(** Only the first round's pixels count: whatever the later rounds decode to,
    the sides agree when they agreed in the first. *)
Theorem later_rounds_unchecked debug asm_bin noasm_bin asm noasm ra rn :
  played_out debug asm_bin asm ra 0 ROUNDS → played_out debug noasm_bin noasm rn 0 ROUNDS →
  ∃ a n, run_decoder_alternating debug asm_bin noasm_bin asm noasm = Ok (a, n)
    ∧ same_pixels a n = same_pixels (ra 0%nat) (rn 0%nat)
    ∧ dr_nanos a = concat (dr_nanos ∘ ra <$> seq 0 ROUNDS) ∧ dr_nanos n = concat (dr_nanos ∘ rn <$> seq 0 ROUNDS).
Proof.
  intros Ha Hn. do 2 eexists. split; [apply run_decoder_alternating_Ok; by exists ra, rn|]. done.
Qed.

Lemma played_out_samples debug bin side r rounds :
  played_out debug bin side r 0 rounds →
  Z.of_nat (length (concat (dr_nanos ∘ r <$> seq 0 rounds))) = Z.of_nat rounds * ITERS_PER_ROUND.
Proof.
  induction rounds as [|rounds IH]; intros H; [done|].
  rewrite seq_S, fmap_app, concat_app, length_app, Nat2Z.inj_add. rewrite IH by (intros i Hi; apply H; lia).
  pose proof (invoke_decoder_length _ _ _ _ _ (H rounds ltac:(lia))) as Hlast.
  unfold ITERS_PER_ROUND in *. cbn. rewrite app_nil_r. lia.
Qed.

(** ** Properties: the whole run *)

Section Run.
Context (debug : string → string) (alphanumeric_beyond_ascii : string → bool) {Src : Type} (wb : Workbench Src).

Definition binary (side : DecoderSide) : string :=
  release_binary (wb_windows wb) (path_join (wb_manifest_dir wb) (crate_dir side)) (bin_name side).

(** What stands behind a row: both sides decoded the same file in every round,
    to the same pixels in the first. *)
Definition measured (row : Row) : Prop :=
  ∃ avif_path a n,
    run_decoder_alternating debug (binary ASM) (binary NOASM) (wb_spawn wb (binary ASM) avif_path)
      (wb_spawn wb (binary NOASM) avif_path) = Ok (a, n)
    ∧ dr_dims a = dr_dims n ∧ dr_hash a = dr_hash n
    ∧ length (dr_nanos a) = 30%nat ∧ length (dr_nanos n) = 30%nat
    ∧ median_ms (dr_nanos a) = Ok (row_asm_ms row) ∧ median_ms (dr_nanos n) = Ok (row_noasm_ms row)
    ∧ row_ratio row = f64_div (row_noasm_ms row) (row_asm_ms row).

Lemma measure_Ok avif_path name quality row :
  measure debug wb (binary ASM) (binary NOASM) avif_path name quality = Ok row →
  row_fixture row = name ∧ row_quality row = quality ∧ measured row.
Proof.
  unfold measure. intros H. apply bind_Ok in H as ([a n] & Hrun & H).
  destruct (same_pixels a n) eqn:Hsame; [|done]. cbn [negb] in H.
  apply bind_Ok in H as (x & Hx & H). apply bind_Ok in H as (y & Hy & H). injection H as <-.
  split_and!; [done..|]. exists avif_path, a, n.
  unfold same_pixels in Hsame. apply andb_true_iff in Hsame as [Hd%bool_decide_eq_true Hh%String.eqb_eq].
  pose proof (proj1 (run_decoder_alternating_Ok _ _ _ _ _ _ _) Hrun) as (ra & rn & Ha & Hn & Ea & En).
  apply played_out_samples in Ha, Hn.
  split_and!; [done..| | |done|done|done].
  - rewrite Ea. apply Nat2Z.inj. exact Ha.
  - rewrite En. apply Nat2Z.inj. exact Hn.
Qed.

Lemma mapM_Ok_Forall2 {E A B} (f : A → result E B) l k :
  mapM f l = Ok k → Forall2 (λ x y, f x = Ok y) l k.
Proof.
  revert k. induction l as [|x l IH]; intros k; [by intros [= <-]|]. cbn. intros H.
  apply bind_Ok in H as (y & Hy & H). apply bind_Ok in H as (k' & Hk & H). injection H as <-.
  constructor; [done|by apply IH].
Qed.

Lemma compare_fixture_Ok tmp_dir repo_root fixture rows :
  compare_fixture debug wb (binary ASM) (binary NOASM) tmp_dir repo_root fixture = Ok rows →
  Forall2 (λ quality row, row_fixture row = fixture_name fixture ∧ row_quality row = quality ∧ measured row)
    QUALITIES rows.
Proof.
  unfold compare_fixture. intros H. apply bind_Ok in H as (bs & _ & H). apply bind_Ok in H as (image & _ & H).
  apply mapM_Ok_Forall2 in H. eapply Forall2_impl; [exact H|]. intros quality row Hrow.
  apply bind_Ok in Hrow as (avif & _ & Hrow). apply bind_Ok in Hrow as (_ & _ & Hrow). by apply measure_Ok in Hrow.
Qed.

(** A report exists only when the side without assembly was found to be built
    without it, and when the sides agreed on the pixels of every file in the
    first round; it then has a row for each fixture and quality, in order, with
    the medians of thirty decodes a side. *)
Theorem bench_run_rows args rows mean_ratio :
  bench_run debug alphanumeric_beyond_ascii wb args = Ok (rows, mean_ratio) →
  (λ row, (row_fixture row, row_quality row)) <$> rows =
    [("blue-marble", 50); ("blue-marble", 80); ("earthrise", 50); ("earthrise", 80)]
  ∧ Forall measured rows
  ∧ mean_ratio = f64_div (sum_floats (row_ratio <$> rows)) (f64_of_uint 4)
  ∧ ∃ triple, host_target_triple (wb_rustc wb) = Ok triple
      ∧ let dir := path_join (wb_manifest_dir wb) (crate_dir NOASM) in
        asm_feature_enabled debug alphanumeric_beyond_ascii dir triple (wb_cargo_tree wb dir) = Ok false.
Proof.
  unfold bench_run. intros H. apply bind_Ok in H as ([positional markdown_out] & _ & H).
  apply bind_Ok in H as (triple & Htriple & H). apply bind_Ok in H as (asm_has_asm & _ & H).
  apply bind_Ok in H as (noasm_has_asm & Hno & H). destruct noasm_has_asm; [done|].
  apply bind_Ok in H as (_ & _ & H). apply bind_Ok in H as (_ & _ & H). apply bind_Ok in H as (_ & _ & H).
  apply bind_Ok in H as (per_fixture & Hrows & H). apply bind_Ok in H as (_ & _ & H). injection H as <- <-.
  apply map_err_Ok in Htriple, Hno. apply mapM_Ok_Forall2 in Hrows.
  apply Forall2_cons_inv_l in Hrows as (rows1 & rest & H1 & Hrows & ->).
  apply Forall2_cons_inv_l in Hrows as (rows2 & rest' & H2 & Hrows & ->).
  apply Forall2_nil_inv_l in Hrows as ->. apply compare_fixture_Ok in H1, H2. unfold QUALITIES in H1, H2.
  repeat match goal with
  | H : Forall2 _ (_ :: _) _ |- _ => inversion H; clear H; subst
  | H : Forall2 _ [] _ |- _ => inversion H; clear H; subst
  | H : _ ∧ _ |- _ => destruct H
  end.
  cbn in *. split_and!; [congruence|by repeat constructor|done|]. exists triple. done.
Qed.
End Run.

(** ** Instances *)

(** A decoder of grey images of one row, whose third decode fails when [broken]. *)
Definition row_decoder (broken : bool) (i : nat) (bs : list byte) : result string (list byte) :=
  if broken && Nat.eqb i 2 then Err "truncated" else Ok bs.

Definition row_image (_ : nat) (bs : list byte) : result string AvifImage :=
  Ok (AvifGray8 (byte_val <$> bs) (Z.of_nat (length bs)) 1).

Definition row_clock (i : nat) : Z := 250 * (Z.of_nat i mod 4).

Lemma row_clock_range i : in_uint u128_max (row_clock i).
Proof.
  unfold row_clock, in_uint. pose proof (Z.mod_pos_bound (Z.of_nat i) 4 ltac:(lia)).
  change u128_max with 340282366920938463463374607431768211455. lia.
Qed.

Definition row_main (broken : bool) (iterations : Z) : Finished :=
  decoder_asm (row_decoder broken) row_image row_clock (λ _, Ok [x07; x09])
    ["a.avif"; uint_to_string iterations].

Lemma invoke_decoder_reads_witness :
  invoke_decoder (λ s, s) "bin" (Ok (row_main false 3)) 3
    = Ok (mk_DecodeResult (2, 1) (hex16 (fnv1a_64 [x07; x09])) [250; 500; 750])
  ∧ invoke_decoder (λ s, s) "bin" (Ok (row_main true 3)) 3
    = Err ("bin exited with exit status: 1: decoder-asm: a.avif: from_avif: truncated" +:+ line_end).
Proof.
  split.
  - destruct (invoke_decoder_reads (λ s, s) (row_decoder false) row_image row_clock (λ _, Ok [x07; x09])
      row_clock_range "bin" "decoder-asm" "a.avif" [x07; x09] 3 ltac:(done) eq_refl) as (image & Himage & H).
    injection Himage as <-. exact (H _ _ _ eq_refl ltac:(done) ltac:(done)).
  - exact (invoke_decoder_reads (λ s, s) (row_decoder true) row_image row_clock (λ _, Ok [x07; x09])
      row_clock_range "bin" "decoder-asm" "a.avif" [x07; x09] 3 ltac:(done) eq_refl).
Defined.

Definition printing (text : string) : Finished := mk_Finished (Ok ()) text EmptyString.

Definition example_bench : Workbench unit := {|
  wb_manifest_dir := "/bench";
  wb_windows := false;
  wb_rustc := Ok (printing (println "rustc 1.90.0" +:+ println "host: x86_64-unknown-linux-gnu"));
  wb_cargo_tree := λ dir,
    Ok (printing (println "rav1d v1.1.0"
                  +:+ if String.eqb dir "/bench/decoder-asm" then println ("|-- " +:+ ASM_FEATURE) else EmptyString));
  wb_cargo_build := λ _, Ok (Ok ());
  wb_temp_dir := "/tmp/avif-asm-bench-1";
  wb_create_temp_dir := Ok ();
  wb_read := λ _, Ok [];
  wb_load := λ _, Ok ();
  wb_encode := λ _ _, Ok [x07; x09];
  wb_write := λ _ _, Ok ();
  wb_spawn := λ _ _ _, Ok (row_main false 5);
  wb_write_markdown := λ _, Ok ();
|}.

Lemma bench_run_rows_witness :
  ∃ rows mean, bench_run (λ s, s) (λ _, false) example_bench ["."] = Ok (rows, mean) ∧ length rows = 4%nat.
Proof.
  destruct (bench_run (λ s, s) (λ _, false) example_bench ["."]) as [[rows mean]|e] eqn:Hrun;
    [|vm_compute in Hrun; discriminate Hrun].
  exists rows, mean. split; [reflexivity|].
  destruct (bench_run_rows (λ s, s) (λ _, false) example_bench ["."] rows mean Hrun) as (Hrows & _).
  apply (f_equal length) in Hrows. by rewrite length_fmap in Hrows.
Defined.

(** A decoder whose pixels change after the first round, against one that is
    steady. *)
Definition drifting (round : nat) : result string Finished :=
  Ok (decoder_asm (row_decoder false) row_image row_clock (λ _, Ok (if Nat.eqb round 0 then [x07] else [x08]))
        ["a.avif"; "5"]).

Definition steady (_ : nat) : result string Finished := drifting 0.

Definition result_of (r : result string DecodeResult) : DecodeResult :=
  default (mk_DecodeResult (0, 0) EmptyString []) (ok r).

Lemma later_rounds_unchecked_witness :
  ∃ a n, run_decoder_alternating (λ s, s) "asm" "noasm" drifting steady = Ok (a, n) ∧ same_pixels a n = true
    ∧ same_pixels (result_of (invoke_decoder (λ s, s) "asm" (drifting 1) 5))
        (result_of (invoke_decoder (λ s, s) "noasm" (steady 1) 5)) = false.
Proof.
  destruct (later_rounds_unchecked (λ s, s) "asm" "noasm" drifting steady
    (λ i, result_of (invoke_decoder (λ s, s) "asm" (drifting i) 5))
    (λ i, result_of (invoke_decoder (λ s, s) "noasm" (steady i) 5))) as (a & n & Hrun & Hsame & _).
  - intros i Hi. unfold ROUNDS in Hi. do 6 (destruct i as [|i]; [vm_compute; reflexivity|]). lia.
  - intros i Hi. unfold ROUNDS in Hi. do 6 (destruct i as [|i]; [vm_compute; reflexivity|]). lia.
  - exists a, n. split; [exact Hrun|]. split; [rewrite Hsame|]; vm_compute; reflexivity.
Defined.
