(* ===== verification/CodecReport.v ===== *)
(** * The codec report: [examples/codec_report.rs]

The search for the lowest quality whose decoded result is close enough to its
source, the rows of the report, and the names under which the encoded files
are written by one run and decoded by another.  The perceptual metric, the
clock and the file system are parameters; the encoders and decoders are those
of [Codecs.v]. *)
From stdpp Require Import sorting.
From S2P Require Import Prelude RustStr RustFloat FloatError Samples Params AvifMeta Errors Raster Sniff Images Codecs Pipeline.

Local Open Scope Z_scope.

(** The targets, as text and as numbers. *)
Definition TARGETS : list string := ["0.015"; "0.008"; "0.0035"].

Definition AVIF_SPEED : Z := 6.
Definition DECODE_MP_CAP : Z := 50.
Definition FORMATS : list string := ["jpeg"; "jpegprog"; "webp"; "avif"].

(** ** The search

[None] is a panic of [trial], which encodes at a quality, decodes the result
and measures its distance. *)
Section Search.
Context {B : Type} (trial : Z → option (B * spec_float)) (target : spec_float).

(** The loop [while lo <= hi] on [u8] variables. *)
Fixpoint bisect (fuel : nat) (lo hi : Z) (best : option (Z * B * spec_float))
  : option (option (Z * B * spec_float)) :=
  match fuel with
  | O => None
  | S fuel' =>
      if lo <=? hi then
        let mid := lo + (hi - lo) / 2 in
        '(bytes, d) ← trial mid;
        if f_le d target then
          if mid =? 1 then Some (Some (mid, bytes, d))
          else bisect fuel' lo (mid - 1) (Some (mid, bytes, d))
        else bisect fuel' (mid + 1) hi best
      else Some best
  end.

(** Seven rounds halve the hundred qualities away; the eighth sees the end. *)
Definition lowest_quality : option (option (Z * B * spec_float)) := bisect 8 1 100 None.
End Search.

(** ** Names *)

(** [str::split] by a string that is not empty: [skip] characters are left of
    the separator just found. *)
Fixpoint split_str (sep : string) (skip : nat) (s : string) : list string :=
  match s with
  | EmptyString => [EmptyString]
  | String a rest =>
      match skip with
      | S skip' => split_str sep skip' rest
      | O =>
          if starts_with sep s then EmptyString :: split_str sep (String.length sep - 1) rest
          else match split_str sep 0 rest with
               | x :: l => String a x :: l
               | [] => [String a EmptyString]
               end
      end
  end.

(** [Path::file_stem] and [Path::extension] of a file name. *)
Definition file_parts (name : string) : string * option string :=
  match rsplit_once "." name with
  | Some (stem, extension) =>
      if str_is_empty stem then (name, None) else (stem, Some extension)
  | None => (name, None)
  end.

Definition encoded_name (name fmt target : string) : string :=
  let ext := if starts_with "jpeg" fmt then "jpg" else fmt in
  name +:+ "__" +:+ fmt +:+ "__" +:+ target +:+ "." +:+ ext.

(** [name.split("__").nth(1)] *)
Definition format_of_name (name : string) : option string := split_str "__" 0 name !! 1%nat.

(** ** Encoding, decoding, timing *)

Inductive Timing := PngTime (name : string) | EncodeTime (file : string) | DecodeTime (file : string).

Inductive ReportRow :=
  | PngRow (name : string) (size : Z) (encode_ms : spec_float)
  | MatchedRow (name fmt target : string) (quality size : Z) (d encode_ms decode_ms : spec_float)
  | UnreachableRow (name fmt target : string).

(** [None] is a panic on a NaN, or on an index out of range. *)
Definition median (v : list spec_float) : option spec_float :=
  if sort_panics v then None else sort_floats v !! (length v / 2)%nat.

(** The files of a directory. *)
Abbreviation Files := (gmap string (list byte)).

Section Report.
Context {Im W Jd Ad : Type} `{ImageCrate Im} `{CodecCrates Im W Jd Ad}.
(** [Dssim::create_image_rgb] and [Dssim::compare]; durations in nanoseconds;
    whether a file can be written. *)
Context {D : Type} (create_image_rgb : list Rgb → Z → Z → option D) (compare : D → D → spec_float)
  (clock : Timing → nat → Z) (writable : string → bool).

(** The [chunks_exact(3)] of the samples of an RGB image. *)
Definition rgb_pixels (img : RgbaImage) : list Rgb :=
  concat ((λ y, (λ x, let '(r, g, b, _) := get_pixel img (Z.of_nat x) (Z.of_nat y) in (r, g, b))
                  <$> seq 0 (Z.to_nat (img_width img))) <$> seq 0 (Z.to_nat (img_height img))).

Definition dssim_of (orig dec : RgbaImage) (w h : Z) : option spec_float :=
  a ← create_image_rgb (rgb_pixels orig) w h;
  b ← create_image_rgb (rgb_pixels dec) w h;
  Some (compare a b).

Definition encode (fmt : string) (img : Im) (q : Z) : option (list byte) :=
  if String.eqb fmt "jpeg" then ok (encode_jpeg img q false false None None)
  else if String.eqb fmt "jpegprog" then ok (encode_jpeg img q true false None None)
  else if String.eqb fmt "webp" then ok (encode_webp img (f32_of_uint q) false None None)
  else if String.eqb fmt "avif" then ok (avif_encode img q AVIF_SPEED None)
  else None.

Definition decode (fmt : string) (bytes : list byte) : option Im :=
  if String.eqb fmt "jpeg" || String.eqb fmt "jpegprog" then ok (jpeg_scaled_decode bytes 8)
  else if String.eqb fmt "webp" then ok (decode_webp_pixels bytes)
  else if String.eqb fmt "avif" then
    ok (avif_decode bytes DECODE_MP_CAP) ≫= λ '(img, _, _, _), Some img
  else None.

(** [n] runs of [task], which panics always or never. *)
Definition time_runs {A} (task : option A) (label : Timing) (n : nat) : option spec_float :=
  _ ← task;
  median ((λ i, duration_ms (clock label i)) <$> seq 0 n).

Definition time_encode (fmt : string) (img : Im) (q : Z) (file : string) (n : nat) : option spec_float :=
  time_runs (encode fmt img q) (EncodeTime file) n.

Definition time_decode (fmt : string) (bytes : list byte) (file : string) (n : nat) : option spec_float :=
  time_runs (decode fmt bytes) (DecodeTime file) n.

(** One round of the search: the encoded bytes and the distance. *)
Definition trial (fmt : string) (img : RgbaImage) (mid : Z) : option (list byte * spec_float) :=
  bytes ← encode fmt (ImageRgb8 img) mid;
  dec ← decode fmt bytes;
  d ← dssim_of img (to_rgb8 dec) (img_width img) (img_height img);
  Some (bytes, d).

(** One format at one target: its row, and the file it leaves. *)
Definition report_target (name : string) (img : RgbaImage) (fmt target : string) (files : Files)
  : option (ReportRow * Files) :=
  best ← lowest_quality (trial fmt img) (f64_literal target);
  match best with
  | None => Some (UnreachableRow name fmt target, files)
  | Some (q, bytes, d) =>
      let file := encoded_name name fmt target in
      enc_ms ← time_encode fmt (ImageRgb8 img) q file 3;
      dec_ms ← time_decode fmt bytes file 5;
      if writable file
      then Some (MatchedRow name fmt target q (Z.of_nat (length bytes)) d enc_ms dec_ms,
                 <[file := bytes]> files)
      else None
  end.

Fixpoint report_targets (name : string) (img : RgbaImage) (todo : list (string * string)) (files : Files)
  : option (list ReportRow * Files) :=
  match todo with
  | [] => Some ([], files)
  | (fmt, target) :: rest =>
      '(row, files) ← report_target name img fmt target files;
      '(rows, files) ← report_targets name img rest files;
      Some (row :: rows, files)
  end.

Definition combinations : list (string * string) :=
  fmt ← FORMATS; target ← TARGETS; [(fmt, target)].

(** One source image: the lossless PNG, then every format at every target. *)
Definition report_image (name : string) (img : RgbaImage) (files : Files)
  : option (list ReportRow * Files) :=
  png ← ok (encode_png (ImageRgb8 img) None None);
  '(rows, files) ← report_targets name img combinations files;
  Some (PngRow name (Z.of_nat (length png)) (duration_ms (clock (PngTime name) 0)) :: rows, files).

(** The names of a directory, sorted. *)
Definition sorted_names (names : list string) : list string :=
  merge_sort String.le names.

Fixpoint report_images (open : string → option RgbaImage) (names : list string) (files : Files)
  : option (list ReportRow * Files) :=
  match names with
  | [] => Some ([], files)
  | path :: rest =>
      img ← open path;
      '(rows, files) ← report_image (file_parts path).1 img files;
      '(more, files) ← report_images open rest files;
      Some (rows ++ more, files)
  end.

(** The corpus is the PNG files of a directory. *)
Definition run_encode (corpus : list string) (open : string → option RgbaImage) (out : Files)
  : option (list ReportRow * Files) :=
  report_images open
    (sorted_names (filter (λ p, (file_parts p).2 = Some "png") corpus)) out.

(** A file without a format in its name is passed over. *)
Fixpoint decode_files {R} (row : string → string → list byte → option R) (names : list string) (dir : Files)
  : option (list R) :=
  match names with
  | [] => Some []
  | name :: rest =>
      match format_of_name name with
      | None => decode_files row rest dir
      | Some fmt =>
          bytes ← dir !! name;
          r ← row name fmt bytes;
          rows ← decode_files row rest dir;
          Some (r :: rows)
      end
  end.

Definition run_decode (dir : Files) : option (list (string * string * Z * spec_float)) :=
  decode_files (λ name fmt bytes,
      ms ← time_decode fmt bytes name 5; Some (name, fmt, Z.of_nat (length bytes), ms))
    (sorted_names (elements (dom dir))) dir.

(** The rows, and the planes written next to them. *)
Definition conform_row (name fmt : string) (bytes : list byte)
  : option (string * string * Z * Z * list Rgb) :=
  img ← decode fmt bytes;
  let rgb := to_rgb8 img in
  if writable (name +:+ ".rgb")
  then Some (name, fmt, img_width rgb, img_height rgb, rgb_pixels rgb)
  else None.

Definition run_conform (dir : Files) : option (list (string * string * Z * Z * list Rgb)) :=
  decode_files conform_row
    (sorted_names (List.filter (λ p, match (file_parts p).2 with Some e => negb (String.eqb e "rgb") | None => false end)
       (elements (dom dir)))) dir.
End Report.

(** ** Properties: the search *)

Section SearchProperties.
Context {B : Type} (trial : Z → option (B * spec_float)) (target : spec_float).
Hypothesis trial_total : ∀ q, 1 ≤ q ≤ 100 → is_Some (trial q).

Definition meets (q : Z) : Prop := ∃ bytes d, trial q = Some (bytes, d) ∧ f_le d target = true.

(** What the search has found: nothing, and then the highest quality is not
    enough; or a quality that is enough, next to one that is not. *)
Definition found (res : option (Z * B * spec_float)) : Prop :=
  match res with
  | None => ¬ meets 100
  | Some (q, bytes, d) =>
      1 ≤ q ≤ 100 ∧ trial q = Some (bytes, d) ∧ f_le d target = true ∧ (q = 1 ∨ ¬ meets (q - 1))
  end.

(** What it holds between two rounds. *)
Definition bracket (lo hi : Z) (best : option (Z * B * spec_float)) : Prop :=
  1 ≤ lo ≤ hi + 1 ∧ hi ≤ 100 ∧ (lo = 1 ∨ ¬ meets (lo - 1))
  ∧ match best with
    | None => hi = 100
    | Some (q, bytes, d) => q = hi + 1 ∧ q ≤ 100 ∧ trial q = Some (bytes, d) ∧ f_le d target = true
    end.

Lemma bracket_found lo hi best : bracket lo hi best → hi < lo → found best.
Proof.
  intros (Hlo & Hhi & Hbelow & Hbest) Hgt. assert (hi + 1 = lo) as E by lia.
  destruct best as [[[q bytes] d]|]; cbn.
  - destruct Hbest as (-> & Hq & Ht & Hd). rewrite E in *. split; [lia|done].
  - subst hi. rewrite <- E in Hbelow. by destruct Hbelow.
Qed.

Lemma bisect_found k lo hi best :
  bracket lo hi best → hi - lo + 1 < 2 ^ Z.of_nat k →
  ∃ res, bisect trial target (S k) lo hi best = Some res ∧ found res.
Proof.
  revert lo hi best. induction k as [|k IH]; intros lo hi best Hb Hk;
    cbn [bisect]; destruct (Z.leb_spec lo hi) as [Hle|Hgt];
    try (eexists; split; [done|by eapply bracket_found]).
  - cbn in Hk. lia.
  - destruct Hb as (Hlo & Hhi & Hbelow & Hbest).
    rewrite Nat2Z.inj_succ, Z.pow_succ_r in Hk by lia. cbv zeta. set (mid := lo + (hi - lo) / 2).
    pose proof (Z.div_mod (hi - lo) 2 ltac:(lia)). pose proof (Z.mod_pos_bound (hi - lo) 2 ltac:(lia)).
    destruct (trial_total mid ltac:(lia)) as [[bytes d] Ht]. rewrite Ht. cbn [mbind option_bind].
    destruct (f_le d target) eqn:Hd.
    + destruct (Z.eqb_spec mid 1) as [E|]; [eexists; split; [done|]; split; [lia|]; auto|].
      apply IH; [|lia]. split; [lia|]. split; [lia|]. split; [done|].
      replace (mid - 1 + 1) with mid by lia. split; [done|]. split; [lia|done].
    + apply IH; [|lia]. split; [lia|]. split; [lia|]. split; [|done].
      right. replace (mid + 1 - 1) with mid by lia. intros (? & ? & ? & ?). congruence.
Qed.

(** C38. The search always ends; what it returns was encoded at that quality and
    meets the target, the quality below does not, and without a result the
    highest quality does not. When a quality that meets the target is never
    followed by one that misses it, it is the lowest of all that meet it, and
    without a result none does. *)
Theorem lowest_quality_found :
  ∃ res, lowest_quality trial target = Some res ∧ found res
    ∧ ((∀ q q', 1 ≤ q ≤ q' → q' ≤ 100 → meets q → meets q') →
       ∀ q', 1 ≤ q' ≤ 100 → meets q' ↔ ∃ q bytes d, res = Some (q, bytes, d) ∧ q ≤ q').
Proof.
  destruct (bisect_found 7 1 100 None) as (res & Hres & Hfound);
    [split_and!; [lia..|by left|done]|done|].
  exists res. split; [exact Hres|]. split; [exact Hfound|]. intros Hmono q' Hq'.
  destruct res as [[[q bytes] d]|]; cbn in Hfound.
  - destruct Hfound as (Hq & Ht & Hd & Hbelow). split.
    + intros Hmeets. exists q, bytes, d. split; [done|]. destruct (Z.le_gt_cases q q') as [|Hlt]; [done|].
      destruct Hbelow as [->|Hno]; [lia|]. destruct Hno. apply (Hmono q'); [lia..|done].
    + intros (? & ? & ? & [= <- <- <-] & Hle). apply (Hmono q); [lia..|]. by exists bytes, d.
  - split; [|by intros (? & ? & ? & [=] & _)]. intros Hmeets. destruct Hfound. apply (Hmono q'); [lia..|done].
Qed.
End SearchProperties.

(** ** Properties: names *)

Lemma split_str_not_nil sep skip s : split_str sep skip s ≠ [].
Proof.
  revert skip. induction s as [|a s IH]; intros skip; [done|]. cbn [split_str]. destruct skip; [|apply IH].
  destruct (starts_with sep _); [done|]. by destruct (split_str sep 0 s).
Qed.

(** A text in which the double underscore cannot begin, its own last character
    included, is the first part. *)
Lemma split_underscores x t :
  contains_str "__" (x +:+ "_") = false → split_str "__" 0 (x +:+ "__" +:+ t) = x :: split_str "__" 0 t.
Proof.
  induction x as [|a x IH]; intros Hx; [done|].
  change (String a x +:+ "__" +:+ t) with (String a (x +:+ "__" +:+ t)).
  change (String a x +:+ "_") with (String a (x +:+ "_")) in Hx.
  cbn [contains_str] in Hx. apply orb_false_iff in Hx as [Hstart Hx].
  cbn [split_str]. rewrite (IH Hx).
  assert (starts_with "__" (String a (x +:+ "__" +:+ t)) = false) as ->; [|done].
  unfold starts_with in *. destruct x as [|b x]; cbn [strip_prefix String.append] in *;
    destruct (Ascii.eqb "_" a); [done..| |done]. by destruct (Ascii.eqb "_" b).
Qed.

(** The stem of a source file that can be told from what follows it. *)
Definition plain_stem (name : string) : Prop := contains_str "__" (name +:+ "_") = false.

Lemma encoded_name_format name fmt target :
  plain_stem name → fmt ∈ FORMATS → format_of_name (encoded_name name fmt target) = Some fmt.
Proof.
  intros Hname Hfmt. unfold format_of_name, encoded_name. cbv zeta. rewrite split_underscores by done.
  assert (contains_str "__" (fmt +:+ "_") = false) as Hf
    by (unfold FORMATS in Hfmt; repeat (apply elem_of_cons in Hfmt as [->|Hfmt]; [done|]); by apply not_elem_of_nil in Hfmt).
  by rewrite split_underscores.
Qed.

Lemma median_is_Some v : Forall f_nonneg v → v ≠ [] → is_Some (median v).
Proof.
  intros Hpos Hne. unfold median.
  assert (sort_panics v = false) as ->.
  { apply samples_do_not_panic. eapply Forall_impl; [exact Hpos|]. apply f_nonneg_not_nan. }
  apply lookup_lt_is_Some. rewrite (Permutation_length (sort_floats_perm v)). apply Nat.div_lt; [|lia]. destruct v; [done|cbn; lia].
Qed.

(** ** Properties: the two runs *)

Section Runs.
Context {Im W Jd Ad : Type} `{ImageCrate Im} `{CodecCrates Im W Jd Ad}.
Context {D : Type} (create_image_rgb : list Rgb → Z → Z → option D) (compare : D → D → spec_float)
  (clock : Timing → nat → Z) (writable : string → bool).
Hypothesis clock_nonneg : ∀ label i, 0 ≤ clock label i.

Lemma time_runs_is_Some {A} (task : option A) label n :
  is_Some task → (0 < n)%nat → is_Some (time_runs clock task label n).
Proof.
  intros [x ->] Hn. cbn. apply median_is_Some.
  - apply Forall_fmap, Forall_true. intros i. apply duration_ms_nonneg, clock_nonneg.
  - by destruct n; [lia|].
Qed.

(** Every file carries its format, and its bytes decode with it. *)
Definition decodable (files : Files) : Prop :=
  map_Forall (λ file bytes, ∃ fmt, format_of_name file = Some fmt ∧ is_Some (decode (Im := Im) fmt bytes)) files.

Abbreviation to_target := (report_target create_image_rgb compare clock writable).
Abbreviation to_targets := (report_targets create_image_rgb compare clock writable).
Abbreviation to_images := (report_images create_image_rgb compare clock writable).

(** A file is written for a row with a quality, under the name of that row. *)
Definition row_file (row : ReportRow) : option string :=
  match row with
  | MatchedRow name fmt target _ _ _ _ _ => Some (encoded_name name fmt target)
  | _ => None
  end.

Definition accounted (files : Files) (rows : list ReportRow) (files' : Files) : Prop :=
  decodable files' ∧ dom files' ≡ dom files ∪ list_to_set (omap row_file rows).

Lemma report_target_files name img fmt target files row files' :
  plain_stem name → fmt ∈ FORMATS → decodable files →
  to_target name img fmt target files = Some (row, files') → accounted files [row] files'.
Proof.
  intros Hname Hfmt Hfiles Hrep. unfold report_target in Hrep.
  apply bind_Some in Hrep as (best & Hbest & Hrep). destruct best as [[[q bytes] d]|].
  - apply bind_Some in Hrep as (enc_ms & _ & Hrep). apply bind_Some in Hrep as (dec_ms & Hdec & Hrep).
    destruct (writable _); [|done]. injection Hrep as <- <-. split; [|cbn; set_solver].
    apply map_Forall_insert_2; [|done]. exists fmt. split; [by apply encoded_name_format|].
    unfold time_decode, time_runs in Hdec. apply bind_Some in Hdec as (img' & Himg & _). by exists img'.
  - injection Hrep as <- <-. split; [done|cbn; set_solver].
Qed.

Lemma accounted_app files rows files' more files'' :
  accounted files rows files' → accounted files' more files'' → accounted files (rows ++ more) files''.
Proof.
  intros [_ Hd] [Hdec Hd']. split; [done|]. rewrite Hd', Hd, omap_app, list_to_set_app. set_solver.
Qed.

Lemma report_targets_files name img todo files rows files' :
  plain_stem name → Forall (λ c, c.1 ∈ FORMATS) todo → decodable files →
  to_targets name img todo files = Some (rows, files') → accounted files rows files'.
Proof.
  intros Hname Htodo. revert files rows. induction Htodo as [|[fmt target] todo Hfmt _ IH]; intros files rows Hfiles Hrep;
    cbn [report_targets] in Hrep.
  - injection Hrep as <- <-. split; [done|cbn; set_solver].
  - apply bind_Some in Hrep as ([row files1] & Hrow & Hrep). apply bind_Some in Hrep as ([more files2] & Hmore & Hrep).
    injection Hrep as <- <-. apply report_target_files in Hrow; [|done..].
    change (row :: more) with ([row] ++ more). eapply accounted_app; [done|]. eapply IH; [apply Hrow|done].
Qed.

Lemma combinations_formats : Forall (λ c, c.1 ∈ FORMATS) combinations.
Proof. apply (bool_decide_unpack _). vm_compute. exact I. Qed.

Lemma report_images_files open names files rows files' :
  Forall (λ p, plain_stem (file_parts p).1) names → decodable files →
  to_images open names files = Some (rows, files') → accounted files rows files'.
Proof.
  intros Hnames. revert files rows. induction Hnames as [|path names Hpath _ IH]; intros files rows Hfiles Hrep;
    cbn [report_images] in Hrep.
  - injection Hrep as <- <-. split; [done|cbn; set_solver].
  - apply bind_Some in Hrep as (img & _ & Hrep). apply bind_Some in Hrep as ([rows1 files1] & Hone & Hrep).
    apply bind_Some in Hrep as ([more files2] & Hmore & Hrep). injection Hrep as <- <-.
    unfold report_image in Hone. apply bind_Some in Hone as (png & _ & Hone).
    apply bind_Some in Hone as ([rows2 files3] & Hone & Heq). injection Heq as <- <-.
    apply report_targets_files in Hone; [|done|apply combinations_formats|done].
    eapply accounted_app; [|eapply IH; [apply Hone|done]].
    split; [apply Hone|]. rewrite (proj2 Hone). cbn. done.
Qed.

Lemma decode_files_all {R} (row : string → string → list byte → option R) names dir :
  (∀ name, name ∈ names → ∃ fmt bytes, format_of_name name = Some fmt ∧ dir !! name = Some bytes
     ∧ is_Some (row name fmt bytes)) →
  ∃ rs, decode_files row names dir = Some rs
    ∧ Forall2 (λ name r, ∃ fmt bytes, format_of_name name = Some fmt ∧ dir !! name = Some bytes
        ∧ row name fmt bytes = Some r) names rs.
Proof.
  induction names as [|name names IH]; intros Hall; [by exists []|].
  destruct IH as (rs & Hrs & Hrows); [intros; apply Hall; by right|].
  destruct (Hall name) as (fmt & bytes & Hfmt & Hbytes & r & Hr); [by left|].
  exists (r :: rs). cbn. rewrite Hfmt, Hbytes. cbn. rewrite Hr. cbn. rewrite Hrs. split; [done|].
  constructor; [by exists fmt, bytes|done].
Qed.

(** What one run encodes the next decodes: every row with a quality has left a
    file, there are no others, and each is decoded by the decoder of the format
    it was encoded to - when no source file's name has a double underscore in
    it or an underscore at its end. *)
Theorem encoded_files_decode corpus open rows files :
  (∀ path, path ∈ corpus → plain_stem (file_parts path).1) →
  run_encode create_image_rgb compare clock writable corpus open ∅ = Some (rows, files) →
  dom files ≡ list_to_set (omap row_file rows)
  ∧ ∃ timed, run_decode (Im := Im) clock files = Some timed
    ∧ timed.*1.*1.*1 ≡ₚ elements (dom files)
    ∧ Forall (λ '(file, fmt, size, _), format_of_name file = Some fmt
        ∧ ∃ bytes, files !! file = Some bytes ∧ size = Z.of_nat (length bytes)) timed.
Proof.
  intros Hcorpus Hrun. apply report_images_files in Hrun as [Hdec Hdom];
    [|apply Forall_forall; intros path Hp|apply map_Forall_empty].
  2:{ unfold sorted_names in Hp. rewrite merge_sort_Permutation in Hp.
      apply list_elem_of_filter in Hp as [_ Hp]. by apply Hcorpus. }
  rewrite dom_empty, (left_id ∅ (∪)) in Hdom. split; [exact Hdom|]. unfold run_decode.
  edestruct (decode_files_all (λ name fmt bytes,
      ms ← time_decode (Im := Im) clock fmt bytes name 5; Some (name, fmt, Z.of_nat (length bytes), ms))
    (sorted_names (elements (dom files))) files) as (timed & Htimed & Hrows).
  { intros file Hin. unfold sorted_names in Hin. rewrite merge_sort_Permutation, elem_of_elements, elem_of_dom in Hin.
    destruct Hin as [bytes Hb]. destruct (Hdec _ _ Hb) as (fmt & Hfmt & Himg). exists fmt, bytes.
    split_and!; [done..|]. destruct (time_runs_is_Some (decode (Im := Im) fmt bytes) (DecodeTime file) 5) as [ms Hms];
      [done|lia|]. unfold time_decode. rewrite Hms. by eexists. }
  exists timed. split; [exact Htimed|]. split.
  - rewrite <- (merge_sort_Permutation String.le (elements (dom files))). apply reflexive_eq. symmetry.
    clear Htimed. fold (sorted_names (elements (dom files))).
    induction Hrows as [|file r names timed (fmt & bytes & _ & _ & Hr) _ IH]; [done|].
    apply bind_Some in Hr as (ms & _ & [= <-]). cbn. by f_equal.
  - clear Htimed. induction Hrows as [|file r names timed (fmt & bytes & Hfmt & Hb & Hr) _ IH]; [constructor|].
    apply bind_Some in Hr as (ms & _ & [= <-]). constructor; [|exact IH]. split; [done|]. by exists bytes.
Qed.
End Runs.

(** ** Instances *)

(** A distance that falls by a hundredth of the quality. *)
Definition distance_at (q : Z) : spec_float := f64_div (f64_of_uint (100 - q)) (f64_of_uint 100).
Definition linear_trial (q : Z) : option (Z * spec_float) := Some (q, distance_at q).

Lemma linear_trial_mono q q' :
  1 ≤ q ≤ q' → q' ≤ 100 → meets linear_trial (f64_literal "0.35") q → meets linear_trial (f64_literal "0.35") q'.
Proof.
  assert (∀ i, 1 ≤ i ≤ 100 → meets linear_trial (f64_literal "0.35") i ↔ 65 ≤ i) as Hmeets.
  { intros i Hi. assert (i ∈ seqZ 1 100) as Hin by (apply elem_of_seqZ; lia).
    assert (Forall (λ i, f_le (distance_at i) (f64_literal "0.35") = bool_decide (65 ≤ i)) (seqZ 1 100)) as Hall
      by (apply (bool_decide_unpack _); vm_compute; exact I).
    rewrite Forall_forall in Hall. specialize (Hall i Hin). unfold meets, linear_trial in *.
    split; [intros (? & ? & [= <- <-] & Hd)|intros Hle; eexists _, _; split; [reflexivity|]].
    - rewrite Hd in Hall. symmetry in Hall. by apply bool_decide_eq_true in Hall.
    - rewrite Hall. by apply bool_decide_eq_true. }
  intros Hq Hq'. rewrite !Hmeets by lia. lia.
Qed.

Lemma lowest_quality_found_witness :
  lowest_quality linear_trial (f64_literal "0.35") = Some (Some (65, 65, distance_at 65)).
Proof.
  destruct (lowest_quality_found linear_trial (f64_literal "0.35")) as (res & Hres & _ & Hmin);
    [intros q _; by eexists|]. specialize (Hmin linear_trial_mono). rewrite Hres. vm_compute in Hres.
  injection Hres as <-. destruct (proj1 (Hmin 65 ltac:(lia))) as (q & b & d & Heq & _).
  - exists 65, (distance_at 65). split; [reflexivity|vm_compute; reflexivity].
  - vm_compute in Heq. vm_compute. reflexivity.
Defined.

(** Encoders that write the quality, and decoders for what they wrote. *)
#[local] Existing Instance toy_images.
#[local] Instance quality_codecs : CodecCrates ToyImage () () () := {
  guess_format _ := bail "io"; into_decoder _ _ _ := bail "unsupported";
  into_dimensions _ _ := bail "unsupported"; reserve _ _ := None; from_exif_chunk _ := None;
  webp_new _ := Ok (); webp_dimensions _ := (1, 1); webp_is_animated _ := false;
  webp_has_alpha _ := false; webp_num_frames _ := 0; set_memory_limit w _ := w;
  webp_icc_profile _ := None; webp_exif_metadata _ := None; output_buffer_size _ := Some 3;
  read_image _ _ := Ok [0; 0; 0]; read_frame _ _ := bail "unsupported"; jpeg_new _ := ();
  jpeg_read_info _ := Ok (); jpeg_info _ := Some (1, 1, PixelRGB24); jpeg_scale _ _ _ := Ok ();
  jpeg_decode _ := Ok ([0; 0; 0], ()); read_avif _ := Ok ();
  primary_item_metadata _ := Ok (1, 1); avif_from_avif _ := Ok ();
  avif_to_image _ := Ok (AvifRgb8 [(0, 0, 0)] 1 1);
  webp_encode p _ := Ok [byte_of_val (lossy_quality p)]; png_encode _ _ _ := Ok [x00];
  jpeg_encode p _ _ _ := Ok [byte_of_val (jpeg_quality p)];
  ravif_encode_rgba _ _ := Ok (Ok [x01]); write_to _ _ := bail "unsupported";
}.

Definition dot : RgbaImage := filled 1 1 (0, 0, 0, 255).

(** A distance between the first two targets. *)
Definition example_run : option (list ReportRow * Files) :=
  run_encode (Im := ToyImage) (λ px _ _, Some px) (λ _ _, f64_literal "0.01") (λ _ i, Z.of_nat i) (λ _, true)
    ["b.png"; "readme.txt"; "a.png"] (λ _, Some dot) ∅.

Lemma example_run_size : (λ r, (length r.1, length (elements (dom r.2)))) <$> example_run = Some (26%nat, 8%nat).
Proof. vm_compute. reflexivity. Qed.

Lemma encoded_files_decode_witness :
  ∃ rows files timed, example_run = Some (rows, files)
    ∧ run_decode (Im := ToyImage) (λ _ i, Z.of_nat i) files = Some timed ∧ length rows = 26%nat ∧ length timed = 8%nat.
Proof.
  pose proof example_run_size as Hsize. apply fmap_Some in Hsize as ([rows files] & Hrun & [= Hrows Hfiles]).
  destruct (encoded_files_decode (Im := ToyImage) (λ px _ _, Some px) (λ _ _, f64_literal "0.01")
    (λ _ i, Z.of_nat i) (λ _, true) (λ _ i, Nat2Z.is_nonneg i) ["b.png"; "readme.txt"; "a.png"] (λ _, Some dot) rows files)
    as (_ & timed & Htimed & Hnames & _); [|exact Hrun|].
  - intros path Hp. repeat (apply elem_of_cons in Hp as [->|Hp]; [vm_compute; reflexivity|]).
    exfalso. exact (not_elem_of_nil _ Hp).
  - exists rows, files, timed. split; [exact Hrun|]. split; [exact Htimed|]. split; [by symmetry|].
    apply Permutation_length in Hnames. rewrite !length_fmap in Hnames. by rewrite Hnames.
Defined.

(** A source whose name has a double underscore is taken for another format,
    and its decoding panics. *)
Lemma double_underscore_panics :
  format_of_name (encoded_name "a__b" "webp" "0.015") = Some "b"
  ∧ run_decode (Im := ToyImage) (λ _ i, Z.of_nat i) {[encoded_name "a__b" "webp" "0.015" := [x01]]} = None.
Proof. split; vm_compute; reflexivity. Qed.
