(* ===== verification/Router.v ===== *)
(** * The HTTP surface: [src/modules/router/{router,middlewares}.rs]

The application as a function of a request: the registered routes and the
middlewares around them, in their order.  Matching a path against the patterns
is [axum]'s; the CORS, compression, telemetry and rate-limit layers are what
their libraries document: a layer answers by itself, or lets the request
through and adds to the response. *)
From S2P Require Import Prelude RustStr SourceGuard RustFloat Params UrlOptions Presets UrlSource UrlGrammar CacheKey KeyValidation Performance Negotiation Access Errors Storage StorageSelect HttpCache ResizeApi.

Local Open Scope Z_scope.

(** A handler, or a stack of layers over one. *)
Abbreviation Handler St := (HttpRequest → St → Response * St).

(** The registered patterns: ["/"], ["/health"], ["/api/images/files/{key}"],
    ["/{signature}/{*rest}"], ["/metrics"]. *)
Inductive Endpoint :=
  | RootEndpoint
  | HealthEndpoint
  | DownloadEndpoint (key : string)
  | ResizeEndpoint
  | MetricsEndpoint.

(** What becomes of a request at the saturation guard; a request out of time
    was dropped in the middle of its work. *)
Inductive Verdict (St : Type) :=
  | AtCapacity
  | InTime
  | OutOfTime (left_behind : St).
Arguments AtCapacity {St}. Arguments InTime {St}. Arguments OutOfTime {St}.

(** The layers of libraries.  [preflight] is CORS' own answer to a preflight
    request, [stamp] what it adds to any other; [limited] is the rate limiter's
    answer to a client over its budget; [inflate] is how a client undoes a
    [Content-Encoding]. *)
Class Layers := {
  preflight : HttpRequest → option Response;
  stamp : HttpRequest → Response → Response;
  limited : HttpRequest → option Response;
  compress : HttpRequest → Response → Response;
  telemetry : HttpRequest → Response → Response;
  inflate : string → string → option string;
}.

Definition text_response (status : Z) (text : string) : Response :=
  mk_Response status [("content-type", "text/plain; charset=utf-8")] text.

(** [Redirect::temporary] *)
Definition temporary_redirect (location : string) : Response :=
  mk_Response 307 [("location", location)] EmptyString.

Definition unauthorized_response : Response :=
  insert_header "www-authenticate"
    ("Bearer realm=" +:+ String quote_char ("metrics" +:+ String quote_char EmptyString))
    (text_response 401 "unauthorized").

Section App.
Context `{StorageBackend E St} `{ImageService} `{Layers}.
Context (sha256 : list byte → list byte).
Context (hmac_sha256 : list byte → list byte → list byte) (ct_eq : list byte → list byte → bool).
Context (b64_decode url_decode : string → option string).
Context (parse_error_text : UrlParseError → string) (debug_str : string → string).
(** [matchit], and the rendering of the metrics registry. *)
Context (matched : string → option Endpoint) (metrics_text : string).
Context (otel : bool) (api : ApiService).

Definition not_found : Response := mk_Response 404 [] EmptyString.

(** The routes registered in [build_app]; [e0] and [e1] are what the request
    meets at the storage. *)
Definition build_app (e0 e1 : E) : Handler St := λ request s,
  match matched (path request) with
  | Some RootEndpoint => (temporary_redirect "/health", s)
  | Some HealthEndpoint => (text_response 200 "OK", s)
  | Some (DownloadEndpoint key) => download_handler (storage_service (resize_service api)) e0 key s
  | Some ResizeEndpoint =>
      resize_handler sha256 hmac_sha256 ct_eq b64_decode url_decode parse_error_text debug_str api
        e0 e1 (path request) (header_text "accept" request) s
  | _ => (not_found, s)
  end.

(** [require_metrics_auth] in front of [metrics_handler]. *)
Definition metrics_endpoint (config : MetricsAuthConfig) (request : HttpRequest) : Response :=
  if require_metrics_auth ct_eq config (header_text "authorization" request)
  then text_response 200 metrics_text
  else unauthorized_response.

(** [/metrics] is registered outside the telemetry layers. *)
Definition routes (e0 e1 : E) : Handler St := λ request s,
  match matched (path request), metrics_auth api with
  | Some MetricsEndpoint, Some config =>
      if otel then (metrics_endpoint config request, s)
      else let (r, s') := build_app e0 e1 request s in (telemetry request r, s')
  | _, _ => let (r, s') := build_app e0 e1 request s in (telemetry request r, s')
  end.

Definition saturation_and_timeout_middleware (verdict : Verdict St) (next : Handler St) : Handler St :=
  λ request s,
    match verdict with
    | AtCapacity => (service_unavailable "service is at capacity, try again shortly", s)
    | InTime => next request s
    | OutOfTime left_behind => (service_unavailable "request exceeded the configured timeout", left_behind)
    end.

(** From the outside in: CORS, the rate limit, conditional downloads, the
    saturation guard, compression. *)
Definition apply_common_middlewares (verdict : Verdict St) (router : Handler St) : Handler St :=
  λ request s,
    match preflight request with
    | Some r => (r, s)
    | None =>
        let (r, s') :=
          match limited request with
          | Some r => (r, s)
          | None =>
              conditional_download_middleware request
                (saturation_and_timeout_middleware verdict
                   (λ request s, let (r, s') := router request s in (compress request r, s')))
                s
          end in
        (stamp request r, s')
    end.

Definition app (verdict : Verdict St) (e0 e1 : E) : Handler St :=
  apply_common_middlewares verdict (routes e0 e1).
End App.

(** ** Properties *)

(** The body as the client reads it. *)
Definition client_body `{Layers} (r : Response) : option string :=
  match header "content-encoding" r with
  | Some coding => inflate coding (resp_body r)
  | None => Some (resp_body r)
  end.

(** What the layers leave of a response: its status, the headers the handlers
    set, and what its body is to the client. *)
Definition kept_headers : list string :=
  ["location"; "content-type"; "cache-control"; "etag"; "last-modified"].

Definition keeps `{Layers} (f : Response → Response) : Prop :=
  ∀ r, resp_status (f r) = resp_status r
       ∧ (∀ name, name ∈ kept_headers → header name (f r) = header name r)
       ∧ client_body (f r) = client_body r.

Ltac kept := apply (bool_decide_eq_true _); reflexivity.

Class LayerLaws `{Layers} : Prop := {
  stamp_keeps request : keeps (stamp request);
  compress_keeps request : keeps (compress request);
  telemetry_keeps request : keeps (telemetry request);
}.

Section Surface.
Context `{StorageContract E St} `{ImageService} `{LayerLaws}.
Context (sha256 : list byte → list byte).
Context (hmac_sha256 : list byte → list byte → list byte) (ct_eq : list byte → list byte → bool).
Context (b64_decode url_decode : string → option string).
Context (parse_error_text : UrlParseError → string) (debug_str : string → string).
Context (matched : string → option Endpoint) (metrics_text : string).
Context (otel : bool) (api : ApiService).
Abbreviation svc := (resize_service api).
Abbreviation key_of := (generate_key sha256 (minio_sub_path svc)).
Abbreviation admitted :=
  (admitted_query hmac_sha256 ct_eq b64_decode url_decode parse_error_text api).
Abbreviation serve :=
  (app sha256 hmac_sha256 ct_eq b64_decode url_decode parse_error_text debug_str matched metrics_text
     otel api).

(** A request that neither CORS nor the rate limiter answers. *)
Definition let_through (request : HttpRequest) : Prop :=
  preflight request = None ∧ limited request = None.

(** A revalidation is answered before the saturation guard: whatever becomes of
    the requests behind it, with no permit left, and without a look at the
    storage. *)
Theorem revalidation_bypasses_guard verdict e0 e1 request etag value s :
  let_through request → etag_for_request request = Some etag →
  header_text "if-none-match" request = Some value → if_none_match_satisfied value etag = true →
  serve verdict e0 e1 request s = (stamp request (not_modified_response etag), s)
  ∧ resp_status (serve verdict e0 e1 request s).1 = 304.
Proof.
  intros [Hp Hl] He Hh Hm.
  assert (serve verdict e0 e1 request s = (stamp request (not_modified_response etag), s)) as Heq.
  { unfold app, apply_common_middlewares. rewrite Hp, Hl. unfold conditional_download_middleware.
    by rewrite He, Hh, Hm. }
  rewrite Heq. split; [done|]. cbn [fst]. rewrite (proj1 (stamp_keeps request _)).
  unfold not_modified_response, apply_conditional_headers. by destruct (header_value_ok etag).
Qed.

(** Without the token, and without the opt-out, nobody sees the metrics: the
    answer is a 401 or that of a layer, and nothing is touched. *)
Theorem metrics_need_the_token config verdict e0 e1 request s :
  otel = true → metrics_auth api = Some config → allow_unauthenticated config = false →
  (∀ t, header_text "authorization" request = Some (BEARER_PREFIX +:+ t) → verify_token ct_eq config t = false) →
  matched (path request) = Some MetricsEndpoint → etag_for_request request = None → let_through request →
  (∀ left_behind, verdict = OutOfTime left_behind → left_behind = s) →
  let out := serve verdict e0 e1 request s in
  out.2 = s ∧ (resp_status out.1 = 401 ∨ resp_status out.1 = 503).
Proof.
  intros -> Hconfig Hopt Htok Hm He [Hp Hl] Hleft. cbv zeta.
  assert (require_metrics_auth ct_eq config (header_text "authorization" request) = false) as Hauth.
  { unfold require_metrics_auth. rewrite Hopt. destruct (header_text _ request) as [a|] eqn:Ha; [|done].
    cbn [mbind option_bind]. destruct (strip_prefix BEARER_PREFIX a) as [t|] eqn:Ht; [|done].
    apply strip_prefix_Some in Ht as ->. by apply Htok. }
  unfold app, apply_common_middlewares, conditional_download_middleware, saturation_and_timeout_middleware,
    routes, metrics_endpoint. rewrite Hp, Hl, He. destruct verdict as [| |left_behind]; cbn [fst snd].
  - split; [done|]. right. by rewrite (proj1 (stamp_keeps request _)).
  - rewrite Hm, Hconfig, Hauth. cbn [fst snd]. split; [done|left].
    by rewrite (proj1 (stamp_keeps request _)), (proj1 (compress_keeps request _)).
  - split; [by apply Hleft|right]. by rewrite (proj1 (stamp_keeps request _)).
Qed.

(** A key with a slash in it - a storage prefix of more than one segment - is no
    [{key}]: its download path is taken for a signed one and refused. *)
Theorem nested_key_is_refused verdict e0 e1 key headers s :
  let request := mk_HttpRequest (DOWNLOAD_PATH_PREFIX +:+ key) headers in
  matched (path request) = Some ResizeEndpoint → key ≠ EmptyString → verdict = InTime →
  (∀ d m k, b64_decode "api" = Some d → length (list_byte_of_string d) ≠ length (hmac_sha256 k m)) →
  let_through request → header_text "if-none-match" request = None →
  resp_status (serve verdict e0 e1 request s).1 = 403 ∧ (serve verdict e0 e1 request s).2 = s.
Proof.
  intros request Hm Hkey -> Hsig [Hp Hl] Hinm.
  assert (admitted (path request) (header_text "accept" request)
          = Err (Forbidden (forbidden_message
              (if signing_enabled (signing api) then InvalidSignature else NoSigningKey)))) as Ha.
  { unfold admitted_query. cbn [path request].
    change (split (DOWNLOAD_PATH_PREFIX +:+ key))
      with (@Ok UrlParseError _ (mk_SignedRequest "api" (String "/" ("images/files/" +:+ key))
                                  (split_on "/" ("images/files/" +:+ key)))).
    cbn [map_err mbind result_bind]. unfold verify_or_reject. cbn [signature_segment signed_path].
    change (String.eqb "api" "unsigned") with false. cbv iota.
    destruct (signing_enabled (signing api)); [|done]. cbn [negb]. unfold verify_signature.
    destruct (b64_decode "api") as [d|] eqn:Hd; [|done].
    rewrite (proj2 (Nat.eqb_neq _ _)); [done|]. by apply Hsig. }
  assert (Hserve : build_app sha256 hmac_sha256 ct_eq b64_decode url_decode parse_error_text debug_str
            matched api e0 e1 request s
          = (error_response (Forbidden (forbidden_message
              (if signing_enabled (signing api) then InvalidSignature else NoSigningKey))), s)).
  { unfold build_app. rewrite Hm. unfold resize_handler, handle. by rewrite Ha. }
  unfold app, apply_common_middlewares, conditional_download_middleware. rewrite Hp, Hl, Hinm.
  change (etag_for_request request) with (etag_for_request (revalidation key headers)).
  rewrite (etag_for_revalidation key headers) by done.
  set (refused := error_response _) in Hserve.
  assert (Hroutes : routes sha256 hmac_sha256 ct_eq b64_decode url_decode parse_error_text debug_str
            matched metrics_text otel api e0 e1 request s = (telemetry request refused, s))
    by (unfold routes; by rewrite Hm, Hserve).
  unfold saturation_and_timeout_middleware. rewrite Hroutes.
  assert (resp_status (compress request (telemetry request refused)) = 403) as Hst
    by (by rewrite (proj1 (compress_keeps request _)), (proj1 (telemetry_keeps request _))).
  rewrite Hst. cbn [fst snd]. split; [|done]. by rewrite (proj1 (stamp_keeps request _)).
Qed.

(** What [create] leaves behind, with a hash of its size. *)
Hypothesis sha256_length : ∀ m, length (sha256 m) = 32%nat.
Hypothesis same_prefix : key_prefix (storage_service svc) = minio_sub_path svc.
Hypothesis printable_prefix : str_exists is_control (minio_sub_path svc) = false.
Hypothesis no_ttl : cache_ttl svc = None.
Hypothesis usable_keys : ∀ key, validate_cache_key key (key_prefix (storage_service svc)) = Ok () → usable key.

Lemma download_plain e key s :
  let got := (download_handler (storage_service svc) e key s).1 in
  resp_status got = 200 → client_body got = Some (resp_body got).
Proof.
  cbv zeta. unfold download_handler. destruct (service_get_image _ _ _ _) as [[data|err] s']; [done|].
  by destruct (classify_download_error err).
Qed.

(** A download that the layers let through is the handler's answer, tagged. *)
Lemma served_download e0 e1 key headers s :
  let request := mk_HttpRequest (DOWNLOAD_PATH_PREFIX +:+ key) headers in
  matched (path request) = Some (DownloadEndpoint key) → key ≠ EmptyString →
  header_value_ok (quoted key) = true →
  let_through request → header_text "if-none-match" request = None →
  let got := (download_handler (storage_service svc) e0 key s).1 in
  let out := (serve InTime e0 e1 request s).1 in
  resp_status got = 200 →
  resp_status out = 200 ∧ header "content-type" out = header "content-type" got
  ∧ header "cache-control" out = header "cache-control" got ∧ header "etag" out = Some (quoted key)
  ∧ client_body out = Some (resp_body got).
Proof.
  intros request Hm Hkey Hval [Hp Hl] Hinm got out Hst.
  set (inner := compress request (telemetry request got)).
  assert (Hinner : resp_status inner = 200 ∧ (∀ name, name ∈ kept_headers → header name inner = header name got)
    ∧ client_body inner = Some (resp_body got)).
  { unfold inner. destruct (compress_keeps request (telemetry request got)) as (-> & Hc & ->).
    destruct (telemetry_keeps request got) as (-> & Ht & ->). split_and!; [done| |by apply download_plain].
    intros name Hn. by rewrite Hc, Ht. }
  assert (Hout : out = stamp request (apply_conditional_headers (quoted key) inner)).
  { unfold out, app, apply_common_middlewares, conditional_download_middleware. rewrite Hp, Hl, Hinm.
    change (etag_for_request request) with (etag_for_request (revalidation key headers)).
    rewrite (etag_for_revalidation key headers) by done.
    unfold saturation_and_timeout_middleware, routes, build_app. rewrite Hm.
    cbn [path]. rewrite (surjective_pairing (download_handler (storage_service svc) e0 key s)).
    fold got. cbv beta iota. fold inner. by rewrite (proj1 Hinner). }
  destruct Hinner as (His & Hin & Hbody). rewrite Hout.
  destruct (stamp_keeps request (apply_conditional_headers (quoted key) inner)) as (-> & Hs & ->).
  rewrite !Hs by kept. unfold client_body, apply_conditional_headers. rewrite Hval.
  rewrite !header_insert. cbn [String.eqb]. rewrite <- !Hin by kept. done.
Qed.

End Surface.

(** ** Instances: the local deployment of [ResizeApi.v] behind inert layers *)

(** The patterns as [matchit] matches them, literal segments first. *)
Definition plain_matched (p : string) : option Endpoint :=
  let signed :=
    match split_once "/" (default p (strip_prefix "/" p)) with
    | Some (signature, rest) =>
        if str_is_empty signature || str_is_empty rest then None else Some ResizeEndpoint
    | None => None
    end in
  if String.eqb p "/" then Some RootEndpoint
  else if String.eqb p "/health" then Some HealthEndpoint
  else if String.eqb p "/metrics" then Some MetricsEndpoint
  else
    match strip_prefix DOWNLOAD_PATH_PREFIX p with
    | Some key =>
        if str_is_empty key || str_contains "/" key then signed else Some (DownloadEndpoint key)
    | None => signed
    end.

#[local] Existing Instance demo_images.

(** CORS stamps its header on every response; nobody is over the limit; the
    encoding of this compression is a mark in front of the body. *)
#[local] Instance open_layers : Layers := {
  preflight _ := None;
  stamp _ r := insert_header "access-control-allow-origin" "*" r;
  limited _ := None;
  compress _ r :=
    match header "content-encoding" r with
    | Some _ => r
    | None => insert_header "content-encoding" "mark" (mk_Response (resp_status r) (resp_headers r) ("*" +:+ resp_body r))
    end;
  telemetry _ r := r;
  inflate _ body := strip_prefix "*" body;
}.

#[local] Instance open_laws : LayerLaws.
Proof.
  split; intros request r; [cbn [stamp open_layers]|cbn [compress open_layers]|by split_and!].
  - split_and!; [done| |].
    + intros name Hn. rewrite header_insert.
      destruct (String.eqb_spec "access-control-allow-origin" name) as [<-|]; [|done].
      by apply (bool_decide_eq_true _) in Hn.
    + unfold client_body. by rewrite header_insert.
  - destruct (header "content-encoding" r) as [coding|] eqn:Hc; [by split_and!|]. split_and!; [done| |].
    + intros name Hn. rewrite header_insert. destruct (String.eqb_spec "content-encoding" name) as [<-|]; [|done].
      by apply (bool_decide_eq_true _) in Hn.
    + unfold client_body. rewrite header_insert, Hc. apply (strip_prefix_app "*").
Qed.

Definition flat_api : ApiService :=
  mk_ApiService
    (with_config InMemoryStorage (mk_StorageService "http://localhost/api/images/files" EmptyString) EmptyString
       (performance_default 4))
    (mk_SigningConfig [x2a] [x2a] true) preset_registry_empty unrestricted
    (Some (mk_MetricsAuthConfig [x2a] false)).

Definition flat_app : Verdict InMemory.InMemoryStorage → Z → Z → Handler InMemory.InMemoryStorage :=
  app (H := InMemory.backend) demo_sha (λ _ _, []) (λ _ _, false) (λ _, None) Some (λ _, "bad request") (λ s, s)
    plain_matched "# metrics" true flat_api.

Lemma revalidation_bypasses_guard_witness :
  let request := mk_HttpRequest "/api/images/files/k.png" [("if-none-match", "*")] in
  resp_status (flat_app AtCapacity 0 0 request ∅).1 = 304.
Proof.
  cbv zeta. refine (proj2 (revalidation_bypasses_guard (B := InMemory.backend) demo_sha (λ _ _, []) (λ _ _, false)
    (λ _, None) Some (λ _, "bad request") (λ s, s) plain_matched "# metrics" true flat_api AtCapacity 0 0
    (mk_HttpRequest "/api/images/files/k.png" [("if-none-match", "*")]) (quoted "k.png") "*" ∅ _ _ _ _));
    [by split|reflexivity..].
Defined.

Lemma metrics_need_the_token_witness :
  resp_status (flat_app InTime 0 0 (mk_HttpRequest "/metrics" [("authorization", "Bearer x")]) ∅).1 = 401.
Proof.
  destruct (metrics_need_the_token (B := InMemory.backend) demo_sha (λ _ _, []) (λ _ _, false)
    (λ _, None) Some (λ _, "bad request") (λ s, s) plain_matched "# metrics" true flat_api
    (mk_MetricsAuthConfig [x2a] false) InTime 0 0 (mk_HttpRequest "/metrics" [("authorization", "Bearer x")]) ∅)
    as [_ [Hst|Hst]]; try done.
  intros t _. unfold verify_token. by repeat case_match.
Defined.

Lemma nested_key_is_refused_witness :
  let request := mk_HttpRequest (DOWNLOAD_PATH_PREFIX +:+ "gen/k.png") [] in
  resp_status (flat_app InTime 0 0 request ∅).1 = 403.
Proof.
  cbv zeta. refine (proj1 (nested_key_is_refused (B := InMemory.backend) demo_sha (λ _ _, []) (λ _ _, false)
    (λ _, None) Some (λ _, "bad request") (λ s, s) plain_matched "# metrics" true flat_api InTime 0 0
    "gen/k.png" [] ∅ _ _ _ _ _ _)); try done; by split.
Defined.

Definition flat_key : string :=
  "0000000000000000000000000000000000000000000000000000000000000000.webp".

