(* ===== verification/Flight.v ===== *)
(** * The sequential endpoint is a run of the concurrent one

[ResizeApi.v] runs [ResizeService::resize] for one request on its own,
[SingleFlight.v] steps all requests at once.  Here the first is shown to be
what the second does when no other request holds the key. *)
From S2P Require Import Prelude RustStr RustFloat Params SourceGuard CacheKey KeyValidation Errors Storage StorageSelect HttpCache ResizeApi SingleFlight.

Section Lone.
Context `{StorageBackend E St} `{ImageService}.
Context (sha256 : list byte → list byte) (svc : ResizeService).

Abbreviation key_of := (generate_key sha256 (minio_sub_path svc)).
Abbreviation flight_run := (run key_of (get_cdn_url (storage_service svc)) image_process).

(** What the outside answers to the [n]-th request, [q], when its calls are
    made in [e0] and [e1] over the storage: [lone_work] from the download on. *)
Definition lone_work (n : nat) (e1 : E) (q : ResizeQuery) (s1 : St) : list Event :=
  Download n (image_download (rq_url q))
  :: match image_download (rq_url q) with
     | Err _ => []
     | Ok bytes =>
         Process n
         :: match image_process bytes q with
            | Err _ => []
            | Ok (img, ct) =>
                [Upload n (service_upload_image_with_ttl (storage_service svc) e1 (key_of q) ct img
                             (cache_ttl svc) s1).1]
            end
     end.

Definition lone_script (n : nat) (e0 e1 : E) (q : ResizeQuery) (s : St) : list Event :=
  let (checked, s1) := service_check_cache (storage_service svc) e0 (key_of q) s in
  Arrive q :: CheckCache n (negb (is_Ok checked))
  :: match checked with
     | Ok true => []
     | _ => Join n :: lone_work n e1 q s1
     end.

(** Request [n] is for [q] and stands in [p]. *)
Abbreviation stands st n q p := (requests st !! n = Some (mk_Request q p)).

Lemma stands_arrived (st : State) q :
  stands (st <| requests := requests st ++ [mk_Request q CheckingCache] |>) (length (requests st)) q CheckingCache.
Proof. simpl. rewrite lookup_app_r by lia. by rewrite Nat.sub_diag. Qed.

Lemma stands_set_phase st n q p p' : stands st n q p → stands (set_phase n p' st) n q p'.
Proof. intros Hp. rewrite lookup_set_phase, decide_True, Hp by done. done. Qed.

Lemma stands_finish st n q p r :
  stands st n q p → stands (finish n (key_of q) r st) n q (Returned r)
  ∧ in_flight (finish n (key_of q) r st) !! key_of q = None.
Proof.
  intros Hp. unfold finish. split.
  - assert (∃ p', stands (guard_drop (key_of q) (Some (map_err error_to_string r)) st) n q p') as [p' Hp'].
    { unfold guard_drop. destruct (in_flight st !! key_of q) as [l|]; [|by exists p].
      simpl. rewrite list_lookup_fmap, Hp. simpl.
      match goal with |- context [deliver ?l ?res ?r0] => pose proof (deliver_params l res r0) as Hd end.
      destruct (deliver _ _ _) as [q' p']. simpl in Hd. subst q'. by exists p'. }
    by eapply stands_set_phase.
  - simpl. unfold guard_drop. destruct (in_flight st !! key_of q) eqn:Hl; [|done]. simpl.
    apply lookup_delete_eq.
Qed.

Lemma run_cons st ev st' evs :
  step key_of (get_cdn_url (storage_service svc)) image_process st ev = Some st' →
  flight_run st (ev :: evs) = flight_run st' evs.
Proof. intros Hs. cbn [run]. by rewrite Hs. Qed.

(** From the download on, the leader does what [do_resize_work] does. *)
Lemma lone_work_done (st : State) n e1 q s1 :
  stands st n q Downloading →
  ∃ st', flight_run st (lone_work n e1 q s1) = Some st'
    ∧ stands st' n q (Returned (do_resize_work svc e1 (key_of q) q s1).1)
    ∧ in_flight st' !! key_of q = None.
Proof.
  intros Hd. unfold lone_work, do_resize_work.
  destruct (image_download (rq_url q)) as [bytes|err] eqn:Hdown.
  2: { eexists. split; [|by eapply stands_finish]. erewrite run_cons; [reflexivity|].
       cbn [step]. by rewrite Hd. }
  set (st1 := set_phase n (Processing bytes) st).
  assert (stands st1 n q (Processing bytes)) as H1 by (by eapply stands_set_phase).
  erewrite run_cons by (cbn [step]; by rewrite Hd). fold st1.
  destruct (image_process bytes q) as [[img ct]|err] eqn:Hproc.
  2: { eexists. split; [|by eapply stands_finish]. erewrite run_cons; [reflexivity|].
       cbn [step]. rewrite H1. cbn [mbind option_bind req_phase req_params]. by rewrite Hproc. }
  set (st2 := set_phase n (Uploading img ct) st1).
  assert (stands st2 n q (Uploading img ct)) as H2 by (by eapply stands_set_phase).
  erewrite run_cons by (cbn [step]; rewrite H1; cbn [mbind option_bind req_phase req_params]; by rewrite Hproc).
  fold st2.
  destruct (service_upload_image_with_ttl _ _ _ _ _ _ _) as [[[]|err] s']; cbn [fst].
  2: { eexists. split; [|by eapply stands_finish]. erewrite run_cons; [reflexivity|].
       cbn [step]. by rewrite H2. }
  set (st3 := st2 <| stored := <[key_of q := (img, ct)]> (stored st2) |>).
  exists (finish n (key_of q) (Ok (get_cdn_url (storage_service svc) (key_of q))) st3).
  split; [|by apply (stands_finish st3 n q (Uploading img ct))].
  erewrite run_cons; [reflexivity|]. cbn [step]. by rewrite H2.
Qed.

(** C8. A request that finds its key free goes through the same calls with the same
    answers as [resize] does, returns the same result, and leaves its key free
    again. *)
Theorem lone_request_is_resize (st : State) e0 e1 q s :
  in_flight st !! key_of q = None →
  (∀ hit, (service_check_cache (storage_service svc) e0 (key_of q) s).1 = Ok hit →
          hit = bool_decide (is_Some (stored st !! key_of q))) →
  let n := length (requests st) in
  ∃ st', flight_run st (lone_script n e0 e1 q s) = Some st'
    ∧ requests st' !! n = Some (mk_Request q (Returned (resize sha256 svc e0 e1 q s).1))
    ∧ in_flight st' !! key_of q = None.
Proof.
  intros Hfree Hagree n. unfold lone_script, resize.
  set (st1 := st <| requests := requests st ++ [mk_Request q CheckingCache] |>).
  pose proof (stands_arrived st q) as H1. fold st1 n in H1.
  assert (Hstep1 : ∀ evs, flight_run st (Arrive q :: evs) = flight_run st1 evs) by done.
  destruct (service_check_cache (storage_service svc) e0 (key_of q) s) as [checked s1].
  cbn [fst] in Hagree. cbn [is_Ok negb].
  assert (Hhit : checked = Ok true ∨ checked ≠ Ok true) by (destruct checked as [[]|]; auto).
  rewrite Hstep1. destruct Hhit as [->|Hmiss].
  { exists (set_phase n (Returned (Ok (get_cdn_url (storage_service svc) (key_of q)))) st1).
    split_and!; [|by eapply stands_set_phase|done].
    erewrite run_cons; [reflexivity|]. cbn [step]. rewrite H1. cbn [mbind option_bind req_phase].
    change (stored st1) with (stored st). unfold req_key. cbn [req_params]. by rewrite <- (Hagree true). }
  set (missed := set_phase n Missed st1).
  assert (stands missed n q Missed) as Hm by (by eapply stands_set_phase).
  set (led := set_phase n Downloading (missed <| in_flight := <[key_of q := n]> (in_flight missed) |>)).
  assert (stands led n q Downloading) as Hled by (by eapply (stands_set_phase _ _ _ Missed)).
  destruct (lone_work_done led n e1 q s1 Hled) as (st' & Hrun & Hst').
  exists st'. split.
  - erewrite run_cons; [|cbn [step]; rewrite H1; cbn [mbind option_bind req_phase]; unfold req_key; cbn [req_params];
      change (stored st1) with (stored st); destruct checked as [[]|]; [done| |done];
      by rewrite <- (Hagree false)].
    fold missed. replace (match checked with Ok true => [] | _ => Join n :: lone_work n e1 q s1 end)
      with (Join n :: lone_work n e1 q s1) by (by destruct checked as [[]|]).
    erewrite run_cons; [exact Hrun|]. cbn [step]. rewrite Hm. cbn [mbind option_bind req_phase].
    unfold req_key. cbn [req_params]. change (in_flight missed) with (in_flight st). by rewrite Hfree.
  - by destruct checked as [[]|].
Qed.
End Lone.

(** ** Instance: the local deployment of [ResizeApi.v], with nothing in flight *)

#[local] Existing Instance demo_images.

Definition lone_query : ResizeQuery :=
  resize_query_default <| rq_url := "o" |> <| rq_format := ImageFormat.Webp |>.

Lemma lone_request_is_resize_witness :
  let svc := resize_service demo_api in
  ∃ st', run (generate_key demo_sha (minio_sub_path svc)) (get_cdn_url (storage_service svc)) image_process
           SingleFlight.initial (lone_script (H := InMemory.backend) demo_sha svc 0 0%Z 0%Z lone_query ∅) = Some st'
    ∧ requests st' !! 0%nat
      = Some (mk_Request lone_query (Returned (Ok ("http://cdn/" +:+ demo_key)))).
Proof.
  cbv zeta.
  destruct (lone_request_is_resize (H := InMemory.backend) demo_sha (resize_service demo_api)
    SingleFlight.initial 0%Z 0%Z lone_query ∅) as (st' & Hrun & Hst & _).
  - done.
  - intros hit Hh. vm_compute in Hh. by injection Hh as <-.
  - exists st'. split; [exact Hrun|].
    replace (resize (H := InMemory.backend) demo_sha (resize_service demo_api) 0%Z 0%Z lone_query ∅).1
      with (@Ok AnyhowError string ("http://cdn/" +:+ demo_key)) in Hst by (vm_compute; reflexivity).
    exact Hst.
Defined.
