(* ===== verification/Shutdown.v ===== *)
(** * Starting and stopping: [src/main.rs]

How many worker threads the runtime gets, and the graceful shutdown of
[serve_with_graceful_shutdown] as a step relation: the server runs in a task
of its own, a signal starts the drain, and a timer bounds it.  Time is in
nanoseconds; a timer that is due is served before time goes on. *)
From S2P Require Import Prelude RustStr Performance Storage.

Local Open Scope Z_scope.

(** ** Configuration *)

Definition DEFAULT_SHUTDOWN_TIMEOUT_SECS : Z := 20.

Definition positive_env (max : Z) (var : option string) : option Z :=
  v ← var; n ← parse_uint max v; if 0 <? n then Some n else None.

(** [TOKIO_WORKER_THREADS], or [effective_cpu_count()]. *)
Definition worker_threads (var : option string) (cpus : Z) : Z :=
  default cpus (positive_env usize_max var).

Definition parse_shutdown_timeout (raw : option string) : Z :=
  default DEFAULT_SHUTDOWN_TIMEOUT_SECS (positive_env u64_max raw) * second.

(** ** The server and the drain *)

(** What [serve_with_graceful_shutdown] waits for: the signal, then the server
    task or the deadline. *)
Inductive DrainPhase :=
  | Serving
  | Draining (deadline : Z)
  | Exited (r : result string unit).

(** [accepting] until the server task sees the notification; [server_task] is
    what it returned or the text of its panic; [open_requests] are the accepted
    requests without an answer. *)
Record Process := mk_Process {
  clock : Z;
  drain_phase : DrainPhase;
  accepting : bool;
  open_requests : gset nat;
  server_task : option (result string unit);
}.

#[export] Instance process_eta : Eta Process := λ p,
  mk_Process (clock p) (drain_phase p) (accepting p) (open_requests p) (server_task p).

Definition started (t : Z) : Process := mk_Process t Serving true ∅ None.

Inductive ProcessEvent :=
  | Accept (i : nat)
  | Complete (i : nat)
  | ServerFails (msg : string)
  | Signal
  | Notice
  | Drained
  | JoinServer
  | Expire
  | Elapse (d : Z).

#[export] Instance process_event_eq_dec : EqDecision ProcessEvent.
Proof. solve_decision. Defined.

Section Drain.
Context (drain_timeout : Z).

Definition exited (p : Process) : bool :=
  match drain_phase p with Exited _ => true | _ => false end.

(** [Accept], [Complete], [Notice], [Drained] and [ServerFails] are the server's
    steps, as [axum::serve(..).with_graceful_shutdown(..)] documents them; the
    join is polled before its timer. *)
Definition process_step (p : Process) (ev : ProcessEvent) : option Process :=
  if exited p then None
  else
    match ev, drain_phase p, server_task p with
    | Accept i, _, None =>
        if accepting p && bool_decide (i ∉ open_requests p)
        then Some (p <| open_requests := {[i]} ∪ open_requests p |>) else None
    | Complete i, _, _ =>
        if bool_decide (i ∈ open_requests p)
        then Some (p <| open_requests := open_requests p ∖ {[i]} |>) else None
    | ServerFails msg, _, None => Some (p <| server_task := Some (Err msg) |>)
    | Signal, Serving, _ => Some (p <| drain_phase := Draining (clock p + drain_timeout) |>)
    | Notice, Draining _, None => if accepting p then Some (p <| accepting := false |>) else None
    | Drained, Draining _, None =>
        if negb (accepting p) && bool_decide (open_requests p = ∅)
        then Some (p <| server_task := Some (Ok ()) |>) else None
    | JoinServer, Draining _, Some r => Some (p <| drain_phase := Exited r |>)
    | Expire, Draining deadline, None =>
        if deadline <=? clock p then Some (p <| drain_phase := Exited (Ok ()) |>) else None
    | Elapse d, Serving, _ => if 0 <? d then Some (p <| clock := clock p + d |>) else None
    | Elapse d, Draining deadline, None =>
        if (0 <? d) && (clock p + d <=? deadline) then Some (p <| clock := clock p + d |>) else None
    | _, _, _ => None
    end.

Fixpoint process_run (p : Process) (evs : list ProcessEvent) : option Process :=
  match evs with
  | [] => Some p
  | ev :: rest => p' ← process_step p ev; process_run p' rest
  end.
End Drain.

(** ** Properties: configuration *)

Lemma positive_env_range max var n : positive_env max var = Some n → 0 < n ≤ max.
Proof.
  unfold positive_env. destruct var as [v|]; [|done]. cbn.
  destruct (parse_uint max v) as [m|] eqn:Hm; [|done]. cbn.
  apply parse_uint_range in Hm as [_ Hm]. destruct (Z.ltb_spec 0 m); [|done]. intros [= <-]. lia.
Qed.

(** There is always a thread to run on and time to drain in. *)
Lemma worker_threads_positive var cpus : 0 < cpus → 0 < worker_threads var cpus.
Proof.
  unfold worker_threads. destruct (positive_env _ var) eqn:Hn; [|done].
  by apply positive_env_range in Hn as [? _].
Qed.

Lemma shutdown_timeout_positive raw : 0 < parse_shutdown_timeout raw.
Proof.
  unfold parse_shutdown_timeout, second. destruct (positive_env _ raw) eqn:Hn; [|by vm_compute].
  apply positive_env_range in Hn. change (0 < z * 1000000000). lia.
Qed.

(** ** Properties: the drain *)

Section Graceful.
Context (drain_timeout : Z).
Hypothesis timeout_positive : 0 < drain_timeout.
Abbreviation step := (process_step drain_timeout).
Abbreviation run := (process_run drain_timeout).

(** What holds in every state: a drained server has no request left and accepts
    none, and it is only after the signal that it stops accepting. *)
Record drain_ok (p : Process) : Prop := {
  drained_is_empty : server_task p = Some (Ok ()) → open_requests p = ∅;
  serving_accepts : drain_phase p = Serving → accepting p = true ∧ server_task p ≠ Some (Ok ());
  deadline_ahead d : drain_phase p = Draining d → clock p ≤ d;
}.

Ltac step_cases H :=
  unfold process_step in H; destruct (exited _) eqn:?; [discriminate H|];
  repeat (case_match; try discriminate H); injection H as <-;
  rewrite ?andb_true_iff, ?bool_decide_eq_true, ?negb_true_iff, ?Z.ltb_lt, ?Z.leb_le in *;
  destruct_and?; simplify_eq/=.

Lemma step_ok p ev p' : drain_ok p → step p ev = Some p' → drain_ok p'.
Proof.
  intros [H1 H2 H3] Hs. destruct p as [t ph acc open task]. cbn in *.
  step_cases Hs; split; cbn; intros; simplify_eq; try done; try (by auto); try lia.
  all: try (split; [by apply H2|done]).
  all: try (by destruct (H2 eq_refl)).
  - rewrite H1 by done. set_solver.
Qed.

Lemma run_ok p evs p' : drain_ok p → run p evs = Some p' → drain_ok p'.
Proof.
  revert p. induction evs as [|ev evs IH]; intros p Hp; cbn.
  - by intros [= <-].
  - destruct (step p ev) as [q|] eqn:Hs; [|done]. apply IH. by eapply step_ok.
Qed.

Lemma run_app p evs evs' : run p (evs ++ evs') = run p evs ≫= λ q, run q evs'.
Proof.
  revert p. induction evs as [|ev evs IH]; intros p; [done|]. cbn.
  by destruct (step p ev); cbn.
Qed.

Definition begin_drain (p : Process) : Process :=
  p <| drain_phase := Draining (clock p + drain_timeout) |>.

(** Nothing but the signal ends the serving phase. *)
Lemma step_serving p ev q :
  drain_phase p = Serving → ev ≠ Signal → step p ev = Some q → drain_phase q = Serving.
Proof.
  intros Hph Hev Hs. destruct p as [t ph acc open task]. cbn in Hph. subst ph. by step_cases Hs.
Qed.

Lemma run_serving p evs p' :
  drain_phase p = Serving → run p evs = Some p' →
  drain_phase p' = Serving
  ∨ ∃ before after q, evs = before ++ Signal :: after ∧ run p before = Some q
      ∧ drain_phase q = Serving ∧ run (begin_drain q) after = Some p'.
Proof.
  revert p. induction evs as [|ev evs IH]; intros p Hph; cbn; [intros [= <-]; by left|].
  destruct (step p ev) as [q|] eqn:Hs; [|done]. cbn. intros Hrun.
  destruct (decide (ev = Signal)) as [->|Hev].
  - right. exists [], evs, p. split_and!; [done..|].
    unfold process_step in Hs. rewrite Hph in Hs. destruct (exited p); [done|]. injection Hs as <-. done.
  - pose proof (step_serving _ _ _ Hph Hev Hs) as Hq.
    destruct (IH q Hq Hrun) as [?|(before & after & q' & -> & Hb & ? & ?)]; [by left|].
    right. exists (ev :: before), after, q'. cbn. by rewrite Hs.
Qed.

(** What the drain leads to: time stays within the deadline, and the process
    exits with a drained server, with its failure, or at the deadline. *)
Lemma run_draining p d evs p' :
  drain_ok p → drain_phase p = Draining d → run p evs = Some p' →
  clock p ≤ clock p' ≤ d
  ∧ (drain_phase p' = Draining d
     ∨ (drain_phase p' = Exited (Ok ()) ∧ (open_requests p' = ∅ ∨ clock p' = d))
     ∨ ∃ msg, drain_phase p' = Exited (Err msg) ∧ server_task p' = Some (Err msg)).
Proof.
  intros Hp Hph Hrun. revert p Hp Hph Hrun.
  induction evs as [|ev evs IH]; intros p Hp Hph; cbn.
  { intros [= <-]. pose proof (deadline_ahead p Hp d Hph). split; [lia|by left]. }
  destruct (step p ev) as [q|] eqn:Hs; [|done]. cbn. intros Hrun.
  pose proof (step_ok _ _ _ Hp Hs) as Hq.
  assert (Hstop : exited q = true → p' = q).
  { intros He. destruct evs as [|ev' evs]; cbn in Hrun; [by injection Hrun|].
    unfold process_step in Hrun. by rewrite He in Hrun. }
  destruct p as [t ph acc open task]. cbn in Hph. subst ph.
  pose proof (deadline_ahead _ Hp d eq_refl) as Hd. pose proof (drained_is_empty _ Hp) as He. cbn in Hd, He.
  step_cases Hs.
  all: try (destruct (IH _ Hq eq_refl Hrun) as [Hc ?]; cbn in Hc; split; [lia|done]).
  all: rewrite Hstop by done; cbn; (split; [lia|]).
  - destruct r as [[]|msg]; [right; left|right; right; by exists msg]. split; [done|left; by apply He].
  - right; left. split; [done|]. right. lia.
Qed.

(** C31. The process exits only after a signal, no sooner than it must and no later
    than the timeout after it: with every request answered, at the deadline, or
    with the error of a server that failed. *)
Theorem shutdown_is_graceful t evs p r :
  run (started t) evs = Some p → drain_phase p = Exited r →
  ∃ before after q,
    evs = before ++ Signal :: after ∧ run (started t) before = Some q
    ∧ clock q ≤ clock p ≤ clock q + drain_timeout
    ∧ match r with
      | Ok _ => open_requests p = ∅ ∨ clock p = clock q + drain_timeout
      | Err msg => server_task p = Some (Err msg)
      end.
Proof.
  intros Hrun Hr.
  assert (drain_ok (started t)) as H0 by by split.
  destruct (run_serving (started t) _ _ eq_refl Hrun) as [?|(before & after & q & -> & Hb & Hq & Ha)]; [congruence|].
  exists before, after, q. split; [done|]. split; [done|].
  assert (drain_ok (begin_drain q)) as Hbq
    by (pose proof (run_ok _ _ _ H0 Hb) as [? ? ?]; split; cbn; try done; intros ? [= <-]; change (clock q ≤ clock q + drain_timeout); lia).
  destruct (run_draining (begin_drain q) _ _ _ Hbq eq_refl Ha) as [Hc Hcases]. change (clock (begin_drain q)) with (clock q) in Hc.
  split; [done|]. destruct Hcases as [?|[[Hok ?]|(msg & Herr & ?)]]; [congruence| |].
  - by replace r with (@Ok string unit ()) by congruence.
  - by replace r with (@Err string unit msg) by congruence.
Qed.

(** What is left to do of a drain, at most: time, answers, the end of the
    server task, the join. *)
Definition work_left (p : Process) : Z :=
  match drain_phase p with
  | Exited _ => 0
  | Serving => 0
  | Draining d =>
      d - clock p + Z.of_nat (size (open_requests p))
      + (if server_task p is None then 1 else 0) + 1
  end.

Lemma step_works p d ev p' :
  drain_ok p → drain_phase p = Draining d → accepting p = false → step p ev = Some p' →
  accepting p' = false ∧ 0 ≤ work_left p' < work_left p
  ∧ (drain_phase p' = Draining d ∨ exited p' = true).
Proof.
  intros Hp Hph Hacc Hs. destruct p as [t ph acc open task]. cbn in Hph, Hacc. subst.
  pose proof (deadline_ahead _ Hp d eq_refl) as Hd. cbn in Hd.
  step_cases Hs; unfold work_left; cbn; (split; [done|]); (split; [|by auto]); try lia.
  rewrite size_difference, size_singleton by set_solver.
  assert (size open ≠ 0%nat) by (intros ?%size_empty_inv; set_solver).
  case_match; lia.
Qed.

(** Once the server has noticed, the drain comes to its end: no more steps are
    taken than there are nanoseconds to the deadline and requests to answer,
    and as long as the process has not exited there is a step to take that is
    neither a new request nor a failure. *)
Theorem drain_terminates p d evs p' :
  drain_ok p → drain_phase p = Draining d → accepting p = false → run p evs = Some p' →
  Z.of_nat (length evs) ≤ d - clock p + Z.of_nat (size (open_requests p)) + 2
  ∧ (exited p' = true
     ∨ ∃ ev, is_Some (step p' ev) ∧ (∀ i, ev ≠ Accept i) ∧ ∀ msg, ev ≠ ServerFails msg).
Proof.
  intros Hp Hph Hacc Hrun.
  assert (Hlen : Z.of_nat (length evs) ≤ work_left p - work_left p'
                 ∧ 0 ≤ work_left p'
                 ∧ (drain_ok p' ∧ drain_phase p' = Draining d ∧ accepting p' = false ∨ exited p' = true)).
  { revert p Hp Hph Hacc Hrun. induction evs as [|ev evs IH]; intros p Hp Hph Hacc; cbn.
    { intros [= <-]. pose proof (deadline_ahead p Hp d Hph). split; [lia|]. split; [|by left].
      unfold work_left. rewrite Hph. case_match; lia. }
    destruct (step p ev) as [q|] eqn:Hs; [|done]. cbn. intros Hrun.
    destruct (step_works _ _ _ _ Hp Hph Hacc Hs) as (Hq & Hw & [Hdq|He]).
    - destruct (IH q (step_ok _ _ _ Hp Hs) Hdq Hq Hrun) as (? & ? & ?). split_and!; [lia|done|done].
    - destruct evs as [|ev' evs]; cbn in Hrun.
      + injection Hrun as <-. cbn. split_and!; [lia|lia|by right].
      + unfold process_step in Hrun. by rewrite He in Hrun. }
  destruct Hlen as (Hlen & Hw & Hend). split.
  { revert Hlen. unfold work_left at 1. rewrite Hph. case_match; lia. }
  destruct Hend as [(Hok & Hd & Ha)|]; [right|by left]. destruct p' as [t ph acc open task].
  cbn in Hd, Ha. subst. pose proof (deadline_ahead _ Hok d eq_refl) as Ht. cbn in Ht.
  destruct task as [r|].
  { exists JoinServer. split; [by eexists|done]. }
  destruct (decide (t = d)) as [->|Hne].
  { exists Expire. split; [|done]. unfold process_step. cbn. rewrite Z.leb_refl. by eexists. }
  exists (Elapse (d - t)). split; [|done]. unfold process_step. cbn.
  rewrite (proj2 (Z.ltb_lt 0 _)), (proj2 (Z.leb_le _ d)) by lia. by eexists.
Qed.
End Graceful.

(** ** Instances: one request finishes in the drain, one does not *)

Definition drain_example : list ProcessEvent :=
  [Accept 0; Accept 1; Elapse 500; Signal; Elapse 3; Notice; Complete 1; Elapse 7; Expire].

Lemma shutdown_is_graceful_witness :
  ∃ p, process_run 10 (started 0) drain_example = Some p
    ∧ drain_phase p = Exited (Ok ()) ∧ clock p = 510 ∧ open_requests p = {[0%nat]}.
Proof.
  destruct (process_run 10 (started 0) drain_example) as [p|] eqn:Hrun; [|vm_compute in Hrun; discriminate].
  assert (drain_phase p = Exited (Ok ()) ∧ open_requests p = {[0%nat]} ∧ 510 ≤ clock p) as (Hr & Ho & Ht)
    by (vm_compute in Hrun; injection Hrun as <-; repeat split; vm_compute; congruence).
  destruct (shutdown_is_graceful 10 ltac:(done) 0 drain_example p _ Hrun Hr) as (before & after & q & _ & _ & _ & Hcase).
  exists p. split_and!; [done|done| |done].
  destruct Hcase as [He|Hc]; [rewrite Ho in He; discriminate|].
  vm_compute in Hrun. by injection Hrun as <-.
Defined.

Lemma drain_terminates_witness :
  let p := mk_Process 0 (Draining 10) false {[0%nat]} None in
  ∃ p', process_run 10 p [Complete 0; Drained; JoinServer] = Some p' ∧ exited p' = true ∧ (3 ≤ 10 + 1 + 2).
Proof.
  cbv zeta. set (p := mk_Process 0 (Draining 10) false {[0%nat]} None).
  destruct (process_run 10 p [Complete 0; Drained; JoinServer]) as [p'|] eqn:Hrun;
    [|vm_compute in Hrun; discriminate].
  assert (drain_ok p) as Hp by (split; [done|done|intros d [= <-]; cbn; lia]).
  destruct (drain_terminates 10 ltac:(done) p 10 _ p' Hp eq_refl eq_refl Hrun) as [Hlen _].
  exists p'. split; [done|]. split; [|exact Hlen].
  vm_compute in Hrun. by injection Hrun as <-.
Defined.
