(* ===== verification/Tracing.v ===== *)
(** * Telemetry: [src/modules/tracer/init.rs]

What the exporters, the providers and the subscriber are set up with, in which
order they become the process's own, and what has been done when a step
fails.  Whether an exporter can be built is the libraries' answer. *)
From S2P Require Import Prelude RustStr Presets Performance Access Storage StorageSelect ResizeApi.

Local Open Scope Z_scope.

Inductive SamplerKind := AlwaysOn.
Inductive CompressionKind := Gzip.
Inductive ProtocolKind := Grpc.

Record ExporterConfig := mk_ExporterConfig {
  exporter_compression : CompressionKind;
  exporter_endpoint : string;
  exporter_timeout : Z;
}.

Record TracerConfig := mk_TracerConfig {
  tracer_exporter : ExporterConfig;
  tracer_sampler : SamplerKind;
  max_events_per_span : Z;
  max_attributes_per_span : Z;
  tracer_service_name : string;
}.

Record MeterConfig := mk_MeterConfig {
  meter_exporter : ExporterConfig;
  meter_protocol : ProtocolKind;
  meter_interval : Z;
  meter_service_name : string;
}.

#[export] Instance sampler_eq_dec : EqDecision SamplerKind.
Proof. solve_decision. Defined.
#[export] Instance compression_eq_dec : EqDecision CompressionKind.
Proof. solve_decision. Defined.
#[export] Instance protocol_eq_dec : EqDecision ProtocolKind.
Proof. solve_decision. Defined.
#[export] Instance exporter_config_eq_dec : EqDecision ExporterConfig.
Proof. solve_decision. Defined.
#[export] Instance tracer_config_eq_dec : EqDecision TracerConfig.
Proof. solve_decision. Defined.
#[export] Instance meter_config_eq_dec : EqDecision MeterConfig.
Proof. solve_decision. Defined.

Inductive TraceEffect :=
  | SetTracerProvider (c : TracerConfig)
  | SetMeterProvider (c : MeterConfig)
  | InitSubscriber (log_level : string).

#[export] Instance trace_effect_eq_dec : EqDecision TraceEffect.
Proof. solve_decision. Defined.

Inductive TraceError := NotBuilt (msg : string) | SubscriberSet.

Section Telemetry.
(** What building each exporter comes to, and whether the process already has a
    subscriber, which [init()] panics on. *)
Context (span_exporter metric_exporter : ExporterConfig → result string unit).
Context (prometheus_exporter : result string unit) (subscriber_set : bool).

Definition init_tracer_provider (otlp_span_endpoint otlp_service_name : string)
  : list TraceEffect * result TraceError TracerConfig :=
  let exporter := mk_ExporterConfig Gzip otlp_span_endpoint (3 * second) in
  match span_exporter exporter with
  | Err e => ([], Err (NotBuilt e))
  | Ok _ =>
      let provider := mk_TracerConfig exporter AlwaysOn 16 16 otlp_service_name in
      ([SetTracerProvider provider], Ok provider)
  end.

Definition init_meter_provider (otlp_metric_endpoint otlp_service_name : string)
  : list TraceEffect * result TraceError MeterConfig :=
  match prometheus_exporter with
  | Err e => ([], Err (NotBuilt e))
  | Ok _ =>
      let exporter := mk_ExporterConfig Gzip otlp_metric_endpoint (3 * second) in
      match metric_exporter exporter with
      | Err e => ([], Err (NotBuilt e))
      | Ok _ =>
          let provider := mk_MeterConfig exporter Grpc (3 * second) otlp_service_name in
          ([SetMeterProvider provider], Ok provider)
      end
  end.

(** The requests the metrics leave out. *)
Definition skipped (path : string) : bool := starts_with "/health" path || starts_with "/metrics" path.

Definition init_tracing (config : EnvConfig)
  : list TraceEffect * result TraceError (TracerConfig * MeterConfig) :=
  let name := env_otlp_service_name config in
  let '(traces, tracer) := init_tracer_provider (env_otlp_span_endpoint config) name in
  match tracer with
  | Err e => (traces, Err e)
  | Ok tracer =>
      let '(meters, meter) := init_meter_provider (env_otlp_metric_endpoint config) name in
      match meter with
      | Err e => (traces ++ meters, Err e)
      | Ok meter =>
          if subscriber_set then (traces ++ meters, Err SubscriberSet)
          else (traces ++ meters ++ [InitSubscriber (env_log_level config)], Ok (tracer, meter))
      end
  end.

(** Telemetry is complete, or stops where a step failed, with both providers
    under one service name. *)
Lemma init_tracing_effects config effects r :
  init_tracing config = (effects, r) →
  match r with
  | Ok (tracer, meter) =>
      effects = [SetTracerProvider tracer; SetMeterProvider meter; InitSubscriber (env_log_level config)]
      ∧ tracer_service_name tracer = env_otlp_service_name config
      ∧ meter_service_name meter = env_otlp_service_name config
  | Err _ => ∀ eff, eff ∈ effects → match eff with InitSubscriber _ => False | _ => True end
  end.
Proof.
  unfold init_tracing, init_tracer_provider, init_meter_provider.
  destruct (span_exporter _); [|intros [= <- <-] eff []%elem_of_nil].
  destruct prometheus_exporter; [destruct (metric_exporter _)|];
    [destruct subscriber_set|..]; intros [= <- <-]; try done; intros eff; rewrite ?elem_of_cons, elem_of_nil; naive_solver.
Qed.
End Telemetry.

(** The probes and the metrics themselves are left out, downloads are not. *)
Lemma skipped_paths key :
  skipped "/health" = true ∧ skipped "/metrics" = true ∧ skipped ("/api/images/files/" +:+ key) = false.
Proof. done. Qed.
