(* ===== verification/Startup.v ===== *)
(** * Startup: [main] and [async_main] of [src/main.rs],
    [src/modules/utils/crypto.rs] and the signals

What happens from the start of the process to its end, in which order, and
what is skipped when a step fails; and how the two signal handlers start the
drain of [Shutdown.v].  Building the runtime and sockets are libraries: each is
what it comes to, and leaves an effect in the order of the calls; telemetry is
that of [Tracing.v]. *)
From S2P Require Import Prelude RustStr Presets Performance Access Storage StorageSelect HttpCache ResizeApi Workers Shutdown Tracing.

Local Open Scope Z_scope.

(** ** The TLS provider of the process *)

(** [installed] is whether the process has one; [INIT] is whether the [Once] has
    run. *)
Definition install_crypto_provider (installed : bool) : result string unit * bool :=
  if installed
  then (Err "a rustls crypto provider was already installed before Graviola could be - refusing to start with an unknown TLS backend",
        true)
  else (Ok (), true).

Definition ensure_crypto_provider_installed (INIT installed : bool) : bool * bool :=
  if INIT then (true, installed) else (true, (install_crypto_provider installed).2).

(** ** Signals *)

Inductive Sig := SIGINT | SIGTERM.

#[export] Instance sig_eq_dec : EqDecision Sig.
Proof. solve_decision. Defined.

(** Whether the handlers could be installed. *)
Record Handlers := mk_Handlers {
  sigint_handler : result string unit;
  sigterm_handler : result string unit;
}.

(** Whether each branch of [wait_for_shutdown_signal] has finished, given the
    signals received so far: an error of [ctrl_c()] is logged and ends its
    branch, one of [signal(..)] leaves its branch pending. *)
Definition ctrl_c (h : Handlers) (seen : list Sig) : bool :=
  match sigint_handler h with
  | Ok _ => bool_decide (SIGINT ∈ seen)
  | Err _ => true
  end.

Definition terminate (h : Handlers) (seen : list Sig) : bool :=
  match sigterm_handler h with
  | Ok _ => bool_decide (SIGTERM ∈ seen)
  | Err _ => false
  end.

Definition wait_for_shutdown_signal (h : Handlers) (seen : list Sig) : bool :=
  ctrl_c h seen || terminate h seen.

(** The process with the signals it has received: the drain starts when the
    wait has ended. *)
Inductive LifeEvent := Receive (s : Sig) | Step (ev : ProcessEvent).

Definition life_step (drain_timeout : Z) (h : Handlers) (st : list Sig * Process) (ev : LifeEvent)
  : option (list Sig * Process) :=
  match ev with
  | Receive s => Some (s :: st.1, st.2)
  | Step Signal =>
      if wait_for_shutdown_signal h st.1
      then p ← process_step drain_timeout st.2 Signal; Some (st.1, p) else None
  | Step ev => p ← process_step drain_timeout st.2 ev; Some (st.1, p)
  end.

Fixpoint life_run (drain_timeout : Z) (h : Handlers) (st : list Sig * Process) (evs : list LifeEvent)
  : option (list Sig * Process) :=
  match evs with
  | [] => Some st
  | ev :: rest => st' ← life_step drain_timeout h st ev; life_run drain_timeout h st' rest
  end.

(** ** The order of startup *)

Inductive Effect :=
  | InstallProvider
  | BuildRuntime (threads : Z)
  | Telemetry (t : TraceEffect)
  | BindListener (addr : string)
  | Serve (shutdown_timeout : Z)
  | ShutDownTraces
  | ShutDownMeters.

#[export] Instance effect_eq_dec : EqDecision Effect.
Proof. solve_decision. Defined.

(** What a step fails with. *)
Inductive StartError :=
  | Message (msg : string)
  | CreateFailed (e : CreateError)
  | TelemetryFailed (e : TraceError)
  | Panics.

(** The effects so far and the result, with [?] in between. *)
Definition Boot (A : Type) : Type := list Effect * result StartError A.

#[export] Instance boot_ret : MRet Boot := λ A a, ([], Ok a).
#[export] Instance boot_bind : MBind Boot := λ A B k m,
  match m with
  | (effects, Ok a) => let (more, r) := k a in (effects ++ more, r)
  | (effects, Err e) => (effects, Err e)
  end.

Definition attempt {A} (r : result string A) : Boot A := ([], map_err Message r).
Definition perform {A} (eff : Effect) (r : result string A) : Boot A :=
  match r with
  | Ok a => ([eff], Ok a)
  | Err e => ([], Err (Message e))
  end.

(** What the process meets. *)
Record World := mk_World {
  provider_installed : bool;
  tokio_worker_threads : option string;
  available_cpus : Z;
  runtime_built : result string unit;
  environment : result string EnvConfig;
  span_exporter_built : ExporterConfig → result string unit;
  prometheus_built : result string unit;
  metric_exporter_built : ExporterConfig → result string unit;
  subscriber_already_set : bool;
  parse_socket_addr : string → result string string;
  listener_bound : result string unit;
  storage_type_var : option string;
  request_timeout_var : option string;
  max_concurrent_requests_var : option string;
  rate_limit_burst_var : option string;
  rate_limit_period_var : option string;
  info_enabled : bool;
  local_addr : result string unit;
  shutdown_timeout_var : option string;
  served : result string unit;
}.

Section Main.
Context (otel : bool) (build : Build) (w : World).

(** [format!("{}:{:?}", ..).parse::<SocketAddr>()] *)
Definition listen_addr (config : EnvConfig) : result string string :=
  parse_socket_addr w (env_http_host config +:+ ":" +:+ uint_to_string (env_http_port config)).

(** [ApiService::create] with the S3 client and the semaphores it makes: the
    client panics in a process without a TLS provider, a semaphore when it is
    asked for too many permits. *)
Definition build_https_client (installed : bool) : Boot unit :=
  if installed then mret () else ([], Err Panics).

Definition semaphores {A} (made : option A) : Boot A :=
  match made with Some a => mret a | None => ([], Err Panics) end.

Definition create_api (installed : bool) (config : EnvConfig) : Boot ApiService :=
  api ← (([], map_err CreateFailed (create otel build (available_cpus w) (storage_type_var w) config)) : Boot ApiService);
  _ ← match storage_backend (resize_service api) with
      | MinIOStorage _ => build_https_client installed
      | _ => mret ()
      end;
  _ ← semaphores (image_service_with_config (performance_config (resize_service api)));
  mret api.

(** [router]: the layers take their configuration from the environment. *)
Definition middleware_config : MiddlewareConfig :=
  middleware_config_from_env (request_timeout_var w) (max_concurrent_requests_var w)
    (rate_limit_burst_var w) (rate_limit_period_var w).

Definition saturation_guard : Boot nat := semaphores (semaphore_new (max_concurrent_requests middleware_config)).

Definition telemetry (config : EnvConfig) : Boot unit :=
  let (effects, r) :=
    init_tracing (span_exporter_built w) (metric_exporter_built w) (prometheus_built w) (subscriber_already_set w) config in
  (Telemetry <$> effects, match r with Ok _ => Ok () | Err e => Err (TelemetryFailed e) end).

(** What the server returned is the result; failures of the exporters are only
    logged. *)
(** The arguments of [info!] are evaluated, and their [?] taken, only when the
    event is enabled. *)
Definition announce : Boot unit := if info_enabled w then attempt (local_addr w) else mret ().

Definition async_main (installed : bool) : Boot unit :=
  config ← attempt (environment w);
  _ ← (if otel then telemetry config else mret ());
  addr ← attempt (listen_addr config);
  _ ← perform (BindListener addr) (listener_bound w);
  _ ← create_api installed config;
  _ ← saturation_guard;
  _ ← announce;
  _ ← perform (Serve (parse_shutdown_timeout (shutdown_timeout_var w))) (Ok ());
  _ ← (if otel then perform ShutDownTraces (Ok ()) else mret ());
  _ ← (if otel then perform ShutDownMeters (Ok ()) else mret ());
  attempt (served w).

Definition main : Boot unit :=
  let (installing, installed) := install_crypto_provider (provider_installed w) in
  _ ← perform InstallProvider installing;
  let threads := worker_threads (tokio_worker_threads w) (available_cpus w) in
  _ ← perform (BuildRuntime threads) (runtime_built w);
  async_main installed.
End Main.

(** ** Properties: the TLS provider *)

(** However often it is asked for, a provider is installed and stays. *)
Lemma ensure_installs INIT installed :
  (INIT = true → installed = true) → ensure_crypto_provider_installed INIT installed = (true, true).
Proof. destruct INIT, installed; naive_solver. Qed.

(** ** Properties: the order of startup *)

Lemma boot_bind_inv {A B} (m : Boot A) (k : A → Boot B) effects r :
  (m ≫= k) = (effects, r) →
  (∃ e, m = (effects, Err e) ∧ r = Err e)
  ∨ ∃ before a after, m = (before, Ok a) ∧ k a = (after, r) ∧ effects = before ++ after.
Proof.
  destruct m as [before [a|e]]; cbn.
  - destruct (k a) as [after r'] eqn:Hk. intros [= <- <-]. right. by exists before, a, after.
  - intros [= <- <-]. left. by exists e.
Qed.

Lemma perform_inv {A} eff (m : result string A) effects r :
  perform eff m = (effects, r) → (effects = [] ∧ ∃ e, r = Err e) ∨ (effects = [eff] ∧ ∃ a, m = Ok a ∧ r = Ok a).
Proof. destruct m; intros [= <- <-]; [right|left]; eauto. Qed.

Lemma attempt_inv {A} (m : result string A) effects r :
  attempt m = (effects, r) → (effects = [] ∧ ∃ e, r = Err e) ∨ (effects = [] ∧ ∃ a, m = Ok a ∧ r = Ok a).
Proof. destruct m; intros [= <- <-]; [right|left]; eauto. Qed.

Lemma semaphores_inv {A} (m : option A) effects r :
  semaphores m = (effects, r) → effects = [] ∧ (r = Err Panics ∨ ∃ a, m = Some a ∧ r = Ok a).
Proof. destruct m; intros [= <- <-]; eauto. Qed.

(** Effects of a process that does not serve yet. *)
Definition quiet (eff : Effect) : Prop :=
  match eff with Serve _ | ShutDownTraces | ShutDownMeters => False | _ => True end.

Lemma quiet_telemetry l : Forall quiet (Telemetry <$> l).
Proof. by apply Forall_fmap, Forall_true. Qed.

Ltac quietly := left; split; [|by eexists]; repeat (apply Forall_app; split); try done; by repeat constructor.

(** The next step of startup: it fails and nothing follows, or it is done. *)
Ltac step H a :=
  let H1 := fresh "H1" in let Ha := fresh "H" a in let rest := fresh "rest" in
  apply boot_bind_inv in H as [(? & H & ->)|(? & a & rest & H1 & H & ->)];
  [ first [apply perform_inv in H | apply attempt_inv in H];
    destruct H as [[-> _]|[_ (? & _ & [=])]]; quietly
  | first [apply perform_inv in H1 | apply attempt_inv in H1];
    destruct H1 as [[_ [? [=]]]|[-> (? & Ha & [= <-])]] ].

Section Order.
Context (otel : bool) (build : Build) (w : World).

(** The telemetry of a process that serves. *)
Definition telemetry_effects (config : EnvConfig) (effects : list Effect) : Prop :=
  if otel then ∃ tracer meter,
    effects = Telemetry <$> [SetTracerProvider tracer; SetMeterProvider meter; InitSubscriber (env_log_level config)]
    ∧ tracer_service_name tracer = env_otlp_service_name config
    ∧ meter_service_name meter = env_otlp_service_name config
  else effects = [].

(** A process that serves has gone through every step before, with what each
    needs. *)
Record serves (effects : list Effect) (r : result StartError unit) : Prop := {
  serving_fresh : provider_installed w = false;
  serving_configured : ∃ config api threads addr timeout traced,
    environment w = Ok config
    ∧ create otel build (available_cpus w) (storage_type_var w) config = Ok api
    ∧ authenticated otel config api
    ∧ is_Some (image_service_with_config (performance_config (resize_service api)))
    ∧ is_Some (semaphore_new (max_concurrent_requests (middleware_config w)))
    ∧ 0 < threads ∧ 0 < timeout ∧ telemetry_effects config traced
    ∧ effects = [InstallProvider; BuildRuntime threads] ++ traced ++ [BindListener addr; Serve timeout]
                  ++ (if otel then [ShutDownTraces; ShutDownMeters] else []);
  serving_result : r = map_err Message (served w);
}.

(** One that does not ends with an error, and the provider before anything. *)
Record refuses (effects : list Effect) (r : result StartError unit) : Prop := {
  refused_error : ∃ e, r = Err e;
  refused_unserved eff : eff ∈ effects → quiet eff;
  refused_provider : effects = [] ∨ ∃ rest, effects = InstallProvider :: rest ∧ provider_installed w = false;
}.

Lemma refuses_prefix effects e :
  provider_installed w = false → Forall quiet effects → refuses (InstallProvider :: effects) (Err e).
Proof.
  intros Hp Hall. split; [by eexists| |right; by eexists].
  rewrite Forall_forall in Hall. intros eff Hin. apply elem_of_cons in Hin as [->|Hin]; [done|by apply Hall].
Qed.

Lemma telemetry_inv config effects r :
  (if otel then telemetry w config else mret ()) = (effects, r) →
  Forall quiet effects ∧ ((∃ e, r = Err e) ∨ (r = Ok () ∧ telemetry_effects config effects)).
Proof.
  unfold telemetry_effects. destruct otel; [|intros [= <- <-]; split; [done|by right]].
  unfold telemetry. destruct (init_tracing _ _ _ _ _) as [l res] eqn:Hinit. intros [= <- <-].
  split; [apply quiet_telemetry|]. apply init_tracing_effects in Hinit. destruct res as [[tracer meter]|e]; [right|left; eauto].
  destruct Hinit as (-> & Ht & Hm). split; [done|]. by exists tracer, meter.
Qed.

(** The S3 client never panics: by the time it is made there is a provider. *)
Lemma create_api_inv config effects r :
  create_api otel build w true config = (effects, r) →
  effects = [] ∧ ((∃ e, r = Err e) ∨ ∃ api, r = Ok api
    ∧ create otel build (available_cpus w) (storage_type_var w) config = Ok api
    ∧ is_Some (image_service_with_config (performance_config (resize_service api)))).
Proof.
  unfold create_api. intros H. apply boot_bind_inv in H as [(e & H & ->)|(? & api & ? & H1 & H & ->)];
    [injection H as <- _; eauto|]. injection H1 as <- Hcreate. apply map_err_Ok in Hcreate.
  apply boot_bind_inv in H as [(e & H & ->)|(before & [] & after & H1 & H & ->)];
    [by destruct (storage_backend _)|]. assert (before = []) as -> by (by destruct (storage_backend _); injection H1 as <-).
  apply boot_bind_inv in H as [(e & H & ->)|(? & sv & ? & H2 & H & ->)].
  - apply semaphores_inv in H as [-> _]. eauto.
  - apply semaphores_inv in H2 as [-> [?|(sv' & Hsv & _)]]; [done|]. injection H as <- <-. split; [done|]. right.
    exists api. by rewrite Hsv.
Qed.

(** C20. The service starts behind a TLS provider of its own, with a signing key and
    a metrics token configured or their absence waived, its telemetry complete
    and its three semaphores made - for downloads, processing and requests -,
    and returns what the server returned, its telemetry shut
    down after it - or it does not serve at all, and says why. *)
Theorem main_serves_or_refuses effects r :
  0 < available_cpus w → main otel build w = (effects, r) → serves effects r ∨ refuses effects r.
Proof.
  intros Hcpus H. unfold main, install_crypto_provider in H. destruct (provider_installed w) eqn:Hprov.
  { injection H as <- <-. right. split; [by eexists|by intros eff Hin; apply elem_of_nil in Hin|by left]. }
  apply boot_bind_inv in H as [(e & [=] & _)|(? & [] & rest & [= <-] & H & ->)].
  set (threads := worker_threads _ _) in H.
  assert (0 < threads) as Hthreads by by apply worker_threads_positive.
  assert ((Forall quiet rest ∧ ∃ e, r = Err e) ∨ serves (InstallProvider :: rest) r) as [[Hq [e ->]]|Hs];
    [|right; by apply refuses_prefix|by left].
  step H built. step H config.
  apply boot_bind_inv in H as [(e & H & ->)|(traced & [] & ? & H1 & H & ->)].
  { apply telemetry_inv in H as [Hq _]. quietly. }
  apply telemetry_inv in H1 as [Hq [[? [=]]|[_ Htraced]]].
  step H addr. step H bound.
  apply boot_bind_inv in H as [(e & H & ->)|(? & api & ? & H1 & H & ->)];
    [apply create_api_inv in H as [-> _]; quietly|].
  apply create_api_inv in H1 as [-> [[? [=]]|(api' & [= <-] & Hcreate & Hsem)]].
  apply boot_bind_inv in H as [(e & H & ->)|(? & guard & ? & H1 & H & ->)];
    [apply semaphores_inv in H as [-> _]; quietly|].
  apply semaphores_inv in H1 as [-> [?|(guard' & Hguard & _)]]; [done|].
  apply boot_bind_inv in H as [(e & H & ->)|(announced & [] & ? & H1 & H & ->)].
  { unfold announce in H. destruct (info_enabled w); [|done]. apply attempt_inv in H as [[-> _]|[-> _]]; quietly. }
  assert (announced = []) as -> by (unfold announce in H1; destruct (info_enabled w); [|by injection H1 as <-];
    by apply attempt_inv in H1 as [[-> _]|[-> _]]).
  right. assert (r = map_err Message (served w)
    ∧ x = Serve (parse_shutdown_timeout (shutdown_timeout_var w)) :: (if otel then [ShutDownTraces; ShutDownMeters] else []))
    as [Hr ->].
  { revert H. unfold attempt, perform, mret, boot_ret, mbind, boot_bind. destruct otel; cbn; destruct (served w); by intros [= <- <-]. }
  split; [done| |exact Hr]. exists config, api, threads, addr, (parse_shutdown_timeout (shutdown_timeout_var w)), traced.
  split_and!; [done|done|by eapply create_authenticated|done|by eexists|done|apply shutdown_timeout_positive|done|].
  by rewrite !app_nil_l.
Qed.
End Order.

(** ** Properties: signals *)

Section Signals.
Context (drain_timeout : Z) (h : Handlers).
Hypothesis handlers_installed : sigint_handler h = Ok () ∧ sigterm_handler h = Ok ().

Lemma waits_for_a_signal seen : wait_for_shutdown_signal h seen = true ↔ seen ≠ [].
Proof.
  unfold wait_for_shutdown_signal, ctrl_c, terminate. destruct handlers_installed as [-> ->].
  rewrite orb_true_iff, !bool_decide_eq_true. split.
  - intros [H|H] ->; by apply elem_of_nil in H.
  - destruct seen as [|[] seen]; [done|left|right]; by left.
Qed.

(** It serves, or has received a signal. *)
Definition undisturbed (st : list Sig * Process) : Prop := drain_phase st.2 = Serving ∨ st.1 ≠ [].

Lemma life_step_inv st ev st' :
  life_step drain_timeout h st ev = Some st' →
  (undisturbed st → undisturbed st') ∧ st'.1 = match ev with Receive s => [s] | Step _ => [] end ++ st.1.
Proof.
  unfold undisturbed. destruct ev as [s|ev]; cbn.
  - intros [= <-]. split; [by right|done].
  - destruct (decide (ev = Signal)) as [->|Hne].
    + destruct (wait_for_shutdown_signal h st.1) eqn:Hw; [|done]. apply waits_for_a_signal in Hw.
      intros (p & Hp & [= <-])%bind_Some. split; [by right|done].
    + intros H. assert (∃ p, process_step drain_timeout st.2 ev = Some p ∧ st' = (st.1, p)) as (p & Hp & ->)
        by (destruct ev; try done; apply bind_Some in H as (p & ? & [= <-]); by exists p).
      split; [|done]. intros [Hs|Hs]; [left|by right]. by eapply step_serving.
Qed.

(** Signals are not forgotten, and not made up. *)
Lemma life_run_inv st evs st' :
  life_run drain_timeout h st evs = Some st' →
  (undisturbed st → undisturbed st') ∧ ∀ s, s ∈ st'.1 ↔ s ∈ st.1 ∨ Receive s ∈ evs.
Proof.
  revert st. induction evs as [|ev evs IH]; intros st; cbn [life_run].
  - intros [= <-]. split; [done|]. intros s. rewrite elem_of_nil. tauto.
  - intros (st1 & Hst & Hrun)%bind_Some. apply life_step_inv in Hst as [Hinv Hseen].
    destruct (IH _ Hrun) as [Hinv' Hin]. split; [tauto|]. intros s. rewrite Hin, Hseen, elem_of_app, elem_of_cons.
    destruct ev as [s'|ev]; [rewrite list_elem_of_singleton|rewrite elem_of_nil]; naive_solver.
Qed.

(** With both handlers in place the service serves until it receives SIGINT or
    SIGTERM, and can begin to drain as soon as it has received either. *)
Theorem signals_start_drain t evs seen p :
  life_run drain_timeout h ([], started t) evs = Some (seen, p) →
  (drain_phase p = Serving ∨ ∃ s, Receive s ∈ evs)
  ∧ (drain_phase p = Serving →
     is_Some (life_step drain_timeout h (seen, p) (Step Signal)) ↔ ∃ s, Receive s ∈ evs).
Proof.
  intros Hrun. apply life_run_inv in Hrun as [Hinv Hin]. cbn in Hin.
  assert (seen ≠ [] ↔ ∃ s, Receive s ∈ evs) as Hany.
  { split.
    - destruct seen as [|s seen]; [done|]. intros _. exists s.
      destruct (proj1 (Hin s) ltac:(by left)) as [H|H]; [by apply elem_of_nil in H|done].
    - intros [s Hs] ->. pose proof (proj2 (Hin s) (or_intror Hs)) as H. by apply elem_of_nil in H. }
  split.
  - destruct Hinv as [H|H]; [by left|by left|right; by apply Hany].
  - intros Hph. rewrite <- Hany, <- waits_for_a_signal. cbn.
    destruct (wait_for_shutdown_signal h seen); [|by split; [intros [? ?]|]].
    split; [done|]. intros _. unfold process_step, exited. rewrite Hph. by eexists.
Qed.
End Signals.

(** When the SIGINT handler cannot be installed the branch that was to wait for
    it has finished, and the service drains and exits without any signal. *)
Theorem failed_sigint_handler_stops_service drain_timeout h e t :
  sigint_handler h = Err e →
  ∃ p, life_run drain_timeout h ([], started t) [Step Signal; Step Notice; Step Drained; Step JoinServer] = Some ([], p)
    ∧ drain_phase p = Exited (Ok ()).
Proof.
  intros He. cbn. unfold wait_for_shutdown_signal, ctrl_c. rewrite He. cbn. eexists. split; reflexivity.
Qed.

(** ** Instances *)

Definition example_world (config : EnvConfig) : World :=
  mk_World false None 4 (Ok ()) (Ok config) (λ _, Ok ()) (Ok ()) (λ _, Ok ()) false Ok (Ok ()) None None None None None
    true (Ok ()) (Some "30") (Ok ()).

Definition demo_tracer : TracerConfig :=
  mk_TracerConfig (mk_ExporterConfig Gzip (env_otlp_span_endpoint demo_config) (3 * second)) AlwaysOn 16 16
    (env_otlp_service_name demo_config).
Definition demo_meter : MeterConfig :=
  mk_MeterConfig (mk_ExporterConfig Gzip (env_otlp_metric_endpoint demo_config) (3 * second)) Grpc (3 * second)
    (env_otlp_service_name demo_config).

Definition example_build : Build := mk_Build true true false false.

(** The configuration without the waiver of signing. *)
Definition unsigned_config : EnvConfig := {|
  env_http_host := "0.0.0.0"; env_http_port := 3000; env_log_level := "debug";
  env_otlp_span_endpoint := "http://localhost:4317";
  env_otlp_metric_endpoint := "http://localhost:4318/v1/metrics"; env_otlp_service_name := "resizer";
  env_storage_type := Some "local_fs"; env_sub_path := "c/";
  env_s3 := mk_S3Config "http://s3" "id" "secret" "images" "eu"; env_local_fs_storage_path := "data";
  env_cdn_base_url := "http://cdn/"; env_signing_key := None; env_signing_salt := None;
  env_allow_unsigned_requests := None; env_metrics_auth_token := Some "token";
  env_allow_unauthenticated_metrics := None; env_presets := None;
  env_allowed_processing_options := None; env_performance := performance_env_empty |}.

Lemma main_serves_or_refuses_witness :
  (∃ r, main true example_build (example_world demo_config) =
    ([InstallProvider; BuildRuntime 4; Telemetry (SetTracerProvider demo_tracer); Telemetry (SetMeterProvider demo_meter);
      Telemetry (InitSubscriber "debug"); BindListener "0.0.0.0:3000"; Serve 30000000000;
      ShutDownTraces; ShutDownMeters], r) ∧ r = Ok ())
  ∧ ∃ effects e, main true example_build (example_world unsigned_config) = (effects, Err e) ∧ ShutDownTraces ∉ effects.
Proof.
  split.
  - destruct (main true example_build (example_world demo_config)) as [effects r] eqn:Hmain.
    destruct (main_serves_or_refuses true example_build (example_world demo_config) effects r eq_refl Hmain)
      as [[_ _ Hr]|[_ Hno _]].
    + exists r. split; [|exact Hr]. vm_compute in Hmain. injection Hmain as <- <-. reflexivity.
    + vm_compute in Hmain. injection Hmain as <- <-. destruct (Hno (Serve 30000000000)). do 6 right. by left.
  - destruct (main true example_build (example_world unsigned_config)) as [effects r] eqn:Hmain.
    destruct (main_serves_or_refuses true example_build (example_world unsigned_config) effects r eq_refl Hmain)
      as [[_ _ Hr]|[[e ->] Hno _]].
    + vm_compute in Hmain. injection Hmain as _ <-. discriminate Hr.
    + exists effects, e. split; [reflexivity|]. intros Hin. exact (Hno _ Hin).
Defined.

Definition both_handlers : Handlers := mk_Handlers (Ok ()) (Ok ()).

Lemma signals_start_drain_witness :
  is_Some (life_step 20 both_handlers ([SIGTERM], started 0) (Step Signal))
  ∧ ¬ is_Some (life_step 20 both_handlers ([], started 0) (Step Signal)).
Proof.
  split.
  - apply (signals_start_drain 20 both_handlers (conj eq_refl eq_refl) 0 [Receive SIGTERM] [SIGTERM] (started 0) eq_refl);
      [reflexivity|]. exists SIGTERM. by left.
  - intros H. destruct (signals_start_drain 20 both_handlers (conj eq_refl eq_refl) 0 [] [] (started 0) eq_refl)
      as [_ Hiff]. destruct (proj1 (Hiff eq_refl) H) as [s Hs]. inversion Hs.
Defined.

Lemma failed_sigint_handler_stops_service_witness :
  ∃ p, life_run 20 (mk_Handlers (Err "EINVAL") (Ok ())) ([], started 0)
         [Step Signal; Step Notice; Step Drained; Step JoinServer] = Some ([], p)
    ∧ drain_phase p = Exited (Ok ()).
Proof. exact (failed_sigint_handler_stops_service 20 (mk_Handlers (Err "EINVAL") (Ok ())) "EINVAL" 0 eq_refl). Defined.
