(* ===== verification/Healthcheck.v ===== *)
(** * The health check: [src/bin/healthcheck.rs]

The probe a container runtime runs: one HTTP request over a fresh connection,
and an exit code.  The socket is what each of its calls answers. *)
From S2P Require Import Prelude RustStr SourceGuard.

Local Open Scope Z_scope.

Record HealthCheckEnvConfig := mk_HealthCheckEnvConfig {
  health_host : string;
  health_port : Z;
  health_timeout : Z;
  health_path : string;
}.

(** The failures, by message and what it interpolates. *)
Inductive ProbeError :=
  | InvalidAddress (address : string)
  | ConnectFailed (e : string)
  | SetReadTimeoutFailed (e : string)
  | SetWriteTimeoutFailed (e : string)
  | SendFailed (e : string)
  | ReadFailed (e : string)
  | ClosedWithoutResponse
  | MalformedStatusLine (line : string)
  | NonNumericStatus (code line : string).

(** A connection attempt to an address within a timeout. *)
Record Peer := mk_Peer {
  peer_connect : result string unit;
  peer_set_read_timeout : result string unit;
  peer_set_write_timeout : result string unit;
  peer_write_all : string → result string unit;
  peer_read_to_end : string → result string (list byte);
}.

(** ** [SocketAddr::from_str] *)

Definition read_port : parser Z := λ s,
  '(_, s) ← read_given_char ":" s; read_number u16_max 10 (S (String.length s)) true s.

Definition read_scope_id : parser Z := λ s,
  '(_, s) ← read_given_char "%" s; read_number u32_max 10 (S (String.length s)) true s.

Definition read_socket_addr : parser SocketAddr := λ s,
  match ('(a, rest) ← read_ipv4_addr s; '(port, rest) ← read_port rest;
         Some (mk_SocketAddr (V4 a) port, rest)) with
  | Some out => Some out
  | None =>
      '(_, s) ← read_given_char "[" s;
      '(a, s) ← read_ipv6_addr s;
      let s := match read_scope_id s with Some (_, rest) => rest | None => s end in
      '(_, s) ← read_given_char "]" s;
      '(port, s) ← read_port s;
      Some (mk_SocketAddr (V6 a) port, s)
  end.

Definition parse_socket_addr (s : string) : option SocketAddr :=
  match read_socket_addr s with
  | Some (addr, EmptyString) => Some addr
  | _ => None
  end.

Example loopback_address : parse_socket_addr "127.0.0.1:3000" = Some (mk_SocketAddr (V4 2130706433) 3000).
Proof. reflexivity. Qed.
Example v6_address : parse_socket_addr "[::1%2]:80" = Some (mk_SocketAddr (V6 1) 80).
Proof. reflexivity. Qed.
Example bare_v6_address : parse_socket_addr "::1:80" = None.
Proof. reflexivity. Qed.

(** ** The probe *)

Definition crlf : string := String (chr 13) (String (chr 10) EmptyString).

Definition parse_status_code (response : list byte) : result ProbeError Z :=
  let text := from_utf8_lossy (string_of_list_byte response) in
  let status_line := first_line text in
  code ← ok_or (split_whitespace status_line !! 1%nat) (MalformedStatusLine status_line);
  ok_or (parse_uint u16_max code) (NonNumericStatus code status_line).

Definition probe_request (host_header path : string) : string :=
  "GET " +:+ path +:+ " HTTP/1.1" +:+ crlf +:+ "Host: " +:+ host_header +:+ crlf
    +:+ "Connection: close" +:+ crlf +:+ "User-Agent: emgr-healthcheck" +:+ crlf +:+ crlf.

Section Probe.
Context (network : SocketAddr → Z → Peer).

Definition probe (addr : SocketAddr) (host_header path : string) (timeout : Z) : result ProbeError Z :=
  let stream := network addr timeout in
  _ ← map_err ConnectFailed (peer_connect stream);
  _ ← map_err SetReadTimeoutFailed (peer_set_read_timeout stream);
  _ ← map_err SetWriteTimeoutFailed (peer_set_write_timeout stream);
  let request := probe_request host_header path in
  _ ← map_err SendFailed (peer_write_all stream request);
  response ← map_err ReadFailed (peer_read_to_end stream request);
  match response with
  | [] => Err ClosedWithoutResponse
  | _ => parse_status_code response
  end.

Definition dialled_host (config : HealthCheckEnvConfig) : string :=
  if String.eqb (health_host config) "0.0.0.0" then "127.0.0.1" else health_host config.

(** The exit code of [main]; an error it returns is code 1 as well. *)
Definition healthcheck_main (config : HealthCheckEnvConfig) : Z :=
  let address := dialled_host config +:+ ":" +:+ uint_to_string (health_port config) in
  match (socket_addr ← ok_or (parse_socket_addr address) (InvalidAddress address);
         probe socket_addr (health_host config) (health_path config) (health_timeout config)) with
  | Ok status => if (200 <=? status) && (status <? 300) then 0 else 1
  | Err _ => 1
  end.
End Probe.

(** ** Properties *)

Lemma split_words_word w rest fuel word_rev :
  str_forall is_graphic w = true → word_rev ≠ EmptyString →
  split_words (String.length w + S fuel) word_rev (w +:+ String " " rest)
  = str_rev (str_rev_app w word_rev) :: split_words fuel EmptyString rest.
Proof.
  revert word_rev. induction w as [|a w IH]; intros wr Hw Hne.
  - cbn. destruct wr; [done|]. reflexivity.
  - cbn [str_forall] in Hw. apply andb_true_iff in Hw as [Ha Hw].
    cbn [String.length Nat.add split_words String.append].
    rewrite (ws_prefix_graphic a _ Ha). by rewrite IH.
Qed.

(** The first word of a text, and where the rest is split from. *)
Lemma split_whitespace_word a w rest :
  is_graphic a = true → str_forall is_graphic w = true →
  split_whitespace (String a w +:+ String " " rest) = String a w :: split_whitespace rest.
Proof.
  intros Ha Hw. unfold split_whitespace.
  replace (S (String.length (String a w +:+ String " " rest)))
    with (S (String.length w + S (S (String.length rest))))%nat
    by (cbn [String.length String.append]; rewrite str_length_app; cbn; lia).
  cbn [split_words String.append]. rewrite (ws_prefix_graphic a _ Ha).
  rewrite split_words_word by done. f_equal.
  change (str_rev_app w (String a EmptyString)) with (str_rev (String a w)). by rewrite str_rev_rev.
Qed.

Lemma first_line_crlf line rest :
  str_contains (chr 10) line = false → first_line (line +:+ crlf +:+ rest) = line.
Proof.
  intros Hl. unfold first_line.
  assert (split_once (chr 10) (line +:+ crlf +:+ rest) = Some (line +:+ String (chr 13) EmptyString, rest)) as ->.
  { apply split_once_Some. split.
    - unfold crlf. by rewrite str_app_assoc.
    - rewrite str_contains_app, Hl. reflexivity. }
  rewrite str_rev_snoc. cbn [Ascii.eqb]. rewrite Ascii.eqb_refl. apply str_rev_rev.
Qed.

Definition ascii_text (s : string) : bool :=
  str_forall (λ a, code a <? 128) s && negb (str_contains (chr 10) s).

Lemma graphic_ascii_text w : str_forall is_graphic w = true → ascii_text w = true.
Proof.
  unfold ascii_text. induction w as [|a w IH]; [done|]. cbn [str_forall]. rewrite str_contains_cons.
  intros [Ha Hw]%andb_true_iff. specialize (IH Hw). apply andb_true_iff in IH as [H1 H2].
  apply negb_true_iff in H2. rewrite H1, H2. unfold is_graphic in Ha.
  apply andb_true_iff in Ha as [Hlo Hhi]. apply Z.leb_le in Hlo. apply Z.ltb_lt in Hhi.
  rewrite (proj2 (Z.ltb_lt _ 128)) by lia.
  destruct (Ascii.eqb_spec (chr 10) a) as [<-|]; [|reflexivity]. by vm_compute in Hlo.
Qed.

Lemma ascii_text_app s t : ascii_text (s +:+ t) = ascii_text s && ascii_text t.
Proof.
  unfold ascii_text. rewrite str_forall_app, str_contains_app, negb_orb.
  by destruct (str_forall _ s), (str_forall _ t), (str_contains _ s), (str_contains _ t).
Qed.

(** A response as servers write it: version, status, reason, and whatever
    follows, be it UTF-8 or not. *)
Definition status_response (version reason rest : string) (n : Z) : list byte :=
  list_byte_of_string
    ((version +:+ String " " (uint_to_string n +:+ String " " reason)) +:+ crlf +:+ rest).

Lemma parse_status_response a w reason rest n :
  str_forall is_graphic (String a w) = true → ascii_text reason = true → 0 ≤ n ≤ u16_max →
  parse_status_code (status_response (String a w) reason rest n) = Ok n.
Proof.
  intros Hv Hr Hn.
  pose proof (uint_to_string_digits n ltac:(lia)) as Hd.
  assert (Hg : str_forall is_graphic (uint_to_string n) = true).
  { revert Hd. generalize (uint_to_string n). intros s. induction s as [|c s IH]; [done|]. cbn [str_forall].
    intros [Hc Hs]%andb_true_iff. by rewrite (digit_graphic c Hc), IH. }
  set (line := String a w +:+ String " " (uint_to_string n +:+ String " " reason)).
  assert (Hline : ascii_text line = true).
  { unfold line. change (String " " (uint_to_string n +:+ String " " reason))
      with ((" " +:+ uint_to_string n) +:+ (" " +:+ reason)).
    by rewrite !ascii_text_app, Hr, (graphic_ascii_text _ Hv), (graphic_ascii_text _ Hg). }
  apply andb_true_iff in Hline as [Hascii Hlf]. apply negb_true_iff in Hlf.
  unfold parse_status_code, status_response. fold line. cbv zeta.
  rewrite string_of_list_byte_of_string, from_utf8_lossy_ascii by done.
  rewrite (from_utf8_lossy_ascii crlf rest) by reflexivity. rewrite first_line_crlf by done.
  unfold line. cbn [str_forall] in Hv. apply andb_true_iff in Hv as [Ha Hw].
  rewrite split_whitespace_word by done.
  destruct (uint_to_string n) as [|d ds] eqn:Hdn; [destruct (uint_to_string_head n ltac:(lia)) as (? & ? & _ & ?); congruence|].
  cbn [str_forall] in Hg. apply andb_true_iff in Hg as [Hgd Hgs].
  rewrite split_whitespace_word by done. cbn [lookup list_lookup ok_or mbind result_bind].
  rewrite <- Hdn, parse_uint_to_string by done. done.
Qed.

(** The exit code follows the status: whatever server answers at the address
    dialled, loopback for the unspecified one, the check succeeds exactly on a
    2xx - and it fails when the peer closes without a byte, as it does when any
    call on the socket fails. *)
Theorem healthcheck_exit_code network config addr a w reason rest n :
  parse_socket_addr (dialled_host config +:+ ":" +:+ uint_to_string (health_port config)) = Some addr →
  let peer := network addr (health_timeout config) in
  let request := probe_request (health_host config) (health_path config) in
  (peer_connect peer = Ok () ∧ peer_set_read_timeout peer = Ok () ∧ peer_set_write_timeout peer = Ok ()
   ∧ peer_write_all peer request = Ok () →
   str_forall is_graphic (String a w) = true → ascii_text reason = true → 0 ≤ n ≤ u16_max →
   peer_read_to_end peer request = Ok (status_response (String a w) reason rest n) →
   healthcheck_main network config = if decide (200 ≤ n < 300) then 0 else 1)
  ∧ ((peer_connect peer ≠ Ok () ∨ peer_write_all peer request ≠ Ok ()
      ∨ is_Ok (peer_read_to_end peer request) = false ∨ peer_read_to_end peer request = Ok []) →
     healthcheck_main network config = 1).
Proof.
  intros Haddr. cbv zeta. unfold healthcheck_main. rewrite Haddr. cbn [ok_or mbind result_bind].
  unfold probe. split.
  - intros (Hc & Hrt & Hwt & Hw) Hv Hr Hn Hread. rewrite Hc, Hrt, Hwt, Hw, Hread.
    cbn [map_err mbind result_bind].
    replace (match status_response (String a w) reason rest n with
             | [] => Err ClosedWithoutResponse
             | _ => parse_status_code (status_response (String a w) reason rest n) end)
      with (@Ok ProbeError Z n) by (symmetry; apply (parse_status_response a w reason rest n Hv Hr Hn)).
    destruct (decide (200 ≤ n < 300)) as [[Hlo Hhi]|Hout].
    + by rewrite (proj2 (Z.leb_le _ _)), (proj2 (Z.ltb_lt _ _)) by lia.
    + destruct (Z.leb_spec 200 n), (Z.ltb_spec n 300); [lia|done..].
  - intros Hfail.
    destruct (peer_connect _) as [[]|]; [|done]. cbn [map_err mbind result_bind].
    destruct (peer_set_read_timeout _); [|done]. cbn [map_err mbind result_bind].
    destruct (peer_set_write_timeout _); [|done]. cbn [map_err mbind result_bind].
    destruct (peer_write_all _ _) as [[]|]; [|done]. cbn [map_err mbind result_bind].
    destruct (peer_read_to_end _ _) as [response|]; [|done]. cbn [map_err mbind result_bind].
    destruct Hfail as [?|[?|[?|[= ->]]]]; done.
Qed.

(** The service's own answer, and a saturated one. *)
Definition answering (response : list byte) : SocketAddr → Z → Peer := λ addr _,
  if bool_decide (sa_port addr = 3000)
  then mk_Peer (Ok ()) (Ok ()) (Ok ()) (λ _, Ok ()) (λ _, Ok response)
  else mk_Peer (Err "refused") (Ok ()) (Ok ()) (λ _, Ok ()) (λ _, Ok []).

Definition default_check : HealthCheckEnvConfig := mk_HealthCheckEnvConfig "0.0.0.0" 3000 5 "/health".

Lemma healthcheck_exit_code_witness :
  healthcheck_main (answering (status_response "HTTP/1.1" "OK" "content-length: 2" 200)) default_check = 0
  ∧ healthcheck_main (answering (status_response "HTTP/1.1" "Service Unavailable" EmptyString 503)) default_check = 1.
Proof.
  assert (parse_socket_addr (dialled_host default_check +:+ ":" +:+ uint_to_string 3000)
          = Some (mk_SocketAddr (V4 2130706433) 3000)) as Haddr by (vm_compute; reflexivity).
  split.
  - destruct (healthcheck_exit_code (answering (status_response "HTTP/1.1" "OK" "content-length: 2" 200))
      default_check _ "H" "TTP/1.1" "OK" "content-length: 2" 200 Haddr) as [H _].
    apply H; try reflexivity; [by split_and!|by vm_compute].
  - destruct (healthcheck_exit_code (answering (status_response "HTTP/1.1" "Service Unavailable" EmptyString 503))
      default_check _ "H" "TTP/1.1" "Service Unavailable" EmptyString 503 Haddr) as [H _].
    apply H; try reflexivity; [by split_and!|by vm_compute].
Defined.
