(* ===== verification/Benchmark.v ===== *)
(** * The load generator: [src/bin/benchmark.rs]

Its configuration, the signed URLs it requests, the rounds of concurrent
requests ([Buffered.v] is the combinator they run on), and the statistics it
reports.  The HTTP client's answers and the clock are parameters; the fixtures
it serves are those of [benches/fixtures.rs], whose pixels are the
[generate] parameter; printing is left out. *)
From Stdlib Require Import QArith Lqa.
From S2P Require Import Startup Prelude RustStr SourceGuard RustFloat FloatError Samples Params UrlOptions Presets UrlSource UrlGrammar CacheKey Negotiation Access Errors Storage StorageSelect HttpCache ResizeApi Buffered.

Local Open Scope Z_scope.

(** ** Configuration *)

Record BenchmarkConfig := mk_BenchmarkConfig {
  bench_host : string;
  bench_port : Z;
  concurrency_levels : string;
  requests_per_level : Z;
  warmup_requests : Z;
  fixture_names : string;
  resize_params : string;
  wait_between_tests : Z;
  request_timeout : Z;
  output_format : string;
  fixture_host : string;
  fixture_port : Z;
  json_output : string;
}.

(** The defaults of the environment variables. *)
Definition benchmark_defaults : BenchmarkConfig :=
  mk_BenchmarkConfig "localhost" 3000 "1,5,10,20,50" 200 10 "photo_like,flat,alpha,tiny"
    "300x300,800x,x600,1200x800" 2 60 "jpg" "127.0.0.1" 0 "target/benchmark-results.json".

Definition get_concurrency_levels (c : BenchmarkConfig) : list Z :=
  omap (λ s, parse_uint usize_max (trim s)) (split_on "," (concurrency_levels c)).

Definition get_fixture_names (c : BenchmarkConfig) : list string :=
  List.filter (λ s, negb (str_is_empty s)) (trim <$> split_on "," (fixture_names c)).

Definition get_resize_params (c : BenchmarkConfig) : list (option Z * option Z) :=
  omap (λ s,
    '(width_str, height_str) ← split_once "x" (trim s);
    let width := if str_is_empty width_str then None else parse_u32 width_str in
    let height := if str_is_empty height_str then None else parse_u32 height_str in
    Some (width, height)) (split_on "," (resize_params c)).

Definition get_base_url (c : BenchmarkConfig) : string :=
  "http://" +:+ bench_host c +:+ ":" +:+ uint_to_string (bench_port c).

Definition is_nil {A} (l : list A) : bool := match l with [] => true | _ => false end.

Definition validate (c : BenchmarkConfig) : result string unit :=
  if is_nil (get_concurrency_levels c) then Err "No valid concurrency levels configured"
  else if is_nil (get_fixture_names c) then Err "No valid fixture names configured"
  else if is_nil (get_resize_params c) then Err "No valid resize parameters configured"
  else if request_timeout c =? 0 then Err "Request timeout must be greater than 0"
  else if requests_per_level c =? 0 then Err "BENCHMARK_REQUESTS_PER_LEVEL must be greater than 0"
  else Ok ().

Example default_rounds :
  (get_concurrency_levels benchmark_defaults, get_resize_params benchmark_defaults)
  = ([1; 5; 10; 20; 50],
     [(Some 300, Some 300); (Some 800, None); (None, Some 600); (Some 1200, Some 800)]).
Proof. vm_compute. reflexivity. Qed.

(** ** The fixture server *)

Definition content_type_for (name : string) : string :=
  if String.eqb name "photo_like" || String.eqb name "tiny" then "image/jpeg"
  else if String.eqb name "flat" || String.eqb name "alpha" || String.eqb name "bomb"
          || String.eqb name "gravity_marker" then "image/png"
  else "application/octet-stream".

Definition FIXTURES : list string := ["photo_like"; "flat"; "alpha"; "tiny"; "bomb"; "gravity_marker"].

Section Fixtures.
Context (generate : string → list byte).

Definition by_name (name : string) : option (list byte) :=
  if List.existsb (String.eqb name) FIXTURES then Some (generate name) else None.

(** The loop of [start_fixture_server] that fills the store. *)
Fixpoint fixture_store (names : list string) (store : gmap string (list byte * string))
  : result string (gmap string (list byte * string)) :=
  match names with
  | [] => Ok store
  | name :: rest =>
      bytes ← ok_or (by_name name) ("unknown fixture name in BENCHMARK_FIXTURE_NAMES: " +:+ name);
      fixture_store rest (<[name := (bytes, content_type_for name)]> store)
  end.
End Fixtures.

Definition serve_fixture (store : gmap string (list byte * string)) (name : string) : Response :=
  match store !! name with
  | Some (bytes, content_type) =>
      mk_Response 200 [("content-type", content_type)] (string_of_list_byte bytes)
  | None => mk_Response 404 [] EmptyString
  end.

(** [answers i] is whether the [i]-th health request succeeded; the result is
    how many times it slept before that. *)
Fixpoint wait_until_ready (attempts : nat) (answers : nat → bool) (slept : nat) : option nat :=
  match attempts with
  | O => None
  | S attempts' =>
      if answers slept then Some slept else wait_until_ready attempts' answers (S slept)
  end.

(** ** Requests *)

Inductive Outcome := Success | NonSuccess | Timeout | ConnectionError.

#[export] Instance outcome_eq_dec : EqDecision Outcome.
Proof. solve_decision. Defined.

(** What the client gets: a status with the outcome of reading the body, or no
    response; an error is one that [is_timeout()] or another. *)
Inductive Reply :=
  | Responded (status : Z) (body_error : option bool)
  | NoResponse (is_timeout : bool).

Record RequestResult := mk_RequestResult {
  duration : Z;
  req_outcome : Outcome;
}.

Definition classify_error (is_timeout : bool) : Outcome :=
  if is_timeout then Timeout else ConnectionError.

(** [elapsed] is the time since [start], in nanoseconds, at the point where it
    is read. *)
Definition send_one (reply : Reply) (elapsed : Z) : RequestResult :=
  match reply with
  | Responded status None =>
      mk_RequestResult elapsed (if (200 <=? status) && (status <? 300) then Success else NonSuccess)
  | Responded status (Some is_timeout) => mk_RequestResult elapsed (classify_error is_timeout)
  | NoResponse is_timeout => mk_RequestResult elapsed (classify_error is_timeout)
  end.

Section Rounds.
(** What request number [n] for a URL gets, and how long it takes. *)
Context (answer : nat → string → Reply * Z).

(** [urls[i % urls.len()]] *)
Definition send_nth (urls : list string) (i : nat) : option RequestResult :=
  url ← urls !! (i mod length urls)%nat;
  let (reply, elapsed) := answer i url in Some (send_one reply elapsed).

(** [evs] is the schedule of the stream; the results of an unfinished one are
    not there yet. *)
Definition run_requests (urls : list string) (concurrency : Z) (total_requests : nat)
    (evs : list PoolEvent) : option (list RequestResult) :=
  let width := Z.to_nat (Z.max concurrency 1) in
  p ← pool_run total_requests width pool_initial evs;
  if decide (pool_done total_requests width p) then mapM (send_nth urls) (pool_finished p) else None.
End Rounds.

(** ** URLs *)

Section Urls.
Context (hmac_sha256 : list byte → list byte → list byte) (b64_encode : list byte → string).

(** [signing_key] and [signing_salt] are [SIGNING_KEY] and [SIGNING_SALT] of the
    process. *)
Definition request_path (signing_key signing_salt : option string)
    (fixture_base_url fixture_name : string) (width height : option Z) (output_format : string)
  : string :=
  let source_url := fixture_base_url +:+ "/fixtures/" +:+ fixture_name in
  let encoded_source := b64_encode (list_byte_of_string source_url) in
  let options :=
    ["rs:fill:" +:+ uint_to_string (default 0 width) +:+ ":" +:+ uint_to_string (default 0 height);
     "el:0"] in
  let signed_path := "/" +:+ join "/" options +:+ "/" +:+ encoded_source +:+ "." +:+ output_format in
  let signature :=
    match non_empty signing_key, non_empty signing_salt with
    | Some key, Some salt =>
        sign hmac_sha256 b64_encode (list_byte_of_string key) (list_byte_of_string salt) signed_path
    | _, _ => "unsigned"
    end in
  "/" +:+ signature +:+ signed_path.

Definition build_url (signing_key signing_salt : option string)
    (target_base_url fixture_base_url fixture_name : string) (width height : option Z)
    (output_format : string) : string :=
  target_base_url
  +:+ request_path signing_key signing_salt fixture_base_url fixture_name width height output_format.

(** The URLs of [main]; an index modulo the length of an empty list panics. *)
Definition benchmark_urls (signing_key signing_salt : option string) (c : BenchmarkConfig)
    (fixture_base_url : string) : option (list string) :=
  let fixture_names := get_fixture_names c in
  let resize_params := get_resize_params c in
  let url_count := Nat.max (length fixture_names) (length resize_params) in
  mapM (λ i,
    fixture_name ← fixture_names !! (i mod length fixture_names)%nat;
    '(width, height) ← resize_params !! (i mod length resize_params)%nat;
    Some (build_url signing_key signing_salt (get_base_url c) fixture_base_url fixture_name width height
            (output_format c))) (seq 0 url_count).
End Urls.

(** ** Statistics *)

Record OutcomeCounts := mk_OutcomeCounts {
  success : Z;
  non_2xx : Z;
  timeout : Z;
  connection_error : Z;
}.

#[export] Instance outcome_counts_eta : Eta OutcomeCounts := λ o,
  mk_OutcomeCounts (success o) (non_2xx o) (timeout o) (connection_error o).

Definition counts_total (o : OutcomeCounts) : Z :=
  success o + non_2xx o + timeout o + connection_error o.

Record LatencyStatsMs := mk_LatencyStatsMs {
  mean : spec_float;
  min_ms : spec_float;
  max_ms : spec_float;
  p50 : spec_float;
  p90 : spec_float;
  p99 : spec_float;
  p999 : spec_float;
}.

Definition percentile_rank (n : Z) (p : spec_float) : Z :=
  round_as_uint usize_max (f64_mul p (f64_sub (f64_of_uint n) f64_one)).

Definition percentile_sorted (sorted_ms : list spec_float) (p : spec_float) : option spec_float :=
  if is_nil sorted_ms then Some f64_zero
  else
    let n := Z.of_nat (length sorted_ms) in
    sorted_ms !! Z.to_nat (Z.min (percentile_rank n p) (n - 1)).

(** [None] is a panic: a NaN sample, or an index out of range. *)
Definition latency_stats (samples_ms : list spec_float) : option (option LatencyStatsMs) :=
  if is_nil samples_ms then Some None
  else if sort_panics samples_ms then None
  else
    let sorted := sort_floats samples_ms in
    let mean := f64_div (sum_floats sorted) (f64_of_uint (Z.of_nat (length sorted))) in
    first ← sorted !! 0%nat;
    last ← sorted !! (length sorted - 1)%nat;
    p50 ← percentile_sorted sorted (f64_literal "0.50");
    p90 ← percentile_sorted sorted (f64_literal "0.90");
    p99 ← percentile_sorted sorted (f64_literal "0.99");
    p999 ← percentile_sorted sorted (f64_literal "0.999");
    Some (Some (mk_LatencyStatsMs mean first last p50 p90 p99 p999)).

(** One round of the loop over the results. *)
Definition tally (acc : OutcomeCounts * list spec_float) (r : RequestResult)
  : OutcomeCounts * list spec_float :=
  let '(outcomes, latencies_ms) := acc in
  match req_outcome r with
  | Success => (outcomes <| success := success outcomes + 1 |>, latencies_ms ++ [duration_ms (duration r)])
  | NonSuccess => (outcomes <| non_2xx := non_2xx outcomes + 1 |>, latencies_ms)
  | Timeout => (outcomes <| timeout := timeout outcomes + 1 |>, latencies_ms)
  | ConnectionError => (outcomes <| connection_error := connection_error outcomes + 1 |>, latencies_ms)
  end.

Record LevelReport := mk_LevelReport {
  lr_concurrency : Z;
  lr_total_requests : Z;
  lr_outcomes : OutcomeCounts;
  lr_total_duration_secs : spec_float;
  lr_throughput_rps : spec_float;
  lr_latency_ms : option LatencyStatsMs;
}.

(** The report of one concurrency level from its results and their duration. *)
Definition level_report (concurrency duration : Z) (results : list RequestResult) : option LevelReport :=
  let '(outcomes, latencies_ms) := fold_left tally results (mk_OutcomeCounts 0 0 0 0, []) in
  let secs := as_secs_f64 duration in
  let throughput_rps :=
    if f_gt secs f64_zero then f64_div (f64_of_uint (success outcomes)) secs else f64_zero in
  latency_ms ← latency_stats latencies_ms;
  Some (mk_LevelReport concurrency (counts_total outcomes) outcomes secs throughput_rps latency_ms).

(** The outside of one call of [run_requests]. *)
Record Round := mk_Round {
  round_answer : nat → string → Reply * Z;
  round_schedule : list PoolEvent;
}.

Definition run_round (urls : list string) (concurrency total : Z) (r : Round)
  : option (list RequestResult) :=
  run_requests (round_answer r) urls concurrency (Z.to_nat total) (round_schedule r).

(** The loop of [main] over the concurrency levels: the warm-up is run and
    discarded.  Each level has its two rounds and the time the second takes. *)
Fixpoint run_levels (c : BenchmarkConfig) (urls : list string) (levels : list Z)
    (rounds : list (Round * Round * Z)) : option (list LevelReport) :=
  match levels, rounds with
  | [], _ => Some []
  | concurrency :: levels, (warm, timed, duration) :: rounds =>
      _ ← (if 0 <? warmup_requests c
           then run_round urls concurrency (warmup_requests c) warm else Some []);
      results ← run_round urls concurrency (requests_per_level c) timed;
      report ← level_report concurrency duration results;
      more ← run_levels c urls levels rounds;
      Some (report :: more)
  | _ :: _, [] => None
  end.

Record BenchmarkReport := mk_BenchmarkReport {
  generated_at_unix_secs : Z;
  br_target_base_url : string;
  br_fixture_origin_base_url : string;
  br_requests_per_level : Z;
  br_warmup_requests : Z;
  br_levels : list LevelReport;
}.

(** What [main] meets outside: whether a TLS provider is there already, the
    configuration [envconfig] reads from the environment, the address the
    fixture origin is bound to, the answers of its health route, the shared
    client, the rounds, the clock at the end, and the writing of the report. *)
Record Surroundings := mk_Surroundings {
  provider_there : bool;
  environment : result string BenchmarkConfig;
  bound : result string string;
  healthy : nat → bool;
  client_built : result string unit;
  played : list (Round * Round * Z);
  unix_now : Z;
  written : result string unit;
}.

(** [None] is a panic, or a round that has not finished; a configuration that
    is refused is printed, and reports nothing. *)
Definition benchmark_main (generate : string → list byte)
    (hmac_sha256 : list byte → list byte → list byte) (b64_encode : list byte → string)
    (signing_key signing_salt : option string) (out : Surroundings)
  : option (result string (option BenchmarkReport)) :=
  match _ ← (install_crypto_provider (provider_there out)).1; environment out with
  | Err e => Some (Err e)
  | Ok c =>
  match validate c with
  | Err _ => Some (Ok None)
  | Ok _ =>
    let started :=
      _ ← fixture_store generate (get_fixture_names c) ∅;
      local_addr ← bound out;
      _ ← ok_or (wait_until_ready 100 (healthy out) 0)
            ("local fixture origin at " +:+ local_addr +:+ " did not become ready in time");
      _ ← map_err (λ _, "failed to build shared reqwest client") (client_built out);
      Ok local_addr in
    match started with
    | Err e => Some (Err e)
    | Ok fixture_addr =>
        let fixture_base_url := "http://" +:+ fixture_addr in
        urls ← benchmark_urls hmac_sha256 b64_encode signing_key signing_salt c fixture_base_url;
        levels ← run_levels c urls (get_concurrency_levels c) (played out);
        Some (_ ← written out;
              Ok (Some (mk_BenchmarkReport (unix_now out) (get_base_url c) fixture_base_url
                          (requests_per_level c) (warmup_requests c) levels)))
    end
  end
  end.

(** ** Properties: statistics *)

(** A literal just off [k] thousandths. *)
Record quantile (k : positive) (p : spec_float) : Prop := {
  quantile_range : (k < 1000)%positive;
  quantile_pos : pos_in (-53) (-53) p;
  quantile_near : near (fval p) (Zpos k # 1000);
}.

Ltac solve_quantile :=
  split; [done| |by split; vm_compute];
  (eexists _, _); split_and!; [vm_compute; reflexivity|done|done|done].

Lemma quantile_p50 : quantile 500 (f64_literal "0.50"). Proof. solve_quantile. Qed.
Lemma quantile_p90 : quantile 900 (f64_literal "0.90"). Proof. solve_quantile. Qed.
Lemma quantile_p99 : quantile 990 (f64_literal "0.99"). Proof. solve_quantile. Qed.
Lemma quantile_p999 : quantile 999 (f64_literal "0.999"). Proof. solve_quantile. Qed.

Lemma rank_product n p :
  2 ≤ n < 2 ^ 32 → pos_in (-53) (-53) p →
  pos_in (-53) (-20) (f64_mul p (f64_sub (f64_of_uint n) f64_one))
  ∧ near (fval (f64_mul p (f64_sub (f64_of_uint n) f64_one))) (fval p * inject_Z (n - 1)).
Proof.
  intros Hn Hp. rewrite f64_sub_one by lia.
  destruct (f64_of_uint_exact (n - 1)) as [Hu Hv]; [lia|].
  destruct (f64_mul_near _ _ _ _ _ _ Hp Hu) as [Hm Hnear]; [lia|lia|].
  split; [eapply pos_in_weaken; [exact Hm|lia|lia]|by rewrite <- Hv].
Qed.

Lemma rank_one p : pos_in (-53) (-53) p → percentile_rank 1 p = 0.
Proof. by intros (m & e & -> & _). Qed.

(** Up to a half the rank is [k / 1000] of the way to the last sample. *)
Lemma percentile_rank_near k n p :
  quantile k p → 1 ≤ n < 2 ^ 32 →
  0 ≤ percentile_rank n p ≤ n - 1 ∧ Z.abs (1000 * percentile_rank n p - Zpos k * (n - 1)) ≤ 501.
Proof.
  intros [Hk Hp [Hlo Hhi]] Hn. destruct (Z.eq_dec n 1) as [->|Hn1]; [rewrite (rank_one p Hp); lia|].
  destruct (rank_product n p) as [(m & e & Hm & _) [Hl Hh]]; [lia|done|].
  unfold percentile_rank. rewrite Hm in *. simpl fval in *. simpl round_as_uint.
  destruct (round_mag_spec m e) as [H1 H2]. set (r := round_mag m e) in *.
  set (a := fval p) in *. set (N := inject_Z (n - 1)) in *. set (v := fq m e) in *.
  assert (HN : (1 <= N /\ N <= 4294967296)%Q) by (unfold N, Qle, inject_Z; simpl; lia).
  assert (Hkq : (0 <= Zpos k # 1000 /\ (Zpos k # 1000) <= 1)%Q) by (unfold Qle; simpl; lia).
  set (kq := (Zpos k # 1000)%Q) in *. unfold ulp in *.
  assert (Hk0 : (0 <= kq * N /\ kq * N <= 4294967296)%Q) by (split; nra).
  assert (Ha1 : (a * N <= kq * N + (1 # 2000000))%Q) by nra.
  assert (Ha2 : (kq * N - (1 # 2000000) <= a * N)%Q) by nra.
  assert (Hv : (kq * N - (1 # 500000) <= v /\ v <= kq * N + (1 # 500000))%Q) by (split; nra).
  assert (HkN : (1000 * (kq * N) == inject_Z (Zpos k * (n - 1)))%Q).
  { unfold kq, N, inject_Z, Qeq; simpl; lia. }
  assert (HrQ : (inject_Z (1000 * r) == 1000 * inject_Z r)%Q) by by rewrite inject_Z_mult.
  assert (inject_Z (1000 * r) < inject_Z (Zpos k * (n - 1) + 501))%Q as Hup.
  { rewrite inject_Z_plus, HrQ, <- HkN. change (inject_Z 501) with 501%Q. lra. }
  assert (inject_Z (Zpos k * (n - 1)) < inject_Z (1000 * r + 501))%Q as Hdown.
  { rewrite inject_Z_plus, HrQ, <- HkN. change (inject_Z 501) with 501%Q. lra. }
  rewrite <- Zlt_Qlt in Hup, Hdown. assert (1 ≤ Zpos k * (n - 1) ≤ 999 * (n - 1)) by nia.
  set (K := Zpos k * (n - 1)) in *. unfold usize_max, u64_max. lia.
Qed.

Lemma percentile_rank_mono n p p' :
  1 ≤ n < 2 ^ 32 → pos_in (-53) (-53) p → pos_in (-53) (-53) p' →
  (fval p * (1 + ulp) <= fval p' * (1 - ulp))%Q →
  percentile_rank n p ≤ percentile_rank n p'.
Proof.
  intros Hn Hp Hp' Hle. destruct (Z.eq_dec n 1) as [->|Hn1]; [by rewrite !rank_one|].
  destruct (rank_product n p) as [Hm [_ Hh]]; [lia|done|].
  destruct (rank_product n p') as [Hm' [Hl _]]; [lia|done|].
  unfold percentile_rank. eapply round_as_uint_mono; [done..|].
  assert (0 <= inject_Z (n - 1))%Q by (unfold Qle, inject_Z; simpl; lia). nra.
Qed.

(** A percentile is the sample of its rank. *)
Lemma percentile_sorted_rank k l p :
  quantile k p → l ≠ [] → Z.of_nat (length l) < 2 ^ 32 →
  percentile_sorted l p = l !! Z.to_nat (percentile_rank (Z.of_nat (length l)) p).
Proof.
  intros Hq Hl Hlen. destruct l as [|x l]; [done|]. unfold percentile_sorted. cbn [is_nil].
  set (n := Z.of_nat (length (x :: l))) in *.
  destruct (percentile_rank_near k n p Hq) as [Hr _]; [unfold n in *; cbn in *; lia|].
  by rewrite Z.min_l by lia.
Qed.

Section Sorted.
Context (samples : list spec_float).
Hypothesis no_nan : Forall (λ x, is_nan x = false) samples.
Hypothesis nonempty : samples ≠ [].
Hypothesis countable : Z.of_nat (length samples) < 2 ^ 32.

#[local] Abbreviation n := (Z.of_nat (length samples)).
#[local] Abbreviation sorted := (sort_floats samples).

Lemma sorted_length : length sorted = length samples.
Proof. apply Permutation_length, sort_floats_perm. Qed.

Lemma samples_counted : 1 ≤ n < 2 ^ 32.
Proof. destruct samples; [done|]. cbn [length] in *. lia. Qed.

Lemma no_panic : sort_panics samples = false.
Proof. by apply samples_do_not_panic. Qed.

Lemma sample_le i j x y : sorted !! i = Some x → sorted !! j = Some y → (i ≤ j)%nat → f_le x y = true.
Proof. by apply sort_floats_lookup_le. Qed.

Lemma percentile_sample k p :
  quantile k p →
  ∃ x, percentile_sorted sorted p = Some x ∧ sorted !! Z.to_nat (percentile_rank n p) = Some x.
Proof.
  intros Hq. pose proof samples_counted as Hn. destruct (percentile_rank_near k n p Hq Hn) as [Hr _].
  destruct (sort_floats_lookup samples (Z.to_nat (percentile_rank n p))) as (x & Hx & _); [lia|].
  exists x. split; [|done]. rewrite (percentile_sorted_rank k) by (done || (by rewrite sorted_length) ||
    (intros H; pose proof sorted_length as Hl; rewrite H in Hl; cbn in Hl; lia)).
  by rewrite sorted_length.
Qed.

Lemma percentile_le k p k' p' x x' :
  quantile k p → quantile k' p' → (fval p * (1 + ulp) <= fval p' * (1 - ulp))%Q →
  sorted !! Z.to_nat (percentile_rank n p) = Some x →
  sorted !! Z.to_nat (percentile_rank n p') = Some x' → f_le x x' = true.
Proof.
  intros Hq Hq' Hpp Hx Hx'. pose proof samples_counted as Hn. apply (sample_le _ _ _ _ Hx Hx').
  apply Z2Nat.inj_le; [by apply (percentile_rank_near k)|by apply (percentile_rank_near k')|].
  apply percentile_rank_mono; [done|by eapply quantile_pos..|done].
Qed.
End Sorted.

(** The reported numbers are samples; the extremes enclose every sample, the
    percentiles stand in their order, and the one for [k] thousandths has that
    share of the samples before it, to within one place. *)
Record describes (s : LatencyStatsMs) (samples : list spec_float) : Prop := {
  extremes_enclose x : x ∈ samples → f_le (min_ms s) x = true ∧ f_le x (max_ms s) = true;
  percentiles_ordered :
    f_le (min_ms s) (p50 s) = true ∧ f_le (p50 s) (p90 s) = true ∧ f_le (p90 s) (p99 s) = true
    ∧ f_le (p99 s) (p999 s) = true ∧ f_le (p999 s) (max_ms s) = true;
  extremes_are_samples : min_ms s ∈ samples ∧ max_ms s ∈ samples;
  percentiles_ranked :
    Forall (λ '(k, x), ∃ r, sort_floats samples !! Z.to_nat r = Some x
      ∧ Z.abs (1000 * r - k * (Z.of_nat (length samples) - 1)) ≤ 501)
      [(500, p50 s); (900, p90 s); (990, p99 s); (999, p999 s)];
}.

Lemma latency_stats_describes samples :
  Forall f_nonneg samples → Z.of_nat (length samples) < 2 ^ 32 →
  match latency_stats samples with
  | None => False
  | Some None => samples = []
  | Some (Some s) => samples ≠ [] ∧ describes s samples
  end.
Proof.
  intros Hpos Hlen. destruct (decide (samples = [])) as [->|Hne]; [done|].
  assert (Hnan : Forall (λ x, is_nan x = false) samples)
    by (eapply Forall_impl; [exact Hpos|]; apply f_nonneg_not_nan).
  pose proof (samples_counted _ Hnan Hne Hlen) as Hn. pose proof (sample_le _ Hnan) as Hle.
  pose proof (percentile_le _ Hnan Hne Hlen) as Hpl.
  assert (Hrank : ∀ k p, quantile k p → _) by exact (λ k p Hq, percentile_rank_near k _ p Hq Hn).
  destruct (percentile_sample _ Hnan Hne Hlen _ _ quantile_p50) as (x50 & E50 & L50),
    (percentile_sample _ Hnan Hne Hlen _ _ quantile_p90) as (x90 & E90 & L90),
    (percentile_sample _ Hnan Hne Hlen _ _ quantile_p99) as (x99 & E99 & L99),
    (percentile_sample _ Hnan Hne Hlen _ _ quantile_p999) as (x999 & E999 & L999).
  destruct (sort_floats_lookup samples 0) as (first & Efirst & Hfirst); [lia|].
  destruct (sort_floats_lookup samples (length samples - 1)) as (last & Elast & Hlast); [lia|].
  unfold latency_stats. assert (is_nil samples = false) as -> by by destruct samples.
  rewrite (no_panic _ Hnan), sorted_length. cbv iota zeta. rewrite Efirst, Elast, E50, E90, E99, E999.
  cbn [mbind option_bind]. split; [done|]. split; cbn [min_ms max_ms p50 p90 p99 p999]; [|split_and!..|].
  - intros x Hx. rewrite <- sort_floats_perm in Hx. apply list_elem_of_lookup in Hx as [i Hi].
    pose proof (lookup_lt_Some _ _ _ Hi). rewrite sorted_length in *. split; eapply Hle; done || lia.
  - eapply Hle; [done..|lia].
  - eapply (Hpl _ _ _ _ _ _ quantile_p50 quantile_p90); [by vm_compute|done..].
  - eapply (Hpl _ _ _ _ _ _ quantile_p90 quantile_p99); [by vm_compute|done..].
  - eapply (Hpl _ _ _ _ _ _ quantile_p99 quantile_p999); [by vm_compute|done..].
  - eapply Hle; [done..|]. destruct (Hrank _ _ quantile_p999). lia.
  - done.
  - done.
  - repeat constructor; (eexists; split; [eassumption|]);
      [apply (Hrank _ _ quantile_p50)|apply (Hrank _ _ quantile_p90)|apply (Hrank _ _ quantile_p99)
      |apply (Hrank _ _ quantile_p999)].
Qed.

(** ** Properties: a round *)

Section RoundProperties.
Context (answer : nat → string → Reply * Z) (urls : list string).
Hypothesis some_url : urls ≠ [].

Lemma send_nth_is_Some i : is_Some (send_nth answer urls i).
Proof.
  unfold send_nth. destruct (lookup_lt_is_Some_2 urls (i mod length urls)%nat) as [url ->].
  - apply Nat.mod_upper_bound. by destruct urls.
  - cbn. destruct (answer i url). by eexists.
Qed.

Lemma mapM_send l results :
  mapM (send_nth answer urls) l = Some results → results = omap (send_nth answer urls) l.
Proof.
  revert results. induction l as [|i l IH]; intros results; [by intros [= <-]|].
  cbn. destruct (send_nth answer urls i); cbn; [|done].
  destruct (mapM (send_nth answer urls) l); cbn; [|done]. intros [= <-]. by rewrite (IH _ eq_refl).
Qed.

(** A finished round has one result for each request. *)
Lemma run_requests_all concurrency total evs results :
  run_requests answer urls concurrency total evs = Some results →
  results ≡ₚ omap (send_nth answer urls) (seq 0 total) ∧ length results = total.
Proof.
  unfold run_requests. intros (p & Hp & H)%bind_Some. destruct (decide _) as [Hd|]; [|done].
  assert (pool_finished p ≡ₚ seq 0 total) as Hperm.
  { eapply pool_done_all; [|done]. eapply pool_run_inv; [apply pool_inv_initial|done]. }
  split; [rewrite (mapM_send _ _ H); by apply omap_Permutation|].
  apply length_mapM in H. by rewrite <- H, Hperm, length_seq.
Qed.

(** A round that has not finished goes on, whatever the concurrency asked for. *)
Lemma round_goes_on concurrency total evs p :
  pool_run total (Z.to_nat (Z.max concurrency 1)) pool_initial evs = Some p →
  (pool_done total (Z.to_nat (Z.max concurrency 1)) p ∧ is_Some (run_requests answer urls concurrency total evs))
  ∨ ∃ ev, is_Some (pool_step total (Z.to_nat (Z.max concurrency 1)) p ev).
Proof.
  intros Hp. pose proof (pool_run_inv _ _ _ _ _ (pool_inv_initial _ _) Hp) as Hinv.
  destruct (decide (pool_done total (Z.to_nat (Z.max concurrency 1)) p)) as [Hd|Hd].
  - left. split; [done|]. unfold run_requests. rewrite Hp. cbn. rewrite decide_True by done.
    apply mapM_is_Some_2, Forall_true. apply send_nth_is_Some.
  - right. apply pool_progress; [lia|done|done].
Qed.
End RoundProperties.

(** How many results have the outcome. *)
Definition outcomes (o : Outcome) (results : list RequestResult) : Z :=
  Z.of_nat (length (filter (λ r, req_outcome r = o) results)).

Definition success_latencies (results : list RequestResult) : list spec_float :=
  (λ r, duration_ms (duration r)) <$> filter (λ r, req_outcome r = Success) results.

Lemma outcomes_cons o r results :
  outcomes o (r :: results) = (if decide (req_outcome r = o) then 1 else 0) + outcomes o results.
Proof. unfold outcomes. rewrite filter_cons. destruct (decide _); cbn [length]; lia. Qed.

Lemma success_latencies_cons r results :
  success_latencies (r :: results) =
  (if decide (req_outcome r = Success) then [duration_ms (duration r)] else []) ++ success_latencies results.
Proof. unfold success_latencies. rewrite filter_cons. by destruct (decide _). Qed.

Lemma tally_results results o l :
  fold_left tally results (o, l) =
  (mk_OutcomeCounts (success o + outcomes Success results) (non_2xx o + outcomes NonSuccess results)
     (timeout o + outcomes Timeout results) (connection_error o + outcomes ConnectionError results),
   l ++ success_latencies results).
Proof.
  revert o l. induction results as [|r results IH]; intros o l.
  - cbn. rewrite !Z.add_0_r, app_nil_r. by destruct o.
  - rewrite !outcomes_cons, success_latencies_cons. cbn [fold_left]. unfold tally at 2.
    destruct (req_outcome r); rewrite IH; simpl; rewrite <- ?(assoc_L (++)); f_equal; f_equal; lia.
Qed.

Lemma outcomes_total results :
  outcomes Success results + outcomes NonSuccess results + outcomes Timeout results
  + outcomes ConnectionError results = Z.of_nat (length results).
Proof.
  induction results as [|r results IH]; [done|]. rewrite !outcomes_cons.
  destruct (req_outcome r); simpl; lia.
Qed.

(** A report counts the results of a round, each under its own outcome; its
    latencies are those of the successes, and missing exactly when there is
    none. *)
Record counts (report : LevelReport) (total : Z) (results : list RequestResult) : Prop := {
  counts_all : lr_total_requests report = total ∧ Z.of_nat (length results) = total;
  counts_each : lr_outcomes report =
    mk_OutcomeCounts (outcomes Success results) (outcomes NonSuccess results)
      (outcomes Timeout results) (outcomes ConnectionError results);
  counts_latencies :
    match lr_latency_ms report with
    | Some s => describes s (success_latencies results)
    | None => outcomes Success results = 0
    end;
}.

(** No result came before its request. *)
Definition timed (answer : nat → string → Reply * Z) : Prop := ∀ i url, 0 ≤ (answer i url).2.

Lemma success_latencies_nonneg answer urls l results :
  timed answer → results ≡ₚ omap (send_nth answer urls) l → Forall f_nonneg (success_latencies results).
Proof.
  intros Htime Hperm. unfold success_latencies. apply Forall_fmap, Forall_forall.
  intros r [_ Hr]%list_elem_of_filter. apply duration_ms_nonneg.
  rewrite Hperm in Hr. apply list_elem_of_omap in Hr as (i & _ & Hr).
  unfold send_nth in Hr. apply bind_Some in Hr as (url & _ & Hr). specialize (Htime i url).
  destruct (answer i url) as [[? [?|]|?] d]; injection Hr as <-; done.
Qed.

Lemma level_report_counts concurrency duration results :
  Forall f_nonneg (success_latencies results) → Z.of_nat (length results) < 2 ^ 32 →
  ∃ report, level_report concurrency duration results = Some report
    ∧ lr_concurrency report = concurrency ∧ counts report (Z.of_nat (length results)) results.
Proof.
  intros Hpos Hfew. unfold level_report. rewrite tally_results. simpl success. simpl non_2xx.
  simpl timeout. simpl connection_error. rewrite !Z.add_0_l, app_nil_l.
  assert (Hcount : Z.of_nat (length (success_latencies results)) = outcomes Success results)
    by (unfold success_latencies; by rewrite length_fmap).
  pose proof (outcomes_total results) as Hsum.
  assert (∀ o, 0 ≤ outcomes o results) as Hnn by (intros; apply Nat2Z.is_nonneg).
  assert (Z.of_nat (length (success_latencies results)) < 2 ^ 32) as Hlat.
  { rewrite Hcount. pose proof (Hnn NonSuccess). pose proof (Hnn Timeout).
    pose proof (Hnn ConnectionError). lia. }
  pose proof (latency_stats_describes _ Hpos Hlat) as Hst.
  destruct (latency_stats (success_latencies results)) as [[s|]|]; [| |done];
    cbn [mbind option_bind]; eexists; (split; [reflexivity|]); (split; [done|]); split; try done;
    cbn [lr_latency_ms].
  - apply Hst.
  - by rewrite <- Hcount, Hst.
Qed.

(** ** Properties: a run of the program *)

(** A round ran to its end. *)
Definition round_played (concurrency total : Z) (r : Round) : Prop :=
  timed (round_answer r)
  ∧ ∃ p, pool_run (Z.to_nat total) (Z.to_nat (Z.max concurrency 1)) pool_initial (round_schedule r) = Some p
      ∧ pool_done (Z.to_nat total) (Z.to_nat (Z.max concurrency 1)) p.

Definition level_played (c : BenchmarkConfig) (concurrency : Z) (rounds : Round * Round * Z) : Prop :=
  round_played concurrency (warmup_requests c) rounds.1.1
  ∧ round_played concurrency (requests_per_level c) rounds.1.2.

(** The report is that of the timed round, and of it alone. *)
Definition level_counted (c : BenchmarkConfig) (urls : list string) (concurrency : Z)
    (rounds : Round * Round * Z) (report : LevelReport) : Prop :=
  lr_concurrency report = concurrency
  ∧ ∃ results,
      results ≡ₚ omap (send_nth (round_answer rounds.1.2) urls) (seq 0 (Z.to_nat (requests_per_level c)))
      ∧ counts report (requests_per_level c) results.

Lemma run_round_results urls concurrency total r :
  urls ≠ [] → round_played concurrency total r →
  ∃ results, run_round urls concurrency total r = Some results
    ∧ results ≡ₚ omap (send_nth (round_answer r) urls) (seq 0 (Z.to_nat total))
    ∧ length results = Z.to_nat total.
Proof.
  intros Hurls (_ & p & Hp & Hd). unfold run_round.
  destruct (round_goes_on (round_answer r) urls Hurls _ _ _ _ Hp) as [[_ [results Hr]]|(ev & p' & Hstep)].
  - exists results. split; [done|]. eapply run_requests_all; done.
  - by rewrite (pool_done_stuck _ _ _ _ Hd) in Hstep.
Qed.

Lemma run_levels_counted c urls levels rounds :
  urls ≠ [] → 0 ≤ requests_per_level c < 2 ^ 32 → Forall2 (level_played c) levels rounds →
  ∃ reports, run_levels c urls levels rounds = Some reports
    ∧ Forall3 (level_counted c urls) levels rounds reports.
Proof.
  intros Hurls Hn. induction 1 as [|concurrency [[warm main] duration] levels rounds [Hwarm Hmain] _ IH];
    [exists []; split; [done|constructor]|].
  destruct IH as (reports & Hrun & Hall). cbn [run_levels].
  destruct (run_round_results _ _ _ _ Hurls Hwarm) as (discarded & Hdisc & _).
  destruct (run_round_results _ _ _ _ Hurls Hmain) as (results & Hres & Hperm & Hlen).
  cbn [fst snd] in Hdisc, Hres, Hperm. assert (Z.of_nat (length results) = requests_per_level c) as Hcount by lia.
  destruct (level_report_counts concurrency duration results) as (report & Hrep & Hc & Hcounts);
    [eapply success_latencies_nonneg; [apply Hmain|done]|lia|]. rewrite Hcount in Hcounts.
  exists (report :: reports). split; [|constructor; [split; [done|by exists results]|done]].
  rewrite Hdisc, Hres. destruct (0 <? warmup_requests c); cbn [mbind option_bind];
    rewrite Hrep; cbn [mbind option_bind]; by rewrite Hrun.
Qed.

Lemma fixture_store_known generate names store :
  Forall (λ name, name ∈ FIXTURES) names → ∃ store', fixture_store generate names store = Ok store'.
Proof.
  intros H. revert store. induction H as [|name names Hn _ IH]; intros store; [by eexists|].
  cbn [fixture_store]. unfold by_name. assert (List.existsb (String.eqb name) FIXTURES = true) as ->.
  { apply List.existsb_exists. exists name. split; [by apply list_elem_of_In|by apply String.eqb_eq]. }
  apply IH.
Qed.

Lemma wait_until_ready_answered attempts answers slept i :
  (slept ≤ i < slept + attempts)%nat → answers i = true → is_Some (wait_until_ready attempts answers slept).
Proof.
  revert slept. induction attempts as [|attempts IH]; intros slept Hi Ha; [lia|].
  cbn. destruct (answers slept) eqn:E; [by eexists|]. apply IH; [|done].
  assert (slept ≠ i) by congruence. lia.
Qed.

(** Every combination of fixture and size is there. *)
Lemma benchmark_urls_some hmac enc key salt c base :
  get_fixture_names c ≠ [] → get_resize_params c ≠ [] →
  ∃ urls, benchmark_urls hmac enc key salt c base = Some urls ∧ urls ≠ []
    ∧ length urls = Nat.max (length (get_fixture_names c)) (length (get_resize_params c)).
Proof.
  intros Hf Hr. unfold benchmark_urls.
  assert (∀ {A} (l : list A) i, l ≠ [] → is_Some (l !! (i mod length l)%nat)) as Hmod.
  { intros A l i Hl. apply lookup_lt_is_Some, Nat.mod_upper_bound. by destruct l. }
  match goal with |- context [mapM ?f ?l] => assert (is_Some (mapM f l)) as [urls Hurls] end.
  { apply mapM_is_Some_2, Forall_true. intros i. unfold compose. cbv beta zeta.
    destruct (Hmod _ (get_fixture_names c) i Hf) as [name ->].
    destruct (Hmod _ (get_resize_params c) i Hr) as [[w h] ->]. by eexists. }
  exists urls. split; [exact Hurls|]. apply length_mapM in Hurls. rewrite length_seq in Hurls.
  split; [|done]. intros ->. destruct (get_fixture_names c); [done|]. cbn in Hurls. lia.
Qed.

Lemma is_nil_false {A} (l : list A) : is_nil l = false → l ≠ [].
Proof. by destruct l. Qed.

(** C36. Once the program is set up - TLS provider, fixture origin, client -, a
    configuration that passes validation and names known fixtures is
    reported on to the end: one report for each concurrency level, in order,
    each counting exactly the requests of its timed round - not of the
    warm-up - by outcome. *)
Theorem benchmark_main_reports generate hmac enc key salt c out addr i :
  validate c = Ok () → 0 ≤ requests_per_level c < 2 ^ 32 →
  Forall (λ name, name ∈ FIXTURES) (get_fixture_names c) →
  provider_there out = false → environment out = Ok c →
  bound out = Ok addr → (i < 100)%nat → healthy out i = true → client_built out = Ok () →
  Forall2 (level_played c) (get_concurrency_levels c) (played out) → written out = Ok () →
  ∃ urls report,
    benchmark_urls hmac enc key salt c ("http://" +:+ addr) = Some urls
    ∧ length urls = Nat.max (length (get_fixture_names c)) (length (get_resize_params c))
    ∧ benchmark_main generate hmac enc key salt out = Some (Ok (Some report))
    ∧ Forall3 (level_counted c urls) (get_concurrency_levels c) (played out) (br_levels report).
Proof.
  intros Hv Hn Hknown Hprov Henv Haddr Hi Hready Hclient Hplayed Hw. unfold benchmark_main.
  rewrite Hprov, Henv. cbn [install_crypto_provider fst mbind result_bind]. rewrite Hv. unfold validate in Hv.
  destruct (is_nil (get_concurrency_levels c)); [done|].
  destruct (is_nil (get_fixture_names c)) eqn:Hf; [done|].
  destruct (is_nil (get_resize_params c)) eqn:Hr; [done|].
  apply is_nil_false in Hf, Hr.
  destruct (fixture_store_known generate _ ∅ Hknown) as [store ->].
  destruct (wait_until_ready_answered 100 (healthy out) 0 i ltac:(lia) Hready) as [slept Hs].
  rewrite Haddr. cbn [mbind result_bind]. rewrite Hs, Hw, Hclient. cbn [mbind result_bind ok_or map_err].
  destruct (benchmark_urls_some hmac enc key salt c ("http://" +:+ addr) Hf Hr) as (urls & -> & Hne & Hlen).
  destruct (run_levels_counted c urls _ _ Hne Hn Hplayed) as (reports & Hreports & Hall).
  cbn [mbind option_bind]. rewrite Hreports. exists urls. eexists. split; [done|]. split; [done|]. split; [done|exact Hall].
Qed.

(** ** Properties: URLs *)

(** The URL-safe alphabet without padding. *)
Definition is_base64url (a : ascii) : bool :=
  let c := code a in
  is_ascii_digit a || ((65 <=? c) && (c <=? 90)) || ((97 <=? c) && (c <=? 122)) || (c =? 45) || (c =? 95).

Lemma base64url_no c s : is_base64url c = false → str_forall is_base64url s = true → str_contains c s = false.
Proof. intros Hc Hs. by eapply str_forall_not_contains. Qed.

Lemma known_format_text ext f :
  image_format_from_str ext = Ok f →
  str_contains "." ext = false ∧ str_contains "/" ext = false ∧ str_contains ":" ext = false.
Proof.
  unfold image_format_from_str.
  repeat match goal with |- context [String.eqb ext ?t] =>
    destruct (String.eqb_spec ext t) as [->|_]; [done|]; cbn [orb] end. done.
Qed.

Lemma uint_text_no c n : is_ascii_digit c = false → 0 ≤ n → str_contains c (uint_to_string n) = false.
Proof. intros Hc Hn. by eapply str_forall_not_contains; [|apply uint_to_string_digits]. Qed.

(** A signed path behind a first segment splits where it was put together. *)
Lemma split_signed sig segments :
  str_contains "/" sig = false → Forall (λ s, str_contains "/" s = false) segments →
  join "/" segments ≠ EmptyString →
  split ("/" +:+ sig +:+ "/" +:+ join "/" segments) =
  Ok (mk_SignedRequest sig ("/" +:+ join "/" segments) segments).
Proof.
  intros Hsig Hseg Hne. apply split_spec. exists (join "/" segments). split_and!; try done.
  cbn. symmetry. apply split_join; [|done]. by intros ->.
Qed.

(** [0] is how a segment says that a dimension is not set. *)
Definition given (d : option Z) : option Z := if decide (d = Some 0) then None else d.

Lemma parse_dimension_given d seg :
  opt_valid u32_valid d → parse_dimension (uint_to_string (default 0 d)) seg = Ok (given d).
Proof.
  intros Hd. unfold parse_dimension, parse_u32.
  rewrite parse_uint_to_string by (destruct d; [exact Hd|by split; vm_compute]). cbn [ok_or mbind result_bind].
  unfold given. destruct d as [n|]; [|done]. change (default 0 (Some n)) with n. destruct (Z.eqb_spec n 0) as [->|Hn]; [done|].
  rewrite decide_False; [done|congruence].
Qed.

Section Parsed.
Context (b64_decode : string → option string).

Definition size_segment (width height : option Z) : string :=
  "rs:fill:" +:+ uint_to_string (default 0 width) +:+ ":" +:+ uint_to_string (default 0 height).

Lemma size_segment_split width height :
  opt_valid u32_valid width → opt_valid u32_valid height →
  split_on ":" (size_segment width height) =
  ["rs"; "fill"; uint_to_string (default 0 width); uint_to_string (default 0 height)].
Proof.
  intros Hw Hh. assert (∀ d, opt_valid u32_valid d → 0 ≤ default 0 d) as Hd.
  { intros [n|]; cbn; [intros [? _]|]; lia. }
  change (size_segment width height) with
    (join ":" ["rs"; "fill"; uint_to_string (default 0 width); uint_to_string (default 0 height)]).
  apply split_join; [done|].
  repeat constructor; try done; apply uint_text_no; auto.
Qed.

Lemma parse_size_segment st width height :
  opt_valid u32_valid width → opt_valid u32_valid height →
  parse_segment b64_decode st (size_segment width height) =
  Ok (st <| ps_opts := ((ps_opts st) <| po_resize_type := ResizeType.Fill |>
              <| po_width := given width |> <| po_height := given height |>) |>).
Proof.
  intros Hw Hh. unfold parse_segment, segment_code, segment_args.
  rewrite size_segment_split by done. simpl. unfold apply_option. simpl.
  rewrite !parse_dimension_given by done. reflexivity.
Qed.

Lemma parse_size_segments width height :
  opt_valid u32_valid width → opt_valid u32_valid height →
  parse b64_decode [size_segment width height; "el:0"] =
  Ok (processing_options_default <| po_resize_type := ResizeType.Fill |> <| po_width := given width |>
        <| po_height := given height |> <| po_enlarge := Some false |>).
Proof.
  intros Hw Hh. unfold parse. cbn [parse_segments]. rewrite parse_size_segment by done. reflexivity.
Qed.
End Parsed.

Section Requests.
Context (hmac_sha256 : list byte → list byte → list byte) (ct_eq : list byte → list byte → bool).
Context (b64_encode : list byte → string) (b64_decode url_decode : string → option string).
Context (parse_error_text : UrlParseError → string).
(** What the [base64] crate documents of its URL-safe engine. *)
Hypothesis b64_decode_encode : ∀ bs, b64_decode (b64_encode bs) = Some (string_of_list_byte bs).
Hypothesis b64_alphabet : ∀ bs, str_forall is_base64url (b64_encode bs) = true.

Context (base name : string) (width height : option Z) (ext : string) (format : ImageFormat).
Hypothesis width_u32 : opt_valid u32_valid width.
Hypothesis height_u32 : opt_valid u32_valid height.
Hypothesis known_format : image_format_from_str ext = Ok format.

Definition source_url_of : string := base +:+ "/fixtures/" +:+ name.

Hypothesis source_utf8 : utf8_valid source_url_of = true.

Definition segments_of : list string :=
  [size_segment width height; "el:0";
   b64_encode (list_byte_of_string source_url_of) +:+ "." +:+ ext].

Lemma segments_no_slash : Forall (λ s, str_contains "/" s = false) segments_of.
Proof.
  assert (∀ d, opt_valid u32_valid d → str_contains "/" (uint_to_string (default 0 d)) = false) as Hd.
  { intros [n|] Hn; (apply uint_text_no; [done|]); [by destruct Hn|done]. }
  destruct (known_format_text _ _ known_format) as (_ & Hslash & _).
  unfold segments_of. rewrite !Forall_cons. split_and!; [|done| |constructor].
  - unfold size_segment. by rewrite !str_contains_app, !Hd.
  - rewrite !str_contains_app, Hslash, (base64url_no "/") by done. done.
Qed.

Lemma segments_path : join "/" segments_of ≠ EmptyString.
Proof. done. Qed.

(** The path that is requested, split by the service. *)
Lemma request_path_split key salt :
  let signature :=
    match non_empty key, non_empty salt with
    | Some key, Some salt =>
        sign hmac_sha256 b64_encode (list_byte_of_string key) (list_byte_of_string salt)
          ("/" +:+ join "/" segments_of)
    | _, _ => "unsigned"
    end in
  split (request_path hmac_sha256 b64_encode key salt base name width height ext) =
  Ok (mk_SignedRequest signature ("/" +:+ join "/" segments_of) segments_of).
Proof.
  intros signature. assert (str_contains "/" signature = false) as Hsig.
  { unfold signature, sign. destruct (non_empty key), (non_empty salt); try done.
    by apply base64url_no. }
  unfold request_path. cbv zeta. fold source_url_of. fold (size_segment width height).
  assert ("/" +:+ join "/" [size_segment width height; "el:0"] +:+ "/"
          +:+ b64_encode (list_byte_of_string source_url_of) +:+ "." +:+ ext
          = "/" +:+ join "/" segments_of) as Hjoin.
  { unfold segments_of. cbn [join]. by rewrite !str_app_assoc. }
  rewrite Hjoin. fold signature. by apply split_signed, segments_path; [|apply segments_no_slash].
Qed.

(** What the service reads out of the path. *)
Definition requested : ResizeQuery :=
  resize_query_default <| rq_url := source_url_of |> <| rq_width := given width |>
    <| rq_height := given height |> <| rq_resize_type := ResizeType.Fill |> <| rq_format := format |>.

Lemma parse_segments_of sig registry allowed :
  default_preset registry = None → is_allowed allowed "rs" = true → is_allowed allowed "el" = true →
  into_resize_query <$> parse_with_config b64_decode url_decode
    (mk_SignedRequest sig ("/" +:+ join "/" segments_of) segments_of) registry allowed = Ok requested.
Proof.
  intros Hdef Hrs Hel. unfold parse_with_config. cbn [remainder_segments].
  destruct (known_format_text _ _ known_format) as (Hdot & _ & Hcolon).
  set (src := b64_encode (list_byte_of_string source_url_of) +:+ "." +:+ ext).
  assert (Hplain : src ≠ "plain").
  { intros H. assert (str_contains "." src = true) as Hin
      by (unfold src; by rewrite !str_contains_app, orb_true_r). by rewrite H in Hin. }
  assert (Hsrc : looks_like_option src = false).
  { unfold looks_like_option, src. rewrite !str_contains_app, Hcolon, (base64url_no ":") by done. done. }
  assert (Hsize : looks_like_option (size_segment width height) = true) by done.
  change segments_of with [size_segment width height; "el:0"; src].
  assert (source_index [size_segment width height; "el:0"; src] = 2%nat) as ->.
  { cbn [source_index]. rewrite Hsize, Hsrc. cbn [negb]. rewrite orb_true_r.
    assert (String.eqb (size_segment width height) "plain" = false) as -> by done. done. }
  cbn [take drop expand_segments]. 
  assert (segment_code (size_segment width height) = "rs") as ->
    by (unfold segment_code; by rewrite size_segment_split).
  change (segment_code "el:0") with "el". rewrite Hrs, Hel, Hdef. cbn [negb mbind result_bind String.eqb Ascii.eqb Bool.eqb app default].
  rewrite parse_size_segments by done. cbn [mbind result_bind].
  unfold parse_source. rewrite (proj2 (String.eqb_neq _ _) Hplain). unfold parse_base64_source.
  rewrite (proj2 (split_extension_Ok src (b64_encode (list_byte_of_string source_url_of)) format)) by (by exists ext).
  cbn [mbind result_bind ok_or]. rewrite b64_decode_encode. cbn [mbind result_bind ok_or].
  rewrite string_of_list_byte_of_string. unfold from_utf8. rewrite source_utf8. cbn [mbind result_bind ok_or].
  assert (str_is_empty source_url_of = false) as -> by (unfold source_url_of; by destruct base). reflexivity.
Qed.

(** Without keys in the environment, a service open to unsigned requests takes
    every URL of the benchmark for the fixture, size and format it was built
    from. *)
Theorem benchmark_url_admitted key salt target api accept :
  non_empty key = None ∨ non_empty salt = None →
  allow_unsigned (signing api) = true → default_preset (presets api) = None →
  is_allowed (allowed_options api) "rs" = true → is_allowed (allowed_options api) "el" = true →
  ∃ path,
    build_url hmac_sha256 b64_encode key salt target base name width height ext = target +:+ path
    ∧ admitted_query hmac_sha256 ct_eq b64_decode url_decode parse_error_text api path accept =
      Ok (requested <| rq_format := (resolve format accept).1 |>, (resolve format accept).2).
Proof.
  intros Hkeys Hopen Hdef Hrs Hel. eexists. split; [reflexivity|]. unfold admitted_query.
  rewrite request_path_split. cbn [map_err mbind result_bind].
  assert (match non_empty key, non_empty salt with
          | Some key, Some salt =>
              sign hmac_sha256 b64_encode (list_byte_of_string key) (list_byte_of_string salt)
                ("/" +:+ join "/" segments_of)
          | _, _ => "unsigned" end = "unsigned") as ->
    by (destruct Hkeys as [-> | ->]; [done|by destruct (non_empty key)]).
  unfold verify_or_reject. cbn [signature_segment String.eqb Ascii.eqb Bool.eqb]. rewrite Hopen.
  cbn [map_err mbind result_bind].
  pose proof (parse_segments_of "unsigned" (presets api) (allowed_options api) Hdef Hrs Hel) as Hp.
  apply fmap_Ok in Hp as (parsed & -> & Hq). cbn [map_err mbind result_bind]. cbv zeta. rewrite Hq.
  change (rq_format requested) with format. by destruct (resolve format accept).
Qed.

(** Constant-time comparison; the size of SHA-256, which base64 writes in 43
    characters. *)
Hypothesis ct_eq_spec : ∀ a b, length a = length b → ct_eq a b = true ↔ a = b.
Hypothesis hmac_length : ∀ key data, length (hmac_sha256 key data) = 32%nat.
Hypothesis b64_length : ∀ bs, length bs = 32%nat → String.length (b64_encode bs) ≠ 8%nat.

Lemma list_byte_length s : length (list_byte_of_string s) = String.length s.
Proof. induction s as [|a s IH]; [done|]. cbn. by f_equal. Qed.

Lemma decoded_key_shorter var raw bs :
  raw ≠ EmptyString → decode_hex_env var (Some raw) = Ok bs →
  bs ≠ list_byte_of_string raw ∧ negb (length bs =? 0)%nat = true.
Proof.
  intros Hne H. destruct (decode_hex_env_roundtrip _ _ _ H) as (_ & Hlen & _).
  destruct raw as [|a raw]; [done|]. cbn [String.length] in Hlen. split.
  - intros ->. rewrite list_byte_length in Hlen. cbn [String.length] in Hlen. lia.
  - apply negb_true_iff, Nat.eqb_neq. lia.
Qed.

(** The service reads [SIGNING_KEY] and [SIGNING_SALT] as hex, the benchmark
    takes their text: with keys in the environment its signature is made under
    other keys, and no URL of it is accepted unless the two HMACs collide. *)
Theorem benchmark_signs_under_other_keys key salt allow cfg :
  key ≠ EmptyString → salt ≠ EmptyString → signing_from_env (Some key) (Some salt) allow = Ok cfg →
  Access.key cfg ≠ list_byte_of_string key ∧ Access.salt cfg ≠ list_byte_of_string salt
  ∧ ∃ signed,
      split (request_path hmac_sha256 b64_encode (Some key) (Some salt) base name width height ext) = Ok signed
      ∧ (verify_or_reject hmac_sha256 ct_eq b64_decode cfg signed = Ok () ↔
         hmac_sha256 (list_byte_of_string key)
           (list_byte_of_string salt ++ list_byte_of_string (signed_path signed)) =
         hmac_sha256 (Access.key cfg) (Access.salt cfg ++ list_byte_of_string (signed_path signed))).
Proof.
  intros Hk Hs Hcfg. unfold signing_from_env in Hcfg.
  apply bind_Ok in Hcfg as (kb & Hkb & Hcfg). apply bind_Ok in Hcfg as (sb & Hsb & Hcfg).
  destruct (decoded_key_shorter _ _ _ Hk Hkb) as [Hkne Hkl], (decoded_key_shorter _ _ _ Hs Hsb) as [Hsne Hsl].
  cbv zeta in Hcfg. destruct (negb _ && negb _); [done|]. injection Hcfg as <-.
  cbn [Access.key Access.salt]. split_and!; [done..|].
  rewrite request_path_split. eexists. split; [reflexivity|].
  assert (∀ s, s ≠ EmptyString → non_empty (Some s) = Some s) as Hnon by (intros []; done).
  rewrite !Hnon by done. cbn [signed_path]. set (sig := sign _ _ _ _ _).
  assert (String.eqb sig "unsigned" = false) as Hsig.
  { apply String.eqb_neq. intros H. apply (b64_length _ (hmac_length (list_byte_of_string key)
      (list_byte_of_string salt ++ list_byte_of_string ("/" +:+ join "/" segments_of)))).
    change (String.length sig = 8%nat). by rewrite H. }
  unfold verify_or_reject, signing_enabled. cbn [signature_segment signed_path Access.key Access.salt].
  rewrite Hsig, Hkl, Hsl. cbn [andb negb].
  pose proof (verify_signature_spec hmac_sha256 ct_eq b64_decode ct_eq_spec kb sb ("/" +:+ join "/" segments_of) sig) as Hv.
  assert (b64_decode sig = Some (string_of_list_byte (hmac_sha256 (list_byte_of_string key)
    (list_byte_of_string salt ++ list_byte_of_string ("/" +:+ join "/" segments_of))))) as Hdec
    by apply b64_decode_encode.
  rewrite Hdec in Hv.
  destruct (verify_signature _ _ _ _ _ _ _).
  - split; [|done]. intros _. destruct (proj1 Hv eq_refl) as (raw & [= <-] & Hraw).
    by rewrite list_byte_of_string_of_list_byte in Hraw.
  - split; [done|]. intros Heq. exfalso. assert (false = true) as [=]. apply Hv.
    eexists. split; [reflexivity|]. by rewrite list_byte_of_string_of_list_byte.
Qed.
End Requests.

(** ** Instances *)

(** Hex is a text encoding with the laws asked of base64. *)
Definition hex_decode (s : string) : option string := string_of_list_byte <$> ok (decode_hex_chunks EmptyString s).

Lemma hex_decode_encode bs : hex_decode (lower_hex bs) = Some (string_of_list_byte bs).
Proof. unfold hex_decode. by rewrite decode_lower_hex. Qed.

Lemma hex_alphabet bs : str_forall is_base64url (lower_hex bs) = true.
Proof.
  assert (∀ d, 0 ≤ d < 16 → is_base64url (hex_char d) = true) as Hd.
  { intros d Hd. unfold is_base64url, is_ascii_digit, hex_char.
    destruct (Z.ltb_spec d 10); rewrite code_chr by lia.
    - destruct (Z.leb_spec 48 (48 + d)); [|lia]. destruct (Z.leb_spec (48 + d) 57); [done|lia].
    - destruct (Z.leb_spec 97 (87 + d)); [|lia]. destruct (Z.leb_spec (87 + d) 122); [|lia].
      by rewrite !orb_true_r. }
  induction bs as [|b bs IH]; [done|]. cbn [lower_hex str_forall]. pose proof (byte_val_range b).
  rewrite IH, !Hd by (apply Z.mod_pos_bound || (split; [apply Z.div_pos|apply Z.div_lt_upper_bound]); lia).
  done.
Qed.

(** As long as an HMAC, and different for different inputs of the examples. *)
Definition toy_hmac (key data : list byte) : list byte := take 32 (key ++ data ++ replicate 32 x00).

Lemma toy_hmac_length key data : length (toy_hmac key data) = 32%nat.
Proof. unfold toy_hmac. rewrite length_take, !length_app, length_replicate. lia. Qed.

(** One fixture at a width of 300, from a service open to unsigned requests. *)
Lemma benchmark_url_admitted_witness :
  ∃ path,
    build_url toy_hmac lower_hex None None "http://localhost:3000" "http://127.0.0.1:4000" "tiny" (Some 300) None
      "webp" = "http://localhost:3000" +:+ path
    ∧ admitted_query toy_hmac plain_eq hex_decode Some (λ _, "bad request") demo_api path None =
      Ok (resize_query_default <| rq_url := "http://127.0.0.1:4000/fixtures/tiny" |>
            <| rq_width := Some 300 |> <| rq_resize_type := ResizeType.Fill |>
            <| rq_format := ImageFormat.Webp |>, false).
Proof.
  destruct (benchmark_url_admitted toy_hmac plain_eq lower_hex hex_decode Some (λ _, "bad request")
    hex_decode_encode hex_alphabet "http://127.0.0.1:4000" "tiny" (Some 300) None "webp" ImageFormat.Webp
    ltac:(by split; vm_compute) I eq_refl eq_refl None None "http://localhost:3000" demo_api None
    (or_introl eq_refl) eq_refl eq_refl eq_refl eq_refl) as (path & Hurl & Hq).
  exists path. split; [exact Hurl|exact Hq].
Defined.

(** The keys of [.env.example]'s kind: the text of a key is not the key. *)
Lemma benchmark_signs_under_other_keys_witness :
  ∃ signed,
    split (request_path toy_hmac lower_hex (Some "6b6579") (Some "73616c74") "http://o" "tiny" None None "png")
      = Ok signed
    ∧ verify_or_reject toy_hmac plain_eq hex_decode
        (mk_SigningConfig (list_byte_of_string "key") (list_byte_of_string "salt") false) signed
      = Err InvalidSignature.
Proof.
  destruct (benchmark_signs_under_other_keys toy_hmac plain_eq lower_hex hex_decode hex_decode_encode hex_alphabet
    "http://o" "tiny" None None "png" ImageFormat.Png I I eq_refl plain_eq_spec toy_hmac_length
    ltac:(intros bs Hbs; rewrite lower_hex_length, Hbs; done) "6b6579" "73616c74" None
    (mk_SigningConfig (list_byte_of_string "key") (list_byte_of_string "salt") false)
    ltac:(done) ltac:(done) eq_refl) as (_ & _ & signed & Hsplit & Hiff).
  exists signed. split; [exact Hsplit|]. vm_compute in Hsplit. injection Hsplit as <-.
  destruct (verify_or_reject _ _ _ _ _) as [[]|e] eqn:Hv.
  - exfalso. pose proof (proj1 Hiff eq_refl) as Heq. vm_compute in Heq. discriminate Heq.
  - vm_compute in Hv. by injection Hv as <-.
Defined.

(** Two requests, one of which times out. *)
Definition example_round : nat → string → Reply * Z := λ i _,
  if Nat.eqb i 0 then (Responded 200 None, 1500000) else (NoResponse true, 9000000).

Definition example_config : BenchmarkConfig :=
  mk_BenchmarkConfig "localhost" 3000 "2" 2 1 "tiny" "8x8" 0 60 "jpg" "127.0.0.1" 0 "report.json".

Definition example_surroundings : Surroundings :=
  mk_Surroundings false (Ok example_config) (Ok "127.0.0.1:4000") (λ i, Nat.eqb i 3) (Ok ())
    [(mk_Round example_round [Start; Finish 0],
      mk_Round example_round [Start; Start; Finish 1; Finish 0], 10000000)] 1700000000 (Ok ()).

Lemma benchmark_main_reports_witness :
  ∃ report, benchmark_main (λ _, []) toy_hmac lower_hex None None example_surroundings
      = Some (Ok (Some report))
    ∧ Forall2 (λ n lr, lr_concurrency lr = n ∧ lr_total_requests lr = 2) [2] (br_levels report).
Proof.
  destruct (benchmark_main_reports (λ _, []) toy_hmac lower_hex None None example_config example_surroundings
    "127.0.0.1:4000" 3) as (urls & report & _ & _ & Hmain & Hall);
    [reflexivity|done|by apply Forall_singleton, list_elem_of_In; vm_compute; tauto|reflexivity..|lia|reflexivity|reflexivity| |reflexivity|].
  { apply Forall2_cons. split; [|apply Forall2_nil; done].
    split; (split; [by intros [] ?|]); vm_compute; eexists; (split; [reflexivity|]); (split; [lia|]); split; reflexivity. }
  exists report. split; [exact Hmain|]. change (get_concurrency_levels example_config) with [2] in Hall.
  inversion Hall as [|? ? ? ? lr ? (Hc & results & _ & [[Ht _] _ _]) Hrest]; subst. inversion Hrest; subst.
  repeat constructor; assumption.
Defined.
